(* ===== verification/_CoqProject ===== *)
-Q . S2P
Prelude.v
Crypto.v
Ledger.v
Messages.v
Network.v
Replica.v
Qc.v
VoteLog.v
Workload.v
Logging.v
Zk.v
Validator.v
Wiring.v
Execute.v
Handlers.v
Rules.v
Consensus.v
Process.v
Invariant.v
Steps.v
Moves.v
History.v
Settled.v
Safety.v
System.v
Liveness.v
Pacemaker.v
Integrity.v
Execution.v
Verified.v
RunWorkload.v
Generator.v
Progress.v
Replicated.v
Panics.v
NodeMain.v
Total.v
Cluster.v
Connected.v
Gaps.v
