(* ===== verification/Prelude.v ===== *)
(** * zk-stf: a verification development

    The repository measures what zero-knowledge proofs of a state transition
    function do to a consensus protocol.  Its parts:

    - [src/crates/ledger-core]: a ledger of account balances, block
      application, a Merkle root and a transaction hash;
    - [src/zkvm/program]: the guest program that is proved, and
      [src/zkvm/script]: the generator of workloads (blocks, proofs, commits);
    - [src/node/run-workload]: an offline checker of a workload;
    - [src/node/consensus-node]: a replica of Basic HotStuff that replicates a
      workload and validates each block by re-execution or by its proof.

    ** Files

    [Prelude] (this file): machine integers with their wrap-around, panics as
    values ([result] and its [let!]), byte encodings, and the iteration of
    Rust hash maps in an arbitrary order ([HashOrder]).

    [Crypto]: SHA-256 and ed25519 as interfaces with laws, and computable
    instances.  [Ledger]: ledger-core.  [Zk]: the guest program and the
    interface of the SP1 SDK.  [Messages], [Network], [Replica], [Qc],
    [Workload], [Logging], [Validator]: the modules of the same name of the
    node (messages.rs, network.rs, state.rs, consensus/qc.rs, workload.rs,
    logging.rs, validator.rs).  [Wiring], [Execute], [Handlers], [Rules], [Consensus]:
    the consensus module (mod.rs, execute.rs, handlers.rs, rules.rs) and the
    event loop of main.rs.  [NodeMain]: the rest of main.rs, up to
    [main] itself.  [Pacemaker]: timers with a due time (the [arm_timer] of
    network.rs).  [RunWorkload], [Generator]: the checker and the generator.

    The theorems about the whole are in [VoteLog] (the abstract voting rules
    of HotStuff and their safety), [Invariant] and [Safety] (the replicas
    follow these rules), [Steps] and [Moves] (one pass of the event loop as a
    sequence of small state changes), [History] and [Settled] (what a
    replica's state says about the messages it received and sent, and when
    no rule is left to fire), [System] (replicas that exchange the messages
    they send), [Liveness], [Pacemaker] and [Integrity] (what a
    replica holds is backed by verified signatures), [Process], [Execution] and [Verified] (what a
    replica computes, by re-execution and by proofs), [Progress] (execution
    order, termination, pacemaker), [Replicated] (the executed sequences of
    all replicas), [Panics] and [Total] (what can stop a node), [Cluster] (runs on computable
    instances, which are the witnesses), [Connected] (a connected cluster
    run by a scheduler) and [Gaps] (inputs that are accepted without a
    check).

    ** How the code is modelled

    A consensus operation is a function [Sys -> result Sys]: [Sys] holds the
    replica state, the live state, the chained root and the effects of the
    operation (messages sent, timers armed, validations submitted, blocks
    executed).  A panic is a value.  Integers are [Z] with wrap-around where
    the code uses [+], [-] and [*] in the release profile.  A HashMap is a
    [gmap]; where its iteration order matters the order is a parameter, and
    the theorems hold for every order.  A vote that is signed leaves a
    [Signed] effect, which only the proofs read.

    Code outside the repository is a parameter with laws: SHA-256 (the
    length of a digest; binding theorems end in an explicit collision),
    ed25519 (a signature verifies), bincode and JSON (round trips), the file
    system, SP1 (soundness and completeness of the proofs of the guest).

    ** What is proved

    - Ledger: block application refines an abstract ledger, conserves the
      supply, and the Merkle root is a reference tree that binds the
      balances it covers.
    - Certificates: [form_qc] and [verify_qc] against the set of signers.
    - Safety of consensus: the world of [Safety] runs any number of replicas
      on any messages whose signatures are not forged; its vote logs refine
      [VoteLog.honest_log], so with at most [(n - 1) / 3] faulty replicas
      decided nodes never conflict (they lie on one branch of the nodes that
      were proposed), correct replicas do not equivocate and certificates of
      a view are unique.  Three assumptions are part of the
      step relation: the key table holds the replicas' keys, no message is a
      vote in the receiver's own name ([Gaps.self_vote_unchecked] shows why),
      and views stay below the wrap-around of u64.  The system of [System],
      in which a message comes from the replica that sent it or from a faulty
      one under any name, refines this world.
    - Liveness: a view with a correct leader, whose messages arrive before a
      timeout and whose proposal is validated, decides at every correct
      replica ([Liveness.good_view_decides], on the states in which nothing
      is under way), unless a message of the view was made up in the name of
      a correct replica: the handlers do not check the sender of a message,
      and a made-up proposal fills the slot of the view
      ([Gaps.spoofed_proposal_blocks_view]).  Every view has exactly one
      timer, due its timeout after the view was entered.  [Connected.silent_leader_stalls] is a run in
      which a leader with a quorum of NEW-VIEW messages does not propose,
      because its rules were not evaluated after it entered the view.
    - Integrity: whatever a replica receives, the votes it records verify,
      the certificates it holds and sends have a verified quorum for their
      type and view, and its lock and decisions are certificates it staged.
    - Execution: a re-executing replica holds the replay of the workload, a
      verifying replica a linked chain of proved roots, and on a checked
      workload the two agree; proposals must carry the height of their
      position ([Gaps.repeated_height_diverges] shows why).  A verifying
      replica waits for the height of the parent before it checks a proof,
      and does not check that the proof is of the block it was asked about
      ([Validator.other_proof_accepted]).  Under the same
      condition the sequences of executed nodes of correct replicas are
      prefixes of each other, whatever the validators do.
    - Workloads: what the generator writes is accepted by the checker and can
      be loaded by the node; resuming is sound.
    - Network: framing and delivery on one connection, and the key and
      writer tables under every interleaving of connection tasks; dialling
      installs one connection.  Log lines can be read back.
    - Progress: blocks are executed in order, the chain walk ends, timeouts
      back off and are reset.  A node whose [main] ends has executed every
      block and counted every transaction once; a re-executing node on a
      complete workload never panics ([Total.main_never_panics]; the lemmas of
      [Panics] say which panics a pass can raise in general).

    ** Bounds and fuel

    [build_chain] has [size tree + 1] steps of fuel: a longer walk repeats a
    node, hence never ends in the code either, and is the result
    [LoopForever]; [Progress.build_chain_terminates] excludes it for trees
    without a cycle.  [extends_from] has the 100,001 iterations of the code.
    [merkle_loop] halves its layer and gets its length as fuel.  [digits] has
    20 digits, enough for a u64.  [reader] has one step per byte of its
    stream.  [count_loop] has exactly the iterations it needs.  [main_loop]
    runs on the list of arms the [select!] takes, and the network tasks on
    the results of their socket calls: both are as long as the run.

    ** What is not modelled

    vkey.rs prints the verifying key of the guest and build.rs compiles it:
    both only call the SP1 SDK.  Sockets, task spawning and elapsed times are
    not modelled, nor are the summaries the programs print, the log events of
    the handlers (apart from the execution of a block), or the partial disk a
    generator run leaves when it panics.  The generator's writes to the disk
    succeed in the model; the code panics when one fails.  The [else] arm of
    the [select!] of [main] is left out: it needs every channel closed, and
    [main] keeps a sender of two of them.  Time in [Pacemaker] is unbounded.

    ** Plan

    Still open: a fair schedule that leads to the states of [Liveness]; a
    network whose connections are those of [Network] under [System]; the
    panics of a proof-verifying node on a workload the checker accepts. *)

From Stdlib Require Import ZArith Lia.
From stdpp Require Import prelude strings gmap.

Open Scope Z_scope.

(** ** Machine integers

    A [w]-bit unsigned Rust integer is a [Z] in [[0, 2^w)].  Every binary of
    the repository is built with the release profile (sun.sh, deploy-remote.sh
    and the SP1 toolchain), in which [+] on integers wraps around. *)

Abbreviation u8_modulus := 256 (only parsing).
Abbreviation u32_modulus := 4294967296 (only parsing).
Abbreviation u64_modulus := 18446744073709551616 (only parsing).
Abbreviation i64_bound := 9223372036854775808 (only parsing).

Definition is_u8 (z : Z) : Prop := 0 <= z < u8_modulus.
Definition is_u32 (z : Z) : Prop := 0 <= z < u32_modulus.
Definition is_u64 (z : Z) : Prop := 0 <= z < u64_modulus.

Definition wrap32 (z : Z) : Z := z mod u32_modulus.
Definition wrap64 (z : Z) : Z := z mod u64_modulus.

(** [a + b] on [u32] and [u64], release profile. *)
Definition add_u32 (a b : Z) : Z := wrap32 (a + b).
Definition add_u64 (a b : Z) : Z := wrap64 (a + b).
Definition mul_u64 (a b : Z) : Z := wrap64 (a * b).
(** [a - b] on [u64], release profile. *)
Definition sub_u64 (a b : Z) : Z := wrap64 (a - b).
(** [a.saturating_sub(b)] and [a.saturating_mul(b)] on [u64]. *)
Definition saturating_sub_u64 (a b : Z) : Z := Z.max 0 (a - b).
Definition saturating_mul_u64 (a b : Z) : Z := Z.min (u64_modulus - 1) (a * b).
(** [z as i64] for a [z : u64]: two's complement reinterpretation. *)
Definition as_i64 (z : Z) : Z := if z <? i64_bound then z else z - u64_modulus.

#[global] Instance is_u8_dec z : Decision (is_u8 z).
Proof. unfold is_u8. apply _. Defined.
#[global] Instance is_u32_dec z : Decision (is_u32 z).
Proof. unfold is_u32. apply _. Defined.
#[global] Instance is_u64_dec z : Decision (is_u64 z).
Proof. unfold is_u64. apply _. Defined.

Lemma wrap32_range z : is_u32 (wrap32 z).
Proof. unfold is_u32, wrap32. apply Z.mod_pos_bound. lia. Qed.
Lemma wrap64_range z : is_u64 (wrap64 z).
Proof. unfold is_u64, wrap64. apply Z.mod_pos_bound. lia. Qed.
Lemma wrap32_id z : is_u32 z -> wrap32 z = z.
Proof. intros H. apply Z.mod_small. exact H. Qed.
Lemma wrap64_id z : is_u64 z -> wrap64 z = z.
Proof. intros H. apply Z.mod_small. exact H. Qed.

Lemma wrap64_congr z : exists q, wrap64 z = z + q * u64_modulus.
Proof.
  exists (- (z / u64_modulus)). unfold wrap64. rewrite Z.mod_eq by lia. lia.
Qed.

(** Evaluates a decidable closed proposition. *)
Ltac decide_now :=
  match goal with |- ?P => refine (@bool_decide_unpack P _ _); vm_compute; exact I end.

(** ** Results: a value or a panic

    The panics of the source are values of one type, so that a theorem can
    say which one is raised. *)

Inductive panic : Type :=
  | IndexOutOfBounds          (* v[i] past the end *)
  | RemainderByZero           (* a % 0 *)
  | OptionUnwrapNone          (* .unwrap() on None *)
  | ExpectReadCommit          (* "failed to read commit.json" *)
  | ExpectParseCommit         (* "failed to parse commit.json" *)
  | WorkloadCorruption        (* block_number differs from the directory *)
  | InvalidTxHashHex          (* hex::decode_to_slice failed *)
  | ExpectReadManifest        (* "failed to read manifest.json" *)
  | ExpectParseManifest       (* "failed to parse manifest.json" *)
  | ChainNodeMissing          (* "chain node missing" *)
  | ChainBreak                (* verify mode: pre root differs from the chain *)
  | PublicValuesRead          (* reading the public values of a proof *)
  | AssertionFailed           (* assert_eq! *)
  | ProverFailed              (* .expect on a prover call *)
  | ExpectReadFile            (* .expect on fs::read *)
  | ExpectDeserialize         (* .expect on bincode::deserialize *)
  | BindFailed                (* "failed to bind 0.0.0.0:{port}" *)
  | ExitFailure               (* std::process::exit(1) *)
  | LoopForever               (* not a panic: the loop does not terminate *).

#[global] Instance panic_eq_dec : EqDecision panic.
Proof. solve_decision. Defined.

Inductive result (A : Type) : Type :=
  | Ok (a : A)
  | Panic (p : panic).
Arguments Ok {A} a.
Arguments Panic {A} p.

Definition result_bind {A B} (c : result A) (k : A -> result B) : result B :=
  match c with Ok a => k a | Panic p => Panic p end.

Declare Scope zkstf_scope.
Delimit Scope zkstf_scope with zkstf.
Notation "'let!' x ':=' c 'in' k" := (result_bind c (fun x => k))
  (at level 10, x pattern, c at level 100, k at level 200,
   format "'[v' 'let!'  x  ':='  c  'in' '/' k ']'") : zkstf_scope.
Open Scope zkstf_scope.

Lemma result_bind_Ok {A B} (c : result A) (k : A -> result B) b :
  result_bind c k = Ok b <-> exists a, c = Ok a /\ k a = Ok b.
Proof.
  destruct c as [a|p]; simpl; split.
  - eauto.
  - by intros (? & [= ->] & ?).
  - done.
  - by intros (? & ? & ?).
Qed.

Definition is_Ok {A} (c : result A) : bool :=
  match c with Ok _ => true | Panic _ => false end.

(** [o.expect(...)], [o.unwrap()]. *)
Definition expect {A} (p : panic) (o : option A) : result A :=
  match o with Some a => Ok a | None => Panic p end.

(** [if c { eprintln!(..); std::process::exit(1); }] *)
Definition exit_if (c : bool) : result unit := if c then Panic ExitFailure else Ok tt.

Lemma expect_Ok {A} e (o : option A) a : expect e o = Ok a -> o = Some a.
Proof. destruct o; by intros [= ->]. Qed.

Lemma exit_if_Ok c u : exit_if c = Ok u -> c = false.
Proof. by destruct c. Qed.

(** Takes the next operation off a sequence that returned. *)
Ltac bind_step :=
  match goal with
  | Hr : result_bind _ _ = Ok _ |- _ =>
      let x := fresh "x" in let E := fresh "E" in
      apply result_bind_Ok in Hr as (x & E & Hr);
      try apply expect_Ok in E; try apply exit_if_Ok in E
  end.

(** ** Iterated operations over a list, stopping at the first panic. *)
Fixpoint result_fold {A S} (f : A -> S -> result S) (l : list A) (s : S) : result S :=
  match l with
  | [] => Ok s
  | a :: l => let! s' := f a s in result_fold f l s'
  end.

Lemma result_fold_preserves {A S} (P : S -> Prop) (f : A -> S -> result S) l s s' :
  (forall a s s', a ∈ l -> P s -> f a s = Ok s' -> P s') ->
  P s -> result_fold f l s = Ok s' -> P s'.
Proof.
  revert s. induction l as [|a l IH]; simpl; intros s Hf Hs; [naive_solver|].
  intros (s1 & H1 & H2)%result_bind_Ok.
  eapply (IH s1); eauto.
  - intros. eapply Hf; eauto. by constructor.
  - eapply Hf; eauto. by constructor.
Qed.

(** ** Byte strings *)

(** [z.to_le_bytes()] and [z.to_be_bytes()] of an [n]-byte integer. *)
Fixpoint le_bytes (n : nat) (z : Z) : list Z :=
  match n with
  | O => []
  | S n => z mod 256 :: le_bytes n (z / 256)
  end.
Definition be_bytes (n : nat) (z : Z) : list Z := rev (le_bytes n z).
Fixpoint le_value (bs : list Z) : Z :=
  match bs with
  | [] => 0
  | b :: bs => b + 256 * le_value bs
  end.
(** [u32::from_be_bytes]. *)
Definition be_value (bs : list Z) : Z := le_value (rev bs).

Definition is_bytes (bs : list Z) : Prop := Forall is_u8 bs.
(** A digest or public key, [[u8; 32]]. *)
Definition is_hash (h : list Z) : Prop := length h = 32%nat /\ is_bytes h.

#[global] Instance is_bytes_dec bs : Decision (is_bytes bs).
Proof. unfold is_bytes. apply _. Defined.
#[global] Instance is_hash_dec h : Decision (is_hash h).
Proof. unfold is_hash. apply _. Defined.

Lemma length_le_bytes n z : length (le_bytes n z) = n.
Proof. revert z. induction n; simpl; intros; [done|]. by rewrite IHn. Qed.

Lemma le_bytes_is_bytes n z : is_bytes (le_bytes n z).
Proof.
  revert z. induction n; intros z; simpl; constructor; [|apply IHn].
  unfold is_u8. apply Z.mod_pos_bound. lia.
Qed.

Lemma le_value_le_bytes n z : le_value (le_bytes n z) = z mod 256 ^ Z.of_nat n.
Proof.
  revert z. induction n as [|n IH]; intros z.
  { simpl. by rewrite Z.mod_1_r. }
  cbn [le_bytes le_value]. rewrite IH.
  rewrite Nat2Z.inj_succ, Z.pow_succ_r by lia.
  rewrite Z.rem_mul_r by lia. lia.
Qed.

Lemma le_bytes_inj n a b :
  0 <= a < 256 ^ Z.of_nat n -> 0 <= b < 256 ^ Z.of_nat n ->
  le_bytes n a = le_bytes n b -> a = b.
Proof.
  intros Ha Hb H. apply (f_equal le_value) in H.
  rewrite !le_value_le_bytes, !Z.mod_small in H by done. done.
Qed.

Lemma length_be_bytes n z : length (be_bytes n z) = n.
Proof. unfold be_bytes. by rewrite length_rev, length_le_bytes. Qed.

Lemma be_value_be_bytes n z : be_value (be_bytes n z) = z mod 256 ^ Z.of_nat n.
Proof. unfold be_value, be_bytes. by rewrite rev_involutive, le_value_le_bytes. Qed.

(** Two concatenations with equally long heads split. *)
Lemma app_inj_len {A} (a b c d : list A) :
  length a = length c -> a ++ b = c ++ d -> a = c /\ b = d.
Proof. apply app_inj_1. Qed.

(** ** Rust collections *)

(** Iteration over a [HashMap] or [HashSet] visits the entries in an order
    the program cannot rely on: a [HashOrder] is one choice of orders, and a
    theorem about an operation that iterates holds for every choice. *)
Class HashOrder : Type := {
  hash_iter : forall {K V : Type} `{Countable K}, gmap K V -> list (K * V);
  set_iter : forall {K : Type} `{Countable K}, gset K -> list K;
  hash_iter_perm : forall {K V : Type} `{Countable K} (m : gmap K V),
    hash_iter m ≡ₚ map_to_list m;
  set_iter_perm : forall {K : Type} `{Countable K} (X : gset K),
    set_iter X ≡ₚ elements X
}.

(** The order of the underlying tries, used to evaluate examples. *)
Definition trie_order : HashOrder := {|
  hash_iter _ _ _ _ m := map_to_list m;
  set_iter _ _ _ X := elements X;
  hash_iter_perm _ _ _ _ m := Permutation_refl _;
  set_iter_perm _ _ _ X := Permutation_refl _
|}.

Section hash_order.
Context {HO : HashOrder}.

Lemma elem_of_hash_iter {K V} `{Countable K} (m : gmap K V) k v :
  (k, v) ∈ hash_iter m <-> m !! k = Some v.
Proof. rewrite hash_iter_perm. apply elem_of_map_to_list. Qed.

Lemma NoDup_hash_iter_keys {K V} `{Countable K} (m : gmap K V) :
  NoDup (hash_iter m).*1.
Proof. rewrite hash_iter_perm. apply NoDup_fst_map_to_list. Qed.

Lemma elem_of_set_iter {K} `{Countable K} (X : gset K) k :
  k ∈ set_iter X <-> k ∈ X.
Proof. rewrite set_iter_perm. apply elem_of_elements. Qed.
End hash_order.

(** [iter.max_by_key(f)]: the last of the elements with the largest key. *)
Fixpoint max_by_key {A} (f : A -> Z) (l : list A) : option A :=
  match l with
  | [] => None
  | a :: l =>
      match max_by_key f l with
      | None => Some a
      | Some b => if f b <? f a then Some a else Some b
      end
  end.

Lemma max_by_key_elem {A} (f : A -> Z) l a : max_by_key f l = Some a -> a ∈ l.
Proof.
  revert a. induction l as [|b l IH]; simpl; intros a H; [done|].
  destruct (max_by_key f l) as [c|]; [|simplify_eq; by constructor].
  destruct (f c <? f b); simplify_eq; [by constructor|].
  apply list_elem_of_further. by apply IH.
Qed.

Lemma max_by_key_ge {A} (f : A -> Z) l a :
  max_by_key f l = Some a -> forall b, b ∈ l -> f b <= f a.
Proof.
  revert a. induction l as [|c l IH]; simpl; intros a H b Hb; [done|].
  destruct (max_by_key f l) as [d|] eqn:E.
  - destruct (Z.ltb_spec (f d) (f c)); simplify_eq;
      apply elem_of_cons in Hb as [->|Hb]; try lia;
      specialize (IH _ eq_refl _ Hb); lia.
  - simplify_eq. apply elem_of_cons in Hb as [->|Hb]; [lia|].
    destruct l as [|e l]; [by apply elem_of_nil in Hb|].
    simpl in E. destruct (max_by_key f l) as [d|]; [|done].
    by destruct (f d <? f e).
Qed.
