(* ===== verification/Crypto.v ===== *)
(** * Crypto: the third-party code the program calls, as interfaces

    The sources call [sha2], [ed25519-dalek], [bincode], [hex], [serde_json]
    and [sp1-sdk], none of which is part of the repository.  Each is a class
    of operations, with the documented behaviour the program relies on as a
    separate class of laws; the [Toy] instances at the end show that every
    set of laws can be satisfied. *)

From Stdlib Require Import ZArith Lia.
From stdpp Require Import prelude strings gmap.
From S2P Require Import Prelude.
Open Scope Z_scope.

(** ** sha2: [Sha256::new(); update(..)*; finalize()] is a function of the
    concatenation of the updates. *)
Class Sha256 : Type := sha256 : list Z -> list Z.
Class Sha256Laws `{Sha256} : Prop :=
  sha256_is_hash : forall bs, is_hash (sha256 bs).

(** Two distinct inputs with one digest. *)
Definition collision `{Sha256} (x y : list Z) : Prop :=
  x <> y /\ sha256 x = sha256 y.

(** A collision between an input of the list [xs] and one of [ys]. *)
Definition collision_in `{Sha256} (xs ys : list (list Z)) : Prop :=
  exists x y, x ∈ xs /\ y ∈ ys /\ collision x y.

Lemma sha256_inj_or `{Sha256} x y :
  sha256 x = sha256 y -> x = y \/ collision x y.
Proof. destruct (decide (x = y)); [by left|]. intros. right. done. Qed.

Lemma collision_in_mono `{Sha256} xs ys xs' ys' :
  xs ⊆ xs' -> ys ⊆ ys' -> collision_in xs ys -> collision_in xs' ys'.
Proof. intros Hx Hy (x & y & ? & ? & ?). exists x, y. eauto. Qed.

(** ** A digest that computes: the first 30 bytes of the input, padded, its
    length and the sum of its bytes. *)
Definition toy_sha256 : Sha256 := fun bs =>
  let clip := (fun b => b mod 256) <$> take 30 bs in
  clip ++ replicate (30 - length clip)%nat 0
       ++ [Z.of_nat (length bs) mod 256; foldr Z.add 0 bs mod 256].

Lemma toy_sha256_laws : @Sha256Laws toy_sha256.
Proof.
  intros bs. unfold sha256, toy_sha256. split.
  - rewrite !length_app, length_replicate, length_fmap, length_take. cbn [length]. lia.
  - assert (forall z, is_u8 (z mod 256)) as Hmod
      by (intros; apply Z.mod_pos_bound; lia).
    unfold is_bytes. rewrite !Forall_app. repeat split.
    + apply Forall_fmap, Forall_true. intros b. apply Hmod.
    + apply Forall_replicate. unfold is_u8. lia.
    + repeat constructor; apply Hmod.
Qed.

(** ** ed25519-dalek *)
Class SigScheme : Type := {
  signing_key : Type;
  verifying_key : Type;
  signature : Type;
  (** [sk.verifying_key()] *)
  verifying_key_of : signing_key -> verifying_key;
  (** [sk.sign(&bytes)] and [pk.verify(&bytes, &sig).is_ok()] *)
  sk_sign : signing_key -> list Z -> signature;
  pk_verify : verifying_key -> list Z -> signature -> bool;
  (** [sig.to_bytes().to_vec()] and [Signature::from_slice(bytes)] *)
  sig_to_bytes : signature -> list Z;
  sig_from_slice : list Z -> option signature
}.

Class SigSchemeLaws `{SigScheme} : Prop := {
  sig_from_to_bytes : forall s, sig_from_slice (sig_to_bytes s) = Some s;
  pk_verify_sign : forall sk m, pk_verify (verifying_key_of sk) m (sk_sign sk m) = true
}.

(** A scheme that computes: the signature of [m] under key [k] is [k :: m]. *)
Definition toy_sig : SigScheme := {|
  signing_key := Z;
  verifying_key := Z;
  signature := list Z;
  verifying_key_of k := k;
  sk_sign k m := k :: m;
  pk_verify k m s := bool_decide (s = k :: m);
  sig_to_bytes s := s;
  sig_from_slice s := Some s
|}.

Lemma toy_sig_laws : @SigSchemeLaws toy_sig.
Proof. split; [done|]. intros. by apply bool_decide_eq_true. Qed.
