(* ===== verification/Ledger.v ===== *)
(** * Ledger: crates/ledger-core/src/lib.rs

    The state transition function: transactions, the balance map, block
    application, the Merkle state root and the transaction-list hash. *)

From Stdlib Require Import ZArith Lia.
From stdpp Require Import prelude strings gmap.
From S2P Require Import Prelude Crypto.
Open Scope Z_scope.

(** ** Data *)

Record Tx : Type := mkTx { from : Z; to : Z; amount : Z }.

#[global] Instance Tx_eq_dec : EqDecision Tx.
Proof. solve_decision. Defined.

(** [balances : BTreeMap<u32, u64>]; the code only looks up, inserts and asks
    for the length. *)
Record State : Type := mkState { balances : gmap Z Z }.

#[global] Instance State_eq_dec : EqDecision State.
Proof. solve_decision. Defined.

Record BlockCommit : Type := mkBlockCommit {
  pre_state_root : list Z;
  post_state_root : list Z;
  tx_hash : list Z
}.

#[global] Instance BlockCommit_eq_dec : EqDecision BlockCommit.
Proof. solve_decision. Defined.

(** ** Operations *)

Definition new_state : State := mkState ∅.

Definition get_balance (s : State) (account : Z) : Z :=
  default 0 (balances s !! account).

Definition set_balance (s : State) (account amt : Z) : State :=
  mkState (<[account := amt]> (balances s)).

(** The guard of the loop body of [apply_block]. *)
Definition tx_applies (from_bal : Z) (tx : Tx) : bool :=
  (amount tx <=? from_bal) && (0 <? amount tx) && negb (from tx =? to tx).

(** The loop body of [apply_block]: the state and the [applied] counter. *)
Definition apply_tx (acc : State * Z) (tx : Tx) : State * Z :=
  let (state, applied) := acc in
  let from_bal := get_balance state (from tx) in
  if tx_applies from_bal tx then
    let state := set_balance state (from tx) (sub_u64 from_bal (amount tx)) in
    let to_bal := get_balance state (to tx) in
    let state := set_balance state (to tx) (add_u64 to_bal (amount tx)) in
    (state, add_u32 applied 1)
  else (state, applied).

Definition apply_block (state : State) (txs : list Tx) : State * Z :=
  foldl apply_tx (state, 0) txs.

(** ** Typing *)

Definition tx_ok (tx : Tx) : Prop :=
  is_u32 (from tx) /\ is_u32 (to tx) /\ is_u64 (amount tx).

Definition state_ok (s : State) : Prop :=
  map_Forall (fun a b => is_u32 a /\ is_u64 b) (balances s).

#[global] Instance tx_ok_dec tx : Decision (tx_ok tx).
Proof. unfold tx_ok. apply _. Defined.
#[global] Instance state_ok_dec s : Decision (state_ok s).
Proof. unfold state_ok. apply _. Defined.

(** ** Total supply *)

Definition supply (s : State) : Z :=
  map_fold (fun _ b acc => b + acc) 0 (balances s).

(** ** Abstract ledger: balances as a function on unbounded integers *)

(** A positive amount, covered by the sender's balance, goes to somebody
    else. *)
Definition transfers (b : Z -> Z) (tx : Tx) : Prop :=
  0 < amount tx <= b (from tx) /\ from tx <> to tx.
#[global] Instance transfers_dec b tx : Decision (transfers b tx).
Proof. unfold transfers. apply _. Defined.

Definition spec_tx (b : Z -> Z) (tx : Tx) : Z -> Z :=
  if decide (transfers b tx) then
    fun a => if a =? from tx then b a - amount tx
             else if a =? to tx then b a + amount tx
             else b a
  else b.

Definition spec_block (b : Z -> Z) (txs : list Tx) : Z -> Z := foldl spec_tx b txs.

(** How many transactions of a block the abstract ledger applies. *)
Fixpoint spec_applied (b : Z -> Z) (txs : list Tx) : Z :=
  match txs with
  | [] => 0
  | tx :: txs =>
      (if decide (transfers b tx) then 1 else 0) + spec_applied (spec_tx b tx) txs
  end.

(** ** Lemmas on single operations *)

Lemma get_set_balance s a b a' :
  get_balance (set_balance s a b) a' = if a =? a' then b else get_balance s a'.
Proof.
  unfold get_balance, set_balance; simpl. destruct (Z.eqb_spec a a') as [->|Hne].
  - by rewrite lookup_insert_eq.
  - by rewrite lookup_insert_ne.
Qed.

Lemma supply_set s a b :
  supply (set_balance s a b) = supply s - get_balance s a + b.
Proof.
  assert (forall m : gmap Z Z, m !! a = None ->
    map_fold (fun _ b acc => b + acc) 0 (<[a := b]> m) =
    b + map_fold (fun _ b acc => b + acc) 0 m) as Hins.
  { intros m Hm. rewrite map_fold_insert_L; [done|intros; lia|done]. }
  assert (map_fold (fun _ b acc => b + acc) 0 (balances s) =
    get_balance s a + map_fold (fun _ b acc => b + acc) 0 (delete a (balances s))) as Hs.
  { unfold get_balance. destruct (balances s !! a) as [v|] eqn:E; simpl.
    - rewrite <- (map_fold_delete_L (fun _ b acc => b + acc) 0 a v (balances s));
        [done|intros; lia|done].
    - rewrite delete_id by done. lia. }
  unfold supply, set_balance; simpl. rewrite <- insert_delete_eq, Hins, Hs
    by apply lookup_delete_eq. lia.
Qed.

Lemma tx_applies_spec bal tx :
  tx_applies bal tx = true <-> amount tx <= bal /\ 0 < amount tx /\ from tx <> to tx.
Proof. unfold tx_applies. rewrite !andb_true_iff, negb_true_iff. lia. Qed.

Lemma tx_applies_transfers b tx : tx_applies (b (from tx)) tx = bool_decide (transfers b tx).
Proof. apply eq_bool_prop_intro. rewrite !Is_true_true, bool_decide_eq_true, tx_applies_spec. unfold transfers. lia. Qed.

Definition nonneg (s : State) : Prop := forall a, 0 <= get_balance s a.

Lemma state_ok_nonneg s : state_ok s -> nonneg s.
Proof.
  intros H a. unfold get_balance. destruct (balances s !! a) as [v|] eqn:E; simpl; [|lia].
  destruct (H a v E) as [_ Hv]. unfold is_u64 in Hv. lia.
Qed.

Lemma get_balance_u64 s a : state_ok s -> is_u64 (get_balance s a).
Proof.
  intros H. unfold get_balance. destruct (balances s !! a) as [v|] eqn:E; simpl.
  - apply (H a v E).
  - unfold is_u64. lia.
Qed.

Lemma nonneg_set s a b : nonneg s -> 0 <= b -> nonneg (set_balance s a b).
Proof. intros H Hb a'. rewrite get_set_balance. destruct (a =? a'); auto. Qed.

Lemma supply_nonneg_state s : nonneg s -> 0 <= supply s.
Proof.
  intros H. unfold supply.
  assert (map_Forall (fun _ b => 0 <= b) (balances s)) as HF.
  { intros a b E. specialize (H a). unfold get_balance in H. by rewrite E in H. }
  clear H. revert HF.
  apply (map_fold_weak_ind (fun r m => map_Forall (fun _ b => 0 <= b) m -> 0 <= r)).
  - intros. lia.
  - intros a b m r Hm IH HF. apply map_Forall_insert in HF as [? HF]; [|done].
    specialize (IH HF). lia.
Qed.

Lemma balance_le_supply s a : nonneg s -> get_balance s a <= supply s.
Proof.
  intros H. pose proof (supply_nonneg_state _ (nonneg_set s a 0 H ltac:(lia))) as Hp.
  rewrite supply_set in Hp. lia.
Qed.

Lemma two_balances_le_supply s a b :
  nonneg s -> a <> b -> get_balance s a + get_balance s b <= supply s.
Proof.
  intros H Hne. pose proof (balance_le_supply _ b (nonneg_set s a 0 H ltac:(lia))) as Hp.
  rewrite supply_set, get_set_balance in Hp.
  destruct (Z.eqb_spec a b); [done|]. lia.
Qed.

(** The facts about one loop iteration from which the block theorems follow:
    with the supply below [2^64] neither the subtraction nor the addition
    wraps. *)
Lemma apply_tx_spec s k tx :
  nonneg s -> supply s < u64_modulus ->
  let s' := (apply_tx (s, k) tx).1 in
  nonneg s' /\ supply s' = supply s /\
  (forall a, get_balance s' a = spec_tx (get_balance s) tx a) /\
  (apply_tx (s, k) tx).2 =
    if decide (transfers (get_balance s) tx) then add_u32 k 1 else k.
Proof.
  intros Hn Hs. unfold apply_tx, spec_tx. rewrite tx_applies_transfers.
  destruct (decide (transfers (get_balance s) tx)) as [Happ|Happ];
    [rewrite bool_decide_true by done; cbn [fst snd]|by rewrite bool_decide_false].
  destruct Happ as [[Hpos Hle] Hne].
  pose proof (two_balances_le_supply s _ _ Hn Hne) as H2.
  pose proof (balance_le_supply s (from tx) Hn) as H1.
  pose proof (Hn (to tx)) as Hto.
  assert (sub_u64 (get_balance s (from tx)) (amount tx) =
    get_balance s (from tx) - amount tx) as -> by (apply wrap64_id; split; lia).
  rewrite get_set_balance. destruct (Z.eqb_spec (from tx) (to tx)); [done|].
  assert (add_u64 (get_balance s (to tx)) (amount tx) =
    get_balance s (to tx) + amount tx) as -> by (apply wrap64_id; split; lia).
  split_and!; [| | |done].
  - apply nonneg_set; [apply nonneg_set|]; auto; lia.
  - rewrite !supply_set, get_set_balance. destruct (Z.eqb_spec (from tx) (to tx)); [done|]. lia.
  - intros a. rewrite !get_set_balance, (Z.eqb_sym (to tx)), (Z.eqb_sym (from tx)).
    destruct (Z.eqb_spec a (from tx)), (Z.eqb_spec a (to tx)); subst; try done.
Qed.

Lemma transfers_ext b1 b2 tx : (forall a, b1 a = b2 a) -> transfers b1 tx <-> transfers b2 tx.
Proof. intros H. unfold transfers. by rewrite H. Qed.

Lemma spec_tx_ext b1 b2 tx :
  (forall a, b1 a = b2 a) -> forall a, spec_tx b1 tx a = spec_tx b2 tx a.
Proof.
  intros H a. unfold spec_tx. pose proof (transfers_ext b1 b2 tx H) as Hiff.
  by destruct (decide (transfers b1 tx)), (decide (transfers b2 tx)); rewrite ?H; try tauto.
Qed.

Lemma spec_block_ext txs b1 b2 :
  (forall a, b1 a = b2 a) -> forall a, spec_block b1 txs a = spec_block b2 txs a.
Proof.
  revert b1 b2. induction txs as [|tx txs IH]; intros b1 b2 H; [done|].
  apply IH, spec_tx_ext, H.
Qed.

Lemma spec_applied_ext txs b1 b2 :
  (forall a, b1 a = b2 a) -> spec_applied b1 txs = spec_applied b2 txs.
Proof.
  revert b1 b2. induction txs as [|tx txs IH]; intros b1 b2 H; [done|]; simpl.
  rewrite (IH _ _ (spec_tx_ext _ _ tx H)). pose proof (transfers_ext b1 b2 tx H).
  by destruct (decide (transfers b1 tx)), (decide (transfers b2 tx)); try tauto.
Qed.

Lemma spec_applied_bound txs b : 0 <= spec_applied b txs <= Z.of_nat (length txs).
Proof.
  revert b. induction txs as [|tx txs IH]; intros b; simpl; [lia|].
  specialize (IH (spec_tx b tx)). destruct (decide _); lia.
Qed.

(** The loop of [apply_block], from any intermediate accumulator. *)
Lemma apply_txs_spec txs s k :
  nonneg s -> supply s < u64_modulus ->
  let r := foldl apply_tx (s, k) txs in
  nonneg r.1 /\ supply r.1 = supply s /\
  (forall a, get_balance r.1 a = spec_block (get_balance s) txs a) /\
  (0 <= k -> k + Z.of_nat (length txs) < u32_modulus ->
     r.2 = k + spec_applied (get_balance s) txs).
Proof.
  revert s k. induction txs as [|tx txs IH]; intros s k Hn Hs; cbn [foldl spec_block spec_applied].
  { simpl. split_and!; auto; lia. }
  destruct (apply_tx_spec s k tx Hn Hs) as (Hn1 & Hs1 & Hb1 & Hk1).
  destruct (apply_tx (s, k) tx) as [s1 k1] eqn:E; cbn [fst snd] in *.
  destruct (IH s1 k1 Hn1 ltac:(lia)) as (Hn2 & Hs2 & Hb2 & Hk2).
  split_and!; [done|lia|..].
  - intros a. rewrite Hb2. by apply spec_block_ext.
  - intros H0 Hlen. cbn [length] in Hlen. rewrite (spec_applied_ext _ _ _ Hb1) in Hk2. subst k1.
    destruct (decide _).
    + rewrite Hk2; unfold add_u32; rewrite ?wrap32_id; unfold is_u32; lia.
    + rewrite Hk2; lia.
Qed.

(** Typing of the balance map along a block of well-typed transactions. *)
Lemma apply_txs_ok txs s k :
  state_ok s -> Forall tx_ok txs -> state_ok (foldl apply_tx (s, k) txs).1.
Proof.
  revert s k. induction txs as [|tx txs IH]; intros s k Hs Htx; [done|].
  apply Forall_cons_1 in Htx as [(Hf & Ht & _) Htx]; simpl.
  destruct (tx_applies (get_balance s (from tx)) tx); [|by apply IH].
  apply IH; [|done]. unfold state_ok, set_balance; simpl.
  apply map_Forall_insert_2; [split; [done|apply wrap64_range]|].
  apply map_Forall_insert_2; [split; [done|apply wrap64_range]|done].
Qed.

(** ** The Merkle state root *)

(** [n.next_power_of_two()]; [1] for [0]. *)
Definition next_power_of_two (n : Z) : Z := 2 ^ Z.log2_up n.

Section merkle.
Context `{Sha256}.

(** The bytes hashed into leaf [i]. *)
Definition leaf_input (s : State) (i : Z) : list Z :=
  le_bytes 4 i ++ le_bytes 8 (get_balance s i).

(** The [for pair in layer.chunks(2)] loop: an odd layer makes [pair[1]]
    panic on the last chunk. *)
Fixpoint hash_pairs (layer : list (list Z)) : result (list (list Z)) :=
  match layer with
  | [] => Ok []
  | [_] => Panic IndexOutOfBounds
  | a :: b :: rest =>
      let! next := hash_pairs rest in Ok (sha256 (a ++ b) :: next)
  end.

(** The [while layer.len() > 1] loop. *)
Fixpoint merkle_loop (fuel : nat) (layer : list (list Z)) : result (list (list Z)) :=
  match fuel with
  | O => Ok layer
  | S fuel =>
      if (length layer <=? 1)%nat then Ok layer
      else let! next := hash_pairs layer in merkle_loop fuel next
  end.

Definition num_leaves (s : State) : Z :=
  Z.max (next_power_of_two (Z.of_nat (size (balances s)))) 1.

Definition compute_state_root (s : State) : result (list Z) :=
  let n := num_leaves s in
  let layer := (fun i => sha256 (leaf_input s i)) <$> seqZ 0 (wrap32 n) in
  let! top := merkle_loop (length layer) layer in
  expect IndexOutOfBounds (head top).

(** SHA-256 hash of a transaction list. *)
Definition tx_bytes (tx : Tx) : list Z :=
  le_bytes 4 (from tx) ++ le_bytes 4 (to tx) ++ le_bytes 8 (amount tx).

Definition hash_transactions (txs : list Tx) : list Z :=
  sha256 (concat (tx_bytes <$> txs)).

(** *** Reference tree: node [j] of the level [d] above the leaves [f]. *)
Fixpoint mtree (d : nat) (f : Z -> list Z) (j : Z) : list Z :=
  match d with
  | O => f j
  | S d => sha256 (mtree d f (2 * j) ++ mtree d f (2 * j + 1))
  end.

(** Every byte string hashed below node [j] of level [d], leaves hashing
    the inputs [inp]. *)
Fixpoint mtree_inputs (d : nat) (inp : Z -> list Z) (j : Z) : list (list Z) :=
  match d with
  | O => [inp j]
  | S d =>
      (mtree d (fun i => sha256 (inp i)) (2 * j) ++
       mtree d (fun i => sha256 (inp i)) (2 * j + 1)) ::
      mtree_inputs d inp (2 * j) ++ mtree_inputs d inp (2 * j + 1)
  end.

Definition state_depth (s : State) : nat := Z.to_nat (Z.log2_up (Z.of_nat (size (balances s)))).

Definition state_inputs (s : State) : list (list Z) :=
  mtree_inputs (state_depth s) (leaf_input s) 0.

(** *** The loop computes the reference tree *)

Lemma mtree_up d f j :
  mtree d (fun i => sha256 (f (2 * i) ++ f (2 * i + 1))) j = mtree (S d) f j.
Proof.
  revert j. induction d as [|d IH]; intros j; [done|].
  cbn [mtree]. rewrite !IH. done.
Qed.

Lemma hash_pairs_seqZ f (m : nat) o :
  hash_pairs (f <$> seqZ (2 * o) (Z.of_nat (2 * m))) =
  Ok ((fun i => sha256 (f (2 * i) ++ f (2 * i + 1))) <$> seqZ o (Z.of_nat m)).
Proof.
  revert o. induction m as [|m IH]; intros o; [done|].
  rewrite (seqZ_cons (2 * o)), (seqZ_cons (Z.succ (2 * o))), (seqZ_cons o) by lia.
  replace (Z.succ (Z.succ (2 * o))) with (2 * Z.succ o) by lia.
  replace (Z.pred (Z.pred (Z.of_nat (2 * S m)))) with (Z.of_nat (2 * m)) by lia.
  replace (Z.pred (Z.of_nat (S m))) with (Z.of_nat m) by lia.
  cbn [fmap list_fmap hash_pairs]. unfold fmap in IH. rewrite IH. simpl.
  by replace (Z.succ (2 * o)) with (2 * o + 1) by lia.
Qed.

Lemma pow2_nat_ge d : (S d <= 2 ^ d)%nat.
Proof. induction d as [|d IH]; simpl; lia. Qed.

Lemma merkle_loop_mtree d f fuel :
  (d < fuel)%nat ->
  merkle_loop fuel (f <$> seqZ 0 (Z.of_nat (2 ^ d))) = Ok [mtree d f 0].
Proof.
  revert f fuel. induction d as [|d IH]; intros f [|fuel] Hf; try lia; [done|].
  cbn [merkle_loop].
  pose proof (pow2_nat_ge d).
  assert (Z.of_nat (2 ^ S d) = Z.of_nat (2 * 2 ^ d)) as -> by (simpl; lia).
  rewrite length_fmap, length_seqZ, Nat2Z.id.
  destruct (Nat.leb_spec (2 * 2 ^ d) 1); [lia|].
  change (seqZ 0) with (seqZ (2 * 0)). rewrite hash_pairs_seqZ.
  cbn [result_bind]. rewrite (IH _ fuel) by lia. by rewrite mtree_up.
Qed.

Lemma num_leaves_pow s : num_leaves s = Z.of_nat (2 ^ state_depth s).
Proof.
  unfold num_leaves, next_power_of_two, state_depth.
  rewrite Nat2Z.inj_pow, Z2Nat.id by apply Z.log2_up_nonneg.
  pose proof (Z.pow_pos_nonneg 2 (Z.log2_up (Z.of_nat (size (balances s))))
    ltac:(lia) (Z.log2_up_nonneg _)). lia.
Qed.

Lemma num_leaves_pos s : 1 <= num_leaves s.
Proof. unfold num_leaves. lia. Qed.

Lemma num_leaves_u32 s :
  Z.of_nat (size (balances s)) <= 2 ^ 31 -> is_u32 (num_leaves s).
Proof.
  intros Hs. pose proof (Z.log2_up_le_mono _ _ Hs) as Hl.
  rewrite Z.log2_up_pow2 in Hl by lia.
  unfold num_leaves, next_power_of_two, is_u32.
  pose proof (Z.pow_le_mono_r 2 _ _ ltac:(lia) Hl) as Hp.
  change (2 ^ 31) with 2147483648 in Hp. lia.
Qed.

Lemma size_le_num_leaves s : Z.of_nat (size (balances s)) <= num_leaves s.
Proof.
  unfold num_leaves, next_power_of_two.
  destruct (decide (1 < Z.of_nat (size (balances s)))) as [Hlt|]; [|lia].
  pose proof (Z.log2_up_spec _ Hlt). lia.
Qed.

Lemma compute_state_root_mtree s :
  Z.of_nat (size (balances s)) <= 2 ^ 31 ->
  compute_state_root s =
    Ok (mtree (state_depth s) (fun i => sha256 (leaf_input s i)) 0).
Proof.
  intros Hs. unfold compute_state_root.
  rewrite wrap32_id by (by apply num_leaves_u32).
  rewrite num_leaves_pow, merkle_loop_mtree; [done|].
  rewrite length_fmap, length_seqZ. pose proof (pow2_nat_ge (state_depth s)). lia.
Qed.

(** *** Binding *)

Lemma length_leaf_input s i : length (leaf_input s i) = 12%nat.
Proof. unfold leaf_input. by rewrite length_app, !length_le_bytes. Qed.

Section binding.
Context `{!Sha256Laws}.

Lemma length_mtree d inp j :
  length (mtree d (fun i => sha256 (inp i)) j) = 32%nat.
Proof. destruct d; apply sha256_is_hash. Qed.

Lemma mtree_binding d inp1 inp2 j :
  mtree d (fun i => sha256 (inp1 i)) j = mtree d (fun i => sha256 (inp2 i)) j ->
  (forall i, j * 2 ^ Z.of_nat d <= i < (j + 1) * 2 ^ Z.of_nat d -> inp1 i = inp2 i) \/
  collision_in (mtree_inputs d inp1 j) (mtree_inputs d inp2 j).
Proof.
  revert j. induction d as [|d IH]; intros j Heq.
  - simpl in Heq. apply sha256_inj_or in Heq as [Heq|Hc].
    + left. intros i Hi. replace i with j by lia. done.
    + right. exists (inp1 j), (inp2 j). simpl. set_solver.
  - cbn [mtree] in Heq. apply sha256_inj_or in Heq as [Heq|Hc].
    + apply app_inj_len in Heq as [H1 H2]; [|by rewrite !length_mtree].
      destruct (IH _ H1) as [Hl|Hc]; [destruct (IH _ H2) as [Hr|Hc]|].
      * left. intros i Hi. rewrite Nat2Z.inj_succ, Z.pow_succ_r in Hi by lia.
        destruct (decide (i < (2 * j + 1) * 2 ^ Z.of_nat d)); [apply Hl|apply Hr]; lia.
      * right. eapply collision_in_mono; [..|exact Hc]; simpl; set_solver.
      * right. eapply collision_in_mono; [..|exact Hc]; simpl; set_solver.
    + right. eexists _, _. split_and!; [..|exact Hc]; simpl; set_solver.
Qed.

(** Trees of different depths: a leaf hashes 12 bytes, a node 64. *)
Lemma mtree_depth_binding s1 s2 d k j1 j2 :
  mtree d (fun i => sha256 (leaf_input s1 i)) j1 =
  mtree (d + S k) (fun i => sha256 (leaf_input s2 i)) j2 ->
  collision_in (mtree_inputs d (leaf_input s1) j1)
               (mtree_inputs (d + S k) (leaf_input s2) j2).
Proof.
  revert j1 j2. induction d as [|d IH]; intros j1 j2 Heq.
  - cbn [mtree Nat.add] in Heq. eexists _, _.
    split_and!; [| |split; [|exact Heq]]; [simpl; set_solver..|].
    intros Hb. apply (f_equal length) in Hb.
    by rewrite length_leaf_input, length_app, !length_mtree in Hb.
  - cbn [mtree Nat.add] in Heq. apply sha256_inj_or in Heq as [Heq|Hc].
    + apply app_inj_len in Heq as [H1 _]; [|by rewrite !length_mtree].
      eapply collision_in_mono; [..|exact (IH _ _ H1)]; simpl; set_solver.
    + eexists _, _. split_and!; [..|exact Hc]; simpl; set_solver.
Qed.
End binding.
End merkle.

(** ** States up to absent accounts

    The code reads an absent account as balance [0]; two states are
    equivalent when every account reads the same. *)
#[global] Instance State_equiv : Equiv State :=
  fun s1 s2 => forall a, get_balance s1 a = get_balance s2 a.

#[global] Instance State_equivalence : Equivalence (≡@{State}).
Proof.
  split.
  - intros s a. done.
  - intros s1 s2 Heq a. by rewrite (Heq a).
  - intros s1 s2 s3 H12 H23 a. by rewrite (H12 a).
Qed.

#[global] Instance get_balance_proper : Proper ((≡) ==> (=) ==> (=)) get_balance.
Proof. intros s1 s2 Hs a ? <-. apply Hs. Qed.

#[global] Instance set_balance_proper :
  Proper ((≡) ==> (=) ==> (=) ==> (≡)) set_balance.
Proof.
  intros s1 s2 Hs a ? <- b ? <- a'. rewrite !get_set_balance. by destruct (a =? a').
Qed.

#[global] Instance apply_tx_proper :
  Proper (prod_relation (≡) (=) ==> (=) ==> prod_relation (≡) (=)) apply_tx.
Proof.
  intros [s1 k1] [s2 k2] [Hs Hk] tx ? <-. simpl in *. subst k2.
  rewrite <- (Hs (from tx)).
  destruct (tx_applies (get_balance s1 (from tx)) tx); [|done]. split; [|done]. simpl.
  intros a. by rewrite !get_set_balance, (Hs (to tx)), (Hs a).
Qed.

#[global] Instance apply_block_proper :
  Proper ((≡) ==> (=) ==> prod_relation (≡) (=)) apply_block.
Proof.
  intros s1 s2 Hs txs ? <-. unfold apply_block.
  assert (prod_relation (≡) (=) (s1, 0) (s2, 0)) as H by done.
  revert H. generalize (s1, 0) (s2, 0). induction txs as [|tx txs IH]; intros p q H; [done|].
  simpl. apply IH. by apply apply_tx_proper.
Qed.

(** ** Blocks compose *)

Lemma apply_tx_counter s k tx : (apply_tx (s, k) tx).1 = (apply_tx (s, 0) tx).1.
Proof. simpl. by destruct (tx_applies _ _). Qed.

Lemma apply_txs_counter txs s k :
  (foldl apply_tx (s, k) txs).1 = (foldl apply_tx (s, 0) txs).1.
Proof.
  revert s k. induction txs as [|tx txs IH]; intros s k; [done|]; cbn [foldl].
  pose proof (apply_tx_counter s k tx) as E.
  destruct (apply_tx (s, k) tx) as [s1 k1], (apply_tx (s, 0) tx) as [s2 k2].
  simpl in E; subst. by rewrite IH, (IH s2 k2).
Qed.

Lemma apply_block_app s t1 t2 :
  (apply_block s (t1 ++ t2)).1 = (apply_block (apply_block s t1).1 t2).1.
Proof.
  unfold apply_block. rewrite foldl_app.
  destruct (foldl apply_tx (s, 0) t1) as [s1 k1]. simpl. apply apply_txs_counter.
Qed.

(** ** Properties *)

(** The ledger used by the witnesses: two accounts. *)
Definition two_accounts : State := mkState {[ 0 := 100; 1 := 20 ]}.
Definition two_transfers : list Tx := [mkTx 0 1 30; mkTx 1 0 500; mkTx 1 1 5; mkTx 1 0 50].

(** C11: with the total supply below 2^64, [apply_block] computes exactly the
    balances of the abstract ledger on unbounded integers (neither the
    subtraction nor the wrapping addition ever wraps), and returns the number
    of transactions the abstract ledger applies. *)
Theorem apply_block_refines_spec s txs :
  state_ok s -> supply s < u64_modulus -> Z.of_nat (length txs) < u32_modulus ->
  (forall a, get_balance (apply_block s txs).1 a = spec_block (get_balance s) txs a) /\
  (apply_block s txs).2 = spec_applied (get_balance s) txs.
Proof.
  intros Hok Hs Hlen.
  destruct (apply_txs_spec txs s 0 (state_ok_nonneg _ Hok) Hs) as (_ & _ & Hb & Hk).
  split; [apply Hb|]. unfold apply_block. rewrite Hk by lia. lia.
Qed.

Lemma apply_block_refines_spec_witness :
  get_balance (apply_block two_accounts two_transfers).1 1 = 0 /\
  (apply_block two_accounts two_transfers).2 = 2.
Proof.
  assert (state_ok two_accounts) as Hok by decide_now.
  destruct (apply_block_refines_spec two_accounts two_transfers Hok
    ltac:(vm_compute; done) ltac:(vm_compute; done)) as [Hb Hk].
  split; [rewrite (Hb 1)|rewrite Hk]; vm_compute; reflexivity.
Defined.

(** C12: a block of well-typed transactions conserves the total supply and
    leaves every balance at most the supply, when the supply fits in a u64;
    the resulting map is again a map from u32 accounts to u64 balances. *)
Theorem apply_block_conserves s txs :
  state_ok s -> Forall tx_ok txs -> supply s < u64_modulus ->
  let s' := (apply_block s txs).1 in
  state_ok s' /\ supply s' = supply s /\ forall a, 0 <= get_balance s' a <= supply s.
Proof.
  intros Hok Htx Hs.
  destruct (apply_txs_spec txs s 0 (state_ok_nonneg _ Hok) Hs) as (Hn & Hs' & _).
  split_and!; [by apply apply_txs_ok|done|].
  intros a. split; [apply Hn|]. rewrite <- Hs'. by apply balance_le_supply.
Qed.

Lemma apply_block_conserves_witness :
  supply (apply_block two_accounts two_transfers).1 = 120.
Proof.
  assert (state_ok two_accounts) as Hok by decide_now.
  assert (Forall tx_ok two_transfers) as Htx by decide_now.
  destruct (apply_block_conserves two_accounts two_transfers Hok Htx
    ltac:(vm_compute; done)) as (_ & Hs & _).
  rewrite Hs. reflexivity.
Defined.

(** Without any assumption on the state or the transactions, the total
    supply is conserved modulo 2^64: wrap-around can only create or destroy
    multiples of 2^64. *)
Lemma apply_block_conserves_mod s txs :
  supply (apply_block s txs).1 mod u64_modulus = supply s mod u64_modulus.
Proof.
  unfold apply_block. generalize 0. revert s.
  induction txs as [|tx txs IH]; intros s k; [done|]. cbn [foldl].
  destruct (apply_tx (s, k) tx) as [s1 k1] eqn:E. rewrite IH.
  unfold apply_tx in E. destruct (tx_applies _ tx) eqn:Happ; [|by simplify_eq].
  apply tx_applies_spec in Happ as (_ & _ & Hne). simplify_eq.
  rewrite !supply_set, get_set_balance. destruct (Z.eqb_spec (from tx) (to tx)); [done|].
  destruct (wrap64_congr (get_balance s (from tx) - amount tx)) as [q1 H1].
  destruct (wrap64_congr (get_balance s (to tx) + amount tx)) as [q2 H2].
  unfold add_u64, sub_u64. rewrite H1, H2, <- (Z_mod_plus_full (supply s) (q1 + q2)).
  f_equal. lia.
Qed.

Section root_properties.
Context `{Sha256}.

(** C17: for at most 2^31 accounts [compute_state_root] does not panic (every
    layer it pairs is even and the final layer is not empty) and its loop
    returns the root of the reference Merkle tree over the leaves
    [SHA256(account || balance)] of the accounts [0 .. num_leaves). *)
Theorem state_root_reference s :
  Z.of_nat (size (balances s)) <= 2 ^ 31 ->
  num_leaves s = 2 ^ Z.of_nat (state_depth s) /\
  Z.of_nat (size (balances s)) <= num_leaves s /\
  compute_state_root s =
    Ok (mtree (state_depth s) (fun i => sha256 (leaf_input s i)) 0).
Proof.
  intros Hs. split_and!.
  - rewrite num_leaves_pow. by rewrite Nat2Z.inj_pow.
  - apply size_le_num_leaves.
  - by apply compute_state_root_mtree.
Qed.

(** C18: the state root binds the balances of the accounts it covers: if two
    states have the same root, then either they have the same number of
    leaves and the same balance for every covered account, or two distinct
    byte strings hashed while computing the two roots collide. *)
Theorem state_root_binding `{!Sha256Laws} s1 s2 r :
  state_ok s1 -> state_ok s2 ->
  Z.of_nat (size (balances s1)) <= 2 ^ 31 -> Z.of_nat (size (balances s2)) <= 2 ^ 31 ->
  compute_state_root s1 = Ok r -> compute_state_root s2 = Ok r ->
  (num_leaves s1 = num_leaves s2 /\
   forall a, 0 <= a < num_leaves s1 -> get_balance s1 a = get_balance s2 a) \/
  collision_in (state_inputs s1) (state_inputs s2) \/
  collision_in (state_inputs s2) (state_inputs s1).
Proof.
  intros Hok1 Hok2 Hs1 Hs2 Hr1 Hr2. rewrite compute_state_root_mtree in Hr1, Hr2 by done.
  injection Hr1 as Hr1. injection Hr2 as Hr2. rewrite <- Hr2 in Hr1. clear Hr2 r.
  unfold state_inputs. rewrite !num_leaves_pow.
  destruct (lt_eq_lt_dec (state_depth s1) (state_depth s2)) as [[Hlt|Heq]|Hlt].
  - replace (state_depth s2) with (state_depth s1 + S (state_depth s2 - state_depth s1 - 1))%nat
      in * by lia. right; left. by apply mtree_depth_binding.
  - rewrite <- Heq in *. destruct (mtree_binding _ _ _ _ Hr1) as [Hl|Hc]; [|by right; left].
    left. split; [done|]. intros a Ha. rewrite Nat2Z.inj_pow in Ha.
    specialize (Hl a ltac:(lia)).
    apply app_inj_len in Hl as [_ Hl]; [|by rewrite !length_le_bytes].
    apply le_bytes_inj in Hl; [done|by apply get_balance_u64..].
  - replace (state_depth s1) with (state_depth s2 + S (state_depth s1 - state_depth s2 - 1))%nat
      in * by lia. do 2 right. by apply mtree_depth_binding.
Qed.

(** C40: a balance of an account whose id is not below the number of leaves
    is not committed to: whatever the hash function, overwriting it leaves
    the state root unchanged (the accounts that exist need not be the
    accounts that are hashed). *)
Theorem state_root_ignores_sparse s a b :
  num_leaves s <= a -> is_Some (balances s !! a) ->
  compute_state_root (set_balance s a b) = compute_state_root s.
Proof.
  intros Ha Hin.
  assert (num_leaves (set_balance s a b) = num_leaves s) as En.
  { unfold num_leaves, set_balance; simpl. by rewrite map_size_insert_Some. }
  unfold compute_state_root. rewrite En.
  assert (((fun i => sha256 (leaf_input (set_balance s a b) i)) <$> seqZ 0 (wrap32 (num_leaves s)))
    = ((fun i => sha256 (leaf_input s i)) <$> seqZ 0 (wrap32 (num_leaves s)))) as ->; [|done].
  apply list_fmap_ext. intros _ i Hi%list_elem_of_lookup_2%elem_of_seqZ.
  unfold leaf_input. rewrite get_set_balance. destruct (Z.eqb_spec a i) as [->|]; [|done].
  pose proof (num_leaves_pos s).
  unfold wrap32 in Hi. pose proof (Z.mod_le (num_leaves s) u32_modulus). lia.
Qed.

Lemma tx_bytes_inj tx1 tx2 : tx_ok tx1 -> tx_ok tx2 -> tx_bytes tx1 = tx_bytes tx2 -> tx1 = tx2.
Proof.
  intros (Hf1 & Ht1 & Ha1) (Hf2 & Ht2 & Ha2) Heq. unfold tx_bytes in Heq.
  apply app_inj_len in Heq as [Hf Heq]; [|by rewrite !length_le_bytes].
  apply app_inj_len in Heq as [Ht Ha]; [|by rewrite !length_le_bytes].
  apply le_bytes_inj in Hf; [|done..]. apply le_bytes_inj in Ht; [|done..].
  apply le_bytes_inj in Ha; [|done..]. destruct tx1, tx2; simpl in *; congruence.
Qed.

Lemma length_tx_bytes tx : length (tx_bytes tx) = 16%nat.
Proof. unfold tx_bytes. by rewrite !length_app, !length_le_bytes. Qed.

Lemma tx_list_bytes_inj t1 t2 :
  Forall tx_ok t1 -> Forall tx_ok t2 ->
  concat (tx_bytes <$> t1) = concat (tx_bytes <$> t2) -> t1 = t2.
Proof.
  intros Ht1. revert t2. induction Ht1 as [|x1 t1 Hx1 Ht1 IH]; intros t2 Ht2 Heq;
    destruct Ht2 as [|x2 t2 Hx2 Ht2]; [done|..].
  - apply (f_equal length) in Heq. rewrite fmap_cons in Heq. cbn [concat] in Heq.
    rewrite length_app, length_tx_bytes in Heq. done.
  - apply (f_equal length) in Heq. rewrite fmap_cons in Heq. cbn [concat] in Heq.
    rewrite length_app, length_tx_bytes in Heq. done.
  - rewrite !fmap_cons in Heq. cbn [concat] in Heq. apply app_inj_len in Heq as [Hx Heq]; [|by rewrite !length_tx_bytes].
    f_equal; [by apply tx_bytes_inj|by apply IH].
Qed.

(** the transaction hash binds the transaction list: equal hashes come
    from equal lists (same length, same transactions, same order) or the
    two serialisations hashed are a collision. *)
Theorem hash_transactions_binding t1 t2 :
  Forall tx_ok t1 -> Forall tx_ok t2 ->
  hash_transactions t1 = hash_transactions t2 ->
  t1 = t2 \/ collision (concat (tx_bytes <$> t1)) (concat (tx_bytes <$> t2)).
Proof.
  intros Ht1 Ht2 Heq. destruct (sha256_inj_or _ _ Heq) as [Hb|Hc]; [|by right].
  left. by apply tx_list_bytes_inj.
Qed.
End root_properties.

Lemma state_root_reference_witness :
  @compute_state_root toy_sha256 two_accounts =
  Ok (toy_sha256 (toy_sha256 (leaf_input two_accounts 0) ++ toy_sha256 (leaf_input two_accounts 1))).
Proof.
  apply (@state_root_reference toy_sha256 two_accounts). vm_compute. discriminate.
Defined.

Lemma state_root_ignores_sparse_witness :
  @compute_state_root toy_sha256 (set_balance (mkState {[ 7 := 1 ]}) 7 2) =
  @compute_state_root toy_sha256 (mkState {[ 7 := 1 ]}).
Proof.
  apply (@state_root_ignores_sparse toy_sha256 (mkState {[ 7 := 1 ]}) 7 2).
  - vm_compute. discriminate.
  - by exists 1.
Defined.

Lemma state_root_binding_witness :
  num_leaves (mkState {[ 7 := 1 ]}) = num_leaves (mkState {[ 7 := 2 ]}) /\
  get_balance (mkState {[ 7 := 1 ]}) 0 = get_balance (mkState {[ 7 := 2 ]}) 0.
Proof.
  destruct (@state_root_binding toy_sha256 toy_sha256_laws
    (mkState {[ 7 := 1 ]}) (mkState {[ 7 := 2 ]})
    (toy_sha256 (leaf_input (mkState ∅) 0))) as [[Hn Hb]|[Hc|Hc]];
    [decide_now|decide_now|vm_compute; discriminate|vm_compute; discriminate
    |vm_compute; reflexivity|vm_compute; reflexivity|..].
  - split; [exact Hn|]. apply Hb. vm_compute. split; [discriminate|reflexivity].
  - split; vm_compute; reflexivity.
  - split; vm_compute; reflexivity.
Defined.

(** Two lists that collide under the toy digest, which ignores the order of
    the last two bytes. *)
Lemma hash_transactions_binding_witness :
  @collision toy_sha256
    (concat (tx_bytes <$> [mkTx 0 1 3; mkTx 0 1 (2 ^ 48)]))
    (concat (tx_bytes <$> [mkTx 0 1 3; mkTx 0 1 (2 ^ 56)])).
Proof.
  destruct (@hash_transactions_binding toy_sha256
    [mkTx 0 1 3; mkTx 0 1 (2 ^ 48)] [mkTx 0 1 3; mkTx 0 1 (2 ^ 56)]) as [Heq|Hc];
    [decide_now|decide_now|vm_compute; reflexivity|discriminate Heq|exact Hc].
Defined.
