(* ===== verification/Messages.v ===== *)
(** * Messages: node/consensus-node/src/messages.rs

    Wire data, tree nodes, quorum certificates and vote signatures. *)

From Stdlib Require Import ZArith Lia.
From stdpp Require Import prelude strings gmap.
From S2P Require Import Prelude Crypto.
Open Scope Z_scope.

(** ** Data *)

Inductive MsgType : Type := NewView | Prepare | PreCommit | Commit | Decide.

#[global] Instance MsgType_eq_dec : EqDecision MsgType.
Proof. solve_decision. Defined.

Definition msg_type_as_str (t : MsgType) : string :=
  match t with
  | NewView => "new_view"
  | Prepare => "prepare"
  | PreCommit => "pre_commit"
  | Commit => "commit"
  | Decide => "decide"
  end.

Record Node : Type := mkNode { parent : list Z; cmd : list Z; height : Z }.

#[global] Instance Node_eq_dec : EqDecision Node.
Proof. solve_decision. Defined.

Definition GENESIS_HASH : list Z := replicate 32 0.

Record QC : Type := mkQC {
  qc_type : MsgType;
  qc_view : Z;
  qc_node : list Z;
  qc_sigs : list (Z * list Z)
}.

#[global] Instance QC_eq_dec : EqDecision QC.
Proof. solve_decision. Defined.

Inductive Wire : Type :=
  | Hello (node_id : Z) (pubkey : list Z)
  | Proposal (view : Z) (node : Node) (justify : option QC) (sender : Z)
  | PhaseQc (msg_type : MsgType) (view : Z) (justify : QC) (sender : Z)
  | Vote (msg_type : MsgType) (view : Z) (node_hash : list Z) (voter : Z) (partial_sig : list Z)
  | NewViewMsg (view : Z) (justify : option QC) (sender : Z).

#[global] Instance Wire_eq_dec : EqDecision Wire.
Proof. solve_decision. Defined.

(** ** The Rust types: u32 ids, u64 views and heights, [u8; 32] hashes *)

Definition node_ok (n : Node) : Prop :=
  is_hash (parent n) /\ is_hash (cmd n) /\ is_u64 (height n).

#[global] Instance node_ok_dec n : Decision (node_ok n).
Proof. unfold node_ok. apply _. Defined.

Definition qc_ok (q : QC) : Prop :=
  is_u64 (qc_view q) /\ is_hash (qc_node q) /\ Forall (fun vs => is_u32 vs.1 /\ is_bytes vs.2) (qc_sigs q).

Definition justify_typed (j : option QC) : Prop := forall q, j = Some q -> qc_ok q.

Definition wire_ok (m : Wire) : Prop :=
  match m with
  | Hello i pk => is_u32 i /\ is_hash pk
  | Proposal v n j k => is_u64 v /\ node_ok n /\ justify_typed j /\ is_u32 k
  | PhaseQc _ v q k => is_u64 v /\ qc_ok q /\ is_u32 k
  | Vote _ v h i sig => is_u64 v /\ is_hash h /\ is_u32 i /\ is_bytes sig
  | NewViewMsg v j k => is_u64 v /\ justify_typed j /\ is_u32 k
  end.

(** ** bincode, at the two types the node serialises *)
Class Bincode : Type := {
  (** [bincode::serialize(&(msg_type, view, node_hash))] *)
  serialize_vote : MsgType -> Z -> list Z -> list Z;
  (** [bincode::serialize(msg)] and [bincode::deserialize(&bytes)] at [Wire] *)
  serialize_wire : Wire -> list Z;
  deserialize_wire : list Z -> option Wire
}.

Class BincodeLaws `{Bincode} : Prop :=
  deserialize_serialize_wire : forall m, wire_ok m -> deserialize_wire (serialize_wire m) = Some m.

(** ** Operations *)

Definition node_bytes (n : Node) : list Z :=
  parent n ++ cmd n ++ le_bytes 8 (height n).

Definition node_hash `{Sha256} (n : Node) : list Z := sha256 (node_bytes n).

Definition vote_digest `{Bincode} (msg_type : MsgType) (view : Z) (nh : list Z) : list Z :=
  serialize_vote msg_type view nh.

Definition sign_vote `{Bincode, SigScheme} (sk : signing_key)
    (msg_type : MsgType) (view : Z) (nh : list Z) : list Z :=
  sig_to_bytes (sk_sign sk (vote_digest msg_type view nh)).

Definition verify_vote_sig `{Bincode, SigScheme} (pk : verifying_key)
    (msg_type : MsgType) (view : Z) (nh : list Z) (sig : list Z) : bool :=
  match sig_from_slice sig with
  | Some s => pk_verify pk (vote_digest msg_type view nh) s
  | None => false
  end.

(** ** Properties *)

(** C34: a node hash binds the node: two nodes with 32-byte links and u64
    heights that have the same hash are the same node, or their encodings
    collide. *)
Theorem node_hash_binding `{Sha256} n1 n2 :
  node_ok n1 -> node_ok n2 -> node_hash n1 = node_hash n2 ->
  n1 = n2 \/ collision (node_bytes n1) (node_bytes n2).
Proof.
  intros ((Hp1 & _) & (Hc1 & _) & Hh1) ((Hp2 & _) & (Hc2 & _) & Hh2) Heq.
  destruct (sha256_inj_or _ _ Heq) as [Hb|Hc]; [|by right]. left.
  apply app_inj_len in Hb as [Hp Hb]; [|congruence].
  apply app_inj_len in Hb as [Hcmd Hh]; [|congruence].
  apply le_bytes_inj in Hh; [|done..]. destruct n1, n2; simpl in *; congruence.
Qed.

Lemma verify_sign_vote `{Bincode, SigScheme, !SigSchemeLaws} sk t v h :
  verify_vote_sig (verifying_key_of sk) t v h (sign_vote sk t v h) = true.
Proof.
  unfold verify_vote_sig, sign_vote. rewrite sig_from_to_bytes. apply pk_verify_sign.
Qed.

(** ** A codec that computes *)

#[global] Instance MsgType_countable : Countable MsgType.
Proof.
  refine (inj_countable'
    (fun t => match t with NewView => 0 | Prepare => 1 | PreCommit => 2 | Commit => 3 | Decide => 4 end)
    (fun z => match z with 0 => NewView | 1 => Prepare | 2 => PreCommit | 3 => Commit | _ => Decide end) _).
  by intros [].
Defined.

#[global] Instance Node_countable : Countable Node.
Proof.
  refine (inj_countable' (fun n => (parent n, cmd n, height n))
    (fun '(p, c, h) => mkNode p c h) _).
  by intros [].
Defined.

#[global] Instance QC_countable : Countable QC.
Proof.
  refine (inj_countable' (fun q => (qc_type q, qc_view q, qc_node q, qc_sigs q))
    (fun '(t, v, h, s) => mkQC t v h s) _).
  by intros [].
Defined.

#[global] Instance Wire_countable : Countable Wire.
Proof.
  refine (inj_countable'
    (fun m => match m with
      | Hello i k => inl (inl (i, k))
      | Proposal v n j s => inl (inr (v, n, j, s))
      | PhaseQc t v j s => inr (inl (inl (t, v, j, s)))
      | Vote t v h i s => inr (inl (inr (t, v, h, i, s)))
      | NewViewMsg v j s => inr (inr (v, j, s))
      end)
    (fun x => match x with
      | inl (inl (i, k)) => Hello i k
      | inl (inr (v, n, j, s)) => Proposal v n j s
      | inr (inl (inl (t, v, j, s))) => PhaseQc t v j s
      | inr (inl (inr (t, v, h, i, s))) => Vote t v h i s
      | inr (inr (v, j, s)) => NewViewMsg v j s
      end) _).
  by intros [].
Defined.

Definition msg_tag (t : MsgType) : Z :=
  match t with NewView => 0 | Prepare => 1 | PreCommit => 2 | Commit => 3 | Decide => 4 end.

Definition toy_bincode : Bincode := {|
  serialize_vote t v h := msg_tag t :: v :: h;
  serialize_wire m := [Zpos (encode m)];
  deserialize_wire bs := match bs with [Zpos p] => decode p | _ => None end
|}.

Lemma toy_bincode_laws : @BincodeLaws toy_bincode.
Proof. intros m _. simpl. apply decode_encode. Qed.

(** Two different nodes with one toy hash: their encodings collide. *)
Definition twin (a b : Z) : Node := mkNode (replicate 30 0 ++ [a; b]) GENESIS_HASH 5.

Lemma node_hash_binding_witness :
  twin 1 0 <> twin 0 1 /\ @node_hash toy_sha256 (twin 1 0) = @node_hash toy_sha256 (twin 0 1) /\
  @collision toy_sha256 (node_bytes (twin 1 0)) (node_bytes (twin 0 1)).
Proof.
  split; [discriminate|]. split; [reflexivity|].
  destruct (@node_hash_binding toy_sha256 (twin 1 0) (twin 0 1)) as [E|Hc];
    [decide_now|decide_now|reflexivity|discriminate E|exact Hc].
Defined.
