(* ===== verification/Network.v ===== *)
(** * Network: node/consensus-node/src/network.rs

    Framing of messages on a byte stream, the handshake, the tables of peer
    keys and writers under concurrent connections, dialling and sending.  A
    connection is its byte stream; sockets, task spawning and clocks are
    not part of the model: the listening and dialling tasks are what they do
    with the results of [accept] and [connect]. *)

From Stdlib Require Import ZArith Lia.
From stdpp Require Import prelude strings gmap.
From S2P Require Import Prelude Crypto Messages.
Open Scope Z_scope.

(** ** Framing *)

(** [std::io::Error], by kind. *)
Inductive io_error : Type := UnexpectedEof | InvalidData.

Definition io (A : Type) : Type := (A + io_error)%type.

(** The bytes [write_frame] puts on the stream; [bytes.len() as u32]
    truncates. *)
Definition write_frame (bytes : list Z) : list Z :=
  be_bytes 4 (wrap32 (Z.of_nat (length bytes))) ++ bytes.

(** [r.read_exact(&mut buf)] for a buffer of [k] bytes: the bytes and the
    rest of the stream. *)
Definition read_exact (k : nat) (stream : list Z) : io (list Z * list Z) :=
  if decide (k <= length stream)%nat then inl (take k stream, drop k stream) else inr UnexpectedEof.

Definition read_frame (stream : list Z) : io (list Z * list Z) :=
  match read_exact 4 stream with
  | inl (len_buf, stream) => read_exact (Z.to_nat (be_value len_buf)) stream
  | inr e => inr e
  end.

Section framing.
Context `{Bincode}.

Definition send_msg (m : Wire) : list Z := write_frame (serialize_wire m).

Definition recv_msg (stream : list Z) : io (Wire * list Z) :=
  match read_frame stream with
  | inl (bytes, stream) =>
      match deserialize_wire bytes with
      | Some m => inl (m, stream)
      | None => inr InvalidData
      end
  | inr e => inr e
  end.

(** The reader task: messages are forwarded to the inbox until an error.
    Every message takes at least four bytes off the stream, so the stream's
    length is enough fuel. *)
Fixpoint reader_loop (fuel : nat) (stream : list Z) : list Wire :=
  match fuel with
  | O => []
  | S fuel =>
      match recv_msg stream with
      | inl (m, stream) => m :: reader_loop fuel stream
      | inr _ => []
      end
  end.

Definition reader (stream : list Z) : list Wire := reader_loop (S (length stream)) stream.

(** The writer task: the messages of its queue, in order. *)
Definition writer (ms : list Wire) : list Z := concat (send_msg <$> ms).

(** [handshake]: what it writes, and its result on the peer's bytes. *)
Definition handshake (my_id : Z) (my_pk : list Z) (stream : list Z)
    : list Z * io ((Z * list Z) * list Z) :=
  (send_msg (Hello my_id my_pk),
   match recv_msg stream with
   | inl (Hello node_id pubkey, stream) => inl ((node_id, pubkey), stream)
   | inl (_, _) => inr InvalidData
   | inr e => inr e
   end).

(** A message of the type [Wire] whose encoding fits the u32 length prefix. *)
Definition msg_fits (m : Wire) : Prop :=
  wire_ok m /\ Z.of_nat (length (serialize_wire m)) < u32_modulus.

Lemma read_write_frame bs rest :
  Z.of_nat (length bs) < u32_modulus -> read_frame (write_frame bs ++ rest) = inl (bs, rest).
Proof.
  intros Hl. unfold read_frame, write_frame. rewrite <- app_assoc.
  set (hdr := be_bytes 4 _). assert (length hdr = 4%nat) as Hh by apply length_be_bytes.
  unfold read_exact at 1. rewrite decide_True by (rewrite length_app; lia).
  rewrite take_app_length', drop_app_length' by lia.
  unfold hdr. rewrite be_value_be_bytes. change (256 ^ Z.of_nat 4) with u32_modulus.
  rewrite wrap32_id by (unfold is_u32; lia). rewrite Z.mod_small, Nat2Z.id by lia.
  unfold read_exact. rewrite decide_True by (rewrite length_app; lia).
  by rewrite take_app_length, drop_app_length.
Qed.

Lemma read_frame_shorter stream bs rest :
  read_frame stream = inl (bs, rest) -> (length rest + 4 <= length stream)%nat.
Proof.
  unfold read_frame, read_exact. destruct (decide (4 <= length stream)%nat); [|done].
  destruct (decide _); [|done]. intros [= <- <-]. rewrite !length_drop. lia.
Qed.

Lemma recv_msg_shorter stream m rest :
  recv_msg stream = inl (m, rest) -> (length rest + 4 <= length stream)%nat.
Proof.
  unfold recv_msg. destruct (read_frame stream) as [[bs st]|] eqn:E; [|done].
  destruct (deserialize_wire bs); [|done]. intros [= <- <-]. by eapply read_frame_shorter.
Qed.

(** A truncated frame is an error, not a message. *)
Lemma read_frame_cut bs k :
  Z.of_nat (length bs) < u32_modulus -> (k < length (write_frame bs))%nat ->
  read_frame (take k (write_frame bs)) = inr UnexpectedEof.
Proof.
  intros Hl Hk. unfold write_frame in *. set (hdr := be_bytes 4 _) in *.
  assert (length hdr = 4%nat) as Hh by apply length_be_bytes. rewrite length_app in Hk.
  unfold read_frame, read_exact at 1.
  destruct (decide (4 <= length (take k (hdr ++ bs)))%nat) as [H4|]; [|done].
  rewrite length_take, length_app in H4.
  rewrite take_take, (Nat.min_l 4 k), take_app_length' by lia.
  unfold hdr at 1. rewrite be_value_be_bytes. change (256 ^ Z.of_nat 4) with u32_modulus.
  rewrite wrap32_id by (unfold is_u32; lia). rewrite Z.mod_small, Nat2Z.id by lia.
  unfold read_exact. rewrite decide_False; [done|].
  rewrite length_drop, length_take, length_app. lia.
Qed.

Section laws.
Context `{!BincodeLaws}.

Lemma recv_send_msg m rest : msg_fits m -> recv_msg (send_msg m ++ rest) = inl (m, rest).
Proof.
  intros [Hw Hm]. unfold recv_msg, send_msg. rewrite read_write_frame by done.
  by rewrite deserialize_serialize_wire.
Qed.

Lemma reader_loop_fuel f1 f2 stream :
  (length stream < f1)%nat -> (length stream < f2)%nat -> reader_loop f1 stream = reader_loop f2 stream.
Proof.
  revert f2 stream. induction f1 as [|f1 IH]; intros [|f2] stream H1 H2; [lia..|]. simpl.
  destruct (recv_msg stream) as [[m st]|] eqn:E; [|done].
  apply recv_msg_shorter in E. f_equal. apply IH; lia.
Qed.

Lemma reader_cons m rest : msg_fits m -> reader (send_msg m ++ rest) = m :: reader rest.
Proof.
  intros Hm. unfold reader at 1. cbn [reader_loop]. rewrite recv_send_msg by done. f_equal.
  apply reader_loop_fuel; [|lia]. unfold send_msg, write_frame.
  rewrite !length_app, length_be_bytes. lia.
Qed.

Lemma reader_cut m k rest :
  msg_fits m -> (k < length (send_msg m))%nat -> reader (take k (send_msg m ++ rest)) = [].
Proof.
  intros [_ Hm] Hk. rewrite take_app_le by lia. unfold reader. cbn [reader_loop]. unfold recv_msg, send_msg in *.
  by rewrite read_frame_cut.
Qed.

(** C31: a connection delivers messages in order and unchanged: whatever prefix
    of the sender's bytes arrives before the connection breaks, the reader
    task forwards exactly a prefix of the messages the writer task was given,
    and all of them when all bytes arrive; a cut frame is never delivered. *)
Theorem connection_fifo ms k :
  Forall msg_fits ms ->
  reader (writer ms) = ms /\ reader (take k (writer ms)) `prefix_of` ms.
Proof.
  intros Hms. split.
  - induction Hms as [|m ms Hm Hms IH]; [done|]. unfold writer. cbn [fmap list_fmap concat].
    rewrite reader_cons by done. f_equal. exact IH.
  - revert k. induction Hms as [|m ms Hm Hms IH]; intros k; unfold writer; cbn [fmap list_fmap concat].
    { rewrite take_nil. done. }
    destruct (decide (k < length (send_msg m))%nat) as [Hk|Hk].
    + rewrite reader_cut by done. apply prefix_nil.
    + rewrite take_app_ge by lia. rewrite reader_cons by done. apply prefix_cons, IH.
Qed.

(** A handshake tells each side the other's id and key: on the bytes the
    peer's handshake writes, [handshake] returns the peer's id and key and
    leaves the following messages on the stream; any other first message, or
    none, is an error. *)
Lemma handshake_correct i1 pk1 i2 pk2 rest :
  msg_fits (Hello i2 pk2) ->
  (handshake i1 pk1 ((handshake i2 pk2 []).1 ++ rest)).2 = inl ((i2, pk2), rest) /\
  (forall m, msg_fits m -> (forall i pk, m <> Hello i pk) ->
     (handshake i1 pk1 (send_msg m ++ rest)).2 = inr InvalidData) /\
  (handshake i1 pk1 []).2 = inr UnexpectedEof.
Proof.
  intros Hf. split_and!; cbn [handshake fst snd].
  - by rewrite recv_send_msg.
  - intros m Hm Hne. rewrite recv_send_msg by done. destruct m; try done. by destruct (Hne node_id pubkey).
  - done.
Qed.
End laws.
End framing.

Definition sample_msgs : list Wire := [Hello 1 (replicate 32 5); Vote Commit 3 (replicate 32 9) 1 [7]].

Lemma sample_msgs_fit : Forall (@msg_fits toy_bincode) sample_msgs.
Proof. repeat constructor; try decide_now; vm_compute; reflexivity. Qed.

Lemma connection_fifo_witness :
  @reader toy_bincode (@writer toy_bincode sample_msgs) = sample_msgs /\
  @reader toy_bincode (take 7 (@writer toy_bincode sample_msgs)) `prefix_of` sample_msgs.
Proof. apply (@connection_fifo toy_bincode toy_bincode_laws). exact sample_msgs_fit. Defined.

(** ** Connections *)

Section connections.
Context `{SigScheme} `{Bincode}.
(** [VerifyingKey::from_bytes] *)
Context (vk_from_bytes : list Z -> option verifying_key).
Context (my_id : Z) (my_pk : list Z).

(** The two shared tables; a writer is the queue of its writer task. *)
Record Tables : Type := mkTables {
  peer_keys : gmap Z verifying_key;
  peer_writers : gmap Z (list Wire)
}.

(** The two critical sections of [install_connection]. *)
Definition publish_key (peer_id : Z) (vk : verifying_key) (t : Tables) : Tables :=
  mkTables (<[peer_id := vk]> (peer_keys t)) (peer_writers t).

(** [None]: a duplicate, the connection is dropped. *)
Definition publish_writer (peer_id : Z) (t : Tables) : option Tables :=
  match peer_writers t !! peer_id with
  | Some _ => None
  | None => Some (mkTables (peer_keys t) (<[peer_id := []]> (peer_writers t)))
  end.

(** The end of the reader task. *)
Definition remove_writer (peer_id : Z) (t : Tables) : Tables :=
  mkTables (peer_keys t) (delete peer_id (peer_writers t)).

Definition broadcast (m : Wire) (t : Tables) : Tables :=
  mkTables (peer_keys t) ((fun q => q ++ [m]) <$> peer_writers t).

Definition send_to (peer_id : Z) (m : Wire) (t : Tables) : Tables :=
  mkTables (peer_keys t) (alter (fun q => q ++ [m]) peer_id (peer_writers t)).

(** The condition [wait_for_peers] polls. *)
Definition peers_ready (n : Z) (t : Tables) : bool :=
  wrap32 (n - 1) <=? wrap32 (Z.of_nat (size (peer_writers t))).

(** The start of [install_connection] on the bytes of a connection: the peer
    and its key; [None] is its return on a failed handshake or on bytes that
    are no key. *)
Definition greet (stream : list Z) : option (Z * verifying_key) :=
  match snd (handshake my_id my_pk stream) with
  | inl ((peer_id, peer_pk_bytes), _) => (fun peer_vk => (peer_id, peer_vk)) <$> vk_from_bytes peer_pk_bytes
  | inr _ => None
  end.

(** Where an [install_connection] task is. *)
Inductive Conn : Type :=
  | Greeted (peer_id : Z) (vk : verifying_key)
  | Keyed (peer_id : Z)
  | Live (peer_id : Z)
  | Closed.

Record Net : Type := mkNet { tables : Tables; conns : gmap nat Conn }.

(** Connection tasks run concurrently; the locks are taken one at a time. *)
Inductive net_step : Net -> Net -> Prop :=
  | net_greet t cs c stream peer_id vk :
      cs !! c = None -> greet stream = Some (peer_id, vk) ->
      net_step (mkNet t cs) (mkNet t (<[c := Greeted peer_id vk]> cs))
  | net_reject t cs c stream :
      cs !! c = None -> greet stream = None ->
      net_step (mkNet t cs) (mkNet t (<[c := Closed]> cs))
  | net_key t cs c peer_id vk :
      cs !! c = Some (Greeted peer_id vk) ->
      net_step (mkNet t cs) (mkNet (publish_key peer_id vk t) (<[c := Keyed peer_id]> cs))
  | net_writer t t' cs c peer_id :
      cs !! c = Some (Keyed peer_id) -> publish_writer peer_id t = Some t' ->
      net_step (mkNet t cs) (mkNet t' (<[c := Live peer_id]> cs))
  | net_duplicate t cs c peer_id :
      cs !! c = Some (Keyed peer_id) -> publish_writer peer_id t = None ->
      net_step (mkNet t cs) (mkNet t (<[c := Closed]> cs))
  | net_close t cs c peer_id :
      cs !! c = Some (Live peer_id) ->
      net_step (mkNet t cs) (mkNet (remove_writer peer_id t) (<[c := Closed]> cs))
  | net_broadcast t cs m : net_step (mkNet t cs) (mkNet (broadcast m t) cs)
  | net_send t cs peer_id m : net_step (mkNet t cs) (mkNet (send_to peer_id m t) cs).

(** [main] publishes its own key first. *)
Definition net_start (my_vk : verifying_key) : Net :=
  mkNet (mkTables {[ my_id := my_vk ]} ∅) ∅.

Record net_ok (N : Net) : Prop := {
  n_keys : dom (peer_writers (tables N)) ⊆ dom (peer_keys (tables N));
  n_keyed : forall c p, conns N !! c = Some (Keyed p) -> p ∈ dom (peer_keys (tables N));
  n_live : forall p, p ∈ dom (peer_writers (tables N)) <-> exists c, conns N !! c = Some (Live p);
  n_unique : forall c c' p, conns N !! c = Some (Live p) -> conns N !! c' = Some (Live p) -> c = c'
}.

(** Changing a task that is not live, to a state that is not live. *)
Lemma live_update (cs : gmap nat Conn) c y c' p :
  (forall q, cs !! c <> Some (Live q)) -> (forall q, y <> Live q) ->
  <[c := y]> cs !! c' = Some (Live p) <-> cs !! c' = Some (Live p).
Proof.
  intros Hxl Hyl. destruct (decide (c = c')) as [<-|Hne].
  - rewrite lookup_insert_eq. split; [intros [= E]; by apply Hyl in E|]. intros E. by apply Hxl in E.
  - by rewrite lookup_insert_ne.
Qed.

Lemma keyed_update (cs : gmap nat Conn) (P : Z -> Prop) c y :
  (forall p, y = Keyed p -> P p) -> (forall c p, cs !! c = Some (Keyed p) -> P p) ->
  forall c' p, <[c := y]> cs !! c' = Some (Keyed p) -> P p.
Proof.
  intros Hy Hcs c' p. destruct (decide (c = c')) as [<-|Hne].
  - rewrite lookup_insert_eq. intros [= E]. by apply Hy.
  - rewrite lookup_insert_ne by done. apply Hcs.
Qed.

(** A step of a task before its writer is published, or after it ended. *)
Lemma net_ok_offline t t' cs c y :
  net_ok (mkNet t cs) -> (forall q, cs !! c <> Some (Live q)) -> (forall q, y <> Live q) ->
  dom (peer_writers t') = dom (peer_writers t) -> dom (peer_keys t) ⊆ dom (peer_keys t') ->
  (forall p, y = Keyed p -> p ∈ dom (peer_keys t')) ->
  net_ok (mkNet t' (<[c := y]> cs)).
Proof.
  intros [Hk Hky Hl Hu] Hx Hy Hw Hd Hyk. cbn [tables conns] in *. split; cbn [tables conns].
  - rewrite Hw. set_solver.
  - apply keyed_update; [done|]. intros c' p Hc. apply Hd. by apply (Hky c').
  - intros q. rewrite Hw, Hl. apply exist_proper. intros c'. by rewrite live_update.
  - intros c1 c2 q. rewrite !live_update by done. apply Hu.
Qed.

Lemma net_ok_writer t t' cs c p :
  net_ok (mkNet t cs) -> cs !! c = Some (Keyed p) -> publish_writer p t = Some t' ->
  net_ok (mkNet t' (<[c := Live p]> cs)).
Proof.
  intros [Hk Hky Hl Hu] Hc Hw. cbn [tables conns] in *. unfold publish_writer in Hw.
  destruct (peer_writers t !! p) eqn:Ew; [done|]. injection Hw as <-.
  assert (forall c', cs !! c' <> Some (Live p)) as Hno.
  { intros c' Hc'. assert (p ∈ dom (peer_writers t)) as Hin by (apply Hl; eauto).
    by apply not_elem_of_dom in Ew. }
  split; cbn [tables conns peer_keys peer_writers].
  - rewrite dom_insert. specialize (Hky _ _ Hc). set_solver.
  - by apply keyed_update.
  - intros q. rewrite dom_insert, elem_of_union, elem_of_singleton, Hl. split.
    + intros [->|[c' Hc']]; [exists c; by rewrite lookup_insert_eq|].
      exists c'. rewrite lookup_insert_ne; [done|]. intros ->. congruence.
    + intros [c' [[<- [= ->]]|[_ Hc']]%lookup_insert_Some]; eauto.
  - intros c1 c2 q [[<- [= <-]]|[_ H1]]%lookup_insert_Some [[<- E2]|[_ H2]]%lookup_insert_Some;
      [done|by apply Hno in H2|injection E2 as <-; by apply Hno in H1|by eapply Hu].
Qed.

Lemma net_ok_close t cs c p :
  net_ok (mkNet t cs) -> cs !! c = Some (Live p) ->
  net_ok (mkNet (remove_writer p t) (<[c := Closed]> cs)).
Proof.
  intros [Hk Hky Hl Hu] Hc. cbn [tables conns] in *. split; cbn [tables conns remove_writer peer_keys peer_writers].
  - rewrite dom_delete. set_solver.
  - by apply keyed_update.
  - intros q. rewrite dom_delete, elem_of_difference, elem_of_singleton, Hl. split.
    + intros [[c' Hc'] Hne]. exists c'. rewrite lookup_insert_ne; [done|]. intros ->. congruence.
    + intros [c' [[_ ?]|[Hne Hc']]%lookup_insert_Some]; [done|]. split; [eauto|].
      intros ->. by destruct (Hne (Hu c c' p Hc Hc')).
  - intros c1 c2 q [[_ ?]|[_ H1]]%lookup_insert_Some [[_ ?]|[_ H2]]%lookup_insert_Some;
      [done..|by eapply Hu].
Qed.

(** Sending changes the queues only. *)
Lemma net_ok_dom t t' cs :
  dom (peer_writers t') = dom (peer_writers t) -> peer_keys t' = peer_keys t ->
  net_ok (mkNet t cs) -> net_ok (mkNet t' cs).
Proof.
  intros Hw Hk []. split; cbn [tables conns] in *; rewrite ?Hk, ?Hw; done.
Qed.

Lemma net_step_ok N N' : net_ok N -> net_step N N' -> net_ok N'.
Proof.
  intros HN Hs. revert HN. destruct Hs as [t cs c bs p vk Hc _|t cs c bs Hc _|t cs c p vk Hc|t t' cs c p Hc Hw
    |t cs c p Hc Hw|t cs c p Hc|t cs m|t cs p m]; intros HN.
  1, 2: eapply net_ok_offline; [exact HN|by rewrite Hc|done|done|done|done].
  - eapply net_ok_offline; [exact HN|by rewrite Hc|done|done|..]; cbn.
    + rewrite dom_insert. set_solver.
    + intros q [= <-]. rewrite dom_insert. set_solver.
  - by eapply net_ok_writer.
  - eapply net_ok_offline; [exact HN|by rewrite Hc|done|done|done|done].
  - by apply net_ok_close.
  - eapply net_ok_dom, HN; [apply dom_fmap_L|done].
  - eapply net_ok_dom, HN; [apply dom_alter_L|done].
Qed.

Lemma net_reachable_ok my_vk N : rtc net_step (net_start my_vk) N -> net_ok N.
Proof.
  intros Hr. assert (net_ok (net_start my_vk)) as Hstart.
  { split; cbn; [set_solver|done|..|done]. intros p. rewrite dom_empty. split; [set_solver|].
    intros [c Hc]. by rewrite lookup_empty in Hc. }
  induction Hr; eauto using net_step_ok.
Qed.

(** C33: the connection tables stay consistent under every interleaving of
    accepting, dialling, closing and sending: a peer with a writer has a
    published key (so no message of it can arrive before its key is known),
    a peer has a writer exactly when it has a live connection, and it has at
    most one. *)
Theorem connection_tables_ok my_vk N :
  rtc net_step (net_start my_vk) N ->
  (forall p, is_Some (peer_writers (tables N) !! p) -> is_Some (peer_keys (tables N) !! p)) /\
  (forall p, is_Some (peer_writers (tables N) !! p) <-> exists c, conns N !! c = Some (Live p)) /\
  (forall c c' p, conns N !! c = Some (Live p) -> conns N !! c' = Some (Live p) -> c = c').
Proof.
  intros [Hk _ Hl Hu]%net_reachable_ok. split_and!; [|..|done].
  - intros p. rewrite <- !elem_of_dom. apply Hk.
  - intros p. rewrite <- elem_of_dom. apply Hl.
Qed.

(** C39: a second connection that claims the id of a connected peer is dropped,
    but not before its key has replaced the peer's key in the table: in every
    reachable network with a live connection of [p], the steps of a new
    connection whose greeting names [p] and any key [vk] end with the
    connection closed, the connection and the writer of [p] as before, and
    [vk] as the key of [p], against which its votes are checked from then on;
    and a greeted connection has no step that drops it before its key is
    published. *)
Theorem duplicate_hello_replaces_key my_vk N c0 c p vk stream :
  rtc net_step (net_start my_vk) N ->
  conns N !! c0 = Some (Live p) -> conns N !! c = None -> greet stream = Some (p, vk) ->
  (exists N1 N2 N3, net_step N N1 /\ net_step N1 N2 /\ net_step N2 N3 /\
     conns N1 !! c = Some (Greeted p vk) /\ conns N3 !! c = Some Closed /\
     conns N3 !! c0 = Some (Live p) /\ peer_writers (tables N3) = peer_writers (tables N) /\
     peer_keys (tables N3) !! p = Some vk) /\
  (forall M M', conns M !! c = Some (Greeted p vk) -> net_step M M' ->
     conns M' !! c = Some (Greeted p vk) \/
     conns M' !! c = Some (Keyed p) /\ peer_keys (tables M') !! p = Some vk).
Proof.
  intros Hr Hlive Hfree Hg. assert (c <> c0) as Hne by congruence. split.
  - assert (is_Some (peer_writers (tables N) !! p)) as [q Hq].
    { apply elem_of_dom, (n_live _ (net_reachable_ok _ _ Hr)). by exists c0. }
    destruct N as [t cs]; cbn in *.
    eexists _, _, _. split; [by eapply net_greet|]. split; [eapply net_key; by rewrite lookup_insert_eq|].
    split; [eapply net_duplicate; [by rewrite lookup_insert_eq|]; unfold publish_writer; cbn; by rewrite Hq|].
    cbn. rewrite !lookup_insert_eq, !(lookup_insert_ne _ c c0) by done. done.
  - intros M M' Hc Hs. destruct Hs as [t cs c' ? ? ? Hn|t cs c' ? Hn|t cs c' p' vk' Hn|t t' cs c' ? Hn|t cs c' ? Hn
      |t cs c' ? Hn|t cs|t cs]; cbn in *; try (by left).
    all: destruct (decide (c' = c)) as [->|]; [|left; by rewrite lookup_insert_ne].
    all: simplify_eq. right. by rewrite !lookup_insert_eq.
Qed.

(** A broadcast reaches every connected peer once, a directed message
    only its addressee, each at the end of the peer's queue; a message to a
    peer that is not connected is dropped. *)
Lemma sends_append m p t r :
  peer_writers (broadcast m t) !! r = (fun q => q ++ [m]) <$> (peer_writers t !! r) /\
  peer_writers (send_to p m t) !! r =
    (if decide (p = r) then (fun q => q ++ [m]) <$> (peer_writers t !! r) else peer_writers t !! r) /\
  peer_keys (broadcast m t) = peer_keys t /\ peer_keys (send_to p m t) = peer_keys t.
Proof.
  split_and!; [apply lookup_fmap| |done|done]. unfold send_to. cbn.
  destruct (decide (p = r)) as [->|Hne]; [by rewrite lookup_alter_eq|by rewrite lookup_alter_ne].
Qed.
End connections.

Lemma connection_tables_ok_witness :
  is_Some (@peer_keys toy_sig (tables (mkNet (mkTables {[ 1 := 7; 0 := 5 ]} {[ 1 := [] ]}) {[ 4%nat := Live 1 ]})) !! 1).
Proof.
  apply (@connection_tables_ok toy_sig toy_bincode (fun bs => head bs) 0 (replicate 32 5) 5
    (mkNet (mkTables {[ 1 := 7; 0 := 5 ]} {[ 1 := [] ]}) {[ 4%nat := Live 1 ]})); [|by eexists].
  eapply rtc_l; [by apply (@net_greet toy_sig toy_bincode _ _ _ _ _ 4%nat (@send_msg toy_bincode (Hello 1 (replicate 32 7))) 1 7)|].
  eapply rtc_l; [by apply (@net_key toy_sig toy_bincode _ _ _ _ _ 4%nat 1 7)|].
  eapply rtc_l; [by eapply (@net_writer toy_sig toy_bincode _ _ _ _ _ _ 4%nat 1)|].
  apply reflexive_eq. vm_compute. reflexivity.
Defined.

(** Peer 1 is connected with key 7; a newcomer greets as peer 1 with key 9. *)
Lemma duplicate_hello_replaces_key_witness :
  exists N3, conns N3 !! 4%nat = Some (Live 1) /\ conns N3 !! 5%nat = Some Closed /\
    @peer_keys toy_sig (tables N3) !! 1 = Some 9.
Proof.
  destruct (@duplicate_hello_replaces_key toy_sig toy_bincode (fun bs => head bs) 0 (replicate 32 5) 5
    (mkNet (mkTables {[ 1 := 7; 0 := 5 ]} {[ 1 := [] ]}) {[ 4%nat := Live 1 ]}) 4 5 1 9
    (@send_msg toy_bincode (Hello 1 (replicate 32 9)))) as [(N1 & N2 & N3 & _ & _ & _ & _ & Hc & Hl & _ & Hk) _].
  - eapply rtc_l; [by apply (@net_greet toy_sig toy_bincode _ _ _ _ _ 4%nat (@send_msg toy_bincode (Hello 1 (replicate 32 7))) 1 7)|].
    eapply rtc_l; [by apply (@net_key toy_sig toy_bincode _ _ _ _ _ 4%nat 1 7)|].
    eapply rtc_l; [by eapply (@net_writer toy_sig toy_bincode _ _ _ _ _ _ 4%nat 1)|].
    apply reflexive_eq. vm_compute. reflexivity.
  - reflexivity.
  - reflexivity.
  - vm_compute. reflexivity.
  - exists N3. split; [exact Hl|]. split; [exact Hc|exact Hk].
Defined.

(** ** Listening and dialling *)

(** What the two tasks do with a socket: install the connection (a spawned
    task for an accepted one) or sleep. *)
Inductive Task : Type :=
  | Install (conn : nat)
  | Sleep (ms : Z).

(** [listen_task] over the results of [accept()], after [bind]; [None] is an
    accept error. *)
Definition listen_task (bound : bool) (accepts : list (option nat)) : result (list Task) :=
  if bound then
    Ok ((fun a => match a with Some conn => Install conn | None => Sleep 200 end) <$> accepts)
  else Panic BindFailed.

(** The loop of [dial_task] over the results of [connect()]; it returns after
    the first connection. *)
Fixpoint dial_loop (backoff_ms : Z) (connects : list (option nat)) : list Task :=
  match connects with
  | [] => []
  | Some conn :: _ => [Install conn]
  | None :: connects => Sleep backoff_ms :: dial_loop (Z.min (mul_u64 backoff_ms 2) 2000) connects
  end.

Definition dial_task (connects : list (option nat)) : list Task := dial_loop 200 connects.

(** The delay after [k] failures. *)
Definition dial_backoff (k : nat) : Z := Z.min 2000 (200 * 2 ^ Z.of_nat k).

Lemma dial_backoff_next k : Z.min (mul_u64 (dial_backoff k) 2) 2000 = dial_backoff (S k).
Proof.
  unfold dial_backoff, mul_u64. pose proof (Z.pow_pos_nonneg 2 (Z.of_nat k) ltac:(lia) ltac:(lia)).
  rewrite wrap64_id by (unfold is_u64; lia). rewrite Nat2Z.inj_succ, Z.pow_succ_r by lia. lia.
Qed.

Lemma dial_loop_failures j k connects :
  dial_loop (dial_backoff j) (replicate k None ++ connects) =
  ((fun i => Sleep (dial_backoff i)) <$> seq j k) ++ dial_loop (dial_backoff (j + k)) connects.
Proof.
  revert j. induction k as [|k IH]; intros j; [by rewrite Nat.add_0_r|].
  cbn [replicate app dial_loop seq]. rewrite dial_backoff_next, IH, fmap_cons. cbn [app].
  by replace (S j + k)%nat with (j + S k)%nat by lia.
Qed.

(** Dialling a peer that is not up yet: after [k] failures, with delays that
    double from 200 ms to at most 2 s, the first connection is installed and
    no other is ever tried; while every attempt fails it keeps trying. *)
Lemma dial_task_installs_once k conn connects :
  dial_task (replicate k None ++ Some conn :: connects) =
    ((fun i => Sleep (dial_backoff i)) <$> seq 0 k) ++ [Install conn] /\
  dial_task (replicate k None) = (fun i => Sleep (dial_backoff i)) <$> seq 0 k.
Proof.
  unfold dial_task. split; [apply (dial_loop_failures 0 k (Some conn :: connects))|].
  rewrite <- (app_nil_r (replicate k None)), <- (app_nil_r (_ <$> _)). apply (dial_loop_failures 0 k []).
Qed.
