(* ===== verification/Replica.v ===== *)
(** * Replica: node/consensus-node/src/state.rs

    The per-replica consensus state, the leader schedule and the SafeNode
    predicate. *)

From Stdlib Require Import ZArith Lia.
From stdpp Require Import prelude strings gmap.
From S2P Require Import Prelude Crypto Ledger Messages.
Open Scope Z_scope.

(** ** Data *)

Record TimerEvent : Type := mkTimerEvent { timer_view : Z }.

Record ViewData : Type := mkViewData {
  proposal : option (Node * option QC);
  voted_prepare : bool;
  voted_precommit : bool;
  voted_commit : bool;
  seen_pre_commit_qc : bool;
  seen_commit_qc : bool;
  seen_decide_qc : bool;
  new_view_msgs : gmap Z (option QC);
  prepare_votes : gmap Z (list Z * list Z);
  precommit_votes : gmap Z (list Z * list Z);
  commit_votes : gmap Z (list Z * list Z);
  broadcast_proposal : bool;
  broadcast_pre_commit : bool;
  broadcast_commit : bool;
  broadcast_decide : bool
}.

(** [ViewData::default()] *)
Definition default_view_data : ViewData :=
  mkViewData None false false false false false false ∅ ∅ ∅ ∅ false false false false.

Record ReplicaState : Type := mkReplicaState {
  n_replicas : Z;
  quorum : Z;
  view : Z;
  locked_qc : option QC;
  prepare_qc : option QC;
  last_executed_height : Z;
  view_data : gmap Z ViewData;
  tree : gmap (list Z) Node;
  validation_result : gmap (list Z) bool;
  pending_validation : option (list Z);
  post_state_by_node : gmap (list Z) State;
  post_root_by_node : gmap (list Z) (list Z);
  pre_root_by_node : gmap (list Z) (list Z);
  decided_nodes : gset (list Z);
  staged_pre_commit_qc : gmap Z QC;
  staged_commit_qc : gmap Z QC;
  staged_decide_qc : gmap Z QC;
  timeout_interval_ms : Z
}.

(** ** Field updates *)

Definition set_proposal (x : option (Node * option QC)) (d : ViewData) : ViewData :=
  mkViewData
     x (voted_prepare d) (voted_precommit d) (voted_commit d) (seen_pre_commit_qc d)
     (seen_commit_qc d) (seen_decide_qc d) (new_view_msgs d) (prepare_votes d)
     (precommit_votes d) (commit_votes d) (broadcast_proposal d)
     (broadcast_pre_commit d) (broadcast_commit d) (broadcast_decide d).
Definition set_voted_prepare (x : bool) (d : ViewData) : ViewData :=
  mkViewData
     (proposal d) x (voted_precommit d) (voted_commit d) (seen_pre_commit_qc d)
     (seen_commit_qc d) (seen_decide_qc d) (new_view_msgs d) (prepare_votes d)
     (precommit_votes d) (commit_votes d) (broadcast_proposal d)
     (broadcast_pre_commit d) (broadcast_commit d) (broadcast_decide d).
Definition set_voted_precommit (x : bool) (d : ViewData) : ViewData :=
  mkViewData
     (proposal d) (voted_prepare d) x (voted_commit d) (seen_pre_commit_qc d)
     (seen_commit_qc d) (seen_decide_qc d) (new_view_msgs d) (prepare_votes d)
     (precommit_votes d) (commit_votes d) (broadcast_proposal d)
     (broadcast_pre_commit d) (broadcast_commit d) (broadcast_decide d).
Definition set_voted_commit (x : bool) (d : ViewData) : ViewData :=
  mkViewData
     (proposal d) (voted_prepare d) (voted_precommit d) x (seen_pre_commit_qc d)
     (seen_commit_qc d) (seen_decide_qc d) (new_view_msgs d) (prepare_votes d)
     (precommit_votes d) (commit_votes d) (broadcast_proposal d)
     (broadcast_pre_commit d) (broadcast_commit d) (broadcast_decide d).
Definition set_seen_pre_commit_qc (x : bool) (d : ViewData) : ViewData :=
  mkViewData
     (proposal d) (voted_prepare d) (voted_precommit d) (voted_commit d) x
     (seen_commit_qc d) (seen_decide_qc d) (new_view_msgs d) (prepare_votes d)
     (precommit_votes d) (commit_votes d) (broadcast_proposal d)
     (broadcast_pre_commit d) (broadcast_commit d) (broadcast_decide d).
Definition set_seen_commit_qc (x : bool) (d : ViewData) : ViewData :=
  mkViewData
     (proposal d) (voted_prepare d) (voted_precommit d) (voted_commit d)
     (seen_pre_commit_qc d) x (seen_decide_qc d) (new_view_msgs d) (prepare_votes d)
     (precommit_votes d) (commit_votes d) (broadcast_proposal d)
     (broadcast_pre_commit d) (broadcast_commit d) (broadcast_decide d).
Definition set_seen_decide_qc (x : bool) (d : ViewData) : ViewData :=
  mkViewData
     (proposal d) (voted_prepare d) (voted_precommit d) (voted_commit d)
     (seen_pre_commit_qc d) (seen_commit_qc d) x (new_view_msgs d) (prepare_votes d)
     (precommit_votes d) (commit_votes d) (broadcast_proposal d)
     (broadcast_pre_commit d) (broadcast_commit d) (broadcast_decide d).
Definition set_new_view_msgs (x : gmap Z (option QC)) (d : ViewData) : ViewData :=
  mkViewData
     (proposal d) (voted_prepare d) (voted_precommit d) (voted_commit d)
     (seen_pre_commit_qc d) (seen_commit_qc d) (seen_decide_qc d) x (prepare_votes d)
     (precommit_votes d) (commit_votes d) (broadcast_proposal d)
     (broadcast_pre_commit d) (broadcast_commit d) (broadcast_decide d).
Definition set_prepare_votes (x : gmap Z (list Z * list Z)) (d : ViewData) : ViewData :=
  mkViewData
     (proposal d) (voted_prepare d) (voted_precommit d) (voted_commit d)
     (seen_pre_commit_qc d) (seen_commit_qc d) (seen_decide_qc d) (new_view_msgs d) x
     (precommit_votes d) (commit_votes d) (broadcast_proposal d)
     (broadcast_pre_commit d) (broadcast_commit d) (broadcast_decide d).
Definition set_precommit_votes (x : gmap Z (list Z * list Z)) (d : ViewData) : ViewData :=
  mkViewData
     (proposal d) (voted_prepare d) (voted_precommit d) (voted_commit d)
     (seen_pre_commit_qc d) (seen_commit_qc d) (seen_decide_qc d) (new_view_msgs d)
     (prepare_votes d) x (commit_votes d) (broadcast_proposal d)
     (broadcast_pre_commit d) (broadcast_commit d) (broadcast_decide d).
Definition set_commit_votes (x : gmap Z (list Z * list Z)) (d : ViewData) : ViewData :=
  mkViewData
     (proposal d) (voted_prepare d) (voted_precommit d) (voted_commit d)
     (seen_pre_commit_qc d) (seen_commit_qc d) (seen_decide_qc d) (new_view_msgs d)
     (prepare_votes d) (precommit_votes d) x (broadcast_proposal d)
     (broadcast_pre_commit d) (broadcast_commit d) (broadcast_decide d).
Definition set_broadcast_proposal (x : bool) (d : ViewData) : ViewData :=
  mkViewData
     (proposal d) (voted_prepare d) (voted_precommit d) (voted_commit d)
     (seen_pre_commit_qc d) (seen_commit_qc d) (seen_decide_qc d) (new_view_msgs d)
     (prepare_votes d) (precommit_votes d) (commit_votes d) x (broadcast_pre_commit d)
     (broadcast_commit d) (broadcast_decide d).
Definition set_broadcast_pre_commit (x : bool) (d : ViewData) : ViewData :=
  mkViewData
     (proposal d) (voted_prepare d) (voted_precommit d) (voted_commit d)
     (seen_pre_commit_qc d) (seen_commit_qc d) (seen_decide_qc d) (new_view_msgs d)
     (prepare_votes d) (precommit_votes d) (commit_votes d) (broadcast_proposal d) x
     (broadcast_commit d) (broadcast_decide d).
Definition set_broadcast_commit (x : bool) (d : ViewData) : ViewData :=
  mkViewData
     (proposal d) (voted_prepare d) (voted_precommit d) (voted_commit d)
     (seen_pre_commit_qc d) (seen_commit_qc d) (seen_decide_qc d) (new_view_msgs d)
     (prepare_votes d) (precommit_votes d) (commit_votes d) (broadcast_proposal d)
     (broadcast_pre_commit d) x (broadcast_decide d).
Definition set_broadcast_decide (x : bool) (d : ViewData) : ViewData :=
  mkViewData
     (proposal d) (voted_prepare d) (voted_precommit d) (voted_commit d)
     (seen_pre_commit_qc d) (seen_commit_qc d) (seen_decide_qc d) (new_view_msgs d)
     (prepare_votes d) (precommit_votes d) (commit_votes d) (broadcast_proposal d)
     (broadcast_pre_commit d) (broadcast_commit d) x.

Definition set_n_replicas (x : Z) (s : ReplicaState) : ReplicaState :=
  mkReplicaState
     x (quorum s) (view s) (locked_qc s) (prepare_qc s) (last_executed_height s)
     (view_data s) (tree s) (validation_result s) (pending_validation s)
     (post_state_by_node s) (post_root_by_node s) (pre_root_by_node s)
     (decided_nodes s) (staged_pre_commit_qc s) (staged_commit_qc s)
     (staged_decide_qc s) (timeout_interval_ms s).
Definition set_quorum (x : Z) (s : ReplicaState) : ReplicaState :=
  mkReplicaState
     (n_replicas s) x (view s) (locked_qc s) (prepare_qc s) (last_executed_height s)
     (view_data s) (tree s) (validation_result s) (pending_validation s)
     (post_state_by_node s) (post_root_by_node s) (pre_root_by_node s)
     (decided_nodes s) (staged_pre_commit_qc s) (staged_commit_qc s)
     (staged_decide_qc s) (timeout_interval_ms s).
Definition set_view (x : Z) (s : ReplicaState) : ReplicaState :=
  mkReplicaState
     (n_replicas s) (quorum s) x (locked_qc s) (prepare_qc s) (last_executed_height s)
     (view_data s) (tree s) (validation_result s) (pending_validation s)
     (post_state_by_node s) (post_root_by_node s) (pre_root_by_node s)
     (decided_nodes s) (staged_pre_commit_qc s) (staged_commit_qc s)
     (staged_decide_qc s) (timeout_interval_ms s).
Definition set_locked_qc (x : option QC) (s : ReplicaState) : ReplicaState :=
  mkReplicaState
     (n_replicas s) (quorum s) (view s) x (prepare_qc s) (last_executed_height s) (view_data s)
     (tree s) (validation_result s) (pending_validation s) (post_state_by_node s)
     (post_root_by_node s) (pre_root_by_node s) (decided_nodes s)
     (staged_pre_commit_qc s) (staged_commit_qc s) (staged_decide_qc s)
     (timeout_interval_ms s).
Definition set_prepare_qc (x : option QC) (s : ReplicaState) : ReplicaState :=
  mkReplicaState
     (n_replicas s) (quorum s) (view s) (locked_qc s) x (last_executed_height s) (view_data s)
     (tree s) (validation_result s) (pending_validation s) (post_state_by_node s)
     (post_root_by_node s) (pre_root_by_node s) (decided_nodes s)
     (staged_pre_commit_qc s) (staged_commit_qc s) (staged_decide_qc s)
     (timeout_interval_ms s).
Definition set_last_executed_height (x : Z) (s : ReplicaState) : ReplicaState :=
  mkReplicaState
     (n_replicas s) (quorum s) (view s) (locked_qc s) (prepare_qc s) x (view_data s) (tree s)
     (validation_result s) (pending_validation s) (post_state_by_node s)
     (post_root_by_node s) (pre_root_by_node s) (decided_nodes s)
     (staged_pre_commit_qc s) (staged_commit_qc s) (staged_decide_qc s)
     (timeout_interval_ms s).
Definition set_view_data (x : gmap Z ViewData) (s : ReplicaState) : ReplicaState :=
  mkReplicaState
     (n_replicas s) (quorum s) (view s) (locked_qc s) (prepare_qc s) (last_executed_height s) x
     (tree s) (validation_result s) (pending_validation s) (post_state_by_node s)
     (post_root_by_node s) (pre_root_by_node s) (decided_nodes s)
     (staged_pre_commit_qc s) (staged_commit_qc s) (staged_decide_qc s)
     (timeout_interval_ms s).
Definition set_tree (x : gmap (list Z) Node) (s : ReplicaState) : ReplicaState :=
  mkReplicaState
     (n_replicas s) (quorum s) (view s) (locked_qc s) (prepare_qc s) (last_executed_height s)
     (view_data s) x (validation_result s) (pending_validation s)
     (post_state_by_node s) (post_root_by_node s) (pre_root_by_node s)
     (decided_nodes s) (staged_pre_commit_qc s) (staged_commit_qc s)
     (staged_decide_qc s) (timeout_interval_ms s).
Definition set_validation_result (x : gmap (list Z) bool) (s : ReplicaState) : ReplicaState :=
  mkReplicaState
     (n_replicas s) (quorum s) (view s) (locked_qc s) (prepare_qc s) (last_executed_height s)
     (view_data s) (tree s) x (pending_validation s) (post_state_by_node s)
     (post_root_by_node s) (pre_root_by_node s) (decided_nodes s)
     (staged_pre_commit_qc s) (staged_commit_qc s) (staged_decide_qc s)
     (timeout_interval_ms s).
Definition set_pending_validation (x : option (list Z)) (s : ReplicaState) : ReplicaState :=
  mkReplicaState
     (n_replicas s) (quorum s) (view s) (locked_qc s) (prepare_qc s) (last_executed_height s)
     (view_data s) (tree s) (validation_result s) x (post_state_by_node s)
     (post_root_by_node s) (pre_root_by_node s) (decided_nodes s)
     (staged_pre_commit_qc s) (staged_commit_qc s) (staged_decide_qc s)
     (timeout_interval_ms s).
Definition set_post_state_by_node (x : gmap (list Z) State) (s : ReplicaState) : ReplicaState :=
  mkReplicaState
     (n_replicas s) (quorum s) (view s) (locked_qc s) (prepare_qc s) (last_executed_height s)
     (view_data s) (tree s) (validation_result s) (pending_validation s) x
     (post_root_by_node s) (pre_root_by_node s) (decided_nodes s)
     (staged_pre_commit_qc s) (staged_commit_qc s) (staged_decide_qc s)
     (timeout_interval_ms s).
Definition set_post_root_by_node (x : gmap (list Z) (list Z)) (s : ReplicaState) : ReplicaState :=
  mkReplicaState
     (n_replicas s) (quorum s) (view s) (locked_qc s) (prepare_qc s) (last_executed_height s)
     (view_data s) (tree s) (validation_result s) (pending_validation s)
     (post_state_by_node s) x (pre_root_by_node s) (decided_nodes s)
     (staged_pre_commit_qc s) (staged_commit_qc s) (staged_decide_qc s)
     (timeout_interval_ms s).
Definition set_pre_root_by_node (x : gmap (list Z) (list Z)) (s : ReplicaState) : ReplicaState :=
  mkReplicaState
     (n_replicas s) (quorum s) (view s) (locked_qc s) (prepare_qc s) (last_executed_height s)
     (view_data s) (tree s) (validation_result s) (pending_validation s)
     (post_state_by_node s) (post_root_by_node s) x (decided_nodes s)
     (staged_pre_commit_qc s) (staged_commit_qc s) (staged_decide_qc s)
     (timeout_interval_ms s).
Definition set_decided_nodes (x : gset (list Z)) (s : ReplicaState) : ReplicaState :=
  mkReplicaState
     (n_replicas s) (quorum s) (view s) (locked_qc s) (prepare_qc s) (last_executed_height s)
     (view_data s) (tree s) (validation_result s) (pending_validation s)
     (post_state_by_node s) (post_root_by_node s) (pre_root_by_node s) x
     (staged_pre_commit_qc s) (staged_commit_qc s) (staged_decide_qc s)
     (timeout_interval_ms s).
Definition set_staged_pre_commit_qc (x : gmap Z QC) (s : ReplicaState) : ReplicaState :=
  mkReplicaState
     (n_replicas s) (quorum s) (view s) (locked_qc s) (prepare_qc s) (last_executed_height s)
     (view_data s) (tree s) (validation_result s) (pending_validation s)
     (post_state_by_node s) (post_root_by_node s) (pre_root_by_node s)
     (decided_nodes s) x (staged_commit_qc s) (staged_decide_qc s)
     (timeout_interval_ms s).
Definition set_staged_commit_qc (x : gmap Z QC) (s : ReplicaState) : ReplicaState :=
  mkReplicaState
     (n_replicas s) (quorum s) (view s) (locked_qc s) (prepare_qc s) (last_executed_height s)
     (view_data s) (tree s) (validation_result s) (pending_validation s)
     (post_state_by_node s) (post_root_by_node s) (pre_root_by_node s)
     (decided_nodes s) (staged_pre_commit_qc s) x (staged_decide_qc s)
     (timeout_interval_ms s).
Definition set_staged_decide_qc (x : gmap Z QC) (s : ReplicaState) : ReplicaState :=
  mkReplicaState
     (n_replicas s) (quorum s) (view s) (locked_qc s) (prepare_qc s) (last_executed_height s)
     (view_data s) (tree s) (validation_result s) (pending_validation s)
     (post_state_by_node s) (post_root_by_node s) (pre_root_by_node s)
     (decided_nodes s) (staged_pre_commit_qc s) (staged_commit_qc s) x
     (timeout_interval_ms s).
Definition set_timeout_interval_ms (x : Z) (s : ReplicaState) : ReplicaState :=
  mkReplicaState
     (n_replicas s) (quorum s) (view s) (locked_qc s) (prepare_qc s) (last_executed_height s)
     (view_data s) (tree s) (validation_result s) (pending_validation s)
     (post_state_by_node s) (post_root_by_node s) (pre_root_by_node s)
     (decided_nodes s) (staged_pre_commit_qc s) (staged_commit_qc s)
     (staged_decide_qc s) x.

(** ** Operations *)

(** [ReplicaState::new]; [main] calls it with [n >= 1]. *)
Definition new_replica (n timeout_base_ms : Z) : ReplicaState :=
  let f := wrap32 (n - 1) / 3 in
  let quorum := wrap32 (n - f) in
  {| n_replicas := n;
     quorum := quorum;
     view := 0;
     locked_qc := None;
     prepare_qc := None;
     last_executed_height := -1;
     view_data := ∅;
     tree := ∅;
     validation_result := ∅;
     pending_validation := None;
     post_state_by_node := ∅;
     post_root_by_node := ∅;
     pre_root_by_node := ∅;
     decided_nodes := ∅;
     staged_pre_commit_qc := ∅;
     staged_commit_qc := ∅;
     staged_decide_qc := ∅;
     timeout_interval_ms := timeout_base_ms |}.

Definition leader_for (rs : ReplicaState) (view : Z) : Z :=
  if view =? 0 then 0 else wrap32 ((view - 1) mod n_replicas rs).

Definition vd (rs : ReplicaState) (view : Z) : option ViewData := view_data rs !! view.

(** The entry [vd_mut] returns a reference to: a missing one is created. *)
Definition vd_at (rs : ReplicaState) (view : Z) : ViewData :=
  default default_view_data (vd rs view).

(** A use of [rs.vd_mut(view)] that applies [f] to the entry. *)
Definition vd_mut (view : Z) (f : ViewData -> ViewData) (rs : ReplicaState) : ReplicaState :=
  set_view_data (<[view := f (vd_at rs view)]> (view_data rs)) rs.

(** The loop of [extends_from]; [fuel] counts the remaining iterations. *)
Fixpoint extends_loop (fuel : nat) (cur target : list Z) (t : gmap (list Z) Node) : bool :=
  match fuel with
  | O => false
  | S fuel =>
      if decide (cur = target) then true
      else if decide (cur = GENESIS_HASH) then false
      else match t !! cur with
           | Some parent_node => extends_loop fuel (parent parent_node) target t
           | None => false
           end
  end.

(** [steps > 100_000] holds after 100,001 iterations. *)
Definition max_extends_iterations : nat := N.to_nat 100001.
#[global] Arguments max_extends_iterations : simpl never.

Section safe_node.
Context `{Sha256}.

Definition extends_from (node : Node) (target_hash : list Z) (t : gmap (list Z) Node) : bool :=
  if decide (node_hash node = target_hash) then true
  else extends_loop max_extends_iterations (parent node) target_hash t.

Definition safe_node (node : Node) (qc locked_qc : option QC) (t : gmap (list Z) Node) : bool :=
  match locked_qc with
  | None => true
  | Some locked =>
      if extends_from node (qc_node locked) t then true
      else match qc with
           | Some q => qc_view locked <? qc_view q
           | None => false
           end
  end.

(** ** Specification of the walks *)

(** Every tree entry is stored under the hash of its node. *)
Definition tree_ok (t : gmap (list Z) Node) : Prop :=
  map_Forall (fun h n => node_hash n = h) t.

(** Ancestry between hashes, through nodes that are known: a known node with
    the first hash has the second as its parent link. *)
Definition parent_link (known : Node -> Prop) (h p : list Z) : Prop :=
  exists n, known n /\ node_hash n = h /\ parent n = p.
Definition extends (known : Node -> Prop) : relation (list Z) := rtc (parent_link known).

#[global] Instance extends_preorder known : PreOrder (extends known).
Proof. unfold extends. apply _. Qed.

Lemma parent_link_mono (K K' : Node -> Prop) h p :
  (forall nd, K nd -> K' nd) -> parent_link K h p -> parent_link K' h p.
Proof. intros HK (nd & Hn & Hl). exists nd. auto. Qed.

Lemma extends_mono (K K' : Node -> Prop) h a :
  (forall nd, K nd -> K' nd) -> extends K h a -> extends K' h a.
Proof. intros HK. apply rtc_subrel. intros x y. by apply parent_link_mono. Qed.

(** The nodes of a tree. *)
Definition in_tree (t : gmap (list Z) Node) (nd : Node) : Prop := exists h, t !! h = Some nd.

(** [k] parent steps inside the tree lead from [h] to [a]. *)
Inductive tree_chain (t : gmap (list Z) Node) : list Z -> list Z -> nat -> Prop :=
  | chain_here a : tree_chain t a a 0
  | chain_up h nd a k :
      h <> GENESIS_HASH -> t !! h = Some nd -> tree_chain t (parent nd) a k ->
      tree_chain t h a (S k).

Lemma extends_loop_chain fuel cur target t :
  extends_loop fuel cur target t = true <->
  exists k, (k < fuel)%nat /\ tree_chain t cur target k.
Proof.
  revert cur. induction fuel as [|fuel IH]; intros cur; simpl.
  { split; [done|]. intros (k & Hk & _). lia. }
  destruct (decide (cur = target)) as [->|Hne].
  { split; [|done]. intros _. exists 0%nat. split; [lia|constructor]. }
  destruct (decide (cur = GENESIS_HASH)) as [->|Hg].
  { split; [done|]. intros (k & _ & Hc). by inversion Hc. }
  destruct (t !! cur) as [nd|] eqn:E.
  - rewrite IH. split.
    + intros (k & Hk & Hc). exists (S k). split; [lia|]. by econstructor.
    + intros (k & Hk & Hc). inversion Hc; simplify_eq. eexists. split; [|done]. lia.
  - split; [done|]. intros (k & _ & Hc). inversion Hc; simplify_eq.
Qed.

Lemma tree_chain_extends t h a k : tree_ok t -> tree_chain t h a k -> extends (in_tree t) h a.
Proof.
  intros Ht Hc. induction Hc as [a|h nd a k Hg E Hc IH]; [apply rtc_refl|].
  eapply rtc_l; [|exact IH]. exists nd. split_and!; [by exists h|by apply (Ht _ _ E)|done].
Qed.

Lemma extends_from_sound (known : Node -> Prop) node target t :
  tree_ok t -> (forall nd, in_tree t nd -> known nd) -> known node ->
  extends_from node target t = true -> extends known (node_hash node) target.
Proof.
  unfold extends_from. intros Ht Hk Hn. destruct (decide _) as [->|_]; [intros; apply rtc_refl|].
  intros (k & _ & Hc)%extends_loop_chain.
  eapply rtc_l; [by exists node|]. eapply extends_mono; [exact Hk|by eapply tree_chain_extends].
Qed.

Lemma tree_ok_insert t nd : tree_ok t -> tree_ok (<[node_hash nd := nd]> t).
Proof. intros Ht. by apply map_Forall_insert_2. Qed.

(** [extends_from] answers exactly whether the target is the node itself
    or is reached from its parent link by at most 100,000 steps through the
    tree that do not pass through genesis; with a tree keyed by node hashes
    a positive answer is ancestry through the nodes of the tree. *)
Theorem extends_from_correct node target t :
  (extends_from node target t = true <->
   node_hash node = target \/
   exists k, (k <= N.to_nat 100000)%nat /\ tree_chain t (parent node) target k) /\
  (tree_ok t -> extends_from node target t = true ->
   extends (fun nd => nd = node \/ in_tree t nd) (node_hash node) target).
Proof.
  split; [|intros Ht; apply extends_from_sound; auto]. unfold extends_from.
  destruct (decide _) as [->|Hne]; [split; [by left|done]|].
  rewrite extends_loop_chain. unfold max_extends_iterations. split.
  - intros (k & Hk & Hc). right. exists k. split; [lia|done].
  - intros [?|(k & Hk & Hc)]; [done|]. exists k. split; [lia|done].
Qed.

(** A replica accepts a proposal exactly when it is not locked, or the
    proposed node descends from the locked node in its tree, or the proposal
    carries a certificate of a strictly higher view; in particular a locked
    replica never accepts a proposal without certificate that does not extend
    its lock. *)
Lemma safe_node_correct node qc locked t :
  safe_node node qc locked t = true <->
  locked = None \/
  exists l, locked = Some l /\
    (extends_from node (qc_node l) t = true \/
     exists q, qc = Some q /\ qc_view l < qc_view q).
Proof.
  unfold safe_node. destruct locked as [l|]; [|split; [by left|done]].
  destruct (extends_from node (qc_node l) t) eqn:E; split.
  - intros _. right. exists l. auto.
  - done.
  - intros Hq. right. exists l. split; [done|]. right.
    destruct qc as [q|]; [|done]. exists q. split; [done|lia].
  - intros [?|(l' & [= <-] & [?|(q & -> & Hlt)])]; [done|congruence|lia].
Qed.
End safe_node.

(** ** The per-view table *)

Lemma vd_at_mut rs v f v' :
  vd_at (vd_mut v f rs) v' = if decide (v = v') then f (vd_at rs v) else vd_at rs v'.
Proof.
  unfold vd_at at 1, vd, vd_mut. cbn. destruct (decide (v = v')) as [->|Hne].
  - by rewrite lookup_insert_eq.
  - by rewrite lookup_insert_ne.
Qed.

Lemma vd_at_mut_eq rs v f : vd_at (vd_mut v f rs) v = f (vd_at rs v).
Proof. rewrite vd_at_mut. by destruct (decide _). Qed.

(** ** The leader schedule and the quorum size *)

Lemma leader_for_range rs v :
  0 < n_replicas rs < u32_modulus -> 0 <= leader_for rs v < n_replicas rs.
Proof.
  intros Hn. unfold leader_for. destruct (v =? 0); [lia|].
  pose proof (Z.mod_pos_bound (v - 1) (n_replicas rs) ltac:(lia)).
  rewrite wrap32_id; unfold is_u32; lia.
Qed.

(** the schedule is round robin: view [1] is led by replica [0], every
    view is led by a replica of the system, and among any [n] consecutive
    views starting at a view [v >= 1] every replica leads exactly one. *)
Theorem leader_round_robin rs v i :
  0 < n_replicas rs < u32_modulus -> 1 <= v -> 0 <= i < n_replicas rs ->
  leader_for rs 1 = 0 /\
  exists k, 0 <= k < n_replicas rs /\ leader_for rs (v + k) = i /\
    forall k', 0 <= k' < n_replicas rs -> leader_for rs (v + k') = i -> k' = k.
Proof.
  intros Hn Hv Hi. set (N := n_replicas rs) in *.
  assert (forall u, 1 <= u -> leader_for rs u = (u - 1) mod N) as Hl.
  { intros u Hu. unfold leader_for. fold N. destruct (Z.eqb_spec u 0); [lia|].
    pose proof (Z.mod_pos_bound (u - 1) N ltac:(lia)). apply wrap32_id. unfold is_u32. lia. }
  split; [rewrite Hl by lia; apply Z.mod_0_l; lia|].
  exists ((i - (v - 1)) mod N). pose proof (Z.mod_pos_bound (i - (v - 1)) N ltac:(lia)) as Hk.
  split_and!; [lia|lia|..].
  - rewrite Hl by lia.
    replace (v + (i - (v - 1)) mod N - 1) with ((v - 1) + (i - (v - 1)) mod N) by lia.
    rewrite Zplus_mod_idemp_r. replace (v - 1 + (i - (v - 1))) with i by lia.
    by apply Z.mod_small.
  - intros k' Hk' He. rewrite Hl in He by lia.
    rewrite <- He, Zminus_mod_idemp_l.
    replace (v + k' - 1 - (v - 1)) with k' by lia. symmetry. by apply Z.mod_small.
Qed.

(** The number of faults tolerated, [f = (n - 1) / 3]. *)
Definition max_faults (n : Z) : Z := (n - 1) / 3.

Lemma new_replica_quorum n t :
  1 <= n < u32_modulus -> quorum (new_replica n t) = n - max_faults n.
Proof.
  intros Hn. unfold new_replica, max_faults. cbn.
  assert (wrap32 (n - 1) = n - 1) as -> by (apply wrap32_id; unfold is_u32; lia).
  pose proof (Z.div_mod (n - 1) 3 ltac:(lia)).
  pose proof (Z.mod_pos_bound (n - 1) 3 ltac:(lia)).
  apply wrap32_id. unfold is_u32. lia.
Qed.

Lemma max_faults_spec n : 1 <= n -> 0 <= max_faults n /\ 3 * max_faults n + 1 <= n.
Proof.
  intros Hn. unfold max_faults. pose proof (Z.div_mod (n - 1) 3 ltac:(lia)).
  pose proof (Z.mod_pos_bound (n - 1) 3 ltac:(lia)). lia.
Qed.

Lemma leader_round_robin_witness :
  exists k, 0 <= k < 4 /\ leader_for (new_replica 4 1000) (6 + k) = 3 /\
    forall k', 0 <= k' < 4 -> leader_for (new_replica 4 1000) (6 + k') = 3 -> k' = k.
Proof. apply (leader_round_robin (new_replica 4 1000) 6 3); simpl; lia. Defined.

Lemma extends_from_correct_witness :
  let root := mkNode GENESIS_HASH [1] 0 in
  let leaf := mkNode (@node_hash toy_sha256 root) [2] 1 in
  let t := {[ @node_hash toy_sha256 root := root ]} in
  @extends toy_sha256 (fun nd => nd = leaf \/ in_tree t nd) (@node_hash toy_sha256 leaf) (@node_hash toy_sha256 root).
Proof.
  intros root leaf t. apply (proj2 (@extends_from_correct toy_sha256 leaf (@node_hash toy_sha256 root) t)).
  - decide_now.
  - vm_compute. reflexivity.
Defined.
