(* ===== verification/Qc.v ===== *)
(** * Qc: node/consensus-node/src/consensus/qc.rs

    Forming and verifying quorum certificates, and the intersection of
    quorums. *)

From Stdlib Require Import ZArith Lia.
From stdpp Require Import prelude strings gmap.
From S2P Require Import Prelude Crypto Messages Replica.
Open Scope Z_scope.

(** ** Operations *)

(** One iteration of the loop that groups the votes by node. *)
Definition group_vote (by_node : gmap (list Z) (list (Z * list Z)))
    (vote : Z * (list Z * list Z)) : gmap (list Z) (list (Z * list Z)) :=
  let '(voter, (nh, sig)) := vote in
  <[nh := default [] (by_node !! nh) ++ [(voter, sig)]]> by_node.

Definition group_votes (votes : list (Z * (list Z * list Z))) :=
  foldl group_vote ∅ votes.

(** The loop over [by_node] that returns the first group of quorum size. *)
Fixpoint first_quorum (msg_type : MsgType) (view quorum : Z)
    (groups : list (list Z * list (Z * list Z))) : option QC :=
  match groups with
  | [] => None
  | (nh, sigs) :: groups =>
      if quorum <=? Z.of_nat (length sigs) then Some (mkQC msg_type view nh sigs)
      else first_quorum msg_type view quorum groups
  end.

Definition form_qc `{HashOrder} (votes : gmap Z (list Z * list Z))
    (msg_type : MsgType) (view quorum : Z) : option QC :=
  first_quorum msg_type view quorum (hash_iter (group_votes (hash_iter votes))).

Section verify.
Context `{Bincode, SigScheme}.

(** The loop of [verify_qc_sync]: the voters counted so far and their number. *)
Fixpoint verify_loop (qc : QC) (keys : gmap Z verifying_key)
    (sigs : list (Z * list Z)) (seen : gset Z) (count : Z) : Z :=
  match sigs with
  | [] => count
  | (voter, sig) :: sigs =>
      if decide (voter ∈ seen) then verify_loop qc keys sigs seen count
      else match keys !! voter with
           | None => verify_loop qc keys sigs seen count
           | Some pk =>
               if verify_vote_sig pk (qc_type qc) (qc_view qc) (qc_node qc) sig
               then verify_loop qc keys sigs ({[voter]} ∪ seen) (add_u32 count 1)
               else verify_loop qc keys sigs seen count
           end
  end.

Definition verify_qc (qc : QC) (quorum : Z) (keys : gmap Z verifying_key) : bool :=
  quorum <=? verify_loop qc keys (qc_sigs qc) ∅ 0.

(** ** Specification *)

(** The signature verifies under the key known for the voter. *)
Definition good_sig (qc : QC) (keys : gmap Z verifying_key) (vs : Z * list Z) : Prop :=
  exists pk, keys !! vs.1 = Some pk /\
    verify_vote_sig pk (qc_type qc) (qc_view qc) (qc_node qc) vs.2 = true.

#[global] Instance good_sig_dec qc keys vs : Decision (good_sig qc keys vs).
Proof.
  unfold good_sig. destruct (keys !! vs.1) as [pk|].
  - destruct (verify_vote_sig pk (qc_type qc) (qc_view qc) (qc_node qc) vs.2) eqn:E.
    + left. eauto.
    + right. intros (pk' & [= <-] & ?). congruence.
  - right. by intros (pk' & ? & _).
Defined.

(** The voters among [sigs] with a valid signature. *)
Definition signers_of (qc : QC) (keys : gmap Z verifying_key) (sigs : list (Z * list Z)) : gset Z :=
  list_to_set (filter (good_sig qc keys) sigs).*1.

(** The voters the certificate is valid for. *)
Definition signers (qc : QC) (keys : gmap Z verifying_key) : gset Z :=
  signers_of qc keys (qc_sigs qc).

Lemma elem_of_signers qc keys i :
  i ∈ signers qc keys <-> exists sig, (i, sig) ∈ qc_sigs qc /\ good_sig qc keys (i, sig).
Proof.
  unfold signers, signers_of. rewrite elem_of_list_to_set, list_elem_of_fmap. split.
  - intros ([i' sig] & -> & [Hg Hin]%list_elem_of_filter). eauto.
  - intros (sig & Hin & Hg). exists (i, sig). split; [done|]. by apply list_elem_of_filter.
Qed.

Lemma signers_of_dom qc keys sigs : signers_of qc keys sigs ⊆ dom keys.
Proof.
  unfold signers_of. intros i. rewrite elem_of_list_to_set, list_elem_of_fmap.
  intros ([i' sig] & -> & [(pk & Hk & _) _]%list_elem_of_filter). by eapply elem_of_dom_2.
Qed.

Lemma verify_loop_count qc keys sigs (seen : gset Z) :
  Z.of_nat (size keys) < u32_modulus -> seen ⊆ dom keys ->
  verify_loop qc keys sigs seen (Z.of_nat (size seen)) =
  Z.of_nat (size (seen ∪ signers_of qc keys sigs)).
Proof.
  intros Hk. revert seen. induction sigs as [|[i sig] sigs IH]; intros seen Hs; simpl.
  { unfold signers_of. simpl. by rewrite union_empty_r_L. }
  assert (good_sig qc keys (i, sig) -> i ∈ seen ->
    seen ∪ signers_of qc keys ((i, sig) :: sigs) = seen ∪ signers_of qc keys sigs) as Hin.
  { intros Hg Hi. unfold signers_of. rewrite filter_cons_True by done. set_solver. }
  assert (~ good_sig qc keys (i, sig) ->
    signers_of qc keys ((i, sig) :: sigs) = signers_of qc keys sigs) as Hbad.
  { intros Hg. unfold signers_of. by rewrite filter_cons_False. }
  destruct (decide (i ∈ seen)) as [Hi|Hi].
  { rewrite IH by done. destruct (decide (good_sig qc keys (i, sig)));
      [by rewrite Hin|by rewrite Hbad]. }
  destruct (keys !! i) as [pk|] eqn:Ei.
  2:{ rewrite IH by done. rewrite Hbad; [done|]. intros (? & ? & _). simpl in *. congruence. }
  destruct (verify_vote_sig pk _ _ _ sig) eqn:Ev.
  2:{ rewrite IH by done. rewrite Hbad; [done|]. intros (? & ? & ?). simpl in *. congruence. }
  assert ({[i]} ∪ seen ⊆ dom keys) as Hs' by (apply elem_of_dom_2 in Ei; set_solver).
  pose proof (subseteq_size _ _ Hs') as Hle.
  rewrite size_union, size_singleton, size_dom in Hle by set_solver.
  specialize (IH _ Hs'). rewrite size_union, size_singleton in IH by set_solver.
  unfold add_u32. rewrite wrap32_id by (unfold is_u32; lia).
  replace (Z.of_nat (size seen) + 1) with (Z.of_nat (1 + size seen)) by lia.
  rewrite IH. do 2 f_equal. unfold signers_of at 2.
  rewrite filter_cons_True by (by exists pk). simpl. set_solver.
Qed.

Lemma verify_qc_count qc q keys :
  Z.of_nat (size keys) < u32_modulus ->
  verify_qc qc q keys = true <-> q <= Z.of_nat (size (signers qc keys)).
Proof.
  intros Hk. pose proof (verify_loop_count qc keys (qc_sigs qc) ∅ Hk ltac:(set_solver)) as Hc.
  rewrite size_empty, union_empty_l_L in Hc. change (Z.of_nat 0) with 0 in Hc.
  unfold verify_qc. rewrite Hc. unfold signers. lia.
Qed.

(** C19: [verify_qc] accepts exactly the certificates that carry a valid
    signature over (type, view, node) for at least [quorum] distinct voters
    with a known key: repeated voters are counted once, unknown voters and
    bad signatures are skipped. *)
Theorem verify_qc_correct qc q keys :
  Z.of_nat (size keys) < u32_modulus ->
  verify_qc qc q keys = true <-> q <= Z.of_nat (size (signers qc keys)).
Proof. apply verify_qc_count. Qed.
End verify.

(** ** Forming certificates *)

(** The signatures a list of votes holds for one node. *)
Definition votes_for (nh : list Z) (votes : list (Z * (list Z * list Z))) : list (Z * list Z) :=
  (fun v => (v.1, v.2.2)) <$> filter (fun v => v.2.1 = nh) votes.

Lemma group_votes_lookup votes m nh :
  default [] (foldl group_vote m votes !! nh) = default [] (m !! nh) ++ votes_for nh votes.
Proof.
  revert m. induction votes as [|[i [h sig]] votes IH]; intros m; simpl.
  { unfold votes_for. simpl. by rewrite app_nil_r. }
  rewrite IH. unfold votes_for. destruct (decide (h = nh)) as [->|Hne].
  - rewrite filter_cons_True, lookup_insert_eq by done. simpl. by rewrite <- app_assoc.
  - by rewrite filter_cons_False, lookup_insert_ne by done.
Qed.

Lemma first_quorum_Some ty v q groups qc :
  first_quorum ty v q groups = Some qc ->
  qc_type qc = ty /\ qc_view qc = v /\ (qc_node qc, qc_sigs qc) ∈ groups /\
  q <= Z.of_nat (length (qc_sigs qc)).
Proof.
  induction groups as [|[nh sigs] groups IH]; simpl; [done|].
  destruct (Z.leb_spec q (Z.of_nat (length sigs))).
  - intros [= <-]. simpl. split_and!; [done|done|by constructor|done].
  - intros Hq. destruct (IH Hq) as (? & ? & ? & ?). split_and!; auto.
    by apply list_elem_of_further.
Qed.

Lemma first_quorum_None ty v q groups nh sigs :
  first_quorum ty v q groups = None -> (nh, sigs) ∈ groups -> Z.of_nat (length sigs) < q.
Proof.
  induction groups as [|[nh' sigs'] groups IH]; simpl; [by intros _ ?%elem_of_nil|].
  destruct (Z.leb_spec q (Z.of_nat (length sigs'))); [done|].
  intros Hq [[= -> ->]|Hin]%elem_of_cons; [done|by apply IH].
Qed.

Section form.
Context `{HashOrder}.

(** The votes of a bucket for one node, as signatures. *)
Lemma elem_of_votes_for (votes : gmap Z (list Z * list Z)) nh i sig :
  (i, sig) ∈ votes_for nh (hash_iter votes) <-> votes !! i = Some (nh, sig).
Proof.
  unfold votes_for. rewrite list_elem_of_fmap. split.
  - intros ([i' [h s]] & [= -> ->] & [Hh Hin]%list_elem_of_filter). simpl in *. subst h.
    by apply elem_of_hash_iter.
  - intros Hi. exists (i, (nh, sig)). split; [done|]. apply list_elem_of_filter.
    split; [done|]. by apply elem_of_hash_iter.
Qed.

Lemma NoDup_votes_for (votes : gmap Z (list Z * list Z)) nh :
  NoDup (votes_for nh (hash_iter votes)).*1.
Proof.
  unfold votes_for. rewrite <- list_fmap_compose.
  eapply sublist_NoDup; [apply (NoDup_hash_iter_keys votes)|].
  apply (fmap_sublist (fun v : Z * (list Z * list Z) => v.1)). apply sublist_filter.
Qed.

Lemma group_lookup (votes : gmap Z (list Z * list Z)) nh sigs :
  (nh, sigs) ∈ hash_iter (group_votes (hash_iter votes)) ->
  sigs = votes_for nh (hash_iter votes).
Proof.
  intros Hin%elem_of_hash_iter. pose proof (group_votes_lookup (hash_iter votes) ∅ nh) as Hg.
  unfold group_votes in Hin. rewrite Hin, lookup_empty in Hg. done.
Qed.

Lemma form_qc_sound votes ty v q qc :
  form_qc votes ty v q = Some qc ->
  qc_type qc = ty /\ qc_view qc = v /\ NoDup (qc_sigs qc).*1 /\
  q <= Z.of_nat (length (qc_sigs qc)) /\
  forall i sig, (i, sig) ∈ qc_sigs qc <-> votes !! i = Some (qc_node qc, sig).
Proof.
  intros Hq. apply first_quorum_Some in Hq as (Ht & Hv & Hin & Hlen).
  apply group_lookup in Hin. split_and!; [done|done| |done|].
  - rewrite Hin. apply NoDup_votes_for.
  - intros i sig. rewrite Hin. apply elem_of_votes_for.
Qed.

Lemma form_qc_complete votes ty v q nh (voters : gset Z) :
  1 <= q <= Z.of_nat (size voters) ->
  (forall i, i ∈ voters -> exists sig, votes !! i = Some (nh, sig)) ->
  is_Some (form_qc votes ty v q).
Proof.
  intros Hq Hall.
  assert (size voters <= length (votes_for nh (hash_iter votes)))%nat as Hsz.
  { rewrite <- (length_fmap fst), <- (size_list_to_set (C := gset Z)) by apply NoDup_votes_for.
    apply subseteq_size. intros i Hi. apply elem_of_list_to_set, list_elem_of_fmap.
    destruct (Hall i Hi) as [sig Hs]. exists (i, sig). split; [done|].
    by apply elem_of_votes_for. }
  destruct (form_qc votes ty v q) as [qc|] eqn:E; [by exists qc|exfalso].
  pose proof (group_votes_lookup (hash_iter votes) ∅ nh) as Hg. rewrite lookup_empty in Hg.
  destruct (foldl group_vote ∅ (hash_iter votes) !! nh) as [sigs|] eqn:El; simpl in Hg.
  - apply first_quorum_None with (nh := nh) (sigs := sigs) in E; [subst; lia|].
    by apply elem_of_hash_iter.
  - rewrite <- Hg in Hsz. simpl in Hsz. lia.
Qed.

(** C20: a certificate formed from a vote bucket names the requested type and
    view, carries exactly the bucket's votes for its node, one per voter,
    and at least [quorum] of them; and one is formed whenever some node has
    a quorum of votes, whatever the iteration order of the hash maps. *)
Theorem form_qc_correct votes ty v q :
  (forall qc, form_qc votes ty v q = Some qc ->
     qc_type qc = ty /\ qc_view qc = v /\ NoDup (qc_sigs qc).*1 /\
     q <= Z.of_nat (length (qc_sigs qc)) /\
     forall i sig, (i, sig) ∈ qc_sigs qc <-> votes !! i = Some (qc_node qc, sig)) /\
  (forall nh (voters : gset Z), 1 <= q <= Z.of_nat (size voters) ->
     (forall i, i ∈ voters -> exists sig, votes !! i = Some (nh, sig)) ->
     is_Some (form_qc votes ty v q)).
Proof.
  split; [intros qc; apply form_qc_sound|intros nh voters; apply form_qc_complete].
Qed.
End form.

(** More keys only make more signatures count. *)
Lemma verify_qc_keys `{Bincode, SigScheme} qc q keys keys' :
  Z.of_nat (size keys') < u32_modulus -> keys ⊆ keys' ->
  verify_qc qc q keys = true -> verify_qc qc q keys' = true.
Proof.
  intros Hk Hsub. assert (size keys <= size keys')%nat as Hle by by apply map_subseteq_size.
  rewrite !verify_qc_count by lia.
  assert (signers qc keys ⊆ signers qc keys') as Hs%subseteq_size; [|lia].
  intros i (sig & Hin & pk & Hi & Hv)%elem_of_signers. apply elem_of_signers. exists sig. split; [done|].
  exists pk. split; [by eapply lookup_weaken|done].
Qed.

(** A certificate formed from votes that verify is a valid certificate. *)
Lemma form_qc_verifies `{Bincode, SigScheme, HashOrder} votes ty v q keys qc :
  Z.of_nat (size keys) < u32_modulus ->
  (forall j h sig, votes !! j = Some (h, sig) ->
     exists pk, keys !! j = Some pk /\ verify_vote_sig pk ty v h sig = true) ->
  form_qc votes ty v q = Some qc -> verify_qc qc q keys = true.
Proof.
  intros Hk Hall (Ht & Hv & Hnd & Hlen & Hsig)%form_qc_sound. apply verify_qc_count; [done|].
  assert (size (signers qc keys) = length (qc_sigs qc)) as ->; [|done].
  rewrite <- (length_fmap fst (qc_sigs qc)), <- (size_list_to_set (C := gset Z)) by done.
  f_equal. apply set_eq. intros j. rewrite elem_of_signers, elem_of_list_to_set, list_elem_of_fmap. split.
  - intros (sig & Hin & _). by exists (j, sig).
  - intros ([j' sig] & -> & Hin). exists sig. split; [done|].
    apply Hsig, Hall in Hin as (pk & ? & ?). exists pk. by rewrite Ht, Hv.
Qed.

(** ** Quorums intersect *)

(** The replica ids [0 .. n). *)
Definition replica_ids (n : Z) : gset Z := list_to_set (seqZ 0 n).

Lemma elem_of_replica_ids n i : i ∈ replica_ids n <-> 0 <= i < n.
Proof. unfold replica_ids. rewrite elem_of_list_to_set, elem_of_seqZ. lia. Qed.

Lemma size_replica_ids n : 0 <= n -> Z.of_nat (size (replica_ids n)) = n.
Proof.
  intros Hn. unfold replica_ids. rewrite size_list_to_set by apply NoDup_seqZ.
  rewrite length_seqZ. lia.
Qed.

Lemma quorum_intersection n (byz S1 S2 : gset Z) :
  1 <= n -> Z.of_nat (size byz) <= max_faults n ->
  S1 ⊆ replica_ids n -> S2 ⊆ replica_ids n ->
  n - max_faults n <= Z.of_nat (size S1) -> n - max_faults n <= Z.of_nat (size S2) ->
  exists i, i ∈ S1 /\ i ∈ S2 /\ i ∉ byz.
Proof.
  intros Hn Hb H1 H2 Hs1 Hs2. pose proof (max_faults_spec n Hn).
  pose proof (size_replica_ids n ltac:(lia)) as Hids.
  pose proof (size_union_alt S1 S2) as Hu. pose proof (subseteq_size (S1 ∪ S2) (replica_ids n)
    ltac:(set_solver)) as Hle.
  pose proof (size_difference_alt (S1 ∩ S2) byz) as Hd.
  pose proof (subseteq_size ((S1 ∩ S2) ∩ byz) byz ltac:(set_solver)).
  assert (size S2 = size (S1 ∩ S2) + size (S2 ∖ S1))%nat as Hd2.
  { rewrite <- size_union by set_solver. f_equal. apply set_eq. intros x.
    destruct (decide (x ∈ S1)); set_solver. }
  assert (0 < size ((S1 ∩ S2) ∖ byz))%nat as Hpos by lia.
  destruct (set_choose_L ((S1 ∩ S2) ∖ byz)) as [i Hi].
  { intros He. rewrite He, size_empty in Hpos. lia. }
  exists i. set_solver.
Qed.

(** ** Witnesses *)

#[local] Existing Instances toy_bincode toy_sig trie_order.

(** Two valid signatures, one of them twice, one by an unknown voter and one
    that does not verify. *)
Definition sample_qc : QC :=
  mkQC Prepare 3 [9]
    [(0, sign_vote 100 Prepare 3 [9]); (0, sign_vote 100 Prepare 3 [9]);
     (1, sign_vote 101 Prepare 3 [9]); (7, sign_vote 107 Prepare 3 [9]); (2, [0])].

Definition sample_keys : gmap Z verifying_key := {[ 0 := 100; 1 := 101; 2 := 102 ]}.

Lemma verify_qc_correct_witness :
  verify_qc sample_qc 2 sample_keys = true /\ verify_qc sample_qc 3 sample_keys = false.
Proof.
  split.
  - apply (verify_qc_correct sample_qc 2 sample_keys); [vm_compute; reflexivity|].
    vm_compute. discriminate.
  - apply not_true_iff_false. intros Hv.
    apply (verify_qc_correct sample_qc 3 sample_keys) in Hv; [|vm_compute; reflexivity].
    vm_compute in Hv. by destruct Hv.
Defined.

Lemma form_qc_correct_witness :
  is_Some (form_qc {[ 0 := ([9], [1]); 1 := ([8], [2]); 2 := ([9], [3]) ]} Commit 5 2).
Proof.
  apply (form_qc_correct {[ 0 := ([9], [1]); 1 := ([8], [2]); 2 := ([9], [3]) ]} Commit 5 2) with
    (nh := [9]) (voters := {[ 0; 2 ]}); [vm_compute; split; discriminate|].
  intros i [->%elem_of_singleton| ->%elem_of_singleton]%elem_of_union; eexists; reflexivity.
Defined.
