(* ===== verification/VoteLog.v ===== *)
(** * VoteLog: what the votes of correct replicas must satisfy for safety

    An abstract specification of a three-phase protocol by its votes alone:
    a log of ballots, in the order they were signed, in which every ballot of
    a correct replica respects the rules of Basic HotStuff.  Two commit
    certificates of such a log never conflict.  The refinement that the
    replicas of the implementation produce such a log is in Safety. *)

From Stdlib Require Import ZArith Lia.
From stdpp Require Import prelude strings gmap.
From S2P Require Import Prelude Crypto Messages Replica Qc.
Open Scope Z_scope.

Record Ballot : Type := mkBallot {
  b_voter : Z;
  b_type : MsgType;
  b_view : Z;
  b_node : list Z
}.

#[global] Instance Ballot_eq_dec : EqDecision Ballot.
Proof. solve_decision. Defined.

Section vote_log.
Context `{Sha256}.
Variable n : Z.
Variable byz : gset Z.
(** The nodes that have been proposed to or by correct replicas. *)
Variable known : Node -> Prop.

(** The log certifies (type, view, node): a quorum of replicas whose correct
    members have signed it.  Faulty replicas sign anything. *)
Definition certified (L : list Ballot) (t : MsgType) (v : Z) (h : list Z) : Prop :=
  exists Q : gset Z, Q ⊆ replica_ids n /\ n - max_faults n <= Z.of_nat (size Q) /\
    forall i, i ∈ Q -> i ∉ byz -> mkBallot i t v h ∈ L.

(** The voting rule of the PREPARE phase, for a voter that has committed
    before: some lock at or above each of its commits is certified, and the
    node extends the locked node or hangs off a node certified in a view
    above the lock. *)
Definition justified (L : list Ballot) (b : Ballot) : Prop :=
  forall c, c ∈ L -> b_voter c = b_voter b -> b_type c = Commit ->
  exists vl hl, b_view c <= vl /\ certified L PreCommit vl hl /\
    (extends known (b_node b) hl \/
     exists t vj p, vl < vj /\ certified L t vj p /\ parent_link known (b_node b) p).

(** A ballot signed after the ballots of [L]. *)
Record ballot_ok (b : Ballot) (L : list Ballot) : Prop := {
  (** views never go back *)
  ok_view : forall c, c ∈ L -> b_voter c = b_voter b -> b_view c <= b_view b;
  (** one vote per phase and view *)
  ok_once : forall c, c ∈ L -> b_voter c = b_voter b -> b_type c = b_type b ->
    b_view c = b_view b -> b_node c = b_node b;
  ok_rule : match b_type b with
            | Prepare => justified L b
            | PreCommit => certified L Prepare (b_view b) (b_node b)
            | Commit => certified L PreCommit (b_view b) (b_node b)
            | _ => False
            end
}.

(** Logs of correct replicas, the latest ballot first. *)
Inductive honest_log : list Ballot -> Prop :=
  | honest_nil : honest_log []
  | honest_cons b L : honest_log L -> ballot_ok b L -> honest_log (b :: L).

(** ** Lemmas *)

Lemma certified_mono L L' t v h : L ⊆ L' -> certified L t v h -> certified L' t v h.
Proof.
  intros HL (Q & HQ & Hs & Hall). exists Q. split_and!; auto.
Qed.

Lemma honest_log_suffix L1 L2 : honest_log (L1 ++ L2) -> honest_log L2.
Proof.
  induction L1 as [|b L1 IH]; [done|]. intros Hl. inversion Hl; subst. auto.
Qed.

Lemma honest_log_at L1 b L2 : honest_log (L1 ++ b :: L2) -> ballot_ok b L2.
Proof. intros Hl%honest_log_suffix. by inversion Hl. Qed.

Lemma honest_log_unique L b c :
  honest_log L -> b ∈ L -> c ∈ L -> b_voter b = b_voter c -> b_type b = b_type c ->
  b_view b = b_view c -> b_node b = b_node c.
Proof.
  intros Hl. induction Hl as [|d L Hl IH Hok]; intros Hb Hc Hv Ht Hw.
  { by apply elem_of_nil in Hb. }
  apply elem_of_cons in Hb as [->|Hb]; apply elem_of_cons in Hc as [->|Hc]; auto.
  - symmetry. by apply (ok_once _ _ Hok).
  - by apply (ok_once _ _ Hok).
Qed.

(** A ballot of a lower view of the same voter was signed before. *)
Lemma lower_view_before L1 b L2 c :
  honest_log (L1 ++ b :: L2) -> c ∈ (L1 ++ b :: L2) ->
  b_voter c = b_voter b -> b_view c < b_view b -> c ∈ L2.
Proof.
  intros Hl Hc Hv Hlt. apply elem_of_app in Hc as [Hc|[->|Hc]%elem_of_cons]; [|lia|done].
  apply list_elem_of_split in Hc as (M1 & M2 & ->). rewrite <- app_assoc in Hl. simpl in Hl.
  apply honest_log_at in Hl. pose proof (ok_view _ _ Hl b) as Hb.
  rewrite elem_of_app, elem_of_cons in Hb. specialize (Hb ltac:(auto) ltac:(done)). lia.
Qed.

Section with_faults.
Hypothesis n_pos : 1 <= n.
Hypothesis few_faults : Z.of_nat (size byz) <= max_faults n.

Lemma certified_intersect L1 L2 t1 v1 h1 t2 v2 h2 :
  certified L1 t1 v1 h1 -> certified L2 t2 v2 h2 ->
  exists i, (i ∉ byz) /\ mkBallot i t1 v1 h1 ∈ L1 /\ mkBallot i t2 v2 h2 ∈ L2.
Proof.
  intros (Q1 & HQ1 & Hs1 & H1) (Q2 & HQ2 & Hs2 & H2).
  destruct (quorum_intersection n byz Q1 Q2) as (i & Hi1 & Hi2 & Hb); auto.
  exists i. auto.
Qed.

Lemma certified_voter L t v h :
  certified L t v h -> exists i, (i ∉ byz) /\ mkBallot i t v h ∈ L.
Proof.
  intros Hc. destruct (certified_intersect L L t v h t v h Hc Hc) as (i & ? & ? & ?). eauto.
Qed.

(** Every certificate is preceded by a prepare certificate. *)
Lemma certified_prepare L t v h :
  honest_log L -> certified L t v h -> certified L Prepare v h.
Proof.
  assert (forall L t v h, honest_log L -> certified L t v h ->
    t = Prepare \/ exists t', certified L t' v h /\
      match t with Commit => t' = PreCommit | PreCommit => t' = Prepare | _ => False end) as Hstep.
  { clear L t v h. intros L t v h Hl Hc.
    destruct (certified_voter _ _ _ _ Hc) as (i & Hi & Hin).
    apply list_elem_of_split in Hin as (L1 & L2 & ->).
    pose proof (ok_rule _ _ (honest_log_at _ _ _ Hl)) as Hr. simpl in Hr.
    assert (L2 ⊆ (L1 ++ mkBallot i t v h :: L2)) as Hsub
      by (intros x Hx; apply elem_of_app; right; by apply list_elem_of_further).
    destruct t; try done; [by left|right; exists Prepare|right; exists PreCommit];
      split; try done; by eapply certified_mono. }
  intros Hl Hc. destruct (Hstep _ _ _ _ Hl Hc) as [->|(t' & Hc' & Ht)]; [done|].
  destruct t; try done; subst t'; [done|].
  destruct (Hstep _ _ _ _ Hl Hc') as [|(t' & Hc'' & ->)]; done.
Qed.

Lemma certified_prepare_unique L v h1 h2 :
  honest_log L -> certified L Prepare v h1 -> certified L Prepare v h2 -> h1 = h2.
Proof.
  intros Hl H1 H2. destruct (certified_intersect _ _ _ _ _ _ _ _ H1 H2) as (i & _ & Hi1 & Hi2).
  by apply (honest_log_unique L _ _ Hl Hi1 Hi2).
Qed.

(** The heart of the argument: every node certified at or after the view of a
    commit certificate descends from the committed node.  By induction on the
    time at which the node was certified. *)
Lemma prepare_extends_commit Lc v1 h1 :
  honest_log Lc -> certified Lc Commit v1 h1 ->
  forall k L2 L1 v2 h2, (length L2 <= k)%nat -> Lc = L1 ++ L2 ->
    certified L2 Prepare v2 h2 -> v1 <= v2 -> extends known h2 h1.
Proof.
  intros Hl Hcommit k. induction k as [|k IH]; intros L2 L1 v2 h2 Hk -> Hprep Hv.
  { destruct L2; [|simpl in Hk; lia].
    by destruct (certified_voter _ _ _ _ Hprep) as (i & _ & ?%elem_of_nil). }
  destruct (decide (v1 = v2)) as [->|Hne].
  { replace h2 with h1; [apply rtc_refl|].
    eapply certified_prepare_unique; [exact Hl|by eapply certified_prepare|].
    eapply certified_mono; [|exact Hprep]. intros x Hx. apply elem_of_app. by right. }
  destruct (certified_intersect _ _ _ _ _ _ _ _ Hprep Hcommit) as (i & Hi & Hp & Hc).
  apply list_elem_of_split in Hp as (M1 & M2 & ->). rewrite app_assoc in Hl, Hc.
  apply (lower_view_before _ _ _ _ Hl) in Hc; [|done|simpl; lia].
  pose proof (ok_rule _ _ (honest_log_at _ _ _ Hl)) as Hr. simpl in Hr.
  destruct (Hr _ Hc eq_refl eq_refl) as (vl & hl & Hvl & Hlock & Hext). simpl in Hvl.
  assert (honest_log M2) as Hl2.
  { apply honest_log_suffix in Hl. by inversion Hl. }
  assert (length M2 <= k)%nat as Hlen by (rewrite length_app in Hk; simpl in Hk; lia).
  assert ((L1 ++ M1 ++ mkBallot i Prepare v2 h2 :: M2) =
    (L1 ++ M1 ++ [mkBallot i Prepare v2 h2]) ++ M2) as Heq by (by rewrite <- !app_assoc).
  assert (forall t v h, certified M2 t v h -> v1 <= v -> extends known h h1) as IH'.
  { intros t v h Hch Hle. eapply (IH M2 _ v h Hlen Heq); [|done].
    by eapply certified_prepare. }
  destruct Hext as [Hext|(t & vj & p & Hj & Hcj & Hpar)].
  - transitivity hl; [exact Hext|]. eapply IH'; [exact Hlock|done].
  - eapply rtc_l; [exact Hpar|]. eapply IH'; [exact Hcj|lia].
Qed.

Lemma commits_do_not_conflict L v1 h1 v2 h2 :
  honest_log L -> certified L Commit v1 h1 -> certified L Commit v2 h2 ->
  extends known h1 h2 \/ extends known h2 h1.
Proof.
  intros Hl H1 H2. assert (forall v h v' h', certified L Commit v h -> certified L Commit v' h' ->
    v <= v' -> extends known h' h) as Hle.
  { intros v h v' h' Hc Hc' Hv. eapply (prepare_extends_commit L v h Hl Hc (length L) L []); eauto.
    by eapply certified_prepare. }
  destruct (Z.le_ge_cases v1 v2); [right|left]; eauto.
Qed.
End with_faults.
End vote_log.

(** Knowing more nodes allows more ballots. *)
Lemma honest_log_known `{Sha256} n byz (K K' : Node -> Prop) L :
  (forall nd, K nd -> K' nd) -> honest_log n byz K L -> honest_log n byz K' L.
Proof.
  intros HK. induction 1 as [|b L Hl IH [Hv Ho Hr]]; constructor; [done|]. split; [done|done|].
  destruct (b_type b); try done. intros c Hc Hcv Hct.
  destruct (Hr c Hc Hcv Hct) as (vl & hl & Hle & Hcl & Hx). exists vl, hl. split_and!; [done|done|].
  destruct Hx as [Hx|(t & vj & p & Hj & Hcj & Hp)]; [left; by eapply extends_mono|right].
  exists t, vj, p. split_and!; [done|done|by eapply parent_link_mono].
Qed.
