(* ===== verification/Workload.v ===== *)
(** * Workload: node/consensus-node/src/workload.rs

    The on-disk workload: directory layout, manifest and block lookup. *)

From Stdlib Require Import ZArith Lia Ascii String.
From stdpp Require Import prelude strings gmap.
From S2P Require Import Prelude Crypto.
Open Scope Z_scope.

(** ** Paths and files

    A [PathBuf] is the list of its components; [join] appends one. *)
Abbreviation path := (list string).

Definition path_join (p : path) (c : string) : path := p ++ [c].

(** [fs::read] and [fs::read_to_string]; [None] is an I/O error. *)
Class FileSystem : Type := {
  fs_read : path -> option (list Z);
  fs_read_to_string : path -> option string
}.

(** ** Data *)

Record Manifest : Type := mkManifest {
  num_accounts : Z;
  initial_balance : Z;
  num_blocks : Z
}.

Record BlockMeta : Type := mkBlockMeta {
  meta_block_number : Z;
  meta_tx_hash : string;
  meta_txs_total : Z
}.

Record BlockRef : Type := mkBlockRef {
  block_cmd : list Z;
  block_meta : BlockMeta;
  block_txs_path : path;
  block_proof_path : path
}.

Record Workload : Type := mkWorkload { workload_dir : path; workload_manifest : Manifest }.

(** [serde_json::from_str] at the two types, and the [hex] crate. *)
Class Serde : Type := {
  parse_manifest : string -> option Manifest;
  parse_block_meta : string -> option BlockMeta;
  hex_encode : list Z -> string;
  (** [hex::decode_to_slice(s, &mut [0u8; 32])] *)
  hex_decode_32 : string -> option (list Z)
}.

Class HexLaws `{Serde} : Prop :=
  hex_decode_encode : forall h, is_hash h -> hex_decode_32 (hex_encode h) = Some h.

(** ** [format!("block_{:04}", height)] *)

(** The decimal digits of [z], least significant first; 20 digits are enough
    for a u64. *)
Fixpoint digits (fuel : nat) (z : Z) : list Z :=
  match fuel with
  | O => []
  | S fuel => if z <? 10 then [z] else z mod 10 :: digits fuel (z / 10)
  end.

Fixpoint digits_value (ds : list Z) : Z :=
  match ds with [] => 0 | d :: ds => d + 10 * digits_value ds end.

Definition digit_char (d : Z) : ascii := ascii_of_nat (Z.to_nat (48 + d)).

(** Zero padding to four digits on the left, longer numbers are kept. *)
Definition padded_digits (z : Z) : list Z :=
  let ds := digits 20 z in ds ++ replicate (4 - length ds) 0.

Definition block_dir_name (height : Z) : string :=
  String.append "block_" (string_of_list_ascii (rev (digit_char <$> padded_digits height))).

Section workload.
Context `{FileSystem, Serde}.

(** ** Operations *)

Definition workload_load (dir : path) : result Workload :=
  let! text := expect ExpectReadManifest (fs_read_to_string (path_join dir "manifest.json")) in
  let! manifest := expect ExpectParseManifest (parse_manifest text) in
  Ok (mkWorkload dir manifest).

Definition elf_path (w : Workload) : path := path_join (workload_dir w) "ledger-program.elf".

Definition block_at (dir : path) (height : Z) : result BlockRef :=
  let block_dir := path_join dir (block_dir_name height) in
  let! text := expect ExpectReadCommit (fs_read_to_string (path_join block_dir "commit.json")) in
  let! meta := expect ExpectParseCommit (parse_block_meta text) in
  if negb (meta_block_number meta =? height) then Panic WorkloadCorruption
  else
    let! cmd := expect InvalidTxHashHex (hex_decode_32 (meta_tx_hash meta)) in
    Ok (mkBlockRef cmd meta (path_join block_dir "transactions.bin")
          (path_join block_dir "proof.bin")).

Definition workload_block (w : Workload) (height : Z) : result BlockRef :=
  block_at (workload_dir w) height.

Lemma block_at_Ok dir h b :
  block_at dir h = Ok b ->
  meta_block_number (block_meta b) = h /\
  block_txs_path b = path_join (path_join dir (block_dir_name h)) "transactions.bin" /\
  block_proof_path b = path_join (path_join dir (block_dir_name h)) "proof.bin" /\
  hex_decode_32 (meta_tx_hash (block_meta b)) = Some (block_cmd b).
Proof.
  unfold block_at, expect. destruct (fs_read_to_string _) as [text|]; simpl; [|done].
  destruct (parse_block_meta text) as [meta|]; simpl; [|done].
  destruct (Z.eqb_spec (meta_block_number meta) h); simpl; [|done].
  destruct (hex_decode_32 _) as [c|] eqn:E; simpl; [|done].
  intros [= <-]. done.
Qed.
End workload.

(** ** Block directories of different heights are different *)

Lemma digits_value_digits fuel z :
  0 <= z < 10 ^ Z.of_nat fuel -> digits_value (digits fuel z) = z.
Proof.
  revert z. induction fuel as [|fuel IH]; intros z Hz; cbn [digits].
  { simpl in *. lia. }
  destruct (Z.ltb_spec z 10); cbn [digits_value]; [lia|].
  rewrite Nat2Z.inj_succ, Z.pow_succ_r in Hz by lia.
  pose proof (Z.div_mod z 10 ltac:(lia)). pose proof (Z.mod_pos_bound z 10 ltac:(lia)).
  rewrite IH; [lia|]. split; [apply Z.div_pos; lia|]. apply Z.div_lt_upper_bound; lia.
Qed.

Lemma digits_range fuel z : 0 <= z -> Forall (fun d => 0 <= d < 10) (digits fuel z).
Proof.
  revert z. induction fuel as [|fuel IH]; intros z Hz; cbn [digits]; [constructor|].
  destruct (Z.ltb_spec z 10); constructor; [lia|constructor|apply Z.mod_pos_bound; lia|].
  apply IH. apply Z.div_pos; lia.
Qed.

Lemma digits_value_pad ds k : digits_value (ds ++ replicate k 0) = digits_value ds.
Proof.
  induction ds as [|d ds IH]; simpl; [|by rewrite IH].
  induction k as [|k IH]; simpl; [done|]. by rewrite IH.
Qed.

Lemma digit_char_inj d1 d2 : 0 <= d1 < 10 -> 0 <= d2 < 10 -> digit_char d1 = digit_char d2 -> d1 = d2.
Proof.
  intros H1 H2 H. apply (f_equal nat_of_ascii) in H. unfold digit_char in H.
  rewrite !nat_ascii_embedding in H by lia. lia.
Qed.

Lemma digit_chars_inj l1 l2 :
  Forall (fun d => 0 <= d < 10) l1 -> Forall (fun d => 0 <= d < 10) l2 ->
  digit_char <$> l1 = digit_char <$> l2 -> l1 = l2.
Proof.
  intros H1. revert l2. induction H1 as [|d1 l1 Hd1 H1 IH]; intros l2 H2 Heq;
    destruct H2 as [|d2 l2 Hd2 H2]; [done..|].
  injection Heq as Hc Heq. f_equal; [by apply digit_char_inj|by apply IH].
Qed.

(** The directories of two different block heights have different names,
    for every pair of u64 heights (the padding to four digits never makes
    two heights collide). *)
Lemma block_dir_name_inj h1 h2 :
  is_u64 h1 -> is_u64 h2 -> block_dir_name h1 = block_dir_name h2 -> h1 = h2.
Proof.
  intros Hu1 Hu2 Heq. unfold block_dir_name in Heq.
  injection Heq as Heq.
  change (string_of_list_ascii (rev (digit_char <$> padded_digits h1)) =
          string_of_list_ascii (rev (digit_char <$> padded_digits h2))) in Heq.
  apply (f_equal list_ascii_of_string) in Heq.
  rewrite !list_ascii_of_string_of_list_ascii in Heq.
  apply (f_equal (@rev ascii)) in Heq. rewrite !rev_involutive in Heq.
  assert (forall h, is_u64 h -> Forall (fun d => 0 <= d < 10) (padded_digits h)) as Hr.
  { intros h Hh. unfold padded_digits. apply Forall_app. unfold is_u64 in Hh.
    split; [apply digits_range; lia|]. apply Forall_replicate. lia. }
  apply digit_chars_inj in Heq; [|auto..]. apply (f_equal digits_value) in Heq.
  unfold padded_digits in Heq. unfold is_u64 in *. change (10 ^ Z.of_nat 20) with (10 ^ 20) in *.
  rewrite !digits_value_pad, !digits_value_digits in Heq by (simpl; lia). done.
Qed.

Lemma block_dir_name_inj_witness : block_dir_name 12 <> block_dir_name 120000.
Proof.
  intros H. assert (12 = 120000) as Hne by (apply block_dir_name_inj; [decide_now|decide_now|exact H]).
  discriminate Hne.
Defined.
