(* ===== verification/Logging.v ===== *)
(** * Logging: node/consensus-node/src/logging.rs

    The one-line event log, which is what the experiment's harness reads: the
    text of a line, and that it can be read back. *)

From Stdlib Require Import ZArith Lia Ascii String.
From stdpp Require Import prelude strings.
From S2P Require Import Prelude Workload.
Open Scope Z_scope.
Local Open Scope string_scope.

(** ** Text *)

(** [s.split(c)] *)
Fixpoint split_on (sep : ascii) (s : string) : list string :=
  match s with
  | EmptyString => [EmptyString]
  | String c s =>
      if decide (c = sep) then EmptyString :: split_on sep s
      else match split_on sep s with
           | x :: xs => String c x :: xs
           | [] => [String c EmptyString]
           end
  end.

(** The decimal digits of a u64. *)
Definition decimal (z : Z) : string := string_of_list_ascii (rev (digit_char <$> digits 20 z)).

(** ** Data: the values of a [serde_json::Value] *)

Inductive Json : Type :=
  | JNull
  | JBool (b : bool)
  | JNumber (n : Z)
  | JString (s : string)
  | JArray (items : list Json)
  | JObject (entries : list (string * Json)).

Section logging.
(** [Value::to_string], of the serde_json crate. *)
Context (to_string : Json -> string).

Definition extra_text (v : Json) : string :=
  match v with JString s => s | other => to_string other end.

(** ** Operations *)

(** The entries of an object, in the order of the map; other values are
    ignored. *)
Definition extra_str (extras : Json) : string :=
  match extras with
  | JObject entries =>
      foldl (fun acc kv => acc +:+ " " +:+ kv.1 +:+ "=" +:+ extra_text kv.2) "" entries
  | _ => ""
  end.

(** The printed line; [ts] is [now_ns()]. *)
Definition log_event (node_id view : Z) (event : string) (extras : Json) (ts : Z) : string :=
  "[node " +:+ decimal node_id +:+ "] view=" +:+ decimal view +:+ " " +:+ event +:+
  " ts_ns=" +:+ decimal ts +:+ extra_str extras.

(** ** Reading a line *)

(** A record of the log. *)
Record LogRecord : Type := mkLogRecord {
  log_node : Z;
  log_view : Z;
  log_name : string;
  log_ts : Z;
  log_extras : list (string * string)
}.

Definition char_digit (c : ascii) : option Z :=
  let d := (Z.of_nat (nat_of_ascii c) - 48)%Z in
  if ((0 <=? d) && (d <? 10))%Z then Some d else None.

Definition read_decimal (s : string) : option Z :=
  (fun ds => digits_value (rev ds)) <$> mapM char_digit (list_ascii_of_string s).

Fixpoint strip_prefix (p s : string) : option string :=
  match p, s with
  | EmptyString, _ => Some s
  | String c p, String d s => if decide (c = d) then strip_prefix p s else None
  | String _ _, EmptyString => None
  end.

(** [k=v], at the first [=]. *)
Fixpoint split_eq (s : string) : option (string * string) :=
  match s with
  | EmptyString => None
  | String c s =>
      if decide (c = "="%char) then Some ("", s)
      else (fun kv => (String c kv.1, kv.2)) <$> split_eq s
  end.

Definition read_log (line : string) : option LogRecord :=
  match split_on " " line with
  | tag :: id :: view :: event :: ts :: extras =>
      match split_on "]" id with
      | [id; close] =>
          guard (tag = "[node" /\ close = "");;
          node ← read_decimal id;
          v ← strip_prefix "view=" view ≫= read_decimal;
          t ← strip_prefix "ts_ns=" ts ≫= read_decimal;
          kvs ← mapM split_eq extras;
          Some (mkLogRecord node v event t kvs)
      | _ => None
      end
  | _ => None
  end.

(** ** Splitting *)

Abbreviation chars := list_ascii_of_string.

Lemma str_cons x (a b : string) : String x a +:+ b = String x (a +:+ b).
Proof. done. Qed.

Lemma str_nil (a : string) : a +:+ "" = a.
Proof. induction a as [|c a IH]; [done|]. by rewrite str_cons, IH. Qed.

Lemma str_assoc (a b c : string) : (a +:+ b) +:+ c = a +:+ (b +:+ c).
Proof. induction a as [|x a IH]; [done|]. rewrite !str_cons. cbn. by rewrite IH. Qed.

Lemma chars_app a b : chars (a +:+ b) = (chars a ++ chars b)%list.
Proof. induction a as [|x a IH]; [done|]. rewrite !str_cons. cbn. by rewrite IH. Qed.

Lemma split_on_cons sep c s :
  split_on sep (String c s) =
  if decide (c = sep) then "" :: split_on sep s
  else match split_on sep s with x :: xs => String c x :: xs | [] => [String c ""] end.
Proof. done. Qed.

Lemma split_on_whole sep s : sep ∉ chars s -> split_on sep s = [s].
Proof.
  induction s as [|c s IH]; [done|]. intros [Hc Hs]%not_elem_of_cons.
  rewrite split_on_cons, decide_False by done. by rewrite IH.
Qed.

Lemma split_on_word sep w rest :
  sep ∉ chars w -> split_on sep (w +:+ String sep rest) = w :: split_on sep rest.
Proof.
  induction w as [|c w IH]; [intros _|intros [Hc Hw]%not_elem_of_cons].
  { change ("" +:+ ?x) with x. by rewrite split_on_cons, decide_True. }
  rewrite str_cons, split_on_cons, decide_False by done. by rewrite IH.
Qed.

(** ** Numbers *)

Lemma char_digit_char d : (0 <= d < 10)%Z -> char_digit (digit_char d) = Some d.
Proof.
  intros Hd. unfold char_digit, digit_char. rewrite nat_ascii_embedding by lia.
  replace (Z.of_nat (Z.to_nat (48 + d)) - 48)%Z with d by lia.
  destruct (Z.leb_spec 0 d), (Z.ltb_spec d 10); [done|lia..].
Qed.

Lemma decimal_chars z : chars (decimal z) = rev (digit_char <$> digits 20 z).
Proof. apply list_ascii_of_string_of_list_ascii. Qed.

Lemma decimal_digits z c : (0 <= z)%Z -> c ∈ chars (decimal z) -> is_Some (char_digit c).
Proof.
  intros Hz. rewrite decimal_chars, list_elem_of_In, <- in_rev, <- list_elem_of_In, list_elem_of_fmap.
  intros (d & -> & Hd). pose proof (proj1 (Forall_forall _ _) (digits_range 20 z Hz) d Hd).
  rewrite char_digit_char by done. by eexists.
Qed.

Lemma read_decimal_decimal z : is_u64 z -> read_decimal (decimal z) = Some z.
Proof.
  intros Hz. unfold read_decimal. rewrite decimal_chars, <- map_rev.
  assert (forall l, Forall (fun d => (0 <= d < 10)%Z) l -> mapM char_digit (map digit_char l) = Some l) as Hm.
  { intros l Hl. induction Hl as [|d l Hd Hl IH]; [done|]. cbn. rewrite char_digit_char by done. cbn.
    cbn in IH. by rewrite IH. }
  rewrite Hm; [|apply Forall_rev, digits_range; unfold is_u64 in Hz; lia].
  change (Some (digits_value (rev (rev (digits 20 z)))) = Some z).
  rewrite rev_involutive, digits_value_digits; [done|]. unfold is_u64 in Hz.
  change (10 ^ Z.of_nat 20)%Z with (10 ^ 20)%Z. lia.
Qed.

(** ** Entries *)

Lemma strip_prefix_app p s : strip_prefix p (p +:+ s) = Some s.
Proof. induction p as [|c p IH]; [done|]. rewrite str_cons. cbn. by rewrite decide_True. Qed.

Lemma split_eq_entry k v : "="%char ∉ chars k -> split_eq (k +:+ String "=" v) = Some (k, v).
Proof.
  induction k as [|c k IH]; [done|]. intros [Hc Hk]%not_elem_of_cons.
  rewrite str_cons. cbn. rewrite decide_False by done. by rewrite IH.
Qed.

(** A key without space or [=], a value without space. *)
Definition entry_ok (kv : string * Json) : Prop :=
  (" "%char ∉ chars kv.1) /\ ("="%char ∉ chars kv.1) /\ " "%char ∉ chars (extra_text kv.2).

Definition entry_word (kv : string * Json) : string := kv.1 +:+ String "=" (extra_text kv.2).

Lemma extra_str_entries acc entries :
  foldl (fun acc kv => acc +:+ " " +:+ kv.1 +:+ "=" +:+ extra_text kv.2) acc entries =
  acc +:+ foldr (fun kv rest => String " " (entry_word kv +:+ rest)) "" entries.
Proof.
  revert acc. induction entries as [|kv entries IH]; intros acc; cbn [foldl foldr].
  - by rewrite str_nil.
  - rewrite IH, str_assoc. done.
Qed.

Lemma entry_word_ok kv : entry_ok kv -> " "%char ∉ chars (entry_word kv).
Proof.
  intros (Hk & _ & Hv). unfold entry_word. rewrite chars_app, elem_of_app. cbn. rewrite elem_of_cons. naive_solver.
Qed.

Lemma split_entries w entries :
  " "%char ∉ chars w -> Forall entry_ok entries ->
  split_on " " (w +:+ foldr (fun kv rest => String " " (entry_word kv +:+ rest)) "" entries) =
  w :: (entry_word <$> entries).
Proof.
  intros Hw He. revert w Hw. induction He as [|kv entries Hkv He IH]; intros w Hw; cbn [foldr].
  - rewrite str_nil. by apply split_on_whole.
  - rewrite split_on_word by done. cbn [fmap list_fmap]. f_equal. apply IH. by apply entry_word_ok.
Qed.

Lemma mapM_entries entries :
  Forall entry_ok entries ->
  mapM split_eq (entry_word <$> entries) = Some ((fun kv => (kv.1, extra_text kv.2)) <$> entries).
Proof.
  intros He. apply mapM_Some, Forall2_fmap_2, Forall_Forall2_diag.
  eapply Forall_impl; [exact He|]. intros kv (_ & Hk & _). by apply split_eq_entry.
Qed.

(** C32: the log can be read back: a printed line of a typed event whose name and
    entries hold no space (and whose keys hold no [=]) determines the node,
    the view, the event, the time and every entry, in order. *)
Theorem log_event_roundtrip node_id view event entries ts :
  is_u32 node_id -> is_u64 view -> is_u64 ts -> " "%char ∉ chars event -> Forall entry_ok entries ->
  read_log (log_event node_id view event (JObject entries) ts) =
  Some (mkLogRecord node_id view event ts ((fun kv => (kv.1, extra_text kv.2)) <$> entries)).
Proof.
  intros Hn Hv Ht He Hes. unfold is_u32 in Hn.
  assert (forall z c, is_u64 z -> char_digit c = None -> c ∉ chars (decimal z)) as Hdec.
  { intros z c Hz Hc Hin. apply decimal_digits in Hin as [d Hd]; [congruence|]. unfold is_u64 in Hz. lia. }
  assert (is_u64 node_id) as Hn' by (unfold is_u64; lia).
  unfold read_log, log_event. cbn [extra_str]. rewrite extra_str_entries.
  change ("" +:+ ?x) with x. change ("[node " +:+ ?x) with ("[node" +:+ String " " x). rewrite split_on_word by decide_now.
  change ("] view=" +:+ ?x) with (("]" +:+ String " " ("view=" +:+ x))).
  rewrite <- str_assoc, split_on_word; cycle 1.
  { rewrite chars_app, elem_of_app. intros [Hin|Hin]; [by apply Hdec in Hin|]. by apply list_elem_of_singleton in Hin. }
  change (" " +:+ ?x) with (String " " x). rewrite <- str_assoc, split_on_word; cycle 1.
  { rewrite chars_app, elem_of_app. intros [Hin|Hin]; [|by apply Hdec in Hin].
    cbn in Hin. rewrite !elem_of_cons, elem_of_nil in Hin. naive_solver. }
  change (" ts_ns=" +:+ ?x) with (String " " ("ts_ns=" +:+ x)). rewrite split_on_word by done.
  rewrite <- str_assoc, split_entries; [|
    rewrite chars_app, elem_of_app; intros [Hin|Hin];
      [cbn in Hin; rewrite !elem_of_cons, elem_of_nil in Hin; naive_solver|by apply Hdec in Hin]|done].
  change ("]" +:+ "") with (String "]" ""). rewrite split_on_word by (by apply Hdec). cbn [split_on].
  rewrite !strip_prefix_app, option_guard_True by done.
  rewrite read_decimal_decimal by done. cbn [mbind option_bind].
  rewrite !read_decimal_decimal by done. cbn [mbind option_bind].
  by rewrite mapM_entries.
Qed.
End logging.

Definition sample_json (v : Json) : string :=
  match v with JNull => "null" | JBool b => if b then "true" else "false" | JNumber n => decimal n | _ => "" end.

Example log_line :
  log_event sample_json 2 7 "decide" (JObject [("height", JNumber 12); ("mode", JString "verify")]) 1000 =
  "[node 2] view=7 decide ts_ns=1000 height=12 mode=verify".
Proof. vm_compute. reflexivity. Qed.

Lemma log_event_roundtrip_witness :
  read_log (log_event sample_json 2 7 "decide" (JObject [("height", JNumber 12); ("mode", JString "verify")]) 1000) =
  Some (mkLogRecord 2 7 "decide" 1000 [("height", "12"); ("mode", "verify")]).
Proof.
  apply (log_event_roundtrip sample_json 2 7 "decide" [("height", JNumber 12); ("mode", JString "verify")] 1000);
    try (vm_compute; split; congruence).
  - by apply (bool_decide_unpack _).
  - repeat constructor; by apply (bool_decide_unpack _).
Defined.
