(* ===== verification/Zk.v ===== *)
(** * Zk: zkvm/program/src/main.rs and the interface of the SP1 SDK

    The guest program whose execution the proofs attest, and what the other
    components rely on of the proof system. *)

From Stdlib Require Import ZArith Lia.
From stdpp Require Import prelude strings gmap.
From S2P Require Import Prelude Crypto Ledger.
Open Scope Z_scope.

(** ** The guest program

    [main] reads the state and the transactions from its input and commits
    the two roots and the transaction hash. *)
Definition ledger_program `{Sha256} (state : State) (txs : list Tx) : result BlockCommit :=
  let! pre_root := compute_state_root state in
  let tx_hash := hash_transactions txs in
  let new_state := (apply_block state txs).1 in
  let! post_root := compute_state_root new_state in
  Ok (mkBlockCommit pre_root post_root tx_hash).

(** ** sp1-sdk and bincode, at the types of a workload *)
Class Sp1 : Type := {
  sp1_proof : Type;
  sp1_vkey : Type;
  (** the compiled guest program, and [client.setup(elf)] with its verifying key *)
  ledger_elf : list Z;
  sp1_setup : list Z -> option sp1_vkey;
  (** [client.verify(&proof, vkey, None).is_ok()] *)
  sp1_verify : sp1_vkey -> sp1_proof -> bool;
  (** [proof.public_values.clone().read::<BlockCommit>()] *)
  public_values_read : sp1_proof -> option BlockCommit;
  (** [client.prove(&pk, stdin)] with the state and the transactions on stdin *)
  sp1_prove : State -> list Tx -> option sp1_proof;
  serialize_txs : list Tx -> list Z;
  deserialize_txs : list Z -> option (list Tx);
  serialize_proof : sp1_proof -> list Z;
  deserialize_proof : list Z -> option sp1_proof
}.

(** [vk] is the verifying key of the guest program. *)
Definition is_ledger_vkey `{Sp1} (vk : sp1_vkey) : Prop := sp1_setup ledger_elf = Some vk.

(** Soundness: a verified proof carries the output of some run of the guest. *)
Class Sp1Sound `{Sha256, Sp1} : Prop :=
  sp1_sound : forall vk pi, is_ledger_vkey vk -> sp1_verify vk pi = true ->
    exists s txs c, ledger_program s txs = Ok c /\ public_values_read pi = Some c.

(** Completeness: a generated proof verifies and carries the guest's output
    on the given input; and bincode round trips. *)
Class Sp1Complete `{Sha256, Sp1} : Prop := {
  sp1_prove_ok : forall vk s txs pi, is_ledger_vkey vk -> sp1_prove s txs = Some pi ->
    sp1_verify vk pi = true /\
    exists c, ledger_program s txs = Ok c /\ public_values_read pi = Some c;
  deserialize_serialize_txs : forall txs, deserialize_txs (serialize_txs txs) = Some txs;
  deserialize_serialize_proof : forall pi, deserialize_proof (serialize_proof pi) = Some pi
}.

(** ** Properties *)

Section program.
Context `{Sha256}.

Lemma set_balance_size s a b :
  (size (balances (set_balance s a b)) <= S (size (balances s)))%nat.
Proof.
  unfold set_balance; simpl. destruct (balances s !! a) eqn:E.
  - rewrite map_size_insert_Some by eauto. lia.
  - rewrite map_size_insert_None by done. lia.
Qed.

(** A transaction creates at most two accounts. *)
Lemma apply_txs_size txs s k :
  (size (balances (foldl apply_tx (s, k) txs).1) <= size (balances s) + 2 * length txs)%nat.
Proof.
  revert s k. induction txs as [|tx txs IH]; intros s k; cbn [foldl length]; [simpl; lia|].
  destruct (apply_tx (s, k) tx) as [s1 k1] eqn:E. etransitivity; [apply IH|].
  assert (size (balances s1) <= S (S (size (balances s))))%nat; [|lia].
  unfold apply_tx in E. destruct (tx_applies _ tx); simplify_eq; [|lia].
  etransitivity; [apply set_balance_size|]. apply le_n_S, set_balance_size.
Qed.

Lemma ledger_program_total s txs :
  Z.of_nat (size (balances s)) + 2 * Z.of_nat (length txs) <= 2 ^ 31 ->
  exists c, ledger_program s txs = Ok c /\
    compute_state_root s = Ok (pre_state_root c) /\
    compute_state_root (apply_block s txs).1 = Ok (post_state_root c) /\
    tx_hash c = hash_transactions txs.
Proof.
  intros Hs. pose proof (apply_txs_size txs s 0) as Hsz. fold (apply_block s txs) in Hsz.
  unfold ledger_program. rewrite !compute_state_root_mtree by lia. simpl. eauto 10.
Qed.

(** C29: the guest program does not panic on any input of a bounded number of
    accounts and transactions, and it commits exactly the root of the input
    state, the root of the state [apply_block] produces, and the hash of the
    transactions it applied. *)
Theorem ledger_program_correct s txs :
  Z.of_nat (size (balances s)) + 2 * Z.of_nat (length txs) <= 2 ^ 31 ->
  exists c, ledger_program s txs = Ok c /\
    compute_state_root s = Ok (pre_state_root c) /\
    compute_state_root (apply_block s txs).1 = Ok (post_state_root c) /\
    tx_hash c = hash_transactions txs.
Proof. apply ledger_program_total. Qed.
End program.

Lemma ledger_program_correct_witness :
  exists c, @ledger_program toy_sha256 two_accounts two_transfers = Ok c /\
    @compute_state_root toy_sha256 two_accounts = Ok (pre_state_root c).
Proof.
  destruct (@ledger_program_correct toy_sha256 two_accounts two_transfers) as (c & Hc & Hp & _).
  - vm_compute. discriminate.
  - exists c. split; [exact Hc|exact Hp].
Defined.

(** ** A proof system that computes: a proof is the guest's input, and
    verification runs the guest. *)

#[global] Instance Tx_countable : Countable Tx.
Proof.
  refine (inj_countable' (fun tx => (from tx, to tx, amount tx)) (fun '(f, t, a) => mkTx f t a) _).
  by intros [].
Defined.

#[global] Instance State_countable : Countable State.
Proof. refine (inj_countable' balances mkState _). by intros []. Defined.

Definition ok_value {A} (c : result A) : option A :=
  match c with Ok a => Some a | Panic _ => None end.

Definition toy_encode {A} `{Countable A} (x : A) : list Z := [Zpos (encode x)].
Definition toy_decode {A} `{Countable A} (bs : list Z) : option A :=
  match bs with [Zpos p] => decode p | _ => None end.

Lemma toy_decode_encode {A} `{Countable A} (x : A) : toy_decode (toy_encode x) = Some x.
Proof. apply decode_encode. Qed.

Definition toy_sp1 `{Sha256} : Sp1 := {|
  sp1_proof := State * list Tx;
  sp1_vkey := unit;
  ledger_elf := [];
  sp1_setup _ := Some tt;
  sp1_verify _ pi := is_Ok (ledger_program pi.1 pi.2);
  public_values_read pi := ok_value (ledger_program pi.1 pi.2);
  sp1_prove s txs := if is_Ok (ledger_program s txs) then Some (s, txs) else None;
  serialize_txs := toy_encode;
  deserialize_txs := toy_decode;
  serialize_proof := toy_encode;
  deserialize_proof := toy_decode
|}.

Lemma toy_sp1_sound `{Sha256} : @Sp1Sound _ toy_sp1.
Proof.
  intros vk [s txs] _. simpl. destruct (ledger_program s txs) as [c|] eqn:E; [|done].
  intros _. eauto.
Qed.

Lemma toy_sp1_complete `{Sha256} : @Sp1Complete _ toy_sp1.
Proof.
  split; [|apply toy_decode_encode|apply toy_decode_encode].
  intros vk s txs pi _. simpl. destruct (ledger_program s txs) as [c|] eqn:E; [|done].
  intros [= <-]. simpl. rewrite E. eauto.
Qed.
