(* ===== verification/Validator.v ===== *)
(** * Validator: node/consensus-node/src/validator.rs

    Block validation, by re-execution or by verifying an SP1 proof.  Timing
    ([elapsed], the injected sleep) is not part of the model. *)

From Stdlib Require Import ZArith Lia.
From stdpp Require Import prelude strings gmap.
From S2P Require Import Prelude Crypto Ledger Workload Zk.
Open Scope Z_scope.

(** ** Data *)

Inductive Validator `{Sp1} : Type :=
  | Reexecute (slow_delay_per_tx_ns : Z)
  | Verify (vkey : sp1_vkey).

Definition validator_kind `{Sp1} (v : Validator) : string :=
  match v with Reexecute _ => "reexec" | Verify _ => "verify" end.

Record ValidateRequest : Type := mkValidateRequest {
  req_node_hash : list Z;
  req_height : Z;
  req_txs_path : path;
  req_proof_path : path;
  req_txs_total : Z
}.

Record ValidateOutcome : Type := mkValidateOutcome {
  out_node_hash : list Z;
  out_height : Z;
  out_valid : bool;
  out_post_state : option State;
  out_post_root : option (list Z);
  out_pre_root : option (list Z)
}.

(** ** Operations *)

Definition invalid_outcome (req : ValidateRequest) : ValidateOutcome :=
  mkValidateOutcome (req_node_hash req) (req_height req) false None None None.

Definition run_validation `{FileSystem, Sp1} (req : ValidateRequest)
    (state_snapshot : State) (v : Validator) : result ValidateOutcome :=
  match v with
  | Reexecute _ =>
      match fs_read (req_txs_path req) with
      | None => Ok (invalid_outcome req)
      | Some txs_bytes =>
          match deserialize_txs txs_bytes with
          | None => Ok (invalid_outcome req)
          | Some txs =>
              let s := (apply_block state_snapshot txs).1 in
              Ok (mkValidateOutcome (req_node_hash req) (req_height req) true (Some s) None None)
          end
      end
  | Verify vkey =>
      match fs_read (req_proof_path req) with
      | None => Ok (invalid_outcome req)
      | Some proof_bytes =>
          match deserialize_proof proof_bytes with
          | None => Ok (invalid_outcome req)
          | Some proof =>
              if negb (sp1_verify vkey proof) then Ok (invalid_outcome req)
              else
                let! commit := expect PublicValuesRead (public_values_read proof) in
                Ok (mkValidateOutcome (req_node_hash req) (req_height req) true None
                      (Some (post_state_root commit)) (Some (pre_state_root commit)))
          end
      end
  end.

(** ** Properties *)

Section validator.
Context `{Sha256, FileSystem, Sp1}.

(** C30: proof verification accepts the proof of another block: nothing
    compares the transaction hash that a proof commits to with the
    transactions of the request.  For every request whose proof file holds a
    proof made for the block [txs] on the state [s], while its transactions
    file holds a block with a different transaction hash, verification
    reports the request valid with the roots of [txs], and re-execution
    reports it valid with the state after the transactions of the request. *)
Theorem other_proof_accepted `{!Sp1Complete} req vk s txs pi txs' snapshot delay :
  is_ledger_vkey vk -> sp1_prove s txs = Some pi ->
  fs_read (req_proof_path req) = Some (serialize_proof pi) ->
  fs_read (req_txs_path req) = Some (serialize_txs txs') ->
  hash_transactions txs' <> hash_transactions txs ->
  (exists out c pre post, run_validation req snapshot (Verify vk) = Ok out /\ out_valid out = true /\
     out_pre_root out = Some pre /\ compute_state_root s = Ok pre /\
     out_post_root out = Some post /\ compute_state_root (apply_block s txs).1 = Ok post /\
     public_values_read pi = Some c /\ tx_hash c <> hash_transactions txs') /\
  (exists out, run_validation req s (Reexecute delay) = Ok out /\ out_valid out = true /\
     out_post_state out = Some (apply_block s txs').1).
Proof.
  intros Hvk Hpi Hproof Htxs Hne. unfold run_validation. rewrite Hproof, Htxs.
  rewrite deserialize_serialize_proof, deserialize_serialize_txs.
  destruct (sp1_prove_ok vk s txs pi Hvk Hpi) as (-> & c & Hp & ->). cbn. split; [|by eexists].
  unfold ledger_program in Hp.
  apply result_bind_Ok in Hp as (pre & Hpre & (post & Hpost & [= <-])%result_bind_Ok).
  eexists _, _, pre, post. by split_and!.
Qed.
End validator.

(** The proof of [two_transfers] in place of the proof of a single transfer. *)
Definition swapped_files : FileSystem := {|
  fs_read p := Some (if bool_decide (p = ["proof"%string]) then toy_encode (two_accounts, two_transfers)
                     else toy_encode [mkTx 1 0 7]);
  fs_read_to_string _ := None
|}.

Lemma other_proof_accepted_witness :
  exists out, @run_validation swapped_files (@toy_sp1 toy_sha256)
    (mkValidateRequest [] 0 ["txs"%string] ["proof"%string] 1) new_state (@Verify (@toy_sp1 toy_sha256) tt) = Ok out /\
    out_valid out = true.
Proof.
  destruct (@other_proof_accepted toy_sha256 swapped_files (@toy_sp1 toy_sha256) toy_sp1_complete
    (mkValidateRequest [] 0 ["txs"%string] ["proof"%string] 1) tt two_accounts two_transfers (two_accounts, two_transfers)
    [mkTx 1 0 7] new_state 0) as [(out & c & pre & post & Hrun & Hv & _) _].
  - reflexivity.
  - vm_compute. reflexivity.
  - reflexivity.
  - reflexivity.
  - vm_compute. discriminate.
  - exists out. split; [exact Hrun|exact Hv].
Defined.
