(* ===== verification/Wiring.v ===== *)
(** * Wiring: the context of the consensus module (consensus/mod.rs)

    The handles every rule and handler reads, the state they thread, and the
    effects they have on the rest of the process.  An operation is a function
    [Sys -> result Sys]; [let!] sequences operations. *)

From Stdlib Require Import ZArith Lia.
From stdpp Require Import prelude strings gmap.
From S2P Require Import Prelude Crypto Ledger Messages Replica Workload Validator.
Open Scope Z_scope.

(** The fields of [Wiring] that are data; the channel and socket handles
    ([peers], [timer_tx], [val_req_tx]) are what [Effect] records. *)
Record Wiring `{SigScheme} : Type := mkWiring {
  my_id : Z;
  w_sk : signing_key;
  w_workload : Workload;
  timeout_base_ms : Z
}.

(** What an operation asks of the rest of the process:
    - [broadcast], [send_to] and [arm_timer] of network.rs,
    - a request sent on [val_req_tx],
    - the ["execute"] event of the log,
    - [Signed]: a record that [sign_vote] was called, for the proofs. *)
Inductive Effect : Type :=
  | Broadcast (m : Wire)
  | SendTo (peer : Z) (m : Wire)
  | ArmTimer (evt : TimerEvent) (ms : Z)
  | SubmitValidation (req : ValidateRequest) (input_state : State)
  | LogExecute (h : Z) (nh : list Z)
  | Signed (t : MsgType) (v : Z) (nh : list Z).

(** [rs], [live_state] and [chained_root] of main.rs, and the effects so far,
    the latest first. *)
Record Sys : Type := mkSys {
  rs : ReplicaState;
  live_state : State;
  chained_root : list Z;
  effects : list Effect
}.

Definition with_rs (r : ReplicaState) (s : Sys) : Sys :=
  mkSys r (live_state s) (chained_root s) (effects s).
Definition with_live_state (l : State) (s : Sys) : Sys :=
  mkSys (rs s) l (chained_root s) (effects s).
Definition with_chained_root (c : list Z) (s : Sys) : Sys :=
  mkSys (rs s) (live_state s) c (effects s).
Definition with_effects (es : list Effect) (s : Sys) : Sys :=
  mkSys (rs s) (live_state s) (chained_root s) es.
Definition emit (e : Effect) (s : Sys) : Sys :=
  mkSys (rs s) (live_state s) (chained_root s) (e :: effects s).

(** An update of the replica state. *)
Definition upd (f : ReplicaState -> ReplicaState) (s : Sys) : Sys := with_rs (f (rs s)) s.

(** The nodes proposed in a list of effects. *)
Definition proposals (es : list Effect) : list Node :=
  omap (fun e => match e with Broadcast (Proposal _ nd _ _) => Some nd | _ => None end) es.

(** ** Preservation through sequencing *)

(** An operation preserves a predicate, when it returns. *)
Definition preserves (P : Sys -> Prop) (op : Sys -> result Sys) : Prop :=
  forall s s', P s -> op s = Ok s' -> P s'.

Lemma preserves_bind P op k :
  preserves P op -> preserves P k -> preserves P (fun s => let! s' := op s in k s').
Proof. intros H1 H2 s s' Hs (s1 & E1 & E2)%result_bind_Ok. eauto. Qed.

Lemma preserves_ret P : preserves P Ok.
Proof. intros s s' Hs [= <-]. done. Qed.

Lemma preserves_fold {A} P (f : A -> Sys -> result Sys) l :
  (forall a, a ∈ l -> preserves P (f a)) -> preserves P (result_fold f l).
Proof.
  intros Hf s s' Hs Hr. eapply result_fold_preserves; [|exact Hs|exact Hr].
  intros a s1 s2 Ha. by apply Hf.
Qed.

Create HintDb preserve.
#[export] Hint Resolve preserves_bind preserves_ret : preserve.
