(* ===== verification/Execute.v ===== *)
(** * Execute: node/consensus-node/src/consensus/execute.rs

    Submitting blocks to the validator and applying committed nodes. *)

From Stdlib Require Import ZArith Lia.
From stdpp Require Import prelude strings gmap.
From S2P Require Import Prelude Crypto Ledger Messages Replica Workload Validator Wiring.
Open Scope Z_scope.

Section execute.
Context `{Sha256, SigScheme, FileSystem, Serde}.

(** ** Submitting validations *)

(** The input state of a validation, or [None] to defer or skip it. *)
Definition validation_input (r : ReplicaState) (live : State) (node : Node) : option State :=
  if decide (parent node = GENESIS_HASH) then
    if 0 <=? last_executed_height r then None else Some live
  else
    match tree r !! parent node with
    | Some parent_node =>
        let parent_h := as_i64 (height parent_node) in
        if parent_h <=? last_executed_height r then Some live
        else post_state_by_node r !! parent node
    | None => None
    end.

Definition maybe_kick_validation (w : Wiring) (leaf_hash : list Z) (s : Sys) : result Sys :=
  let r := rs s in
  match validation_result r !! leaf_hash with
  | Some _ => Ok s
  | None =>
      if decide (pending_validation r = Some leaf_hash) then Ok s
      else match tree r !! leaf_hash with
      | None => Ok s
      | Some node =>
          let! block := workload_block (w_workload w) (height node) in
          if negb (bool_decide (block_cmd block = cmd node)) then Ok s
          else match validation_input r (live_state s) node with
          | None => Ok s
          | Some input_state =>
              let req := mkValidateRequest leaf_hash (height node) (block_txs_path block)
                           (block_proof_path block) (meta_txs_total (block_meta block)) in
              Ok (emit (SubmitValidation req input_state)
                    (upd (set_pending_validation (Some leaf_hash)) s))
          end
      end
  end.

(** ** Executing the committed chain *)

(** The [while let] loop of [try_execute_chain], in push order.  A walk longer
    than the tree has entries revisits a node and never ends. *)
Fixpoint build_chain (fuel : nat) (t : gmap (list Z) Node) (last : Z) (cur : list Z)
    : result (list (list Z)) :=
  match fuel with
  | O => Panic LoopForever
  | S fuel =>
      match t !! cur with
      | None => Ok []
      | Some node =>
          if as_i64 (height node) <=? last then Ok []
          else if decide (parent node = GENESIS_HASH) then Ok [cur]
          else let! rest := build_chain fuel t last (parent node) in Ok (cur :: rest)
      end
  end.

(** [if let Some(ps) = rs.post_state_by_node.remove(&nh) { *live_state = ps; }] *)
Definition take_post_state (nh : list Z) (s : Sys) : Sys :=
  match post_state_by_node (rs s) !! nh with
  | Some ps =>
      with_live_state ps
        (upd (set_post_state_by_node (delete nh (post_state_by_node (rs s)))) s)
  | None => s
  end.

(** The verify-mode chain check and the advance of [chained_root]. *)
Definition advance_root (nh : list Z) (target_height : Z) (s : Sys) : result Sys :=
  match pre_root_by_node (rs s) !! nh with
  | Some pre =>
      if (0 <? target_height) && negb (bool_decide (pre = chained_root s)) then Panic ChainBreak
      else match post_root_by_node (rs s) !! nh with
           | Some pr =>
               Ok (with_chained_root pr
                     (upd (set_post_root_by_node (delete nh (post_root_by_node (rs s)))) s))
           | None => Ok s
           end
  | None => Ok s
  end.

(** The part of the loop body that advances the state for a validated node. *)
Definition execute_node (nh : list Z) (target_height : Z) (s : Sys) : result Sys :=
  let! s := advance_root nh target_height (take_post_state nh s) in
  Ok (emit (LogExecute target_height nh) (upd (set_last_executed_height (as_i64 target_height)) s)).

(** The [for nh in chain] loop. *)
Fixpoint execute_loop (w : Wiring) (chain : list (list Z)) (s : Sys) : result Sys :=
  match chain with
  | [] => Ok s
  | nh :: chain =>
      let! node := expect ChainNodeMissing (tree (rs s) !! nh) in
      let target_height := height node in
      if negb (as_i64 target_height =? last_executed_height (rs s) + 1) then Ok s
      else match validation_result (rs s) !! nh with
      | Some true =>
          let! s := execute_node nh target_height s in
          execute_loop w chain s
      | Some false => Ok s
      | None => maybe_kick_validation w nh s
      end
  end.

Definition try_execute_chain (w : Wiring) (decided_hash : list Z) (s : Sys) : result Sys :=
  let t := tree (rs s) in
  let! chain := build_chain (S (size t)) t (last_executed_height (rs s)) decided_hash in
  execute_loop w (rev chain) s.

Definition retry_pending_execute `{HashOrder} (w : Wiring) (s : Sys) : result Sys :=
  result_fold (try_execute_chain w) (set_iter (decided_nodes (rs s))) s.

(** The [for nh in leaves] loop, left when a validation is in flight. *)
Fixpoint kick_loop (w : Wiring) (leaves : list (list Z)) (s : Sys) : result Sys :=
  match leaves with
  | [] => Ok s
  | nh :: leaves =>
      match pending_validation (rs s) with
      | Some _ => Ok s
      | None => let! s := maybe_kick_validation w nh s in kick_loop w leaves s
      end
  end.

Definition try_kick_pending_validations `{HashOrder} (w : Wiring) (s : Sys) : result Sys :=
  kick_loop w (hash_iter (tree (rs s))).*1 s.
End execute.
