(* ===== verification/Handlers.v ===== *)
(** * Handlers: node/consensus-node/src/consensus/handlers.rs

    Incoming messages, the NEXTVIEW timer, validation outcomes and the view
    transition. *)

From Stdlib Require Import ZArith Lia.
From stdpp Require Import prelude strings gmap.
From S2P Require Import Prelude Crypto Ledger Messages Replica Qc Workload Validator Wiring Execute.
Open Scope Z_scope.

Section handlers.
Context `{Sha256, Bincode, SigScheme, FileSystem, Serde}.

(** [if let Some(qc) = &justify { verify_qc(..) }] *)
Definition justify_verifies (justify : option QC) (quorum : Z) (keys : gmap Z verifying_key) : bool :=
  match justify with
  | Some qc => verify_qc qc quorum keys
  | None => true
  end.

Definition justify_parent (justify : option QC) : list Z :=
  match justify with Some q => qc_node q | None => GENESIS_HASH end.

Definition handle_proposal (w : Wiring) (keys : gmap Z verifying_key)
    (v : Z) (node : Node) (justify : option QC) (sender : Z) (s : Sys) : result Sys :=
  if negb (sender =? leader_for (rs s) v) then Ok s
  else if negb (justify_verifies justify (quorum (rs s)) keys) then Ok s
  else if negb (bool_decide (parent node = justify_parent justify)) then Ok s
  else
    let leaf_hash := node_hash node in
    let s := upd (fun r => set_tree (<[leaf_hash := node]> (tree r)) r) s in
    let s := upd (vd_mut v (fun d =>
               match proposal d with
               | None => set_proposal (Some (node, justify)) d
               | Some _ => d
               end)) s in
    maybe_kick_validation w leaf_hash s.

(** The certificate type a phase message must carry. *)
Definition expected_qc_type (t : MsgType) : option MsgType :=
  match t with
  | PreCommit => Some Prepare
  | Commit => Some PreCommit
  | Decide => Some Commit
  | _ => None
  end.

(** The final [match msg_type] of the PhaseQc arm, fire-once per view. *)
Definition stage_qc (t : MsgType) (v : Z) (justify : QC) (r : ReplicaState) : ReplicaState :=
  let r := vd_mut v id r in
  let d := vd_at r v in
  match t with
  | PreCommit =>
      if seen_pre_commit_qc d then r
      else set_staged_pre_commit_qc (<[v := justify]> (staged_pre_commit_qc r))
             (vd_mut v (set_seen_pre_commit_qc true) r)
  | Commit =>
      if seen_commit_qc d then r
      else set_staged_commit_qc (<[v := justify]> (staged_commit_qc r))
             (vd_mut v (set_seen_commit_qc true) r)
  | Decide =>
      if seen_decide_qc d then r
      else set_staged_decide_qc (<[v := justify]> (staged_decide_qc r))
             (set_decided_nodes ({[qc_node justify]} ∪ decided_nodes r)
                (vd_mut v (set_seen_decide_qc true) r))
  | _ => r
  end.

Definition handle_phase_qc (keys : gmap Z verifying_key)
    (t : MsgType) (v : Z) (justify : QC) (sender : Z) (s : Sys) : result Sys :=
  if negb (sender =? leader_for (rs s) v) then Ok s
  else match expected_qc_type t with
  | None => Ok s
  | Some qt =>
      if negb (bool_decide (qc_type justify = qt)) || negb (qc_view justify =? v) then Ok s
      else if negb (verify_qc justify (quorum (rs s)) keys) then Ok s
      else Ok (upd (stage_qc t v justify) s)
  end.

(** [if let Entry::Vacant(e) = m.entry(k) { e.insert(x); }] *)
Definition insert_vacant {A} (k : Z) (x : A) (m : gmap Z A) : gmap Z A :=
  match m !! k with Some _ => m | None => <[k := x]> m end.

(** The bucket selection and insertion of the Vote arm. *)
Definition record_vote (t : MsgType) (voter : Z) (nh sig : list Z) (d : ViewData) : ViewData :=
  match t with
  | Prepare => set_prepare_votes (insert_vacant voter (nh, sig) (prepare_votes d)) d
  | PreCommit => set_precommit_votes (insert_vacant voter (nh, sig) (precommit_votes d)) d
  | Commit => set_commit_votes (insert_vacant voter (nh, sig) (commit_votes d)) d
  | _ => d
  end.

(** The authentication of the Vote arm: a vote that names this replica as
    voter is not checked. *)
Definition vote_accepted (w : Wiring) (keys : gmap Z verifying_key)
    (t : MsgType) (v : Z) (nh : list Z) (voter : Z) (sig : list Z) : bool :=
  if voter =? my_id w then true
  else match keys !! voter with
       | Some pk => verify_vote_sig pk t v nh sig
       | None => false
       end.

Definition handle_vote (w : Wiring) (keys : gmap Z verifying_key)
    (t : MsgType) (v : Z) (nh : list Z) (voter : Z) (sig : list Z) (s : Sys) : result Sys :=
  if negb (leader_for (rs s) v =? my_id w) then Ok s
  else if negb (vote_accepted w keys t v nh voter sig) then Ok s
  else Ok (upd (vd_mut v (record_vote t voter nh sig)) s).

Definition handle_new_view (w : Wiring) (keys : gmap Z verifying_key)
    (v : Z) (justify : option QC) (sender : Z) (s : Sys) : result Sys :=
  if negb (leader_for (rs s) (add_u64 v 1) =? my_id w) then Ok s
  else if negb (justify_verifies justify (quorum (rs s)) keys) then Ok s
  else Ok (upd (vd_mut v (fun d =>
         set_new_view_msgs (insert_vacant sender justify (new_view_msgs d)) d)) s).

(** [peer_keys] is the content of the shared key table when it is locked. *)
Definition handle_msg (w : Wiring) (peer_keys : gmap Z verifying_key) (msg : Wire)
    (s : Sys) : result Sys :=
  match msg with
  | Hello _ _ => Ok s
  | Proposal v node justify sender => handle_proposal w peer_keys v node justify sender s
  | PhaseQc t v justify sender => handle_phase_qc peer_keys t v justify sender s
  | Vote t v nh voter sig => handle_vote w peer_keys t v nh voter sig s
  | NewViewMsg v justify sender => handle_new_view w peer_keys v justify sender s
  end.

(** View transition. *)
Definition enter_new_view (w : Wiring) (new_view : Z) (s : Sys) : Sys :=
  let prev_view := view (rs s) in
  let s := upd (set_view new_view) s in
  let next_leader := leader_for (rs s) new_view in
  let my_prepare_qc := prepare_qc (rs s) in
  let s :=
    if next_leader =? my_id w then
      upd (vd_mut prev_view (fun d =>
        set_new_view_msgs (<[my_id w := my_prepare_qc]> (new_view_msgs d)) d)) s
    else emit (SendTo next_leader (NewViewMsg prev_view my_prepare_qc (my_id w))) s in
  emit (ArmTimer (mkTimerEvent new_view) (timeout_interval_ms (rs s))) s.

Definition handle_timer (w : Wiring) (evt : TimerEvent) (s : Sys) : Sys :=
  if negb (timer_view evt =? view (rs s)) then s
  else if (match vd (rs s) (view (rs s)) with Some d => seen_decide_qc d | None => false end) then s
  else
    let s := upd (fun r => set_timeout_interval_ms
                    (saturating_mul_u64 (timeout_interval_ms r) 2) r) s in
    enter_new_view w (add_u64 (view (rs s)) 1) s.

Definition ingest_validation (out : ValidateOutcome) (r : ReplicaState) : ReplicaState :=
  let nh := out_node_hash out in
  let r := set_validation_result (<[nh := out_valid out]> (validation_result r)) r in
  let r := match out_post_state out with
           | Some ps => set_post_state_by_node (<[nh := ps]> (post_state_by_node r)) r
           | None => r
           end in
  let r := match out_post_root out with
           | Some pr => set_post_root_by_node (<[nh := pr]> (post_root_by_node r)) r
           | None => r
           end in
  let r := match out_pre_root out with
           | Some pr => set_pre_root_by_node (<[nh := pr]> (pre_root_by_node r)) r
           | None => r
           end in
  if decide (pending_validation r = Some nh) then set_pending_validation None r else r.
End handlers.
