(* ===== verification/Rules.v ===== *)
(** * Rules: node/consensus-node/src/consensus/rules.rs

    The eight fire-once rules of Basic HotStuff. *)

From Stdlib Require Import ZArith Lia.
From stdpp Require Import prelude strings gmap.
From S2P Require Import Prelude Crypto Ledger Messages Replica Qc Workload Validator Wiring Execute Handlers.
Open Scope Z_scope.

Section rules.
Context `{Sha256, Bincode, SigScheme, FileSystem, Serde, HashOrder}.

(** *** Alg 2 lines 2-6 *)

(** The highest certificate among the NEW-VIEW messages of the previous view. *)
Definition choose_high_qc (r : ReplicaState) (prev_view : Z) : option QC :=
  max_by_key qc_view (omap snd (hash_iter (new_view_msgs (vd_at r prev_view)))).

Definition leader_prepare (w : Wiring) (s : Sys) : result Sys :=
  let v := view (rs s) in
  if negb (leader_for (rs s) v =? my_id w) then Ok s
  else
  let s := upd (vd_mut v id) s in
  if broadcast_proposal (vd_at (rs s) v) then Ok s
  else
  let prev_view := saturating_sub_u64 v 1 in
  let count := match vd (rs s) prev_view with
               | Some d => Z.of_nat (size (new_view_msgs d)) | None => 0 end in
  if count <? quorum (rs s) then Ok s
  else
  let! _ := expect OptionUnwrapNone (vd (rs s) prev_view) in
  let high_qc := choose_high_qc (rs s) prev_view in
  let parent_hash := justify_parent high_qc in
  match (match high_qc with
         | Some q => match tree (rs s) !! qc_node q with
                     | Some parent_node => Some (add_u64 (height parent_node) 1)
                     | None => None
                     end
         | None => Some 0
         end) with
  | None => Ok s
  | Some new_height =>
      if num_blocks (workload_manifest (w_workload w)) <=? new_height then Ok s
      else
      let! block := workload_block (w_workload w) new_height in
      let leaf := mkNode parent_hash (block_cmd block) new_height in
      let leaf_hash := node_hash leaf in
      let s := upd (fun r => set_tree (<[leaf_hash := leaf]> (tree r)) r) s in
      let s := emit (Broadcast (Proposal v leaf high_qc (my_id w))) s in
      let s := upd (vd_mut v (fun d =>
                 set_broadcast_proposal true
                   (match proposal d with
                    | None => set_proposal (Some (leaf, high_qc)) d
                    | Some _ => d
                    end))) s in
      maybe_kick_validation w leaf_hash s
  end.

(** Signing a vote and handing it to the leader of the view: the leader
    records its own vote in its bucket (with [HashMap::insert]), the others
    send it. *)
Definition set_own_vote (t : MsgType) (voter : Z) (nh sig : list Z) (d : ViewData) : ViewData :=
  match t with
  | Prepare => set_prepare_votes (<[voter := (nh, sig)]> (prepare_votes d)) d
  | PreCommit => set_precommit_votes (<[voter := (nh, sig)]> (precommit_votes d)) d
  | Commit => set_commit_votes (<[voter := (nh, sig)]> (commit_votes d)) d
  | _ => d
  end.

Definition cast_vote (w : Wiring) (t : MsgType) (v : Z) (nh : list Z) (s : Sys) : Sys :=
  let sig := sign_vote (w_sk w) t v nh in
  let s := emit (Signed t v nh) s in
  let leader := leader_for (rs s) v in
  if leader =? my_id w then upd (vd_mut v (set_own_vote t (my_id w) nh sig)) s
  else emit (SendTo leader (Vote t v nh (my_id w) sig)) s.

(** *** Alg 2 lines 8-10 *)
Definition replica_prepare (w : Wiring) (s : Sys) : result Sys :=
  let v := view (rs s) in
  match (match vd (rs s) v with Some d => proposal d | None => None end) with
  | None => Ok s
  | Some (leaf, high_qc) =>
      let s := upd (vd_mut v id) s in
      if voted_prepare (vd_at (rs s) v) then Ok s
      else
      let leaf_hash := node_hash leaf in
      match validation_result (rs s) !! leaf_hash with
      | None => Ok s
      | Some false => Ok (upd (vd_mut v (set_voted_prepare true)) s)
      | Some true =>
          if negb (safe_node leaf high_qc (locked_qc (rs s)) (tree (rs s)))
          then Ok (upd (vd_mut v (set_voted_prepare true)) s)
          else
          let s := cast_vote w Prepare v leaf_hash s in
          Ok (upd (vd_mut v (set_voted_prepare true)) s)
      end
  end.

(** *** Alg 2 lines 12-14 *)
Definition leader_pre_commit (w : Wiring) (s : Sys) : result Sys :=
  let v := view (rs s) in
  if negb (leader_for (rs s) v =? my_id w) then Ok s
  else
  let s := upd (vd_mut v id) s in
  if broadcast_pre_commit (vd_at (rs s) v) then Ok s
  else match form_qc (prepare_votes (vd_at (rs s) v)) Prepare v (quorum (rs s)) with
  | None => Ok s
  | Some qc =>
      let s := emit (Broadcast (PhaseQc PreCommit v qc (my_id w))) s in
      let s := upd (vd_mut v (set_broadcast_pre_commit true)) s in
      if seen_pre_commit_qc (vd_at (rs s) v) then Ok s
      else Ok (upd (fun r => set_staged_pre_commit_qc (<[v := qc]> (staged_pre_commit_qc r))
                      (vd_mut v (set_seen_pre_commit_qc true) r)) s)
  end.

(** *** Alg 2 lines 16-18 *)
Definition replica_pre_commit (w : Wiring) (s : Sys) : result Sys :=
  let v := view (rs s) in
  let s := upd (vd_mut v id) s in
  if negb (seen_pre_commit_qc (vd_at (rs s) v)) || voted_precommit (vd_at (rs s) v) then Ok s
  else match staged_pre_commit_qc (rs s) !! v with
  | None => Ok s
  | Some qc =>
      let s := upd (set_prepare_qc (Some qc)) s in
      let s := cast_vote w PreCommit v (qc_node qc) s in
      Ok (upd (vd_mut v (set_voted_precommit true)) s)
  end.

(** *** Alg 2 lines 20-22 *)
Definition leader_commit (w : Wiring) (s : Sys) : result Sys :=
  let v := view (rs s) in
  if negb (leader_for (rs s) v =? my_id w) then Ok s
  else
  let s := upd (vd_mut v id) s in
  if broadcast_commit (vd_at (rs s) v) then Ok s
  else match form_qc (precommit_votes (vd_at (rs s) v)) PreCommit v (quorum (rs s)) with
  | None => Ok s
  | Some qc =>
      let s := emit (Broadcast (PhaseQc Commit v qc (my_id w))) s in
      let s := upd (vd_mut v (set_broadcast_commit true)) s in
      if seen_commit_qc (vd_at (rs s) v) then Ok s
      else Ok (upd (fun r => set_staged_commit_qc (<[v := qc]> (staged_commit_qc r))
                      (vd_mut v (set_seen_commit_qc true) r)) s)
  end.

(** *** Alg 2 lines 24-26 *)
Definition replica_commit (w : Wiring) (s : Sys) : result Sys :=
  let v := view (rs s) in
  let s := upd (vd_mut v id) s in
  if negb (seen_commit_qc (vd_at (rs s) v)) || voted_commit (vd_at (rs s) v) then Ok s
  else match staged_commit_qc (rs s) !! v with
  | None => Ok s
  | Some qc =>
      let s := upd (set_locked_qc (Some qc)) s in
      let s := cast_vote w Commit v (qc_node qc) s in
      Ok (upd (vd_mut v (set_voted_commit true)) s)
  end.

(** *** Alg 2 lines 28-30 *)
Definition leader_decide (w : Wiring) (s : Sys) : result Sys :=
  let v := view (rs s) in
  if negb (leader_for (rs s) v =? my_id w) then Ok s
  else
  let s := upd (vd_mut v id) s in
  if broadcast_decide (vd_at (rs s) v) then Ok s
  else match form_qc (commit_votes (vd_at (rs s) v)) Commit v (quorum (rs s)) with
  | None => Ok s
  | Some qc =>
      let s := emit (Broadcast (PhaseQc Decide v qc (my_id w))) s in
      let s := upd (vd_mut v (set_broadcast_decide true)) s in
      if seen_decide_qc (vd_at (rs s) v) then Ok s
      else Ok (upd (fun r => set_staged_decide_qc (<[v := qc]> (staged_decide_qc r))
                      (vd_mut v (set_seen_decide_qc true) r)) s)
  end.

(** *** Alg 2 lines 32-34 *)
Definition replica_decide (w : Wiring) (s : Sys) : result Sys :=
  let v := view (rs s) in
  let s := upd (vd_mut v id) s in
  if negb (seen_decide_qc (vd_at (rs s) v)) then Ok s
  else match staged_decide_qc (rs s) !! v with
  | None => Ok s
  | Some qc =>
      let s := upd (fun r => set_decided_nodes ({[qc_node qc]} ∪ decided_nodes r) r) s in
      let! s := try_execute_chain w (qc_node qc) s in
      let s := upd (set_timeout_interval_ms (timeout_base_ms w)) s in
      Ok (enter_new_view w (add_u64 v 1) s)
  end.
End rules.
