(* ===== verification/Consensus.v ===== *)
(** * Consensus: consensus/mod.rs and the event loop of main.rs *)

From Stdlib Require Import ZArith Lia.
From stdpp Require Import prelude strings gmap.
From S2P Require Import Prelude Crypto Ledger Messages Replica Qc Workload Validator Wiring Execute Handlers Rules.
Open Scope Z_scope.

Section consensus.
Context `{Sha256, Bincode, SigScheme, FileSystem, Serde}.

Definition start_protocol (w : Wiring) (s : Sys) : Sys :=
  enter_new_view w 1 (upd (set_view 0) s).

Definition try_advance `{HashOrder} (w : Wiring) (s : Sys) : result Sys :=
  let! s := leader_prepare w s in
  let! s := replica_prepare w s in
  let! s := leader_pre_commit w s in
  let! s := replica_pre_commit w s in
  let! s := leader_commit w s in
  let! s := replica_commit w s in
  let! s := leader_decide w s in
  let! s := replica_decide w s in
  let! s := retry_pending_execute w s in
  try_kick_pending_validations w s.

(** An arm of the [tokio::select!]: a message from the inbox (with the content
    of the key table at that moment), a timer, or a validation outcome. *)
Inductive Event : Type :=
  | EvStart
  | EvMsg (m : Wire) (peer_keys : gmap Z verifying_key)
  | EvTimer (evt : TimerEvent)
  | EvValidated (out : ValidateOutcome).

(** The node a message proposes. *)
Definition event_proposals (e : Event) : list Node :=
  match e with EvMsg (Proposal _ nd _ _) _ => [nd] | _ => [] end.

Definition handle_event (w : Wiring) (e : Event) (s : Sys) : result Sys :=
  match e with
  | EvStart => Ok (start_protocol w s)
  | EvMsg m keys => handle_msg w keys m s
  | EvTimer evt => Ok (handle_timer w evt s)
  | EvValidated out => Ok (upd (ingest_validation out) s)
  end.

(** One pass of the event loop: the handler, then the rules. *)
Definition node_step `{HashOrder} (w : Wiring) (e : Event) (s : Sys) : result Sys :=
  let! s := handle_event w e (with_effects [] s) in
  try_advance w s.
End consensus.
