(* ===== verification/Process.v ===== *)
(** * Process: a replica process and the invariants of its execution

    A replica process is the consensus state and the queue of its serial
    validator worker (main.rs, [spawn_validator_worker]).  The interface
    [ExecInvariant] states what an invariant of the executed state must
    survive; every run of the process then preserves it. *)

From Stdlib Require Import ZArith Lia.
From stdpp Require Import prelude strings gmap.
From S2P Require Import Prelude Crypto Ledger Messages Replica Qc Workload Zk Validator Wiring Execute Handlers Rules Consensus.
Open Scope Z_scope.

(** ** The validator worker *)

(** The requests sent on [val_req_tx], in the order they were sent. *)
Definition submitted (es : list Effect) : list (ValidateRequest * State) :=
  rev (omap (fun e => match e with SubmitValidation r st => Some (r, st) | _ => None end) es).

(** The executed heights and nodes, in order. *)
Definition executed (es : list Effect) : list (Z * list Z) :=
  rev (omap (fun e => match e with LogExecute h nh => Some (h, nh) | _ => None end) es).

(** The submissions and executions among the effects. *)
Definition exec_events (es : list Effect) : list Effect :=
  List.filter (fun e => match e with SubmitValidation _ _ | LogExecute _ _ => true | _ => false end) es.

Lemma submitted_events es : submitted (exec_events es) = submitted es.
Proof. unfold submitted, exec_events. f_equal. induction es as [|[] es IH]; cbn; congruence. Qed.

Lemma executed_events es : executed (exec_events es) = executed es.
Proof. unfold executed, exec_events. f_equal. induction es as [|[] es IH]; cbn; congruence. Qed.

Record Proc : Type := mkProc {
  p_sys : Sys;
  p_queue : list (ValidateRequest * State)
}.

Section process.
Context `{Sha256, Bincode, SigScheme, FileSystem, Serde, Sp1}.
Context (w : Wiring) (val : Validator).

(** One pass of the event loop; the worker serves its queue in order, one
    request at a time. *)
Inductive proc_step : Proc -> list Node -> Proc -> Prop :=
  | proc_event (o : HashOrder) s q e s' :
      (forall out, e <> EvValidated out) ->
      node_step w e s = Ok s' ->
      proc_step (mkProc s q) (event_proposals e ++ proposals (effects s'))
        (mkProc s' (q ++ submitted (effects s')))
  | proc_validated (o : HashOrder) s req st q out s' :
      run_validation req st val = Ok out ->
      node_step w (EvValidated out) s = Ok s' ->
      proc_step (mkProc s ((req, st) :: q)) (proposals (effects s'))
        (mkProc s' (q ++ submitted (effects s'))).

(** A run of the process, with the nodes proposed in it. *)
Inductive proc_run : Proc -> list Node -> Proc -> Prop :=
  | run_refl p : proc_run p [] p
  | run_step p nds p' nds' p'' :
      proc_run p nds p' -> proc_step p' nds' p'' -> proc_run p (nds' ++ nds) p''.

(** [main] before [start_protocol]. *)
Definition fresh_proc (n timeout_base_ms : Z) (init : State) : Proc :=
  mkProc (mkSys (new_replica n timeout_base_ms) init GENESIS_HASH []) [].

(** ** Quiet operations: nothing executed, submitted or proposed *)

Definition exec_core (s : Sys) :=
  (last_executed_height (rs s), tree (rs s), validation_result (rs s),
   post_state_by_node (rs s), live_state s,
   (pre_root_by_node (rs s), post_root_by_node (rs s), chained_root s, quorum (rs s))).

Definition quiet (s s' : Sys) : Prop :=
  exec_core s' = exec_core s /\
  exec_events (effects s') = exec_events (effects s) /\ proposals (effects s') = proposals (effects s).

#[global] Instance quiet_preorder : PreOrder quiet.
Proof.
  split; [by intros ?|]. intros s1 s2 s3 (?&?&?) (?&?&?). split_and!; congruence.
Qed.

Definition quiet_op (op : Sys -> result Sys) : Prop := forall s s', op s = Ok s' -> quiet s s'.

Ltac quiet_tac :=
  repeat (case_match; simplify_eq); intros; simplify_eq; split_and!; done.

Lemma upd_quiet f s :
  (forall r, (last_executed_height (f r), tree (f r), validation_result (f r), post_state_by_node (f r),
     pre_root_by_node (f r), post_root_by_node (f r), quorum (f r))
   = (last_executed_height r, tree r, validation_result r, post_state_by_node r,
     pre_root_by_node r, post_root_by_node r, quorum r)) ->
  quiet s (upd f s).
Proof. intros Hf. split; [|done]. specialize (Hf (rs s)). unfold exec_core. cbn. congruence. Qed.

Lemma cast_vote_quiet t v nh s : quiet s (cast_vote w t v nh s).
Proof. unfold cast_vote. cbv zeta. quiet_tac. Qed.

Lemma replica_prepare_quiet : quiet_op (replica_prepare w).
Proof. intros s s'. unfold replica_prepare, cast_vote. cbv zeta. quiet_tac. Qed.
Lemma replica_pre_commit_quiet : quiet_op (replica_pre_commit w).
Proof. intros s s'. unfold replica_pre_commit, cast_vote. cbv zeta. quiet_tac. Qed.
Lemma replica_commit_quiet : quiet_op (replica_commit w).
Proof. intros s s'. unfold replica_commit, cast_vote. cbv zeta. quiet_tac. Qed.
Lemma leader_pre_commit_quiet `{HashOrder} : quiet_op (leader_pre_commit w).
Proof. intros s s'. unfold leader_pre_commit. cbv zeta. quiet_tac. Qed.
Lemma leader_commit_quiet `{HashOrder} : quiet_op (leader_commit w).
Proof. intros s s'. unfold leader_commit. cbv zeta. quiet_tac. Qed.
Lemma leader_decide_quiet `{HashOrder} : quiet_op (leader_decide w).
Proof. intros s s'. unfold leader_decide. cbv zeta. quiet_tac. Qed.
Lemma enter_new_view_quiet v s : quiet s (enter_new_view w v s).
Proof. unfold enter_new_view. cbv zeta. quiet_tac. Qed.
Lemma handle_timer_quiet evt s : quiet s (handle_timer w evt s).
Proof. unfold handle_timer, enter_new_view. cbv zeta. quiet_tac. Qed.
Lemma handle_phase_qc_quiet keys t v q sender : quiet_op (handle_phase_qc keys t v q sender).
Proof.
  intros s s'. unfold handle_phase_qc. repeat (case_match; [by intros [= <-]|]).
  case_match; [|by intros [= <-]]. repeat (case_match; [by intros [= <-]|]).
  intros [= <-]. apply upd_quiet. intros r. destruct t; simpl; by repeat case_match.
Qed.

Lemma handle_vote_quiet keys t v nh voter sig : quiet_op (handle_vote w keys t v nh voter sig).
Proof. intros s s'. unfold handle_vote. quiet_tac. Qed.
Lemma handle_new_view_quiet keys v j sender : quiet_op (handle_new_view w keys v j sender).
Proof. intros s s'. unfold handle_new_view. quiet_tac. Qed.

(** ** Proposals are made by [leader_prepare] only *)

Definition keeps_proposals (op : Sys -> result Sys) : Prop :=
  forall s s', op s = Ok s' -> proposals (effects s') = proposals (effects s).

Lemma quiet_keeps_proposals op : quiet_op op -> keeps_proposals op.
Proof. intros Hq s s' E. by destruct (Hq s s' E) as (_ & _ & ->). Qed.

Lemma maybe_kick_proposals h : keeps_proposals (maybe_kick_validation w h).
Proof.
  intros s s'. unfold maybe_kick_validation.
  destruct (validation_result (rs s) !! h); [by intros [= <-]|].
  destruct (decide _); [by intros [= <-]|].
  destruct (tree (rs s) !! h) as [node|]; [|by intros [= <-]].
  intros (b & _ & Hb)%result_bind_Ok. destruct (negb _); [by injection Hb as <-|].
  destruct (validation_input _ _ _); by injection Hb as <-.
Qed.

Lemma execute_node_proposals nh h : keeps_proposals (execute_node nh h).
Proof.
  intros s s' (s1 & E & [= <-])%result_bind_Ok. unfold advance_root, take_post_state in E.
  repeat case_match; by simplify_eq.
Qed.

Lemma execute_loop_proposals chain : keeps_proposals (execute_loop w chain).
Proof.
  induction chain as [|nh chain IH]; intros s s'; simpl; [by intros [= <-]|].
  intros (nd & _ & Hr)%result_bind_Ok. destruct (negb _); [by injection Hr as <-|].
  destruct (validation_result (rs s) !! nh) as [[]|];
    [|by injection Hr as <-|by apply maybe_kick_proposals in Hr].
  apply result_bind_Ok in Hr as (s1 & E1 & E2).
  by rewrite (IH _ _ E2), (execute_node_proposals _ _ _ _ E1).
Qed.

Lemma try_execute_chain_proposals h : keeps_proposals (try_execute_chain w h).
Proof. intros s s' (chain & _ & Hr)%result_bind_Ok. by apply execute_loop_proposals in Hr. Qed.

Lemma retry_pending_execute_proposals `{HashOrder} : keeps_proposals (retry_pending_execute w).
Proof.
  intros s s' Hr.
  apply (result_fold_preserves (fun x => proposals (effects x) = proposals (effects s))) in Hr; [done| |done].
  intros h s1 s2 _ E Hx. by rewrite (try_execute_chain_proposals _ _ _ Hx).
Qed.

Lemma try_kick_proposals `{HashOrder} : keeps_proposals (try_kick_pending_validations w).
Proof.
  intros s s'. unfold try_kick_pending_validations. generalize (hash_iter (tree (rs s))).*1. intros l.
  revert s. induction l as [|h l IH]; intros s; simpl; [by intros [= <-]|].
  destruct (pending_validation (rs s)); [by intros [= <-]|].
  intros (s1 & E1 & E2)%result_bind_Ok. by rewrite (IH _ E2), (maybe_kick_proposals _ _ _ E1).
Qed.

Lemma replica_decide_proposals : keeps_proposals (replica_decide w).
Proof.
  intros s s'. unfold replica_decide. cbv zeta. destruct (negb _); [by intros [= <-]|].
  destruct (staged_decide_qc _ !! _) as [qc|]; [|by intros [= <-]].
  intros (s1 & E1 & [= <-])%result_bind_Ok.
  destruct (enter_new_view_quiet (add_u64 (view (rs s)) 1) (upd (set_timeout_interval_ms (timeout_base_ms w)) s1))
    as (_ & _ & ->). exact (try_execute_chain_proposals _ _ _ E1).
Qed.

(** After [leader_prepare] nothing is proposed. *)
Lemma try_advance_proposals `{HashOrder} s s' :
  try_advance w s = Ok s' ->
  exists s1, leader_prepare w s = Ok s1 /\ proposals (effects s') = proposals (effects s1).
Proof.
  unfold try_advance. intros (s1 & E1 & Hr)%result_bind_Ok. exists s1. split; [done|].
  apply result_bind_Ok in Hr as (s2 & (_ & _ & <-)%replica_prepare_quiet & Hr).
  apply result_bind_Ok in Hr as (s3 & (_ & _ & <-)%leader_pre_commit_quiet & Hr).
  apply result_bind_Ok in Hr as (s4 & (_ & _ & <-)%replica_pre_commit_quiet & Hr).
  apply result_bind_Ok in Hr as (s5 & (_ & _ & <-)%leader_commit_quiet & Hr).
  apply result_bind_Ok in Hr as (s6 & (_ & _ & <-)%replica_commit_quiet & Hr).
  apply result_bind_Ok in Hr as (s7 & (_ & _ & <-)%leader_decide_quiet & Hr).
  apply result_bind_Ok in Hr as (s8 & <-%replica_decide_proposals & Hr).
  apply result_bind_Ok in Hr as (s9 & <-%retry_pending_execute_proposals & Hr).
  by apply try_kick_proposals.
Qed.

(** ** Invariants of execution *)

(** Only a proposal may be announced. *)
Definition calm (s s' : Sys) : Prop :=
  exec_core s' = exec_core s /\ exec_events (effects s') = exec_events (effects s).

Lemma calm_submitted s s' : calm s s' -> submitted (effects s') = submitted (effects s).
Proof. intros [_ E]. by rewrite <- (submitted_events (effects s')), E, submitted_events. Qed.

Lemma quiet_calm s s' : quiet s s' -> calm s s'.
Proof. by intros (? & ? & _). Qed.

(** The nodes of a run, keyed by their hash. *)
Definition proposed (T : gmap (list Z) Node) (nds : list Node) : Prop :=
  Forall (fun nd => T !! node_hash nd = Some nd) nds.

(** [P Q s]: [Q] is the worker's queue when the event loop pass started, and
    [T] holds the nodes that are proposed to or by the replica. *)
Class ExecInvariant (T : gmap (list Z) Node)
    (P : list (ValidateRequest * State) -> Sys -> Prop) : Prop := {
  ei_calm : forall Q s s', calm s s' -> P Q s -> P Q s';
  ei_kick : forall Q h, preserves (P Q) (maybe_kick_validation w h);
  ei_execute : forall Q nh nd s s', P Q s -> tree (rs s) !! nh = Some nd ->
    as_i64 (height nd) = last_executed_height (rs s) + 1 ->
    validation_result (rs s) !! nh = Some true ->
    execute_node nh (height nd) s = Ok s' -> P Q s';
  ei_insert : forall Q nd s, P Q s -> T !! node_hash nd = Some nd ->
    P Q (upd (fun r => set_tree (<[node_hash nd := nd]> (tree r)) r) s);
  ei_ingest : forall Q rq out s, P (rq :: Q) s -> run_validation rq.1 rq.2 val = Ok out ->
    P Q (upd (ingest_validation out) s);
  ei_start : forall Q s, P Q s -> P (Q ++ submitted (effects s)) (with_effects [] s)
}.

Section invariant.
Context {T : gmap (list Z) Node} {P : list (ValidateRequest * State) -> Sys -> Prop}.
Context `{!ExecInvariant T P}.

Lemma ei_quiet Q s s' : quiet s s' -> P Q s -> P Q s'.
Proof. intros ?%quiet_calm. by apply ei_calm. Qed.

Lemma ei_touch Q v s : P Q s -> P Q (upd (vd_mut v id) s).
Proof. apply ei_quiet. by apply upd_quiet. Qed.

Lemma execute_loop_ok Q chain : preserves (P Q) (execute_loop w chain).
Proof.
  induction chain as [|nh chain IH]; intros s s' Hs; simpl; [by intros [= <-]|].
  intros (nd & Hnd & Hr)%result_bind_Ok. unfold expect in Hnd.
  destruct (tree (rs s) !! nh) as [nd'|] eqn:En; simplify_eq.
  destruct (Z.eqb_spec (as_i64 (height nd)) (last_executed_height (rs s) + 1)) as [Hh|];
    [|by injection Hr as <-]. simpl in Hr.
  destruct (validation_result (rs s) !! nh) as [[]|] eqn:Ev;
    [|by injection Hr as <-|by eapply ei_kick].
  apply result_bind_Ok in Hr as (s1 & E1 & E2).
  eapply IH; [|exact E2]. by eapply ei_execute.
Qed.

Lemma try_execute_chain_ok Q h : preserves (P Q) (try_execute_chain w h).
Proof. intros s s' Hs (chain & _ & Hr)%result_bind_Ok. by eapply execute_loop_ok. Qed.

Lemma retry_pending_execute_ok `{HashOrder} Q : preserves (P Q) (retry_pending_execute w).
Proof.
  intros s s' Hs Hr. eapply result_fold_preserves; [|exact Hs|exact Hr].
  intros. by eapply try_execute_chain_ok.
Qed.

Lemma try_kick_ok `{HashOrder} Q : preserves (P Q) (try_kick_pending_validations w).
Proof.
  intros s s'. unfold try_kick_pending_validations. generalize (hash_iter (tree (rs s))).*1. intros l.
  revert s. induction l as [|h l IH]; intros s Hs; simpl; [by intros [= <-]|].
  destruct (pending_validation (rs s)); [by intros [= <-]|].
  intros (s1 & E1 & E2)%result_bind_Ok. eapply IH; [|exact E2]. by eapply ei_kick.
Qed.

Lemma leader_prepare_ok `{HashOrder} Q s s' :
  P Q s -> leader_prepare w s = Ok s' -> proposed T (proposals (effects s')) -> P Q s'.
Proof.
  intros Hs. apply (ei_touch Q (view (rs s))) in Hs as Ht.
  unfold leader_prepare. cbv zeta. destruct (negb _); [by intros [= <-]|].
  destruct (broadcast_proposal _); [by intros [= <-]|].
  destruct (_ <? _); [by intros [= <-]|].
  intros (d & _ & Hr)%result_bind_Ok. revert Hr.
  generalize (choose_high_qc (rs (upd (vd_mut (view (rs s)) id) s)) (saturating_sub_u64 (view (rs s)) 1)).
  intros high. destruct (match high with Some _ => _ | None => _ end) as [nh|]; [|by intros [= <-]].
  destruct (_ <=? _); [by intros [= <-]|].
  intros (b & _ & Hk)%result_bind_Ok Hp. set (leaf := mkNode _ _ _) in *.
  rewrite (maybe_kick_proposals _ _ _ Hk) in Hp. apply Forall_cons in Hp as [Hleaf _].
  eapply ei_kick; [|exact Hk]. eapply ei_quiet; [by apply upd_quiet|].
  eapply ei_calm; [|exact (ei_insert _ _ _ Ht Hleaf)]. done.
Qed.

Lemma replica_decide_ok Q : preserves (P Q) (replica_decide w).
Proof.
  intros s s' Hs. apply (ei_touch Q (view (rs s))) in Hs as Ht. unfold replica_decide. cbv zeta.
  destruct (negb _); [by intros [= <-]|].
  destruct (staged_decide_qc _ !! _) as [qc|]; [|by intros [= <-]].
  intros (s1 & E1 & [= <-])%result_bind_Ok.
  eapply ei_quiet; [apply enter_new_view_quiet|]. eapply ei_quiet; [by apply upd_quiet|].
  eapply try_execute_chain_ok; [|exact E1]. eapply ei_quiet; [by apply upd_quiet|done].
Qed.

Lemma try_advance_ok `{HashOrder} Q s s' :
  P Q s -> try_advance w s = Ok s' -> proposed T (proposals (effects s')) -> P Q s'.
Proof.
  intros Hs. unfold try_advance.
  intros (s1 & E1 & Hr)%result_bind_Ok.
  apply result_bind_Ok in Hr as (s2 & E2%replica_prepare_quiet & Hr).
  apply result_bind_Ok in Hr as (s3 & E3%leader_pre_commit_quiet & Hr).
  apply result_bind_Ok in Hr as (s4 & E4%replica_pre_commit_quiet & Hr).
  apply result_bind_Ok in Hr as (s5 & E5%leader_commit_quiet & Hr).
  apply result_bind_Ok in Hr as (s6 & E6%replica_commit_quiet & Hr).
  apply result_bind_Ok in Hr as (s7 & E7%leader_decide_quiet & Hr).
  assert (quiet s1 s7) as Hq by (repeat (etransitivity; [eassumption|]); reflexivity).
  clear E2 E3 E4 E5 E6 E7.
  apply result_bind_Ok in Hr as (s8 & E8 & Hr). apply result_bind_Ok in Hr as (s9 & E9 & E10).
  rewrite (try_kick_proposals _ _ E10), (retry_pending_execute_proposals _ _ E9),
    (replica_decide_proposals _ _ E8).
  pose proof (ei_quiet Q _ _ Hq) as Hq'. destruct Hq as (_ & _ & ->). intros Hp.
  apply (leader_prepare_ok Q s s1 Hs E1), Hq' in Hp.
  eapply try_kick_ok; [|exact E10]. eapply retry_pending_execute_ok; [|exact E9].
  by eapply replica_decide_ok.
Qed.

Lemma handle_proposal_ok Q keys v node j sender s s' :
  P Q s -> T !! node_hash node = Some node ->
  handle_proposal w keys v node j sender s = Ok s' -> P Q s'.
Proof.
  intros Hs Hn. unfold handle_proposal. cbv zeta. repeat (case_match; [by intros [= <-]|]).
  intros Hk. eapply ei_kick; [|exact Hk].
  eapply ei_quiet; [by apply upd_quiet|]. by apply ei_insert.
Qed.

Lemma handle_event_ok Q e s s' :
  P Q s -> proposed T (event_proposals e) -> (forall out, e <> EvValidated out) ->
  handle_event w e s = Ok s' -> P Q s'.
Proof.
  intros Hs Hp Hne. destruct e as [|m keys|evt|out]; simpl.
  - intros [= <-]. eapply ei_quiet; [apply enter_new_view_quiet|].
    by eapply ei_quiet; [apply upd_quiet|].
  - destruct m as [| v node j sender| | |]; simpl; intros Hr.
    + by injection Hr as <-.
    + eapply handle_proposal_ok; [done| |exact Hr]. by apply Forall_cons in Hp as [? _].
    + eapply ei_quiet; [by eapply handle_phase_qc_quiet|done].
    + eapply ei_quiet; [by eapply handle_vote_quiet|done].
    + eapply ei_quiet; [by eapply handle_new_view_quiet|done].
  - intros [= <-]. eapply ei_quiet; [apply handle_timer_quiet|done].
  - by destruct (Hne out).
Qed.

(** The invariant of the process between passes. *)
Definition proc_ok (p : Proc) : Prop := P (p_queue p) (with_effects [] (p_sys p)).

(** The invariant at the end of a pass, before its effects are carried out. *)
Lemma proc_step_pass p nds p' :
  proc_ok p -> proc_step p nds p' -> proposed T nds ->
  exists Q, p_queue p' = Q ++ submitted (effects (p_sys p')) /\ P Q (p_sys p').
Proof.
  intros Hp Hst. revert Hp.
  destruct Hst as [o s q e s1 Hne Hs|o s req st q out s1 Hrun Hs]; intros Hp;
    [intros [He Hpr]%Forall_app|intros Hpr]; exists q; (split; [done|]).
  - apply result_bind_Ok in Hs as (s2 & E1 & E2).
    eapply try_advance_ok; [|exact E2|done]. exact (handle_event_ok q e _ s2 Hp He Hne E1).
  - apply result_bind_Ok in Hs as (s2 & E1 & E2). injection E1 as <-.
    eapply try_advance_ok; [|exact E2|done]. exact (ei_ingest q (req, st) out _ Hp Hrun).
Qed.

Lemma proc_step_ok p nds p' : proc_ok p -> proc_step p nds p' -> proposed T nds -> proc_ok p'.
Proof.
  intros Hp Hst Hpr. destruct (proc_step_pass _ _ _ Hp Hst Hpr) as (Q & EQ & HQ).
  unfold proc_ok. rewrite EQ. by apply ei_start.
Qed.

Lemma proc_run_ok p nds p' : proc_run p nds p' -> proposed T nds -> proc_ok p -> proc_ok p'.
Proof.
  intros Hr. induction Hr as [p|p nds p' nds' p'' Hr IH Hs]; [done|].
  intros [Hp1 Hp2]%Forall_app Hp. eapply proc_step_ok; [by apply IH|exact Hs|exact Hp1].
Qed.

Lemma proc_run_pass p nds p' :
  proc_run p nds p' -> proposed T nds -> proc_ok p -> p' = p \/ exists Q, P Q (p_sys p').
Proof.
  intros Hr. destruct Hr as [p|p nds p' nds' p'' Hr Hs]; [by left|]. intros [Hp1 Hp2]%Forall_app Hp. right.
  destruct (proc_step_pass p' nds' p'') as (Q & _ & ?); eauto using proc_run_ok.
Qed.
End invariant.
End process.
