(* ===== verification/Invariant.v ===== *)
(** * Invariant: what a correct replica knows about the votes that were cast

    Every certificate, vote and proposal in a replica's state is backed by
    the log of ballots signed so far, and the replica's own ballots are
    remembered by its fire-once flags and its lock.  Every handler and every
    rule preserves this. *)

From Stdlib Require Import ZArith Lia.
From stdpp Require Import prelude strings gmap.
From S2P Require Import Prelude Crypto Ledger Messages Replica Qc VoteLog Workload Validator Wiring Execute Handlers Rules Consensus Process.
Open Scope Z_scope.

(** The vote bucket and the fire-once flag of a phase. *)
Definition bucket (t : MsgType) (d : ViewData) : gmap Z (list Z * list Z) :=
  match t with
  | Prepare => prepare_votes d
  | PreCommit => precommit_votes d
  | Commit => commit_votes d
  | _ => ∅
  end.

Definition voted (t : MsgType) (d : ViewData) : bool :=
  match t with
  | Prepare => voted_prepare d
  | PreCommit => voted_precommit d
  | Commit => voted_commit d
  | _ => false
  end.

Definition set_voted (t : MsgType) (d : ViewData) : ViewData :=
  match t with
  | Prepare => set_voted_prepare true d
  | PreCommit => set_voted_precommit true d
  | Commit => set_voted_commit true d
  | _ => d
  end.

(** The ballots among the effects of replica [i]. *)
Definition ballots_of (i : Z) (es : list Effect) : list Ballot :=
  omap (fun e => match e with Signed t v nh => Some (mkBallot i t v nh) | _ => None end) es.

Section invariant.
Context `{Sha256, Bincode, SigScheme, FileSystem, Serde}.
(** The system: [n] replicas, the faulty ones, and the key of each. *)
Context (n : Z) (byz : gset Z) (key_of : Z -> verifying_key).
(** The nodes that have been proposed to or by correct replicas. *)
Context (known : Node -> Prop).

(** ** What is assumed of keys and messages *)

(** The key table binds replica ids to their keys. *)
Definition keys_ok (keys : gmap Z verifying_key) : Prop :=
  forall i pk, keys !! i = Some pk -> 0 <= i < n /\ pk = key_of i.

(** A signature that verifies under a correct replica's key was made by it. *)
Definition sig_known (L : list Ballot) (t : MsgType) (v : Z) (h : list Z) (i : Z) (sig : list Z) : Prop :=
  i ∉ byz -> verify_vote_sig (key_of i) t v h sig = true -> mkBallot i t v h ∈ L.

Definition qc_known (L : list Ballot) (qc : QC) : Prop :=
  forall i sig, (i, sig) ∈ qc_sigs qc -> sig_known L (qc_type qc) (qc_view qc) (qc_node qc) i sig.

Definition msg_known (L : list Ballot) (m : Wire) : Prop :=
  match m with
  | Hello _ _ => True
  | Proposal _ _ j _ => forall q, j = Some q -> qc_known L q
  | PhaseQc _ _ q _ => qc_known L q
  | Vote t v h i sig => sig_known L t v h i sig
  | NewViewMsg _ j _ => forall q, j = Some q -> qc_known L q
  end.

(** The message is not a vote in the receiver's own name. *)
Definition no_self_vote (me : Z) (m : Wire) : Prop :=
  match m with Vote _ _ _ voter _ => voter <> me | _ => True end.

(** ** The invariant *)

Abbreviation certified := (certified n byz).
Abbreviation honest_log := (honest_log n byz known).

Definition justify_ok (L : list Ballot) (j : option QC) : Prop :=
  forall q, j = Some q -> certified L (qc_type q) (qc_view q) (qc_node q).

Record vd_ok (L : list Ballot) (v : Z) (d : ViewData) : Prop := {
  vd_votes : forall t j h sig, bucket t d !! j = Some (h, sig) ->
    0 <= j < n /\ (j ∉ byz -> mkBallot j t v h ∈ L);
  vd_prop : forall nd j, proposal d = Some (nd, j) ->
    parent nd = justify_parent j /\ justify_ok L j /\ known nd;
  vd_nv : forall j q, new_view_msgs d !! j = Some q -> justify_ok L q
}.

(** The certificates staged for one phase. *)
Definition staged_ok (L : list Ballot) (t : MsgType) (staged : gmap Z QC) : Prop :=
  forall v q, staged !! v = Some q ->
    qc_type q = t /\ qc_view q = v /\ certified L t v (qc_node q).

Record facts (L : list Ballot) (r : ReplicaState) : Prop := {
  f_n : n_replicas r = n;
  f_quorum : quorum r = n - max_faults n;
  f_tree : tree_ok (tree r);
  f_known : forall nd, in_tree (tree r) nd -> known nd;
  f_lock : forall l, locked_qc r = Some l -> certified L PreCommit (qc_view l) (qc_node l);
  f_prepare : justify_ok L (prepare_qc r);
  f_staged_pre : staged_ok L Prepare (staged_pre_commit_qc r);
  f_staged_commit : staged_ok L PreCommit (staged_commit_qc r);
  f_staged_decide : staged_ok L Commit (staged_decide_qc r);
  f_decided : forall h, h ∈ decided_nodes r -> exists v, certified L Commit v h;
  f_vd : forall v, vd_ok L v (vd_at r v)
}.

(** The replica's own ballots. *)
Definition own (i : Z) (L : list Ballot) (r : ReplicaState) : Prop :=
  forall c, c ∈ L -> b_voter c = i ->
    b_view c <= view r /\ voted (b_type c) (vd_at r (b_view c)) = true /\
    (b_type c = Commit -> exists l, locked_qc r = Some l /\ b_view c <= qc_view l).

Definition log_of (i : Z) (L : list Ballot) (s : Sys) : list Ballot :=
  ballots_of i (effects s) ++ L.

(** [B] bounds the view, so that [view + 1] does not wrap. *)
Record inv (i : Z) (L : list Ballot) (B : Z) (s : Sys) : Prop := {
  i_log : honest_log (log_of i L s);
  i_facts : facts (log_of i L s) (rs s);
  i_own : own i (log_of i L s) (rs s);
  i_view : 0 <= view (rs s) <= B
}.

(** ** Monotonicity in the log *)

Lemma justify_ok_mono L L' j : L ⊆ L' -> justify_ok L j -> justify_ok L' j.
Proof. intros HL Hj q Hq. eapply certified_mono; [exact HL|by apply Hj]. Qed.

Lemma vd_ok_mono L L' v d : L ⊆ L' -> vd_ok L v d -> vd_ok L' v d.
Proof.
  intros HL [Hv Hp Hn]. split.
  - intros t j h sig E. destruct (Hv t j h sig E). auto.
  - intros nd j E. destruct (Hp nd j E) as (? & ? & ?). eauto using justify_ok_mono.
  - intros j q E. eauto using justify_ok_mono.
Qed.

Lemma staged_ok_mono L L' t m : L ⊆ L' -> staged_ok L t m -> staged_ok L' t m.
Proof.
  intros HL Hs v q E. destruct (Hs v q E) as (? & ? & ?). eauto using certified_mono.
Qed.

Lemma facts_mono L L' r : L ⊆ L' -> facts L r -> facts L' r.
Proof.
  intros HL []. split; eauto using justify_ok_mono, staged_ok_mono, vd_ok_mono, certified_mono.
  intros h Hh. destruct (f_decided0 h Hh) as [v ?]. eauto using certified_mono.
Qed.

Lemma log_of_cons i L s b : log_of i L s ⊆ b :: log_of i L s.
Proof. intros x Hx. by apply list_elem_of_further. Qed.

(** ** Certificates *)

Lemma keys_ok_size keys : 1 <= n < u32_modulus -> keys_ok keys -> Z.of_nat (size keys) < u32_modulus.
Proof.
  intros Hn Hk. rewrite <- size_dom.
  pose proof (subseteq_size (dom keys) (replica_ids n)) as Hs.
  pose proof (size_replica_ids n ltac:(lia)). 
  assert (dom keys ⊆ replica_ids n) as Hd; [|specialize (Hs Hd); lia].
  intros j [pk Hj]%elem_of_dom. apply elem_of_replica_ids. by destruct (Hk j pk Hj).
Qed.

Lemma verify_qc_certified L keys qc :
  1 <= n < u32_modulus -> keys_ok keys -> qc_known L qc ->
  verify_qc qc (n - max_faults n) keys = true ->
  certified L (qc_type qc) (qc_view qc) (qc_node qc).
Proof.
  intros Hn Hk Hq Hv. apply verify_qc_count in Hv; [|by apply keys_ok_size].
  exists (signers qc keys). split_and!; [|done|].
  - intros j (sig & _ & (pk & Hj & _))%elem_of_signers. simpl in Hj.
    apply elem_of_replica_ids. by destruct (Hk j pk Hj).
  - intros j (sig & Hin & (pk & Hj & Hs))%elem_of_signers Hb. simpl in *.
    destruct (Hk j pk Hj) as [_ ->]. by apply (Hq j sig Hin Hb).
Qed.

Lemma form_qc_certified `{HashOrder} L v d t qc :
  vd_ok L v d -> form_qc (bucket t d) t v (n - max_faults n) = Some qc ->
  qc_type qc = t /\ qc_view qc = v /\ certified L t v (qc_node qc).
Proof.
  intros Hd Hf. destruct (form_qc_sound _ _ _ _ _ Hf) as (Ht & Hv & Hnd & Hlen & Hsig). split_and!; [done|done|].
  exists (list_to_set (qc_sigs qc).*1). split_and!.
  - intros j Hj. apply elem_of_list_to_set, list_elem_of_fmap in Hj as ([j' sig] & -> & Hin).
    apply elem_of_replica_ids. apply Hsig, (vd_votes _ _ _ Hd) in Hin. by destruct Hin.
  - rewrite size_list_to_set, length_fmap by done. done.
  - intros j Hj Hb. apply elem_of_list_to_set, list_elem_of_fmap in Hj as ([j' sig] & -> & Hin).
    apply Hsig, (vd_votes _ _ _ Hd) in Hin. simpl in *. by destruct Hin as [_ Hin]; apply Hin.
Qed.

(** ** Updates that keep the facts *)

Lemma facts_vd_mut L r v f :
  facts L r -> vd_ok L v (f (vd_at r v)) -> facts L (vd_mut v f r).
Proof.
  intros [] Hd. split; try done.
  intros v'. rewrite vd_at_mut. destruct (decide (v = v')) as [<-|]; auto.
Qed.

(** The fire-once flags are never cleared. *)
Definition keeps_votes (f : ViewData -> ViewData) : Prop :=
  forall t d, voted t d = true -> voted t (f d) = true.

Lemma own_vd_mut i L r v f : own i L r -> keeps_votes f -> own i L (vd_mut v f r).
Proof.
  intros Ho Hf c Hc Hi. destruct (Ho c Hc Hi) as (Hv & Hd & Hk). split_and!; [done| |done].
  rewrite vd_at_mut. destruct (decide (v = b_view c)) as [->|]; auto.
Qed.

Lemma inv_vd_mut i L B s v f :
  inv i L B s -> keeps_votes f -> vd_ok (log_of i L s) v (f (vd_at (rs s) v)) ->
  inv i L B (upd (vd_mut v f) s).
Proof.
  intros [] Hf Hd. split; [done|by apply facts_vd_mut|by apply own_vd_mut|done].
Qed.

Lemma inv_touch i L B s v : inv i L B s -> inv i L B (upd (vd_mut v id) s).
Proof. intros Hs. apply inv_vd_mut; [done|by intros ??|]. apply (f_vd _ _ (i_facts _ _ _ _ Hs)). Qed.

(** An effect that is not a signature. *)
Lemma inv_emit i L B s e :
  ballots_of i [e] = [] -> inv i L B s -> inv i L B (emit e s).
Proof.
  intros He Hs.
  assert (log_of i L (emit e s) = log_of i L s) as E.
  { unfold log_of. f_equal. change (effects (emit e s)) with ([e] ++ effects s).
    unfold ballots_of in *. by rewrite omap_app, He. }
  destruct Hs. split; rewrite ?E; done.
Qed.

(** ** Operations that leave the consensus part alone *)

(** The part of the state the facts are about. *)
Definition core (r : ReplicaState) :=
  (n_replicas r, quorum r, view r, locked_qc r, prepare_qc r, view_data r, tree r,
   decided_nodes r, (staged_pre_commit_qc r, staged_commit_qc r, staged_decide_qc r)).

Definition core_eq (i : Z) (s s' : Sys) : Prop :=
  core (rs s') = core (rs s) /\ ballots_of i (effects s') = ballots_of i (effects s).

Lemma core_eq_trans i s1 s2 s3 : core_eq i s1 s2 -> core_eq i s2 s3 -> core_eq i s1 s3.
Proof. intros [E1 F1] [E2 F2]. split; congruence. Qed.

Lemma facts_core L r r' : core r' = core r -> facts L r -> facts L r'.
Proof.
  destruct r, r'. unfold core; simpl. intros Hc Hf. simplify_eq. destruct Hf. split; done.
Qed.

Lemma own_core i L r r' : core r' = core r -> own i L r -> own i L r'.
Proof.
  destruct r, r'. unfold core; simpl. intros Hc Hf. simplify_eq. exact Hf.
Qed.

Lemma inv_core_eq i L B s s' : core_eq i s s' -> inv i L B s -> inv i L B s'.
Proof.
  intros [Hc Hb] [Hl Hf Ho Hv].
  assert (log_of i L s' = log_of i L s) as E by (unfold log_of; by rewrite Hb).
  split; rewrite ?E; [done|by eapply facts_core|by eapply own_core|].
  assert (view (rs s') = view (rs s)) as -> by (unfold core in Hc; congruence). done.
Qed.

Ltac core_refl := intros; simplify_eq; split; reflexivity.

Lemma maybe_kick_core w h i s s' : maybe_kick_validation w h s = Ok s' -> core_eq i s s'.
Proof.
  unfold maybe_kick_validation.
  destruct (validation_result (rs s) !! h); [core_refl|].
  destruct (decide _); [core_refl|].
  destruct (tree (rs s) !! h) as [node|]; [|core_refl].
  intros (b & _ & Hb)%result_bind_Ok. destruct (negb _); [core_refl|].
  destruct (validation_input _ _ _); core_refl.
Qed.

Lemma execute_node_core nh th i s s' : execute_node nh th s = Ok s' -> core_eq i s s'.
Proof.
  assert (core_eq i s (take_post_state nh s)) as E0.
  { unfold take_post_state. destruct (post_state_by_node (rs s) !! nh); core_refl. }
  unfold execute_node. intros (s1 & H1' & [= <-])%result_bind_Ok.
  eapply core_eq_trans; [exact E0|]. generalize dependent (take_post_state nh s). intros s0 _ H1'.
  unfold advance_root in H1'. destruct (pre_root_by_node (rs s0) !! nh); [|core_refl].
  destruct (_ && _); [done|]. destruct (post_root_by_node (rs s0) !! nh); core_refl.
Qed.

Lemma execute_loop_core w chain i s s' : execute_loop w chain s = Ok s' -> core_eq i s s'.
Proof.
  revert s. induction chain as [|nh chain IH]; intros s; simpl; [core_refl|].
  intros (node & _ & Hn)%result_bind_Ok. destruct (negb _); [core_refl|].
  destruct (validation_result (rs s) !! nh) as [[]|]; [|core_refl|by eapply maybe_kick_core].
  apply result_bind_Ok in Hn as (s1 & E1 & E2).
  eapply core_eq_trans; [by eapply execute_node_core|by apply IH].
Qed.

Lemma try_execute_chain_core w h i s s' : try_execute_chain w h s = Ok s' -> core_eq i s s'.
Proof. intros (chain & _ & Hc)%result_bind_Ok. by eapply execute_loop_core. Qed.

Lemma retry_pending_execute_core `{HashOrder} w i s s' :
  retry_pending_execute w s = Ok s' -> core_eq i s s'.
Proof.
  intros Hr. eapply (result_fold_preserves (core_eq i s)); [|done|exact Hr].
  intros h s1 s2 _ E1 E2. eapply core_eq_trans; [exact E1|by eapply try_execute_chain_core].
Qed.

Lemma try_kick_core `{HashOrder} w i s s' :
  try_kick_pending_validations w s = Ok s' -> core_eq i s s'.
Proof.
  unfold try_kick_pending_validations. generalize (hash_iter (tree (rs s))).*1. intros l.
  revert s. induction l as [|h l IH]; intros s; simpl; [core_refl|].
  destruct (pending_validation (rs s)); [core_refl|].
  intros (s1 & E1 & E2)%result_bind_Ok.
  eapply core_eq_trans; [by eapply maybe_kick_core|by apply IH].
Qed.

(** ** Votes *)

Lemma vd_ok_set_voted L v d t : vd_ok L v d -> vd_ok L v (set_voted t d).
Proof. intros []. destruct t; split; done. Qed.

Lemma vd_ok_add_vote L v d d' t i h sig :
  vd_ok L v d -> proposal d' = proposal d -> new_view_msgs d' = new_view_msgs d ->
  (forall t' j y, bucket t' d' !! j = Some y ->
     bucket t' d !! j = Some y \/ (t' = t /\ j = i /\ y = (h, sig))) ->
  0 <= i < n -> (i ∉ byz -> mkBallot i t v h ∈ L) -> vd_ok L v d'.
Proof.
  intros [Hv Hp Hn] Ep En Hb Hi Hin. split; [|by rewrite Ep|by rewrite En].
  intros t' j h' sig' E. destruct (Hb t' j _ E) as [E'|(-> & -> & [= -> ->])]; eauto.
Qed.

Lemma bucket_set_own t i nh sig d t' j y :
  bucket t' (set_own_vote t i nh sig d) !! j = Some y ->
  bucket t' d !! j = Some y \/ (t' = t /\ j = i /\ y = (nh, sig)).
Proof.
  destruct (decide (i = j)) as [->|Hne]; destruct t, t'; cbn; auto;
    rewrite ?lookup_insert_eq, ?lookup_insert_ne by done; auto; intros [= <-]; auto.
Qed.

Lemma insert_vacant_lookup {A} k (x : A) m j y :
  insert_vacant k x m !! j = Some y -> m !! j = Some y \/ (j = k /\ y = x).
Proof.
  unfold insert_vacant. destruct (m !! k) eqn:E; [by left|].
  destruct (decide (k = j)) as [->|Hne].
  - rewrite lookup_insert_eq. intros [= <-]. auto.
  - rewrite lookup_insert_ne by done. auto.
Qed.

Lemma bucket_record t i nh sig d t' j y :
  bucket t' (record_vote t i nh sig d) !! j = Some y ->
  bucket t' d !! j = Some y \/ (t' = t /\ j = i /\ y = (nh, sig)).
Proof.
  destruct t, t'; cbn; auto; intros [?|[-> ->]]%insert_vacant_lookup; auto.
Qed.

Lemma set_own_vote_frame t i nh sig d :
  proposal (set_own_vote t i nh sig d) = proposal d /\
  new_view_msgs (set_own_vote t i nh sig d) = new_view_msgs d /\
  forall t', voted t' (set_own_vote t i nh sig d) = voted t' d.
Proof. destruct t; split_and!; done. Qed.

Lemma record_vote_frame t i nh sig d :
  proposal (record_vote t i nh sig d) = proposal d /\
  new_view_msgs (record_vote t i nh sig d) = new_view_msgs d /\
  forall t', voted t' (record_vote t i nh sig d) = voted t' d.
Proof. destruct t; split_and!; done. Qed.

(** The state after [cast_vote] differs from the one before in the leader's
    bucket only. *)
Lemma cast_vote_cases w t v nh s :
  exists f es, cast_vote w t v nh s =
    mkSys (f (rs s)) (live_state s) (chained_root s) (es ++ Signed t v nh :: effects s) /\
    (f = id \/ f = vd_mut v (set_own_vote t (my_id w) nh (sign_vote (w_sk w) t v nh))) /\
    forall i, ballots_of i es = [].
Proof.
  unfold cast_vote. destruct (_ =? my_id w).
  - eexists (vd_mut _ _), []. split_and!; [done|by right|done].
  - eexists id, [_]. split_and!; [done|by left|done].
Qed.

Lemma ballots_of_app i e1 e2 : ballots_of i (e1 ++ e2) = ballots_of i e1 ++ ballots_of i e2.
Proof. apply omap_app. Qed.

Section replica.
Context (i : Z) (w : Wiring).
Hypothesis Hid : my_id w = i.
Hypothesis Hi : 0 <= i < n.

Lemma cast_vote_inv L B s t nh :
  inv i L B s ->
  voted t (vd_at (rs s) (view (rs s))) = false ->
  (match t with
   | Prepare => justified n byz known (log_of i L s) (mkBallot i Prepare (view (rs s)) nh)
   | PreCommit => certified (log_of i L s) Prepare (view (rs s)) nh
   | Commit => certified (log_of i L s) PreCommit (view (rs s)) nh
   | _ => False end) ->
  (t = Commit -> exists l, locked_qc (rs s) = Some l /\ view (rs s) <= qc_view l) ->
  inv i L B (upd (vd_mut (view (rs s)) (set_voted t)) (cast_vote w t (view (rs s)) nh s)).
Proof.
  intros [Hl Hf Ho Hv] Hnv Hrule Hlock. set (v := view (rs s)) in *.
  destruct (cast_vote_cases w t v nh s) as (f & es & -> & Hcase & Hes).
  set (b := mkBallot i t v nh).
  assert (forall r l c, log_of i L (mkSys r l c (es ++ Signed t v nh :: effects s)) =
    b :: log_of i L s) as Elog.
  { intros. unfold log_of. simpl. by rewrite ballots_of_app, Hes. }
  assert (Hmono := facts_mono _ _ _ (log_of_cons i L s b) Hf).
  assert (facts (b :: log_of i L s) (f (rs s)) /\ view (f (rs s)) = v /\
    locked_qc (f (rs s)) = locked_qc (rs s) /\
    forall v' t', voted t' (vd_at (f (rs s)) v') = voted t' (vd_at (rs s) v')) as (Hf' & Hv' & Hlk & Hvt).
  { destruct Hcase as [->| ->]; [done|].
    destruct (set_own_vote_frame t (my_id w) nh (sign_vote (w_sk w) t v nh) (vd_at (rs s) v))
      as (Ep & En & Ev).
    split_and!; [|done|done|].
    - apply facts_vd_mut; [done|].
      eapply vd_ok_add_vote; [apply (f_vd _ _ Hmono)|done|done|apply bucket_set_own|lia|].
      intros _. rewrite Hid. by constructor.
    - intros v' t'. rewrite vd_at_mut. by destruct (decide (v = v')) as [<-|]. }
  split; unfold upd, with_rs; cbn [rs live_state chained_root effects]; rewrite ?Elog.
  - constructor; [done|]. split.
    + intros c Hc Hcv. by apply (Ho c Hc Hcv).
    + intros c Hc Hcv Hct Hcw. simpl in *. destruct (Ho c Hc Hcv) as (_ & Hd & _).
      rewrite Hcw, Hct in Hd. fold v in Hnv. congruence.
    + simpl. destruct t; done.
  - apply facts_vd_mut; [done|]. apply vd_ok_set_voted, (f_vd _ _ Hf').
  - intros c [->|Hc]%elem_of_cons Hcv; cbn [b_voter b_type b_view b].
    + split_and!; [cbn; lia| |by cbn; rewrite Hlk].
      rewrite vd_at_mut_eq. by destruct t.
    + destruct (Ho c Hc Hcv) as (Hcw & Hd & Hk). split_and!; [cbn; lia| |by cbn; rewrite Hlk].
      rewrite vd_at_mut. destruct (decide (v = b_view c)) as [->|]; [|by rewrite Hvt].
      rewrite <- (Hvt (b_view c)) in Hd. by destruct t, (b_type c).
  - simpl. cbn. lia.
Qed.

(** Flags, proposals and NEW-VIEW messages. *)
Ltac vd_conv := intros []; split; done.

Lemma keeps_votes_conv f : (forall t d, voted t (f d) = voted t d) -> keeps_votes f.
Proof. intros Hf t d Hv. by rewrite Hf. Qed.

Lemma vd_ok_set_proposal L v d nd j :
  vd_ok L v d -> parent nd = justify_parent j -> justify_ok L j -> known nd ->
  vd_ok L v (match proposal d with None => set_proposal (Some (nd, j)) d | Some _ => d end).
Proof.
  intros Hd Hp Hj Hk. destruct (proposal d) eqn:E; [done|]. destruct Hd. split; try done.
  intros nd' j' [= <- <-]. done.
Qed.

Lemma inv_tree_insert L B s nd :
  known nd -> inv i L B s -> inv i L B (upd (fun r => set_tree (<[node_hash nd := nd]> (tree r)) r) s).
Proof.
  intros Hk [Hl Hf Ho Hv]. split; try done. destruct Hf. split; try done; [by apply tree_ok_insert|].
  intros nd' [h Hh]. cbn in Hh. apply lookup_insert_Some in Hh as [[_ <-]|[_ Hh]]; [done|]. apply f_known0. by exists h.
Qed.

Lemma staged_ok_insert L t m v q :
  staged_ok L t m -> qc_type q = t -> qc_view q = v -> certified L t v (qc_node q) ->
  staged_ok L t (<[v := q]> m).
Proof.
  intros Hm Ht Hv Hc v' q'. destruct (decide (v = v')) as [<-|Hne].
  - rewrite lookup_insert_eq. intros [= <-]. done.
  - rewrite lookup_insert_ne by done. apply Hm.
Qed.

(** The state updates of [stage_qc] and of the leader rules. *)
Lemma inv_stage_pre L B s v q :
  inv i L B s -> qc_type q = Prepare -> qc_view q = v -> certified (log_of i L s) Prepare v (qc_node q) ->
  inv i L B (upd (fun r => set_staged_pre_commit_qc (<[v := q]> (staged_pre_commit_qc r))
                   (vd_mut v (set_seen_pre_commit_qc true) r)) s).
Proof.
  intros Hs Ht Hv Hc.
  assert (inv i L B (upd (vd_mut v (set_seen_pre_commit_qc true)) s)) as [].
  { apply inv_vd_mut; [done|by apply keeps_votes_conv; intros []|].
    generalize (f_vd _ _ (i_facts _ _ _ _ Hs) v). vd_conv. }
  split; try done. destruct i_facts0. split; try done. by apply staged_ok_insert.
Qed.

Lemma inv_stage_commit L B s v q :
  inv i L B s -> qc_type q = PreCommit -> qc_view q = v -> certified (log_of i L s) PreCommit v (qc_node q) ->
  inv i L B (upd (fun r => set_staged_commit_qc (<[v := q]> (staged_commit_qc r))
                   (vd_mut v (set_seen_commit_qc true) r)) s).
Proof.
  intros Hs Ht Hv Hc.
  assert (inv i L B (upd (vd_mut v (set_seen_commit_qc true)) s)) as [].
  { apply inv_vd_mut; [done|by apply keeps_votes_conv; intros []|].
    generalize (f_vd _ _ (i_facts _ _ _ _ Hs) v). vd_conv. }
  split; try done. destruct i_facts0. split; try done. by apply staged_ok_insert.
Qed.

Lemma inv_stage_decide L B s v q :
  inv i L B s -> qc_type q = Commit -> qc_view q = v -> certified (log_of i L s) Commit v (qc_node q) ->
  inv i L B (upd (fun r => set_staged_decide_qc (<[v := q]> (staged_decide_qc r))
                   (vd_mut v (set_seen_decide_qc true) r)) s).
Proof.
  intros Hs Ht Hv Hc.
  assert (inv i L B (upd (vd_mut v (set_seen_decide_qc true)) s)) as [].
  { apply inv_vd_mut; [done|by apply keeps_votes_conv; intros []|].
    generalize (f_vd _ _ (i_facts _ _ _ _ Hs) v). vd_conv. }
  split; try done. destruct i_facts0. split; try done. by apply staged_ok_insert.
Qed.

Lemma inv_decided L B s v h :
  inv i L B s -> certified (log_of i L s) Commit v h ->
  inv i L B (upd (fun r => set_decided_nodes ({[h]} ∪ decided_nodes r) r) s).
Proof.
  intros [Hl Hf Ho Hv] Hc. split; try done. destruct Hf. split; try done.
  intros h' [->%elem_of_singleton|Hh]%elem_of_union; eauto.
Qed.

Lemma inv_timeout L B s x : inv i L B s -> inv i L B (upd (set_timeout_interval_ms x) s).
Proof. intros []. split; try done. destruct i_facts0. by split. Qed.

(** ** The view transition *)

Lemma enter_new_view_inv L B B' s nv :
  inv i L B s -> view (rs s) <= nv <= B' -> inv i L B' (enter_new_view w nv s).
Proof.
  intros Hs Hnv. unfold enter_new_view.
  assert (inv i L B' (upd (set_view nv) s)) as H0'.
  { destruct Hs. split; [done| |..].
    - destruct i_facts0. by split.
    - intros c Hc Hci. destruct (i_own0 c Hc Hci) as (? & ? & ?). split_and!; [cbn; lia|done|done].
    - cbn. lia. }
  apply inv_emit; [done|]. destruct (_ =? _); [|by apply inv_emit].
  pose proof (i_facts _ _ _ _ H0') as Hf.
  apply inv_vd_mut; [done|by apply keeps_votes_conv; intros []|].
  destruct (f_vd _ _ Hf (view (rs s))) as [Hv Hp Hn]. split; [done|done|].
  intros j q. cbn. destruct (decide (my_id w = j)) as [->|Hne].
  - rewrite lookup_insert_eq. intros [= <-]. apply (f_prepare _ _ Hf).
  - rewrite lookup_insert_ne by done. apply Hn.
Qed.

(** ** The rules *)
Section with_order.
Context `{HashOrder}.

Lemma choose_high_qc_ok L r v : facts L r -> justify_ok L (choose_high_qc r v).
Proof.
  intros Hf q Hq. apply max_by_key_elem in Hq.
  apply list_elem_of_omap in Hq as ([j oq] & Hin & Ho). simpl in Ho. subst oq.
  apply elem_of_hash_iter in Hin. by apply (vd_nv _ _ _ (f_vd _ _ Hf v) j (Some q)).
Qed.

Lemma leader_prepare_inv L B s0 s' :
  inv i L B s0 -> Forall known (proposals (effects s')) -> leader_prepare w s0 = Ok s' -> inv i L B s'.
Proof.
  intros Hs Hkn. unfold leader_prepare. cbv zeta. destruct (negb _); [by intros [= <-]|].
  apply (inv_touch _ _ _ _ (view (rs s0))) in Hs.
  set (v := view (rs s0)) in *. set (s := upd (vd_mut v id) s0) in *. clearbody s v. clear s0.
  destruct (broadcast_proposal _); [by intros [= <-]|].
  destruct (_ <? _); [by intros [= <-]|].
  intros (d & _ & Hr)%result_bind_Ok. pose proof (choose_high_qc_ok _ _
    (saturating_sub_u64 v 1) (i_facts _ _ _ _ Hs)) as Hj. revert Hr.
  generalize dependent (choose_high_qc (rs s) (saturating_sub_u64 v 1)). intros high Hj.
  destruct (match high with Some _ => _ | None => _ end) as [nh|]; [|by intros [= <-]].
  destruct (_ <=? _); [by intros [= <-]|].
  intros (block & _ & Hk)%result_bind_Ok. rewrite (maybe_kick_proposals _ _ _ _ Hk) in Hkn.
  apply Forall_cons in Hkn as [Hkn _]. eapply inv_core_eq; [by eapply maybe_kick_core|].
  apply inv_vd_mut; [apply inv_emit; [done|by apply inv_tree_insert]| |].
  - apply keeps_votes_conv. intros t d'. by destruct (proposal d'), t.
  - assert (facts (log_of i L s) (rs s)) as Hf by apply Hs.
    pose proof (vd_ok_set_proposal _ v _ (mkNode (justify_parent high) (block_cmd block) nh) high
      (f_vd _ _ Hf v) eq_refl Hj Hkn) as Hd. revert Hd. cbn. vd_conv.
Qed.

Lemma replica_prepare_inv L B : preserves (inv i L B) (replica_prepare w).
Proof.
  intros s s' Hs. unfold replica_prepare.
  destruct (match vd (rs s) (view (rs s)) with Some _ => _ | None => _ end) as [[leaf high]|] eqn:Ep;
    [|by intros [= <-]].
  assert (proposal (vd_at (rs s) (view (rs s))) = Some (leaf, high)) as Ep'.
  { unfold vd_at. by destruct (vd (rs s) (view (rs s))). }
  clear Ep. cbv zeta. set (s1 := upd (vd_mut (view (rs s)) id) s).
  assert (inv i L B s1) as Hs1 by (by apply inv_touch).
  assert (view (rs s1) = view (rs s)) as Ew by done.
  assert (proposal (vd_at (rs s1) (view (rs s1))) = Some (leaf, high)) as Ep.
  { rewrite Ew. change (rs s1) with (vd_mut (view (rs s)) id (rs s)). by rewrite vd_at_mut_eq. }
  rewrite <- Ew. clearbody s1. clear s Hs Ep' Ew. rename s1 into s, Hs1 into Hs.
  destruct (voted_prepare _) eqn:Ev; [by intros [= <-]|].
  assert (inv i L B (upd (vd_mut (view (rs s)) (set_voted_prepare true)) s)) as Hskip.
  { apply inv_vd_mut; [done| |].
    - intros [] d Hd; by simpl in *.
    - generalize (f_vd _ _ (i_facts _ _ _ _ Hs) (view (rs s))). vd_conv. }
  destruct (validation_result _ !! _) as [[]|]; [|by intros [= <-]|by intros [= <-]].
  destruct (safe_node _ _ _ _) eqn:Es; simpl; [|by intros [= <-]].
  intros [= <-]. apply (cast_vote_inv L B s Prepare); [done|done| |done].
  destruct Hs as [Hl Hf Ho Hv]. intros c Hc Hci Hct. simpl in Hci.
  destruct (Ho c Hc Hci) as (_ & _ & Hlk). destruct (Hlk Hct) as (l & El & Hle).
  exists (qc_view l), (qc_node l). split_and!; [done|by apply (f_lock _ _ Hf)|]. cbn [b_node].
  unfold safe_node in Es. rewrite El in Es.
  destruct (vd_prop _ _ _ (f_vd _ _ Hf (view (rs s))) _ _ Ep) as (Hpar & Hj & Hkn).
  destruct (extends_from leaf (qc_node l) (tree (rs s))) eqn:Ee.
  - left. eapply extends_from_sound; [apply (f_tree _ _ Hf)|apply (f_known _ _ Hf)|done|done].
  - right. destruct high as [q|]; [|done].
    exists (qc_type q), (qc_view q), (qc_node q). split_and!; [lia|by apply Hj|].
    exists leaf. split_and!; [done|done|exact Hpar].
Qed.

(** The flags that record what was broadcast or staged. *)
Lemma inv_flag L B s v f :
  inv i L B s ->
  (forall t d, voted t (f d) = voted t d) -> (forall t d, bucket t (f d) = bucket t d) ->
  (forall d, proposal (f d) = proposal d) -> (forall d, new_view_msgs (f d) = new_view_msgs d) ->
  inv i L B (upd (vd_mut v f) s).
Proof.
  intros Hs Hv Hb Hp Hn. apply inv_vd_mut; [done|by apply keeps_votes_conv|].
  destruct (f_vd _ _ (i_facts _ _ _ _ Hs) v). split; intros *; rewrite ?Hb, ?Hp, ?Hn; eauto.
Qed.

Lemma inv_form_qc L B s v t qc :
  inv i L B s -> form_qc (bucket t (vd_at (rs s) v)) t v (quorum (rs s)) = Some qc ->
  qc_type qc = t /\ qc_view qc = v /\ certified (log_of i L s) t v (qc_node qc).
Proof.
  intros [_ Hf _ _]. rewrite (f_quorum _ _ Hf). apply form_qc_certified, Hf.
Qed.

Lemma leader_pre_commit_inv L B : preserves (inv i L B) (leader_pre_commit w).
Proof.
  intros s0 s' Hs. unfold leader_pre_commit. cbv zeta. destruct (negb _); [by intros [= <-]|].
  apply (inv_touch _ _ _ _ (view (rs s0))) in Hs.
  set (v := view (rs s0)) in *. set (s := upd (vd_mut v id) s0) in *. clearbody s v. clear s0.
  destruct (broadcast_pre_commit _); [by intros [= <-]|].
  destruct (form_qc _ _ _ _) as [qc|] eqn:Ef; [|by intros [= <-]].
  destruct (inv_form_qc L B s v Prepare qc Hs Ef) as (Ht & Hw & Hc).
  apply (inv_emit _ _ _ _ (Broadcast (PhaseQc PreCommit v qc (my_id w)))) in Hs; [|done].
  apply (inv_flag _ _ _ v (set_broadcast_pre_commit true)) in Hs; [|by intros []..|done|done].
  destruct (seen_pre_commit_qc _); intros [= <-]; [done|].
  by apply inv_stage_pre.
Qed.

Lemma leader_commit_inv L B : preserves (inv i L B) (leader_commit w).
Proof.
  intros s0 s' Hs. unfold leader_commit. cbv zeta. destruct (negb _); [by intros [= <-]|].
  apply (inv_touch _ _ _ _ (view (rs s0))) in Hs.
  set (v := view (rs s0)) in *. set (s := upd (vd_mut v id) s0) in *. clearbody s v. clear s0.
  destruct (broadcast_commit _); [by intros [= <-]|].
  destruct (form_qc _ _ _ _) as [qc|] eqn:Ef; [|by intros [= <-]].
  destruct (inv_form_qc L B s v PreCommit qc Hs Ef) as (Ht & Hw & Hc).
  apply (inv_emit _ _ _ _ (Broadcast (PhaseQc Commit v qc (my_id w)))) in Hs; [|done].
  apply (inv_flag _ _ _ v (set_broadcast_commit true)) in Hs; [|by intros []..|done|done].
  destruct (seen_commit_qc _); intros [= <-]; [done|].
  by apply inv_stage_commit.
Qed.

Lemma leader_decide_inv L B : preserves (inv i L B) (leader_decide w).
Proof.
  intros s0 s' Hs. unfold leader_decide. cbv zeta. destruct (negb _); [by intros [= <-]|].
  apply (inv_touch _ _ _ _ (view (rs s0))) in Hs.
  set (v := view (rs s0)) in *. set (s := upd (vd_mut v id) s0) in *. clearbody s v. clear s0.
  destruct (broadcast_decide _); [by intros [= <-]|].
  destruct (form_qc _ _ _ _) as [qc|] eqn:Ef; [|by intros [= <-]].
  destruct (inv_form_qc L B s v Commit qc Hs Ef) as (Ht & Hw & Hc).
  apply (inv_emit _ _ _ _ (Broadcast (PhaseQc Decide v qc (my_id w)))) in Hs; [|done].
  apply (inv_flag _ _ _ v (set_broadcast_decide true)) in Hs; [|by intros []..|done|done].
  destruct (seen_decide_qc _); intros [= <-]; [done|].
  by apply inv_stage_decide.
Qed.

Lemma inv_prepare_qc L B s q :
  inv i L B s -> certified (log_of i L s) (qc_type q) (qc_view q) (qc_node q) ->
  inv i L B (upd (set_prepare_qc (Some q)) s).
Proof.
  intros [Hl Hf Ho Hv] Hc. split; try done. destruct Hf. split; try done. by intros ? [= <-].
Qed.

(** The lock only moves up: it is set to a certificate of the current view,
    and every commit ballot is of an earlier or the current view. *)
Lemma inv_lock L B s q :
  inv i L B s -> qc_view q = view (rs s) ->
  certified (log_of i L s) PreCommit (qc_view q) (qc_node q) ->
  inv i L B (upd (set_locked_qc (Some q)) s).
Proof.
  intros [Hl Hf Ho Hv] Hq Hc. split; try done.
  - destruct Hf. split; try done. by intros ? [= <-].
  - intros c Hin Hci. destruct (Ho c Hin Hci) as (Hle & Hvt & _). split_and!; [done|done|].
    intros _. exists q. split; [done|lia].
Qed.

Lemma replica_pre_commit_inv L B : preserves (inv i L B) (replica_pre_commit w).
Proof.
  intros s0 s' Hs. unfold replica_pre_commit. cbv zeta.
  apply (inv_touch _ _ _ _ (view (rs s0))) in Hs.
  set (s := upd (vd_mut (view (rs s0)) id) s0) in *.
  change (view (rs s0)) with (view (rs s)). clearbody s. clear s0.
  destruct (negb _ || _) eqn:Ev; [by intros [= <-]|]. apply orb_false_iff in Ev as [_ Ev].
  destruct (staged_pre_commit_qc (rs s) !! _) as [qc|] eqn:Eq; [|by intros [= <-]].
  destruct (f_staged_pre _ _ (i_facts _ _ _ _ Hs) _ _ Eq) as (Ht & Hw & Hc).
  intros [= <-]. apply (cast_vote_inv L B (upd (set_prepare_qc (Some qc)) s) PreCommit); [|done|done|done].
  apply inv_prepare_qc; [done|]. by rewrite Ht, Hw.
Qed.

Lemma replica_commit_inv L B : preserves (inv i L B) (replica_commit w).
Proof.
  intros s0 s' Hs. unfold replica_commit. cbv zeta.
  apply (inv_touch _ _ _ _ (view (rs s0))) in Hs.
  set (s := upd (vd_mut (view (rs s0)) id) s0) in *.
  change (view (rs s0)) with (view (rs s)). clearbody s. clear s0.
  destruct (negb _ || _) eqn:Ev; [by intros [= <-]|]. apply orb_false_iff in Ev as [_ Ev].
  destruct (staged_commit_qc (rs s) !! _) as [qc|] eqn:Eq; [|by intros [= <-]].
  destruct (f_staged_commit _ _ (i_facts _ _ _ _ Hs) _ _ Eq) as (Ht & Hw & Hc).
  intros [= <-]. apply (cast_vote_inv L B (upd (set_locked_qc (Some qc)) s) Commit); [|done|done|].
  - apply inv_lock; [done|done|by rewrite Hw].
  - intros _. exists qc. split; [done|]. cbn. lia.
Qed.

Lemma add_u64_small a b : 0 <= a -> 0 <= b -> a + b < u64_modulus -> add_u64 a b = a + b.
Proof. intros. unfold add_u64, wrap64. apply Z.mod_small. lia. Qed.

Lemma replica_decide_inv L B s s' :
  B + 1 < u64_modulus -> inv i L B s -> replica_decide w s = Ok s' -> inv i L (B + 1) s'.
Proof.
  intros HB Hs. assert (forall s, inv i L B s -> inv i L (B + 1) s) as Hup.
  { intros ? []. split; [done..|lia]. }
  revert Hs. intros Hs. unfold replica_decide. cbv zeta.
  apply (inv_touch _ _ _ _ (view (rs s))) in Hs.
  set (s1 := upd (vd_mut (view (rs s)) id) s) in *.
  change (view (rs s)) with (view (rs s1)). clearbody s1. clear s. rename s1 into s.
  destruct (negb _); [intros [= <-]; by apply Hup|].
  destruct (staged_decide_qc (rs s) !! _) as [qc|] eqn:Eq; [|intros [= <-]; by apply Hup].
  destruct (f_staged_decide _ _ (i_facts _ _ _ _ Hs) _ _ Eq) as (Ht & Hw & Hc).
  intros (s2 & Hx & [= <-])%result_bind_Ok.
  pose proof (try_execute_chain_core _ _ i _ _ Hx) as Hcore.
  pose proof (inv_decided _ _ _ _ _ Hs Hc) as Hd. apply (inv_core_eq _ _ _ _ _ Hcore) in Hd.
  assert (view (rs s2) = view (rs s)) as Ev.
  { destruct Hcore as [Hcore _]. unfold core in Hcore. cbn in Hcore. congruence. }
  pose proof (i_view _ _ _ _ Hs).
  eapply enter_new_view_inv; [by apply inv_timeout|].
  cbn. rewrite Ev, add_u64_small by lia. lia.
Qed.

Lemma try_advance_inv L B s s' :
  B + 1 < u64_modulus -> inv i L B s -> Forall known (proposals (effects s')) ->
  try_advance w s = Ok s' -> inv i L (B + 1) s'.
Proof.
  intros HB Hs Hk Ha. destruct (try_advance_proposals _ _ _ Ha) as (s0 & E0 & Ep). rewrite Ep in Hk. clear Ep.
  revert Ha. unfold try_advance. intros (s1 & E1 & Hr)%result_bind_Ok.
  assert (s0 = s1) as -> by congruence. apply leader_prepare_inv with (L := L) (B := B) in E1; [|done|done].
  apply result_bind_Ok in Hr as (s2 & E2 & Hr). apply replica_prepare_inv with (L := L) (B := B) in E2; [|done].
  apply result_bind_Ok in Hr as (s3 & E3 & Hr). apply leader_pre_commit_inv with (L := L) (B := B) in E3; [|done].
  apply result_bind_Ok in Hr as (s4 & E4 & Hr). apply replica_pre_commit_inv with (L := L) (B := B) in E4; [|done].
  apply result_bind_Ok in Hr as (s5 & E5 & Hr). apply leader_commit_inv with (L := L) (B := B) in E5; [|done].
  apply result_bind_Ok in Hr as (s6 & E6 & Hr). apply replica_commit_inv with (L := L) (B := B) in E6; [|done].
  apply result_bind_Ok in Hr as (s7 & E7 & Hr). apply leader_decide_inv with (L := L) (B := B) in E7; [|done].
  apply result_bind_Ok in Hr as (s8 & E8 & Hr). apply replica_decide_inv with (L := L) (B := B) in E8; [|done|done].
  apply result_bind_Ok in Hr as (s9 & E9 & Hr). apply retry_pending_execute_core with (i := i) in E9.
  apply try_kick_core with (i := i) in Hr. eauto using inv_core_eq.
Qed.

(** ** The handlers *)

(** What is assumed of an event: the keys are those of the replicas, the
    signatures are known, and no vote comes in the receiver's name. *)
Definition event_ok (L : list Ballot) (e : Event) : Prop :=
  match e with
  | EvMsg m keys => keys_ok keys /\ msg_known L m /\ no_self_vote i m
  | _ => True
  end.

Lemma justify_verifies_ok L j keys :
  1 <= n < u32_modulus -> keys_ok keys -> (forall q, j = Some q -> qc_known L q) ->
  justify_verifies j (n - max_faults n) keys = true -> justify_ok L j.
Proof. intros Hn Hk Hq Hv q ->. eapply verify_qc_certified; eauto. Qed.

Section messages.
Context (L : list Ballot) (B : Z) (keys : gmap Z verifying_key).
Hypothesis n_range : 1 <= n < u32_modulus.
Hypothesis Hkeys : keys_ok keys.

Lemma handle_proposal_inv v node j sender s s' :
  inv i L B s -> (forall q, j = Some q -> qc_known (log_of i L s) q) -> known node ->
  handle_proposal w keys v node j sender s = Ok s' -> inv i L B s'.
Proof.
  intros Hs Hq Hkn. unfold handle_proposal. cbv zeta.
  destruct (negb _); [by intros [= <-]|].
  destruct (justify_verifies _ _ _) eqn:Ev; [|by intros [= <-]]. simpl.
  case_bool_decide as Hp; [|by intros [= <-]]. simpl.
  intros Hk. eapply inv_core_eq; [by eapply maybe_kick_core|].
  pose proof (i_facts _ _ _ _ Hs) as Hf. rewrite (f_quorum _ _ Hf) in Ev.
  apply inv_vd_mut; [by apply inv_tree_insert| |].
  - apply keeps_votes_conv. intros t d. by destruct (proposal d), t.
  - apply (vd_ok_set_proposal _ v _ node j (f_vd _ _ Hf v) Hp); [|done].
    by eapply justify_verifies_ok.
Qed.

Lemma stage_qc_inv t v q s qt :
  inv i L B s -> expected_qc_type t = Some qt -> qc_type q = qt -> qc_view q = v ->
  certified (log_of i L s) qt v (qc_node q) -> inv i L B (upd (stage_qc t v q) s).
Proof.
  intros Hs Ht Hq Hv Hc. apply (inv_touch _ _ _ _ v) in Hs.
  destruct t; try discriminate Ht; injection Ht as <-; subst v.
  - change (upd (stage_qc PreCommit _ q) s) with
      (upd (fun r => if seen_pre_commit_qc (vd_at r (qc_view q)) then r else
        set_staged_pre_commit_qc (<[qc_view q := q]> (staged_pre_commit_qc r))
             (vd_mut (qc_view q) (set_seen_pre_commit_qc true) r)) (upd (vd_mut (qc_view q) id) s)).
    unfold upd at 1. destruct (seen_pre_commit_qc _); [done|].
    apply (inv_stage_pre L B (upd (vd_mut (qc_view q) id) s)); done.
  - change (upd (stage_qc Commit _ q) s) with
      (upd (fun r => if seen_commit_qc (vd_at r (qc_view q)) then r else
        set_staged_commit_qc (<[qc_view q := q]> (staged_commit_qc r))
             (vd_mut (qc_view q) (set_seen_commit_qc true) r)) (upd (vd_mut (qc_view q) id) s)).
    unfold upd at 1. destruct (seen_commit_qc _); [done|].
    apply (inv_stage_commit L B (upd (vd_mut (qc_view q) id) s)); done.
  - change (upd (stage_qc Decide _ q) s) with
      (upd (fun r => if seen_decide_qc (vd_at r (qc_view q)) then r else
        set_decided_nodes ({[qc_node q]} ∪ decided_nodes r)
          (set_staged_decide_qc (<[qc_view q := q]> (staged_decide_qc r))
             (vd_mut (qc_view q) (set_seen_decide_qc true) r))) (upd (vd_mut (qc_view q) id) s)).
    unfold upd at 1. destruct (seen_decide_qc _); [done|].
    pose proof (inv_stage_decide L B _ _ q Hs Hq eq_refl Hc) as Hd.
    exact (inv_decided L B _ _ _ Hd Hc).
Qed.

Lemma handle_phase_qc_inv t v q sender s s' :
  inv i L B s -> qc_known (log_of i L s) q ->
  handle_phase_qc keys t v q sender s = Ok s' -> inv i L B s'.
Proof.
  intros Hs Hq. unfold handle_phase_qc. destruct (negb _); [by intros [= <-]|].
  destruct (expected_qc_type t) as [qt|] eqn:Et; [|by intros [= <-]].
  destruct (negb _ || negb _) eqn:Ec; [by intros [= <-]|].
  apply orb_false_iff in Ec as [Ec1 Ec2]. apply negb_false_iff in Ec1, Ec2.
  apply bool_decide_eq_true in Ec1. apply Z.eqb_eq in Ec2.
  destruct (verify_qc _ _ _) eqn:Ev; [|by intros [= <-]]. intros [= <-].
  rewrite (f_quorum _ _ (i_facts _ _ _ _ Hs)) in Ev.
  eapply stage_qc_inv; [done|done|done|done|].
  pose proof (verify_qc_certified _ _ _ n_range Hkeys Hq Ev) as Hc. by rewrite Ec1, Ec2 in Hc.
Qed.

Lemma handle_vote_inv t v nh voter sig s s' :
  inv i L B s -> sig_known (log_of i L s) t v nh voter sig -> voter <> i ->
  handle_vote w keys t v nh voter sig s = Ok s' -> inv i L B s'.
Proof.
  intros Hs Hk Hne. unfold handle_vote. destruct (negb _); [by intros [= <-]|].
  unfold vote_accepted. destruct (Z.eqb_spec voter (my_id w)) as [->|_]; [by rewrite Hid in Hne|].
  destruct (keys !! voter) as [pk|] eqn:Ek; [|by intros [= <-]].
  destruct (verify_vote_sig pk t v nh sig) eqn:Ev; [|by intros [= <-]]. intros [= <-].
  destruct (Hkeys _ _ Ek) as [Hr ->].
  destruct (record_vote_frame t voter nh sig (vd_at (rs s) v)) as (Ep & En & _).
  apply inv_vd_mut; [done| |].
  - apply keeps_votes_conv. intros. apply record_vote_frame.
  - eapply vd_ok_add_vote; [apply (f_vd _ _ (i_facts _ _ _ _ Hs))|done|done|apply bucket_record|lia|].
    intros Hb. by apply Hk.
Qed.

Lemma handle_new_view_inv v j sender s s' :
  inv i L B s -> (forall q, j = Some q -> qc_known (log_of i L s) q) ->
  handle_new_view w keys v j sender s = Ok s' -> inv i L B s'.
Proof.
  intros Hs Hq. unfold handle_new_view. destruct (negb _); [by intros [= <-]|].
  pose proof (i_facts _ _ _ _ Hs) as Hf. rewrite (f_quorum _ _ Hf).
  destruct (justify_verifies _ _ _) eqn:Ev; [|by intros [= <-]]. intros [= <-].
  apply inv_vd_mut; [done|by apply keeps_votes_conv; intros []|].
  destruct (f_vd _ _ Hf v). split; [done|done|].
  intros k q'. cbn. intros [?|[-> ->]]%insert_vacant_lookup; [eauto|].
  by eapply justify_verifies_ok.
Qed.
End messages.

Lemma ingest_validation_core out s : core_eq i s (upd (ingest_validation out) s).
Proof.
  unfold core_eq. split; [|done]. cbn. unfold ingest_validation. cbv zeta.
  destruct (out_post_state out), (out_post_root out), (out_pre_root out);
    match goal with |- context [if ?c then _ else _] => destruct c end; done.
Qed.

Lemma handle_timer_inv L B evt s :
  B + 1 < u64_modulus -> inv i L B s -> inv i L (B + 1) (handle_timer w evt s).
Proof.
  intros HB Hs. assert (inv i L (B + 1) s) as Hup.
  { destruct Hs. split; [done..|lia]. }
  unfold handle_timer. destruct (negb _); [done|].
  destruct (match vd _ _ with Some _ => _ | None => _ end); [done|].
  pose proof (i_view _ _ _ _ Hs).
  eapply enter_new_view_inv; [exact (inv_timeout _ _ _ _ Hs)|].
  cbn. rewrite add_u64_small by lia. lia.
Qed.

Lemma start_protocol_inv L s : view (rs s) = 0 -> inv i L 0 s -> inv i L 1 (start_protocol w s).
Proof.
  intros Hv Hs. unfold start_protocol.
  assert (upd (set_view 0) s = s) as ->.
  { destruct s as [[] ? ? ?]. cbn in Hv. by subst. }
  eapply enter_new_view_inv; [done|lia].
Qed.

Lemma handle_event_inv L B e s s' :
  1 <= n < u32_modulus -> B + 1 < u64_modulus -> (e = EvStart -> view (rs s) = 0) -> 0 <= B ->
  inv i L B s -> event_ok (log_of i L s) e -> Forall known (event_proposals e) -> handle_event w e s = Ok s' -> inv i L (B + 1) s'.
Proof.
  intros Hn HB Hstart HB0 Hs He Hkn.
  assert (forall s, inv i L B s -> inv i L (B + 1) s) as Hup.
  { intros ? []. split; [done..|lia]. }
  destruct e as [|m keys|evt|out]; simpl.
  - intros [= <-]. specialize (Hstart eq_refl).
    assert (inv i L 1 (start_protocol w s)) as [].
    { apply start_protocol_inv; [done|]. destruct Hs. split; [done..|lia]. }
    split; [done..|lia].
  - destruct He as (Hk & Hm & Hns). intros Hr. apply Hup.
    destruct m; simpl in *.
    + by simplify_eq.
    + apply Forall_cons in Hkn as [Hkn _]. eapply handle_proposal_inv; eauto.
    + eapply handle_phase_qc_inv; eauto.
    + eapply handle_vote_inv; eauto.
    + eapply handle_new_view_inv; eauto.
  - intros [= <-]. by apply handle_timer_inv.
  - intros [= <-]. apply Hup. eapply inv_core_eq; [apply ingest_validation_core|done].
Qed.

(** One pass of the event loop. *)
Lemma node_step_inv L e s s' :
  1 <= n < u32_modulus -> view (rs s) + 2 < u64_modulus -> (e = EvStart -> view (rs s) = 0) ->
  inv i L (view (rs s)) (with_effects [] s) -> event_ok L e ->
  Forall known (event_proposals e ++ proposals (effects s')) ->
  node_step w e s = Ok s' -> inv i L (view (rs s) + 2) s'.
Proof.
  intros Hn HB Hstart Hs He [Hk1 Hk2]%Forall_app (s1 & E1 & E2)%result_bind_Ok.
  pose proof (i_view _ _ _ _ Hs) as Hv. simpl in Hv.
  replace (view (rs s) + 2) with (view (rs s) + 1 + 1) by lia.
  eapply try_advance_inv; [lia| |done|exact E2].
  by apply (handle_event_inv L (view (rs s)) e (with_effects [] s)); try lia.
Qed.
End with_order.
End replica.
End invariant.

(** Knowing more nodes keeps the invariant. *)
Lemma inv_known `{Sha256} n byz (K K' : Node -> Prop) i L B s :
  (forall nd, K nd -> K' nd) -> inv n byz K i L B s -> inv n byz K' i L B s.
Proof.
  intros HK [Hl Hf Ho Hv]. split; [by eapply honest_log_known| |done|done].
  destruct Hf. split; eauto. intros v. destruct (f_vd0 v) as [Hvv Hp Hn]. split; [done| |done].
  intros nd j E. destruct (Hp nd j E) as (? & ? & ?). eauto.
Qed.
