(* ===== verification/Steps.v ===== *)
(** * Steps: an event loop pass as a sequence of primitive steps

    [node_step] runs a handler and ten rules.  Each of them either does
    nothing or performs a few of the primitive steps below, whose guards are
    the conditions the code has checked when it gets there.  An invariant of
    the replica then needs one case per primitive step. *)

From Stdlib Require Import ZArith Lia.
From stdpp Require Import prelude strings gmap.
From S2P Require Import Prelude Crypto Ledger Messages Replica Qc VoteLog Workload Validator Wiring Execute Handlers Rules Consensus Invariant.
Open Scope Z_scope.

(** ** The three voting phases *)

(** The phases replicas vote in, and the message that announces the
    certificate of a phase. *)
Definition phase (t : MsgType) : Prop := t = Prepare \/ t = PreCommit \/ t = Commit.

#[global] Instance phase_dec t : Decision (phase t).
Proof. unfold phase. apply _. Defined.

Definition next (t : MsgType) : MsgType :=
  match t with Prepare => PreCommit | PreCommit => Commit | Commit => Decide | _ => NewView end.

(** The leader's broadcast flag, the receipt flag and the staged
    certificates of a phase. *)
Definition bcast (t : MsgType) (d : ViewData) : bool :=
  match t with
  | Prepare => broadcast_pre_commit d
  | PreCommit => broadcast_commit d
  | Commit => broadcast_decide d
  | _ => false
  end.

Definition set_bcast (t : MsgType) (d : ViewData) : ViewData :=
  match t with
  | Prepare => set_broadcast_pre_commit true d
  | PreCommit => set_broadcast_commit true d
  | Commit => set_broadcast_decide true d
  | _ => d
  end.

Definition seen (t : MsgType) (d : ViewData) : bool :=
  match t with
  | Prepare => seen_pre_commit_qc d
  | PreCommit => seen_commit_qc d
  | Commit => seen_decide_qc d
  | _ => false
  end.

Definition set_seen (t : MsgType) (d : ViewData) : ViewData :=
  match t with
  | Prepare => set_seen_pre_commit_qc true d
  | PreCommit => set_seen_commit_qc true d
  | Commit => set_seen_decide_qc true d
  | _ => d
  end.

Definition staged (t : MsgType) (r : ReplicaState) : gmap Z QC :=
  match t with
  | Prepare => staged_pre_commit_qc r
  | PreCommit => staged_commit_qc r
  | Commit => staged_decide_qc r
  | _ => ∅
  end.

Definition set_staged (t : MsgType) (m : gmap Z QC) (r : ReplicaState) : ReplicaState :=
  match t with
  | Prepare => set_staged_pre_commit_qc m r
  | PreCommit => set_staged_commit_qc m r
  | Commit => set_staged_decide_qc m r
  | _ => r
  end.

(** Staging a certificate: the flag and the table. *)
Definition stage (t : MsgType) (v : Z) (qc : QC) (r : ReplicaState) : ReplicaState :=
  set_staged t (<[v := qc]> (staged t r)) (vd_mut v (set_seen t) r).

Definition decided (h : list Z) (r : ReplicaState) : ReplicaState :=
  set_decided_nodes ({[h]} ∪ decided_nodes r) r.

(** The proposal slot of a view is filled once. *)
Definition fill_slot (nd : Node) (j : option QC) (d : ViewData) : ViewData :=
  match proposal d with None => set_proposal (Some (nd, j)) d | Some _ => d end.

Section steps.
Context `{Sha256, Bincode, SigScheme, FileSystem, Serde}.
(** [allow] bounds the views that may be left, so that [view + 1] does not
    wrap around. *)
Context (w : Wiring) (e : Event) (allow : Z -> Prop).

Definition add_node (nd : Node) (r : ReplicaState) : ReplicaState :=
  set_tree (<[node_hash nd := nd]> (tree r)) r.

Definition propose (v : Z) (leaf : Node) (high : option QC) (s : Sys) : Sys :=
  upd (vd_mut v (fun d => set_broadcast_proposal true (fill_slot leaf high d)))
    (emit (Broadcast (Proposal v leaf high (my_id w))) (upd (add_node leaf) s)).

Definition mark_vote (t : MsgType) (v : Z) (h : list Z) (s : Sys) : Sys :=
  upd (vd_mut v (set_voted t)) (cast_vote w t v h s).

Definition announce (t : MsgType) (v : Z) (qc : QC) (s : Sys) : Sys :=
  upd (vd_mut v (set_bcast t)) (emit (Broadcast (PhaseQc (next t) v qc (my_id w))) s).

Definition receive_new_view (v : Z) (j : option QC) (sender : Z) (s : Sys) : Sys :=
  upd (vd_mut v (fun d => set_new_view_msgs (insert_vacant sender j (new_view_msgs d)) d)) s.

(** Why a replica leaves its view: the view is decided, or it timed out. *)
Definition leaves (r : ReplicaState) : Prop :=
  (exists qc, seen Commit (vd_at r (view r)) = true /\ staged Commit r !! view r = Some qc /\
     qc_node qc ∈ decided_nodes r) \/
  (e = EvTimer (mkTimerEvent (view r)) /\ seen Commit (vd_at r (view r)) = false).

Inductive prim `{HashOrder} (s : Sys) : Sys -> Prop :=
  (** execution and validation *)
  | prim_execute h s' :
      h ∈ decided_nodes (rs s) -> try_execute_chain w h s = Ok s' -> prim s s'
  | prim_kick h s' : maybe_kick_validation w h s = Ok s' -> prim s s'
  | prim_ingest out : e = EvValidated out -> prim s (upd (ingest_validation out) s)
  | prim_timeout x : prim s (upd (set_timeout_interval_ms x) s)
  | prim_touch v : prim s (upd (vd_mut v id) s)
  (** the rules *)
  | prim_propose leaf high :
      1 <= view (rs s) -> leader_for (rs s) (view (rs s)) = my_id w ->
      broadcast_proposal (vd_at (rs s) (view (rs s))) = false ->
      quorum (rs s) <=
        Z.of_nat (size (new_view_msgs (vd_at (rs s) (saturating_sub_u64 (view (rs s)) 1)))) ->
      high = choose_high_qc (rs s) (saturating_sub_u64 (view (rs s)) 1) ->
      parent leaf = justify_parent high ->
      (match high with
       | Some q => exists p, tree (rs s) !! qc_node q = Some p /\ height leaf = add_u64 (height p) 1
       | None => height leaf = 0
       end) ->
      (exists block, workload_block (w_workload w) (height leaf) = Ok block /\ cmd leaf = block_cmd block) ->
      prim s (propose (view (rs s)) leaf high s)
  | prim_skip leaf high :
      proposal (vd_at (rs s) (view (rs s))) = Some (leaf, high) ->
      voted Prepare (vd_at (rs s) (view (rs s))) = false ->
      validation_result (rs s) !! node_hash leaf = Some false \/
        safe_node leaf high (locked_qc (rs s)) (tree (rs s)) = false ->
      prim s (upd (vd_mut (view (rs s)) (set_voted Prepare)) s)
  | prim_prepare leaf high :
      proposal (vd_at (rs s) (view (rs s))) = Some (leaf, high) ->
      voted Prepare (vd_at (rs s) (view (rs s))) = false ->
      validation_result (rs s) !! node_hash leaf = Some true ->
      safe_node leaf high (locked_qc (rs s)) (tree (rs s)) = true ->
      prim s (mark_vote Prepare (view (rs s)) (node_hash leaf) s)
  | prim_pre_commit qc :
      seen Prepare (vd_at (rs s) (view (rs s))) = true ->
      voted PreCommit (vd_at (rs s) (view (rs s))) = false ->
      staged Prepare (rs s) !! view (rs s) = Some qc ->
      prim s (mark_vote PreCommit (view (rs s)) (qc_node qc) (upd (set_prepare_qc (Some qc)) s))
  | prim_commit qc :
      seen PreCommit (vd_at (rs s) (view (rs s))) = true ->
      voted Commit (vd_at (rs s) (view (rs s))) = false ->
      staged PreCommit (rs s) !! view (rs s) = Some qc ->
      prim s (mark_vote Commit (view (rs s)) (qc_node qc) (upd (set_locked_qc (Some qc)) s))
  | prim_form t qc :
      phase t -> leader_for (rs s) (view (rs s)) = my_id w ->
      bcast t (vd_at (rs s) (view (rs s))) = false ->
      form_qc (bucket t (vd_at (rs s) (view (rs s)))) t (view (rs s)) (quorum (rs s)) = Some qc ->
      prim s (if seen t (vd_at (rs s) (view (rs s))) then announce t (view (rs s)) qc s
              else upd (stage t (view (rs s)) qc) (announce t (view (rs s)) qc s))
  | prim_decide qc :
      seen Commit (vd_at (rs s) (view (rs s))) = true ->
      staged Commit (rs s) !! view (rs s) = Some qc ->
      prim s (upd (decided (qc_node qc)) s)
  | prim_enter : leaves (rs s) -> allow (view (rs s)) -> prim s (enter_new_view w (add_u64 (view (rs s)) 1) s)
  | prim_start : e = EvStart -> view (rs s) = 0 -> view_data (rs s) = ∅ -> prim s (start_protocol w s)
  (** the handlers *)
  | prim_rx_proposal v nd j keys :
      e = EvMsg (Proposal v nd j (leader_for (rs s) v)) keys ->
      justify_verifies j (quorum (rs s)) keys = true -> parent nd = justify_parent j ->
      prim s (upd (vd_mut v (fill_slot nd j)) (upd (add_node nd) s))
  | prim_rx_qc t v q keys :
      e = EvMsg (PhaseQc (next t) v q (leader_for (rs s) v)) keys -> phase t ->
      qc_type q = t -> qc_view q = v -> verify_qc q (quorum (rs s)) keys = true ->
      seen t (vd_at (rs s) v) = false ->
      prim s (upd (if decide (t = Commit) then fun r => decided (qc_node q) (stage t v q r)
                   else stage t v q) s)
  | prim_rx_vote t v h j sig keys :
      e = EvMsg (Vote t v h j sig) keys -> leader_for (rs s) v = my_id w ->
      vote_accepted w keys t v h j sig = true ->
      prim s (upd (vd_mut v (record_vote t j h sig)) s)
  | prim_rx_new_view v j sender keys :
      e = EvMsg (NewViewMsg v j sender) keys -> leader_for (rs s) (add_u64 v 1) = my_id w ->
      justify_verifies j (quorum (rs s)) keys = true ->
      prim s (receive_new_view v j sender s).

(** ** Decomposition *)

Section decomposition.
Context `{HashOrder}.

Abbreviation steps := (rtc prim).

Lemma steps_execute h s s' :
  h ∈ decided_nodes (rs s) -> try_execute_chain w h s = Ok s' -> steps s s'.
Proof. intros. by eapply rtc_once, prim_execute. Qed.

Lemma steps_kick h s s' : maybe_kick_validation w h s = Ok s' -> steps s s'.
Proof. intros. by eapply rtc_once, prim_kick. Qed.

(** Every rule that looks at the current view creates its entry first. *)
Lemma steps_touch v s s' : steps (upd (vd_mut v id) s) s' -> steps s s'.
Proof. apply rtc_l, prim_touch. Qed.

Lemma leader_prepare_steps s s' : 1 <= view (rs s) -> leader_prepare w s = Ok s' -> steps s s'.
Proof.
  intros H1'. unfold leader_prepare. cbv zeta. destruct (Z.eqb_spec (leader_for (rs s) (view (rs s))) (my_id w)) as [Hl|];
    cbn [negb]; [|by intros [= <-]].
  set (s1 := upd (vd_mut (view (rs s)) id) s).
  assert (view (rs s1) = view (rs s)) as Ev by done.
  assert (leader_for (rs s1) (view (rs s1)) = my_id w) as Hl1 by done.
  intros Hr. apply (steps_touch (view (rs s))). fold s1. rewrite <- Ev in Hr, H1'. clearbody s1. clear s Hl Ev. revert Hr.
  destruct (broadcast_proposal _) eqn:Eb; [by intros [= <-]|].
  destruct (_ <? quorum (rs s1)) eqn:Hq; [by intros [= <-]|]. apply Z.ltb_ge in Hq.
  intros (d & Hd%expect_Ok & Hr)%result_bind_Ok. rewrite Hd in Hq. revert Hr.
  set (high := choose_high_qc _ _).
  destruct (match high with Some _ => _ | None => _ end) as [nh|] eqn:Eh; [|by intros [= <-]].
  destruct (_ <=? _); [by intros [= <-]|].
  intros (b & Hb & Hk)%result_bind_Ok.
  eapply rtc_l; [|by eapply steps_kick].
  apply (prim_propose _ (mkNode (justify_parent high) (block_cmd b) nh) high); [done|done|done| |done|done| |].
  - unfold vd_at. by rewrite Hd.
  - destruct high as [q|]; [|by simplify_eq]. destruct (tree (rs s1) !! qc_node q) as [p|]; [|done].
    exists p. split; [done|]. by simplify_eq.
  - by exists b.
Qed.

Lemma replica_prepare_steps s s' : replica_prepare w s = Ok s' -> steps s s'.
Proof.
  unfold replica_prepare.
  destruct (match vd (rs s) (view (rs s)) with Some _ => _ | None => _ end) as [[leaf high]|] eqn:Ep;
    [|by intros [= <-]].
  assert (proposal (vd_at (rs s) (view (rs s))) = Some (leaf, high)) as Ep'.
  { unfold vd_at. by destruct (vd (rs s) (view (rs s))). }
  cbv zeta. set (s1 := upd (vd_mut (view (rs s)) id) s).
  assert (view (rs s1) = view (rs s)) as Ev by done.
  assert (proposal (vd_at (rs s1) (view (rs s1))) = Some (leaf, high)) as Ep1.
  { change (rs s1) with (vd_mut (view (rs s)) id (rs s)). by rewrite vd_at_mut_eq. }
  intros Hr. apply (steps_touch (view (rs s))). fold s1. rewrite <- Ev in Hr.
  clearbody s1. clear s Ep Ep' Ev. revert Hr.
  destruct (voted_prepare _) eqn:Evt; [by intros [= <-]|].
  destruct (validation_result (rs s1) !! node_hash leaf) as [[]|] eqn:Eval; [| |by intros [= <-]].
  - destruct (safe_node _ _ _ _) eqn:Es; cbn [negb]; intros [= <-]; apply rtc_once.
    + by apply (prim_prepare _ leaf high).
    + eapply (prim_skip _ leaf high); auto.
  - intros [= <-]. apply rtc_once. eapply (prim_skip _ leaf high); auto.
Qed.

(** The three certificate-forming rules are one rule at three phases. *)
Definition leader_form (t : MsgType) (s : Sys) : result Sys :=
  let v := view (rs s) in
  if negb (leader_for (rs s) v =? my_id w) then Ok s
  else
  let s := upd (vd_mut v id) s in
  if bcast t (vd_at (rs s) v) then Ok s
  else match form_qc (bucket t (vd_at (rs s) v)) t v (quorum (rs s)) with
  | None => Ok s
  | Some qc =>
      let s := announce t v qc s in
      if seen t (vd_at (rs s) v) then Ok s else Ok (upd (stage t v qc) s)
  end.

Lemma leader_form_rules s :
  leader_pre_commit w s = leader_form Prepare s /\ leader_commit w s = leader_form PreCommit s /\
  leader_decide w s = leader_form Commit s.
Proof. done. Qed.

Lemma leader_form_steps t s s' : phase t -> leader_form t s = Ok s' -> steps s s'.
Proof.
  intros Ht. unfold leader_form. cbv zeta.
  destruct (Z.eqb_spec (leader_for (rs s) (view (rs s))) (my_id w)) as [Hl|]; cbn [negb]; [|by intros [= <-]].
  set (s1 := upd (vd_mut (view (rs s)) id) s).
  assert (view (rs s1) = view (rs s)) as Ev by done.
  assert (leader_for (rs s1) (view (rs s1)) = my_id w) as Hl1 by done.
  intros Hr. apply (steps_touch (view (rs s))). fold s1. rewrite <- Ev in Hr. clearbody s1. clear s Hl Ev. revert Hr.
  destruct (bcast _ _) eqn:Eb; [by intros [= <-]|].
  destruct (form_qc _ _ _ _) as [qc|] eqn:Ef; [|by intros [= <-]].
  pose proof (prim_form s1 t qc Ht Hl1 Eb Ef) as Hp.
  set (s2 := announce t (view (rs s1)) qc s1) in *.
  assert (seen t (vd_at (rs s2) (view (rs s1))) = seen t (vd_at (rs s1) (view (rs s1)))) as ->.
  { change (rs s2) with (vd_mut (view (rs s1)) (set_bcast t) (rs s1)). rewrite vd_at_mut_eq. by destruct t. }
  intros Hr. apply rtc_once. destruct (seen t _); by injection Hr as <-.
Qed.

Lemma leader_pre_commit_steps s s' : leader_pre_commit w s = Ok s' -> steps s s'.
Proof. apply (leader_form_steps Prepare). by left. Qed.
Lemma leader_commit_steps s s' : leader_commit w s = Ok s' -> steps s s'.
Proof. apply (leader_form_steps PreCommit). by right; left. Qed.
Lemma leader_decide_steps s s' : leader_decide w s = Ok s' -> steps s s'.
Proof. apply (leader_form_steps Commit). by right; right. Qed.

Lemma replica_pre_commit_steps s s' : replica_pre_commit w s = Ok s' -> steps s s'.
Proof.
  unfold replica_pre_commit. cbv zeta. set (s1 := upd (vd_mut (view (rs s)) id) s).
  assert (view (rs s1) = view (rs s)) as Ev by done.
  intros Hr. apply (steps_touch (view (rs s))). fold s1. rewrite <- Ev in Hr. clearbody s1. revert Hr.
  destruct (negb _ || _) eqn:Ec; [by intros [= <-]|]. apply orb_false_iff in Ec as [Hs%negb_false_iff Hv].
  destruct (staged_pre_commit_qc (rs s1) !! _) as [qc|] eqn:Eq; [|by intros [= <-]].
  intros [= <-]. apply rtc_once. by apply (prim_pre_commit s1 qc).
Qed.

Lemma replica_commit_steps s s' : replica_commit w s = Ok s' -> steps s s'.
Proof.
  unfold replica_commit. cbv zeta. set (s1 := upd (vd_mut (view (rs s)) id) s).
  assert (view (rs s1) = view (rs s)) as Ev by done.
  intros Hr. apply (steps_touch (view (rs s))). fold s1. rewrite <- Ev in Hr. clearbody s1. revert Hr.
  destruct (negb _ || _) eqn:Ec; [by intros [= <-]|]. apply orb_false_iff in Ec as [Hs%negb_false_iff Hv].
  destruct (staged_commit_qc (rs s1) !! _) as [qc|] eqn:Eq; [|by intros [= <-]].
  intros [= <-]. apply rtc_once. by apply (prim_commit s1 qc).
Qed.

(** What executing blocks keeps. *)
Lemma try_execute_chain_keeps h s s' :
  try_execute_chain w h s = Ok s' ->
  view (rs s') = view (rs s) /\ view_data (rs s') = view_data (rs s) /\
  decided_nodes (rs s') = decided_nodes (rs s) /\ staged_decide_qc (rs s') = staged_decide_qc (rs s).
Proof.
  intros Hx. destruct (try_execute_chain_core w h 0 s s' Hx) as [Hc _]. unfold core in Hc.
  split_and!; congruence.
Qed.

Lemma replica_decide_steps s s' :
  allow (view (rs s)) -> replica_decide w s = Ok s' -> steps s s'.
Proof.
  unfold replica_decide. intros Ha. cbv zeta. set (s1 := upd (vd_mut (view (rs s)) id) s).
  assert (view (rs s1) = view (rs s)) as Ev by done.
  intros Hr. apply (steps_touch (view (rs s))). fold s1. rewrite <- Ev in Hr, Ha. clearbody s1. clear Ev s. revert Hr.
  destruct (negb _) eqn:Ec; [by intros [= <-]|]. apply negb_false_iff in Ec.
  destruct (staged_decide_qc (rs s1) !! _) as [qc|] eqn:Eq; [|by intros [= <-]].
  intros (s2 & Hx & [= <-])%result_bind_Ok.
  eapply rtc_l; [by apply (prim_decide s1 qc)|].
  destruct (try_execute_chain_keeps _ _ _ Hx) as (E1 & E2 & E3 & E4).
  eapply rtc_l; [eapply prim_execute; [|exact Hx]; cbn; set_solver|].
  eapply rtc_l; [apply (prim_timeout s2 (timeout_base_ms w))|].
  apply rtc_once. replace (view (rs s1)) with (view (rs s2)) by exact E1.
  apply (prim_enter (upd (set_timeout_interval_ms (timeout_base_ms w)) s2)).
  - left. exists qc. cbn. rewrite E1, E4, E3. unfold vd_at, vd. cbn. rewrite E2. cbn. split_and!; [done|done|set_solver].
  - cbn. by rewrite E1.
Qed.

Lemma retry_pending_execute_steps s s' : retry_pending_execute w s = Ok s' -> steps s s'.
Proof.
  unfold retry_pending_execute. intros Hr.
  assert (steps s s' /\ decided_nodes (rs s') = decided_nodes (rs s)) as [? _]; [|done].
  eapply (result_fold_preserves (fun x => steps s x /\ decided_nodes (rs x) = decided_nodes (rs s)));
    [|split; [apply rtc_refl|done]|exact Hr].
  intros h s1 s2 Hh%elem_of_set_iter [Hs Hd] Hx. split.
  - etransitivity; [exact Hs|]. eapply steps_execute; [|exact Hx]. by rewrite Hd.
  - destruct (try_execute_chain_keeps _ _ _ Hx) as (_ & _ & -> & _). done.
Qed.

Lemma try_kick_steps s s' : try_kick_pending_validations w s = Ok s' -> steps s s'.
Proof.
  unfold try_kick_pending_validations. generalize (hash_iter (tree (rs s))).*1. intros l.
  revert s. induction l as [|h l IH]; intros s; simpl; [by intros [= <-]|].
  destruct (pending_validation (rs s)); [by intros [= <-]|].
  intros (s1 & E1 & E2)%result_bind_Ok. etransitivity; [by eapply steps_kick|by apply IH].
Qed.

(** *** The rules before the decision stay in the view *)

Definition keeps_view (op : Sys -> result Sys) : Prop :=
  forall s s', op s = Ok s' -> view (rs s') = view (rs s).

Lemma kick_view h : keeps_view (maybe_kick_validation w h).
Proof.
  intros s s' Hk. destruct (maybe_kick_core w h 0 s s' Hk) as [Hc _]. unfold core in Hc. congruence.
Qed.

Lemma leader_prepare_view : keeps_view (leader_prepare w).
Proof.
  intros s s'. unfold leader_prepare. cbv zeta. destruct (negb _); [by intros [= <-]|].
  destruct (broadcast_proposal _); [by intros [= <-]|]. destruct (_ <? _); [by intros [= <-]|].
  intros (d & _ & Hr)%result_bind_Ok.
  destruct (match choose_high_qc _ _ with Some _ => _ | None => _ end) as [nh|]; [|by injection Hr as <-].
  destruct (_ <=? _); [by injection Hr as <-|].
  apply result_bind_Ok in Hr as (b & _ & Hk). by rewrite (kick_view _ _ _ Hk).
Qed.

Lemma cast_vote_view t v h s : view (rs (cast_vote w t v h s)) = view (rs s).
Proof. unfold cast_vote. cbv zeta. by destruct (_ =? _). Qed.

Ltac view_tac := repeat (case_match; simplify_eq); intros; simplify_eq; cbn; rewrite ?cast_vote_view; done.

Lemma replica_prepare_view : keeps_view (replica_prepare w).
Proof. intros s s'. unfold replica_prepare. cbv zeta. view_tac. Qed.
Lemma leader_form_view t : keeps_view (leader_form t).
Proof. intros s s'. unfold leader_form. cbv zeta. destruct t; view_tac. Qed.
Lemma replica_pre_commit_view : keeps_view (replica_pre_commit w).
Proof. intros s s'. unfold replica_pre_commit. cbv zeta. view_tac. Qed.
Lemma replica_commit_view : keeps_view (replica_commit w).
Proof. intros s s'. unfold replica_commit. cbv zeta. view_tac. Qed.

(** The rules after the leader's proposal. *)
Definition later_rules (s : Sys) : result Sys :=
  let! s := replica_prepare w s in
  let! s := leader_pre_commit w s in
  let! s := replica_pre_commit w s in
  let! s := leader_commit w s in
  let! s := replica_commit w s in
  let! s := leader_decide w s in
  let! s := replica_decide w s in
  let! s := retry_pending_execute w s in
  try_kick_pending_validations w s.

Lemma later_rules_steps s s' : allow (view (rs s)) -> later_rules s = Ok s' -> steps s s'.
Proof.
  intros Ha (s2 & E2 & Hr)%result_bind_Ok.
  apply result_bind_Ok in Hr as (s3 & E3 & Hr). apply result_bind_Ok in Hr as (s4 & E4 & Hr).
  apply result_bind_Ok in Hr as (s5 & E5 & Hr). apply result_bind_Ok in Hr as (s6 & E6 & Hr).
  apply result_bind_Ok in Hr as (s7 & E7 & Hr). apply result_bind_Ok in Hr as (s8 & E8 & Hr).
  apply result_bind_Ok in Hr as (s9 & E9 & E10).
  assert (view (rs s7) = view (rs s)) as Hv.
  { by rewrite (leader_form_view Commit _ _ E7), (replica_commit_view _ _ E6),
      (leader_form_view PreCommit _ _ E5), (replica_pre_commit_view _ _ E4),
      (leader_form_view Prepare _ _ E3), (replica_prepare_view _ _ E2). }
  etransitivity; [by eapply replica_prepare_steps|].
  etransitivity; [by eapply leader_pre_commit_steps|]. etransitivity; [by eapply replica_pre_commit_steps|].
  etransitivity; [by eapply leader_commit_steps|]. etransitivity; [by eapply replica_commit_steps|].
  etransitivity; [by eapply leader_decide_steps|].
  etransitivity; [eapply replica_decide_steps; [by rewrite Hv|done]|].
  etransitivity; [by eapply retry_pending_execute_steps|]. by eapply try_kick_steps.
Qed.

Lemma try_advance_steps s s' :
  1 <= view (rs s) -> allow (view (rs s)) -> try_advance w s = Ok s' -> steps s s'.
Proof.
  intros H1' Ha (s1 & E1 & Hr)%result_bind_Ok.
  etransitivity; [by eapply leader_prepare_steps|]. apply later_rules_steps; [|done].
  by rewrite (leader_prepare_view _ _ E1).
Qed.

Lemma enter_new_view_view nv s : view (rs (enter_new_view w nv s)) = nv.
Proof. unfold enter_new_view. cbv zeta. by destruct (_ =? _). Qed.

Lemma try_advance_views s s' :
  try_advance w s = Ok s' -> view (rs s') = view (rs s) \/ view (rs s') = add_u64 (view (rs s)) 1.
Proof.
  unfold try_advance.
  intros (s1 & E1 & Hr)%result_bind_Ok. apply result_bind_Ok in Hr as (s2 & E2 & Hr).
  apply result_bind_Ok in Hr as (s3 & E3 & Hr). apply result_bind_Ok in Hr as (s4 & E4 & Hr).
  apply result_bind_Ok in Hr as (s5 & E5 & Hr). apply result_bind_Ok in Hr as (s6 & E6 & Hr).
  apply result_bind_Ok in Hr as (s7 & E7 & Hr). apply result_bind_Ok in Hr as (s8 & E8 & Hr).
  apply result_bind_Ok in Hr as (s9 & E9 & E10).
  destruct (try_kick_core w 0 _ _ E10) as [C10 _]. destruct (retry_pending_execute_core w 0 _ _ E9) as [C9 _].
  assert (view (rs s') = view (rs s8)) as -> by (unfold core in *; congruence).
  rewrite <- (leader_prepare_view _ _ E1), <- (replica_prepare_view _ _ E2), <- (leader_form_view Prepare _ _ E3),
    <- (replica_pre_commit_view _ _ E4), <- (leader_form_view PreCommit _ _ E5), <- (replica_commit_view _ _ E6),
    <- (leader_form_view Commit _ _ E7).
  revert E8. unfold replica_decide. cbv zeta. destruct (negb _); [intros [= <-]; by left|].
  destruct (staged_decide_qc _ !! _); [|intros [= <-]; by left].
  intros (s0 & _ & [= <-])%result_bind_Ok. right. apply enter_new_view_view.
Qed.

(** *** The handlers *)

Lemma handle_proposal_steps v nd j sender keys s s' :
  e = EvMsg (Proposal v nd j sender) keys -> handle_proposal w keys v nd j sender s = Ok s' -> steps s s'.
Proof.
  intros He. unfold handle_proposal. destruct (Z.eqb_spec sender (leader_for (rs s) v)) as [->|];
    cbn [negb]; [|by intros [= <-]].
  destruct (justify_verifies _ _ _) eqn:Ej; cbn [negb]; [|by intros [= <-]].
  case_bool_decide as Hp; cbn [negb]; [|by intros [= <-]]. cbv zeta. intros Hk.
  eapply rtc_l; [|by eapply steps_kick]. by apply (prim_rx_proposal s v nd j keys).
Qed.

Lemma handle_phase_qc_steps t' v q sender keys s s' :
  e = EvMsg (PhaseQc t' v q sender) keys -> handle_phase_qc keys t' v q sender s = Ok s' -> steps s s'.
Proof.
  intros He. unfold handle_phase_qc. destruct (Z.eqb_spec sender (leader_for (rs s) v)) as [->|];
    cbn [negb]; [|by intros [= <-]].
  destruct (expected_qc_type t') as [t|] eqn:Et; [|by intros [= <-]].
  destruct (negb _ || negb _) eqn:Ec; [by intros [= <-]|].
  apply orb_false_iff in Ec as [Ht%negb_false_iff Hv%negb_false_iff].
  apply bool_decide_eq_true in Ht. apply Z.eqb_eq in Hv.
  destruct (verify_qc _ _ _) eqn:Ev; cbn [negb]; [|by intros [= <-]].
  intros [= <-]. apply (steps_touch v).
  assert (forall r, seen t (vd_at (vd_mut v id r) v) = seen t (vd_at r v)) as Hsn
    by (intros r; by rewrite vd_at_mut_eq).
  pose proof (prim_rx_qc (upd (vd_mut v id) s) t v q keys) as Hp. cbn [upd with_rs rs] in Hp.
  rewrite Hsn in Hp.
  assert (phase t /\ t' = next t) as [Hph ->] by (clear -Et; unfold phase; destruct t'; simplify_eq/=; auto).
  specialize (Hp He Hph Ht Hv Ev). unfold upd at 1, stage_qc. cbv zeta.
  destruct (seen t (vd_at (rs s) v)) eqn:Esn.
  - rewrite <- Hsn in Esn. destruct Hph as [->|[->| ->]]; cbn [next] in *;
      unfold upd, with_rs; cbn [rs live_state chained_root effects]; cbn in Esn; rewrite Esn; done.
  - apply rtc_once. specialize (Hp eq_refl). rewrite <- Hsn in Esn.
    destruct Hph as [->|[->| ->]]; cbn [next] in *;
      unfold upd, with_rs in *; cbn [rs live_state chained_root effects] in *; cbn in Esn; rewrite Esn; exact Hp.
Qed.

Lemma handle_vote_steps t v h j sig keys s s' :
  e = EvMsg (Vote t v h j sig) keys -> handle_vote w keys t v h j sig s = Ok s' -> steps s s'.
Proof.
  intros He. unfold handle_vote. destruct (Z.eqb_spec (leader_for (rs s) v) (my_id w)) as [Hl|];
    cbn [negb]; [|by intros [= <-]].
  destruct (vote_accepted _ _ _ _ _ _ _) eqn:Ea; cbn [negb]; [|by intros [= <-]].
  intros [= <-]. apply rtc_once. by eapply prim_rx_vote.
Qed.

Lemma handle_new_view_steps v j sender keys s s' :
  e = EvMsg (NewViewMsg v j sender) keys -> handle_new_view w keys v j sender s = Ok s' -> steps s s'.
Proof.
  intros He. unfold handle_new_view. destruct (Z.eqb_spec (leader_for (rs s) (add_u64 v 1)) (my_id w)) as [Hl|];
    cbn [negb]; [|by intros [= <-]].
  destruct (justify_verifies _ _ _) eqn:Ea; cbn [negb]; [|by intros [= <-]].
  intros [= <-]. apply rtc_once. by eapply prim_rx_new_view.
Qed.

Lemma stage_qc_view t v q r : view (stage_qc t v q r) = view r.
Proof. unfold stage_qc. cbv zeta. destruct t; try done; by case_match. Qed.

Lemma handle_event_steps s s' :
  allow (view (rs s)) -> (e = EvStart -> view (rs s) = 0 /\ view_data (rs s) = ∅) ->
  handle_event w e s = Ok s' ->
  steps s s' /\ (view (rs s') = view (rs s) \/ view (rs s') = add_u64 (view (rs s)) 1).
Proof.
  intros Ha H0'. destruct e as [|m keys|[tv]|out] eqn:Ee; cbn [handle_event].
  - intros [= <-]. destruct (H0' eq_refl) as [Hz Hd]. split; [by apply rtc_once, prim_start|].
    right. unfold start_protocol. by rewrite enter_new_view_view, Hz.
  - intros Hm. split; [destruct m; cbn [handle_msg] in Hm|left].
    + by simplify_eq.
    + by eapply handle_proposal_steps.
    + by eapply handle_phase_qc_steps.
    + by eapply handle_vote_steps.
    + by eapply handle_new_view_steps.
    + destruct m; cbn [handle_msg] in Hm.
      * by simplify_eq.
      * unfold handle_proposal in Hm. cbv zeta in Hm.
        repeat (case_match; [by simplify_eq|]). by rewrite (kick_view _ _ _ Hm).
      * unfold handle_phase_qc in Hm. repeat (case_match; simplify_eq); try done. apply stage_qc_view.
      * unfold handle_vote in Hm. repeat (case_match; simplify_eq); done.
      * unfold handle_new_view in Hm. repeat (case_match; simplify_eq); done.
  - intros [= <-]. unfold handle_timer. cbn [timer_view].
    destruct (Z.eqb_spec tv (view (rs s))) as [->|]; cbn [negb]; [|split; [done|by left]].
    destruct (match vd _ _ with Some _ => _ | None => _ end) eqn:Ed; [split; [done|by left]|]. cbv zeta.
    split; [|right; by rewrite enter_new_view_view].
    eapply rtc_l; [apply prim_timeout|]. apply rtc_once, prim_enter; [|done]. right. split; [done|].
    cbn. unfold vd_at, vd in *. cbn. destruct (view_data (rs s) !! view (rs s)); [done|done].
  - intros [= <-]. split; [by apply rtc_once, prim_ingest|left]. cbn. unfold ingest_validation. cbv zeta.
    repeat case_match; done.
Qed.
End decomposition.
End steps.

(** What an event is allowed in: the replica starts once, from an empty
    table, and handles other events after it has started. *)
Definition started `{SigScheme} (e : Event) (r : ReplicaState) : Prop :=
  match e with EvStart => view r = 0 /\ view_data r = ∅ | _ => 1 <= view r end.

Section pass.
Context `{Sha256, Bincode, SigScheme, FileSystem, Serde, HashOrder}.
Context (w : Wiring) (e : Event).

Lemma started_view s : started e (rs s) -> 0 <= view (rs s).
Proof. unfold started. destruct e; lia. Qed.

Lemma handle_event_started s s1 :
  view (rs s) + 1 < u64_modulus -> started e (rs s) -> handle_event w e s = Ok s1 ->
  rtc (prim w e (fun v => v + 1 < u64_modulus)) s s1 /\
  1 <= view (rs s1) /\ view (rs s) <= view (rs s1) <= view (rs s) + 1.
Proof.
  intros Hb Hst E1. pose proof (started_view s Hst). unfold started in Hst.
  destruct (handle_event_steps w e (fun v => v + 1 < u64_modulus) s s1 Hb ltac:(by intros ->) E1) as [Hs Hv].
  split; [done|]. rewrite add_u64_small in Hv by lia. split; [|lia].
  destruct e; [injection E1 as <-; unfold start_protocol; by rewrite enter_new_view_view|lia..].
Qed.

(** One pass of the event loop is a sequence of primitive steps. *)
Lemma node_step_steps s s' :
  view (rs s) + 2 < u64_modulus -> started e (rs s) -> node_step w e s = Ok s' ->
  rtc (prim w e (fun v => v + 1 < u64_modulus)) (with_effects [] s) s'.
Proof.
  intros Hb Hst (s1 & E1 & E2)%result_bind_Ok.
  destruct (handle_event_started (with_effects [] s) s1 ltac:(cbn; lia) Hst E1) as (Hs & H1' & Hv).
  cbn in Hv. etransitivity; [exact Hs|]. apply (try_advance_steps w e); [done|lia|done].
Qed.

(** Views only grow, and a replica that has run is past view 0. *)
Lemma node_step_views s s' :
  view (rs s) + 2 < u64_modulus -> started e (rs s) -> node_step w e s = Ok s' ->
  1 <= view (rs s') /\ view (rs s) <= view (rs s').
Proof.
  intros Hb Hst (s1 & E1 & E2)%result_bind_Ok.
  destruct (handle_event_started (with_effects [] s) s1 ltac:(cbn; lia) Hst E1) as (_ & H1' & Hv).
  cbn in Hv. apply try_advance_views in E2. rewrite add_u64_small in E2 by lia. lia.
Qed.
End pass.
