(* ===== verification/Moves.v ===== *)
(** * Moves: what a primitive step does to the consensus state

    The steps of Steps, seen from the consensus part of one replica: the new
    state and the messages and signatures it emits.  Two kinds of lemmas
    follow: nothing that was recorded of a view is lost, and everything that
    is new has one of a few causes. *)

From Stdlib Require Import ZArith Lia.
From stdpp Require Import prelude strings gmap.
From S2P Require Import Prelude Crypto Ledger Messages Replica Qc VoteLog Workload Validator Wiring Execute Handlers Rules Consensus Invariant Steps.
Open Scope Z_scope.

(** Effects that are neither messages nor signatures. *)
Definition noise (x : Effect) : Prop :=
  match x with
  | ArmTimer _ _ | SubmitValidation _ _ | LogExecute _ _ => True
  | Broadcast _ | SendTo _ _ | Signed _ _ _ => False
  end.

Section moves.
Context `{Sha256, Bincode, SigScheme, FileSystem, Serde}.
Context (w : Wiring) (e : Event).
Abbreviation me := (my_id w).

(** The certificate is of the phase and the view. *)
Definition qc_for (q : QC) (t : MsgType) (v : Z) : Prop := qc_type q = t /\ qc_view q = v.

(** What a replica has checked when it signs a vote, and the state it signs
    it in. *)
Inductive vote_guard (r : ReplicaState) : MsgType -> list Z -> ReplicaState -> Prop :=
  | guard_prepare leaf high :
      proposal (vd_at r (view r)) = Some (leaf, high) ->
      validation_result r !! node_hash leaf = Some true ->
      safe_node leaf high (locked_qc r) (tree r) = true ->
      vote_guard r Prepare (node_hash leaf) r
  | guard_pre_commit qc :
      seen Prepare (vd_at r (view r)) = true -> staged Prepare r !! view r = Some qc ->
      vote_guard r PreCommit (qc_node qc) (set_prepare_qc (Some qc) r)
  | guard_commit qc :
      seen PreCommit (vd_at r (view r)) = true -> staged PreCommit r !! view r = Some qc ->
      vote_guard r Commit (qc_node qc) (set_locked_qc (Some qc) r).

(** [leaves] and [start_protocol] together: the view that is entered. *)
Definition enters (r : ReplicaState) (nv : Z) : Prop :=
  (leaves e r /\ nv = view r + 1) \/
  (e = EvStart /\ view r = 0 /\ view_data r = ∅ /\ nv = 1).

Inductive move `{HashOrder} (r : ReplicaState) : list Effect -> ReplicaState -> Prop :=
  | mv_silent es r' :
      core r' = core r -> validation_result r' = validation_result r -> Forall noise es ->
      move r es r'
  | mv_ingest out : e = EvValidated out -> move r [] (ingest_validation out r)
  | mv_touch v : move r [] (vd_mut v id r)
  | mv_propose leaf high :
      1 <= view r -> leader_for r (view r) = me -> broadcast_proposal (vd_at r (view r)) = false ->
      quorum r <= Z.of_nat (size (new_view_msgs (vd_at r (saturating_sub_u64 (view r) 1)))) ->
      high = choose_high_qc r (saturating_sub_u64 (view r) 1) ->
      parent leaf = justify_parent high -> is_u64 (height leaf) ->
      (exists block, workload_block (w_workload w) (height leaf) = Ok block /\ cmd leaf = block_cmd block) ->
      move r [Broadcast (Proposal (view r) leaf high me)]
        (vd_mut (view r) (fun d => set_broadcast_proposal true (fill_slot leaf high d)) (add_node leaf r))
  | mv_skip leaf high :
      proposal (vd_at r (view r)) = Some (leaf, high) ->
      voted Prepare (vd_at r (view r)) = false ->
      validation_result r !! node_hash leaf = Some false \/
        safe_node leaf high (locked_qc r) (tree r) = false ->
      move r [] (vd_mut (view r) (set_voted Prepare) r)
  | mv_vote_own t h r0 :
      vote_guard r t h r0 -> voted t (vd_at r (view r)) = false -> leader_for r (view r) = me ->
      move r [Signed t (view r) h]
        (vd_mut (view r) (fun d => set_voted t (set_own_vote t me h (sign_vote (w_sk w) t (view r) h) d)) r0)
  | mv_vote_send t h r0 :
      vote_guard r t h r0 -> voted t (vd_at r (view r)) = false -> leader_for r (view r) <> me ->
      move r [SendTo (leader_for r (view r)) (Vote t (view r) h me (sign_vote (w_sk w) t (view r) h));
              Signed t (view r) h]
        (vd_mut (view r) (set_voted t) r0)
  | mv_announce t qc :
      phase t -> leader_for r (view r) = me -> bcast t (vd_at r (view r)) = false ->
      form_qc (bucket t (vd_at r (view r))) t (view r) (quorum r) = Some qc ->
      seen t (vd_at r (view r)) = true ->
      move r [Broadcast (PhaseQc (next t) (view r) qc me)] (vd_mut (view r) (set_bcast t) r)
  | mv_form t qc :
      phase t -> leader_for r (view r) = me -> bcast t (vd_at r (view r)) = false ->
      form_qc (bucket t (vd_at r (view r))) t (view r) (quorum r) = Some qc ->
      seen t (vd_at r (view r)) = false ->
      move r [Broadcast (PhaseQc (next t) (view r) qc me)]
        (set_staged t (<[view r := qc]> (staged t r)) (vd_mut (view r) (fun d => set_seen t (set_bcast t d)) r))
  | mv_decide qc :
      seen Commit (vd_at r (view r)) = true -> staged Commit r !! view r = Some qc ->
      move r [] (decided (qc_node qc) r)
  | mv_enter_own nv x :
      enters r nv -> noise x -> leader_for r nv = me ->
      move r [x] (vd_mut (view r) (fun d =>
        set_new_view_msgs (<[me := prepare_qc r]> (new_view_msgs d)) d) (set_view nv r))
  | mv_enter_send nv x :
      enters r nv -> noise x -> leader_for r nv <> me ->
      move r [x; SendTo (leader_for r nv) (NewViewMsg (view r) (prepare_qc r) me)] (set_view nv r)
  | mv_rx_proposal v nd j keys :
      e = EvMsg (Proposal v nd j (leader_for r v)) keys ->
      justify_verifies j (quorum r) keys = true -> parent nd = justify_parent j ->
      move r [] (vd_mut v (fill_slot nd j) (add_node nd r))
  | mv_rx_qc t v q keys dn :
      e = EvMsg (PhaseQc (next t) v q (leader_for r v)) keys -> phase t ->
      qc_for q t v -> verify_qc q (quorum r) keys = true -> seen t (vd_at r v) = false ->
      decided_nodes r ⊆ dn -> (t = Commit -> qc_node q ∈ dn) ->
      (forall h, h ∈ dn -> h ∈ decided_nodes r \/ (t = Commit /\ h = qc_node q)) ->
      move r [] (set_decided_nodes dn
        (set_staged t (<[v := q]> (staged t r)) (vd_mut v (set_seen t) r)))
  | mv_rx_vote t v h j sig keys :
      e = EvMsg (Vote t v h j sig) keys -> leader_for r v = me ->
      vote_accepted w keys t v h j sig = true ->
      move r [] (vd_mut v (record_vote t j h sig) r)
  | mv_rx_new_view v j sender keys :
      e = EvMsg (NewViewMsg v j sender) keys -> leader_for r (add_u64 v 1) = me ->
      justify_verifies j (quorum r) keys = true ->
      move r [] (vd_mut v (fun d => set_new_view_msgs (insert_vacant sender j (new_view_msgs d)) d) r).

(** ** Primitive steps are moves *)

Lemma kick_noise h s s' :
  maybe_kick_validation w h s = Ok s' ->
  exists es, effects s' = es ++ effects s /\ Forall noise es /\
    validation_result (rs s') = validation_result (rs s).
Proof.
  unfold maybe_kick_validation.
  destruct (validation_result (rs s) !! h); [intros [= <-]; by exists []|].
  destruct (decide _); [intros [= <-]; by exists []|].
  destruct (tree (rs s) !! h) as [node|]; [|intros [= <-]; by exists []].
  intros (b & _ & Hb)%result_bind_Ok. destruct (negb _); [injection Hb as <-; by exists []|].
  destruct (validation_input _ _ _); injection Hb as <-; [|by exists []].
  eexists [_]. split_and!; [done|by repeat constructor|done].
Qed.

Lemma execute_noise h s s' :
  try_execute_chain w h s = Ok s' ->
  exists es, effects s' = es ++ effects s /\ Forall noise es /\
    validation_result (rs s') = validation_result (rs s).
Proof.
  intros (chain & _ & Hr)%result_bind_Ok. revert s Hr. generalize (rev chain). clear chain.
  induction l as [|nh l IH]; intros s; simpl; [intros [= <-]; by exists []|].
  intros (nd & _ & Hr)%result_bind_Ok. destruct (negb _); [injection Hr as <-; by exists []|].
  destruct (validation_result (rs s) !! nh) as [[]|]; [|injection Hr as <-; by exists []|by eapply kick_noise].
  apply result_bind_Ok in Hr as (s1 & (s0 & E0 & [= <-])%result_bind_Ok & Hr).
  apply IH in Hr as (es & -> & Hn & ->).
  assert (effects s0 = effects s /\ validation_result (rs s0) = validation_result (rs s)) as [E1 E2].
  { unfold advance_root, take_post_state in E0. repeat case_match; by simplify_eq. }
  exists (es ++ [LogExecute (height nd) nh]). cbn. rewrite E1, E2, <- app_assoc.
  split_and!; [done|apply Forall_app; split; [done|by repeat constructor]|done].
Qed.

Lemma vd_mut_twice v f g r : vd_mut v f (vd_mut v g r) = vd_mut v (fun d => f (g d)) r.
Proof.
  unfold vd_mut at 1. rewrite vd_at_mut_eq. unfold vd_mut. destruct r. unfold set_view_data. cbn.
  f_equal. apply insert_insert_eq.
Qed.

Lemma mark_vote_move `{HashOrder} t h r0 s :
  vote_guard (rs s) t h r0 -> voted t (vd_at (rs s) (view (rs s))) = false ->
  exists es, effects (mark_vote w t (view (rs s)) h (with_rs r0 s)) = es ++ effects s /\
    move (rs s) es (rs (mark_vote w t (view (rs s)) h (with_rs r0 s))).
Proof.
  intros Hg Hv. unfold mark_vote, cast_vote. cbv zeta.
  assert (leader_for r0 (view (rs s)) = leader_for (rs s) (view (rs s))) as El by (by destruct Hg).
  cbn [with_rs emit rs effects]. rewrite El.
  destruct (Z.eqb_spec (leader_for (rs s) (view (rs s))) me) as [Hl|Hl].
  - eexists [_]. split; [done|]. unfold upd, with_rs. cbn [rs]. rewrite vd_mut_twice. by apply mv_vote_own.
  - eexists [_; _]. split; [done|]. by apply mv_vote_send.
Qed.

Lemma enter_move `{HashOrder} nv s :
  enters (rs s) nv ->
  exists es, effects (enter_new_view w nv s) = es ++ effects s /\ move (rs s) es (rs (enter_new_view w nv s)).
Proof.
  intros He. unfold enter_new_view. cbv zeta. cbn [upd with_rs rs].
  change (leader_for (set_view nv (rs s)) nv) with (leader_for (rs s) nv).
  destruct (Z.eqb_spec (leader_for (rs s) nv) me) as [Hl|Hl].
  - eexists [_]. split; [done|]. exact (mv_enter_own (rs s) nv (ArmTimer _ _) He I Hl).
  - eexists [_; _]. split; [done|]. exact (mv_enter_send (rs s) nv (ArmTimer _ _) He I Hl).
Qed.

Lemma prim_move `{HashOrder} s s' :
  0 <= view (rs s) -> prim w e (fun v => v + 1 < u64_modulus) s s' ->
  exists es, effects s' = es ++ effects s /\ move (rs s) es (rs s').
Proof.
  intros Hv Hp. destruct Hp as [h s' Hd Hx|h s' Hx|out He|x|v|leaf high H1' Hl Hb Hq Hh Hpar Hhe Hblk
    |leaf high Hpr Hvt Hwhy|leaf high Hpr Hvt Hval Hsafe|qc Hsn Hvt Hst|qc Hsn Hvt Hst|t qc Ht Hl Hb Hf
    |qc Hsn Hst|Hlv Ha|He H0' Hd|v nd j keys He Hj Hpar|t v q keys He Ht Hqt Hqv Hver Hsn|t v h j sig keys He Hl Hacc
    |v j sender keys He Hl Hj].
  - destruct (execute_noise _ _ _ Hx) as (es & Ee & Hn & Hr). exists es. split; [done|].
    apply mv_silent; [|done|done]. by destruct (try_execute_chain_core w h 0 s s' Hx).
  - destruct (kick_noise _ _ _ Hx) as (es & Ee & Hn & Hr). exists es. split; [done|].
    apply mv_silent; [|done|done]. by destruct (maybe_kick_core w h 0 s s' Hx).
  - exists []. split; [done|]. by apply mv_ingest.
  - exists []. split; [done|]. by apply mv_silent.
  - exists []. split; [done|]. by apply mv_touch.
  - eexists [_]. split; [done|]. apply mv_propose; try done.
    destruct high as [q|]; [|by rewrite Hhe]. destruct Hhe as (p & _ & ->). apply wrap64_range.
  - exists []. split; [done|]. by eapply mv_skip.
  - destruct s. by apply mark_vote_move; [eapply guard_prepare|].
  - by apply mark_vote_move; [eapply guard_pre_commit|].
  - by apply mark_vote_move; [eapply guard_commit|].
  - destruct (seen t _) eqn:Esn; (eexists [_]; split; [done|]).
    + by apply mv_announce.
    + pose proof (mv_form _ t qc Ht Hl Hb Hf Esn) as Hm. rewrite <- vd_mut_twice in Hm.
      destruct Ht as [->|[->| ->]]; exact Hm.
  - exists []. split; [done|]. by apply mv_decide.
  - apply enter_move. left. split; [done|]. apply add_u64_small; lia.
  - unfold start_protocol. assert (upd (set_view 0) s = s) as ->.
    { destruct s as [[] ? ? ?]. cbn in H0'. by subst. }
    apply enter_move. by right.
  - exists []. split; [done|]. by eapply mv_rx_proposal.
  - exists []. split; [done|].
    set (dn := if decide (t = Commit) then {[qc_node q]} ∪ decided_nodes (rs s) else decided_nodes (rs s)).
    assert (move (rs s) [] (set_decided_nodes dn
      (set_staged t (<[v := q]> (staged t (rs s))) (vd_mut v (set_seen t) (rs s))))) as Hm.
    { eapply mv_rx_qc; [exact He|done|done|done|done|..]; subst dn; destruct (decide _); set_solver. }
    destruct Ht as [->|[->| ->]]; exact Hm.
  - exists []. split; [done|]. by eapply mv_rx_vote.
  - exists []. split; [done|]. by eapply mv_rx_new_view.
Qed.

(** ** The view table after a move *)

Lemma vd_at_core r r' v : core r' = core r -> vd_at r' v = vd_at r v.
Proof. unfold core, vd_at, vd. congruence. Qed.

Lemma vd_at_set_staged t m r v : vd_at (set_staged t m r) v = vd_at r v.
Proof. by destruct t. Qed.

Lemma vd_at_decided dn r v : vd_at (set_decided_nodes dn r) v = vd_at r v.
Proof. done. Qed.
Lemma vd_at_add_node nd r v : vd_at (add_node nd r) v = vd_at r v.
Proof. done. Qed.
Lemma vd_at_set_view nv r v : vd_at (set_view nv r) v = vd_at r v.
Proof. done. Qed.

Lemma vd_at_guard r t h r0 v : vote_guard r t h r0 -> vd_at r0 v = vd_at r v.
Proof. by destruct 1. Qed.

Lemma ingest_frame out r :
  core (ingest_validation out r) = core r /\
  validation_result (ingest_validation out r) = <[out_node_hash out := out_valid out]> (validation_result r).
Proof. unfold ingest_validation. cbv zeta. repeat case_match; done. Qed.

Lemma vd_at_ingest out r v : vd_at (ingest_validation out r) v = vd_at r v.
Proof. apply vd_at_core, ingest_frame. Qed.

(** Splits a move into its kinds and computes the entry of a view. *)
Ltac vd_simpl :=
  repeat first
    [ progress rewrite vd_at_mut in *
    | progress rewrite vd_at_set_staged in *
    | progress rewrite vd_at_ingest in *
    | progress rewrite vd_at_decided in *
    | progress rewrite vd_at_add_node in *
    | progress rewrite vd_at_set_view in *
    | match goal with
      | Hc : core ?r' = core ?r |- context [vd_at ?r' _] => rewrite (vd_at_core r r' _ Hc)
      | Hc : core ?r' = core ?r, Hx : context [vd_at ?r' _] |- _ => rewrite (vd_at_core r r' _ Hc) in Hx
      | Hg : vote_guard ?r _ _ ?r0 |- context [vd_at ?r0 _] => rewrite (vd_at_guard _ _ _ _ _ Hg)
      | Hg : vote_guard ?r _ _ ?r0, Hx : context [vd_at ?r0 _] |- _ => rewrite (vd_at_guard _ _ _ _ _ Hg) in Hx
      end ].


(** Case analysis on a phase, and on the view a move touches. *)
Ltac phases :=
  repeat match goal with
  | Ht : phase _ |- _ => destruct Ht as [->|[->| ->]]
  | Hg : vote_guard _ _ _ _ |- _ => destruct Hg
  end.

Ltac views := vd_simpl; repeat case_decide; subst.

Section order.
Context `{HashOrder}.

Lemma move_scalars r es r' :
  move r es r' ->
  n_replicas r' = n_replicas r /\ quorum r' = quorum r /\
  (view r' = view r \/ enters r (view r')).
Proof.
  intros Hm. destruct Hm; try (by phases; split_and!; auto).
  - unfold core in *. split_and!; try congruence. left. congruence.
  - destruct (ingest_frame out r) as [Hc _]. unfold core in Hc. split_and!; try congruence. left. congruence.
Qed.

(** *** Nothing recorded of a view is lost *)

Ltac types := repeat match goal with t : MsgType |- _ => destruct t end.

Lemma move_keeps r es r' v :
  move r es r' ->
  (forall p, proposal (vd_at r v) = Some p -> proposal (vd_at r' v) = Some p) /\
  (broadcast_proposal (vd_at r v) = true -> broadcast_proposal (vd_at r' v) = true) /\
  (forall t, voted t (vd_at r v) = true -> voted t (vd_at r' v) = true) /\
  (forall t, bcast t (vd_at r v) = true -> bcast t (vd_at r' v) = true) /\
  (forall t, seen t (vd_at r v) = true -> seen t (vd_at r' v) = true).
Proof.
  intros Hm. destruct Hm; views; try done.
  all: unfold fill_slot; try (destruct (proposal _) eqn:Ep); split_and!; intros; types; cbn in *; congruence.
Qed.

Lemma move_keeps_bucket r es r' v t j y :
  move r es r' -> bucket t (vd_at r v) !! j = Some y ->
  j <> me \/ voted t (vd_at r v) = true -> bucket t (vd_at r' v) !! j = Some y.
Proof.
  intros Hm Hb Hj. destruct Hm; views; try done.
  all: try (unfold fill_slot; try destruct (proposal _); types; cbn in *; done).
  - destruct (decide (j = me)) as [->|Hne].
    + destruct Hj as [?|Hj]; [done|]. destruct t, t0; cbn in *; try congruence; done.
    + destruct t, t0; cbn in *; try done; by rewrite lookup_insert_ne.
  - assert (forall m : gmap Z (list Z * list Z), m !! j = Some y -> insert_vacant j0 (h, sig) m !! j = Some y) as Hi.
    { intros m Em. unfold insert_vacant. destruct (m !! j0) eqn:E0; [done|].
      rewrite lookup_insert_ne; [done|]. intros ->. congruence. }
    destruct t, t0; cbn in *; auto.
Qed.

Lemma move_keeps_new_view r es r' v j q :
  move r es r' -> new_view_msgs (vd_at r v) !! j = Some q -> j <> me \/ v <> view r ->
  new_view_msgs (vd_at r' v) !! j = Some q.
Proof.
  intros Hm Hb Hj. destruct Hm; views; try done.
  all: try (unfold fill_slot; try destruct (proposal _); types; cbn in *; done).
  - destruct Hj as [Hj|?]; [|done]. cbn. by rewrite lookup_insert_ne.
  - cbn. unfold insert_vacant. destruct (new_view_msgs _ !! sender) eqn:E0; [done|].
    rewrite lookup_insert_ne; [done|]. intros ->. congruence.
Qed.

(** *** What is new has a cause *)

Lemma move_proposal r es r' v nd j :
  move r es r' -> proposal (vd_at r' v) = Some (nd, j) ->
  proposal (vd_at r v) = Some (nd, j) \/
  (proposal (vd_at r v) = None /\
   ((v = view r /\ Broadcast (Proposal v nd j me) ∈ es) \/
    exists keys, e = EvMsg (Proposal v nd j (leader_for r v)) keys)).
Proof.
  intros Hm Hp. destruct Hm; views; auto.
  all: try (left; types; exact Hp).
  - unfold fill_slot in Hp. destruct (proposal (vd_at r (view r))) eqn:Ep; [left; cbn in *; congruence|].
    right. cbn in Hp. injection Hp as -> ->. split; [done|]. left. split; [done|by constructor].
  - unfold fill_slot in Hp. destruct (proposal (vd_at r v)) eqn:Ep; [left; cbn in *; congruence|].
    right. cbn in Hp. injection Hp as -> ->. split; [done|]. right. by eexists.
Qed.

Lemma move_voted r es r' v t :
  move r es r' -> voted t (vd_at r' v) = true ->
  voted t (vd_at r v) = true \/
  (v = view r /\
   ((exists h, Signed t v h ∈ es) \/
    (t = Prepare /\ exists leaf high, proposal (vd_at r v) = Some (leaf, high) /\
       (validation_result r !! node_hash leaf = Some false \/
        safe_node leaf high (locked_qc r) (tree r) = false)))).
Proof.
  intros Hm Hp. destruct Hm; views; auto.
  all: try (left; unfold fill_slot in *; try destruct (proposal _); types; cbn in *; done).
  - destruct t; try (left; exact Hp). right. split; [done|]. right. eauto 10.
  - destruct (decide (t = t0)) as [<-|Hne]; [right; split; [done|]; left; eexists; by constructor|].
    left. destruct t, t0; done.
  - destruct (decide (t = t0)) as [<-|Hne].
    + right. split; [done|]. left. eexists. apply list_elem_of_further. by constructor.
    + left. destruct t, t0; done.
Qed.

Lemma noise_elem es x : Forall noise es -> x ∈ es -> noise x.
Proof. rewrite Forall_forall. auto. Qed.

(** Takes a membership in the effects of a move apart. *)
Ltac in_effects :=
  repeat match goal with
  | Hx : _ ∈ [] |- _ => by apply elem_of_nil in Hx
  | Hx : _ ∈ _ :: _ |- _ => apply elem_of_cons in Hx as [Hx|Hx]
  | Hn : Forall noise ?es, Hx : _ ∈ ?es |- _ => destruct (noise_elem _ _ Hn Hx)
  | Hn : noise ?x, Hx : _ = ?x |- _ => rewrite <- Hx in Hn; destruct Hn
  end; simplify_eq.

Lemma move_signed r es r' t v h :
  move r es r' -> Signed t v h ∈ es ->
  v = view r /\ view r' = view r /\ voted t (vd_at r v) = false /\ voted t (vd_at r' v) = true /\
  (exists r0, vote_guard r t h r0 /\ prepare_qc r' = prepare_qc r0 /\ locked_qc r' = locked_qc r0) /\
  (leader_for r v = me -> bucket t (vd_at r' v) !! me = Some (h, sign_vote (w_sk w) t v h)) /\
  (leader_for r v <> me ->
     SendTo (leader_for r v) (Vote t v h me (sign_vote (w_sk w) t v h)) ∈ es).
Proof.
  intros Hm Hs. destruct Hm; in_effects.
  - assert (view r0 = view r) as Ev by (by destruct H5).
    split_and!; [done|done|done| |by exists r0| |done].
    + views; [|done]. destruct H5; done.
    + intros _. views; [|done]. destruct H5; cbn; by rewrite lookup_insert_eq.
  - assert (view r0 = view r) as Ev by (by destruct H5).
    split_and!; [done|done|done| |by exists r0|done|by constructor].
    views; [|done]. destruct H5; done.
Qed.

Lemma move_bucket r es r' v t j h sig :
  move r es r' -> bucket t (vd_at r' v) !! j = Some (h, sig) ->
  bucket t (vd_at r v) !! j = Some (h, sig) \/
  (j = me /\ Signed t v h ∈ es /\ sig = sign_vote (w_sk w) t v h) \/
  (exists keys, e = EvMsg (Vote t v h j sig) keys /\ vote_accepted w keys t v h j sig = true).
Proof.
  intros Hm Hp. destruct Hm; views; auto.
  all: try (left; unfold fill_slot in *; try destruct (proposal _); types; cbn in *; done).
  - assert (bucket t (set_own_vote t0 me h0 (sign_vote (w_sk w) t0 (view r) h0) (vd_at r (view r))) !! j
      = Some (h, sig)) as Hb by (destruct t, t0; done).
    apply bucket_set_own in Hb as [?|(-> & -> & [= -> ->])]; [by left|].
    right. left. split_and!; [done|by constructor|done].
  - apply bucket_record in Hp as [?|(-> & -> & [= -> ->])]; [by left|]. right. right. eauto.
Qed.

Lemma move_bcast r es r' v t :
  move r es r' -> bcast t (vd_at r' v) = true ->
  bcast t (vd_at r v) = true \/
  (v = view r /\ phase t /\ leader_for r v = me /\ seen t (vd_at r' v) = true /\
   exists qc, form_qc (bucket t (vd_at r v)) t v (quorum r) = Some qc /\
     Broadcast (PhaseQc (next t) v qc me) ∈ es).
Proof.
  intros Hm Hp. destruct Hm; views; auto.
  all: try (left; unfold fill_slot in *; try destruct (proposal _); types; cbn in *; done).
  - destruct (decide (t = t0)) as [<-|Hne]; [right|left; destruct t, t0; done].
    split_and!; [done|done|done| |exists qc; split; [done|by constructor]]. by destruct t.
  - destruct (decide (t = t0)) as [<-|Hne]; [right|left; destruct t, t0; done].
    split_and!; [done|done|done| |exists qc; split; [done|by constructor]]. phases; done.
Qed.

Lemma staged_set_staged t m r t' v :
  staged t' (set_staged t m r) !! v = if decide (t = t' /\ phase t) then m !! v else staged t' r !! v.
Proof. destruct t, t'; try done; cbn; by destruct (decide _) as [[? [?|[?|?]]]|]. Qed.

(** The certificate staged for a view never changes once it is seen. *)
Lemma move_seen r es r' v t :
  move r es r' -> seen t (vd_at r' v) = true ->
  (seen t (vd_at r v) = true /\ staged t r' !! v = staged t r !! v) \/
  (phase t /\ exists qc, staged t r' !! v = Some qc /\
   ((v = view r /\ bcast t (vd_at r' v) = true /\
     form_qc (bucket t (vd_at r v)) t v (quorum r) = Some qc /\ Broadcast (PhaseQc (next t) v qc me) ∈ es) \/
    (exists keys, e = EvMsg (PhaseQc (next t) v qc (leader_for r v)) keys /\ qc_for qc t v /\
       verify_qc qc (quorum r) keys = true /\ (t = Commit -> qc_node qc ∈ decided_nodes r')))).
Proof.
  intros Hm Hp. destruct Hm.
  all: try (left; split; [views; unfold fill_slot in *; try destruct (proposal _); types; cbn in *; done|
    phases; types; done]).
  - left. views. split; [done|]. unfold core in *. destruct t; cbn; congruence.
  - left. views. split; [done|]. destruct (ingest_frame out r) as [Hc _]. unfold core in Hc. destruct t; cbn; congruence.
  - rewrite staged_set_staged. destruct (decide (t0 = t /\ phase t0)) as [[-> Ht]|Hn].
    + destruct (decide (v = view r)) as [->|Hne].
      * right. split; [done|]. exists qc. rewrite lookup_insert_eq. split; [done|]. left.
        split_and!; [done| |done|by constructor]. views; [|done]. phases; done.
      * left. rewrite lookup_insert_ne by done. split; [|by destruct Ht as [->|[->| ->]]]. views; done.
    + left. split; [|by destruct t]. views; [|done]. destruct t0, t; try done; by destruct Hn.
  - assert (staged t (set_decided_nodes dn (set_staged t0 (<[v0:=q]> (staged t0 r)) (vd_mut v0 (set_seen t0) r))) !! v
      = staged t (set_staged t0 (<[v0:=q]> (staged t0 r)) (vd_mut v0 (set_seen t0) r)) !! v) as -> by (by destruct t).
    rewrite staged_set_staged. destruct (decide (t0 = t /\ phase t0)) as [[-> Ht]|Hn].
    + destruct (decide (v = v0)) as [->|Hne].
      * right. split; [done|]. exists q. rewrite lookup_insert_eq. split; [done|]. right. eauto.
      * left. rewrite lookup_insert_ne by done. split; [|by destruct Ht as [->|[->| ->]]]. views; done.
    + left. split; [|by destruct t]. views; [|done]. destruct t0, t; try done; by destruct Hn.
Qed.

Lemma move_keeps_staged r es r' v t :
  move r es r' -> seen t (vd_at r v) = true -> staged t r' !! v = staged t r !! v.
Proof.
  intros Hm Hs. destruct Hm; try (by phases; types).
  - unfold core in *. destruct t; cbn; congruence.
  - destruct (ingest_frame out r) as [Hc _]. unfold core in Hc. destruct t; cbn; congruence.
  - rewrite staged_set_staged. destruct (decide _) as [[-> Ht]|Hn]; [|by destruct t].
    destruct (decide (v = view r)) as [->|]; [congruence|]. rewrite lookup_insert_ne by done. by destruct t.
  - destruct (decide (t0 = t /\ v = v0)) as [[-> ->]|Hn]; [congruence|].
    assert (staged t (set_decided_nodes dn (set_staged t0 (<[v0:=q]> (staged t0 r)) (vd_mut v0 (set_seen t0) r))) !! v
      = staged t (set_staged t0 (<[v0:=q]> (staged t0 r)) (vd_mut v0 (set_seen t0) r)) !! v) as -> by (by destruct t).
    rewrite staged_set_staged. destruct (decide _) as [[-> Ht]|Hn']; [|by destruct t].
    rewrite lookup_insert_ne by (intros ->; by destruct Hn). by destruct t.
Qed.

(** What a message of the replica announces. *)
Lemma move_broadcast r es r' m :
  move r es r' -> Broadcast m ∈ es ->
  leader_for r (view r) = me /\ view r' = view r /\
  ((exists leaf high, m = Proposal (view r) leaf high me /\ 1 <= view r /\
      broadcast_proposal (vd_at r (view r)) = false /\ broadcast_proposal (vd_at r' (view r)) = true /\
      (proposal (vd_at r (view r)) = None -> proposal (vd_at r' (view r)) = Some (leaf, high)) /\
      quorum r <= Z.of_nat (size (new_view_msgs (vd_at r (saturating_sub_u64 (view r) 1)))) /\
      high = choose_high_qc r (saturating_sub_u64 (view r) 1) /\ parent leaf = justify_parent high) \/
   (exists t qc, phase t /\ m = PhaseQc (next t) (view r) qc me /\
      bcast t (vd_at r' (view r)) = true /\
      form_qc (bucket t (vd_at r (view r))) t (view r) (quorum r) = Some qc)).
Proof.
  intros Hm Hs. destruct Hm; in_effects.
  - split_and!; [done|done|]. left. exists leaf, (choose_high_qc r (saturating_sub_u64 (view r) 1)).
    split_and!; [done|done|done| | |done|done|done].
    + views; done.
    + intros E. views; [|done]. unfold fill_slot. by rewrite E.
  - split_and!; [done|done|]. right. exists t, qc. split_and!; [done|done| |done]. views; [|done]. phases; done.
  - split_and!; [done|by phases|]. right. exists t, qc. split_and!; [done|done| |done]. views; [|done]. phases; done.
Qed.

Lemma move_send r es r' j m :
  move r es r' -> SendTo j m ∈ es ->
  j <> me /\
  ((exists t h, j = leader_for r (view r) /\ m = Vote t (view r) h me (sign_vote (w_sk w) t (view r) h) /\
      Signed t (view r) h ∈ es) \/
   (exists nv, enters r nv /\ j = leader_for r nv /\ m = NewViewMsg (view r) (prepare_qc r) me /\
      r' = set_view nv r)).
Proof.
  intros Hm Hs. destruct Hm; in_effects.
  - split; [done|]. left. exists t, h. split_and!; [done|done|]. apply list_elem_of_further. by constructor.
  - split; [done|]. right. by exists nv.
Qed.

Lemma move_new_view r es r' v j q :
  move r es r' -> new_view_msgs (vd_at r' v) !! j = Some q ->
  new_view_msgs (vd_at r v) !! j = Some q \/
  (j = me /\ v = view r /\ q = prepare_qc r /\ enters r (view r') /\ prepare_qc r' = prepare_qc r /\
   Forall noise es) \/
  (exists keys, e = EvMsg (NewViewMsg v q j) keys /\ justify_verifies q (quorum r) keys = true).
Proof.
  intros Hm Hp. destruct Hm; views; auto.
  all: try (left; unfold fill_slot in *; try destruct (proposal _); types; cbn in *; done).
  - cbn in Hp. apply lookup_insert_Some in Hp as [[<- <-]|[_ ?]]; [|by left].
    right. left. split_and!; try done. by repeat constructor.
  - cbn in Hp. apply insert_vacant_lookup in Hp as [?|[-> ->]]; [by left|]. right. right. eauto.
Qed.

(** A replica that enters a view reports to its leader. *)
Lemma move_enters r es r' :
  move r es r' -> view r' <> view r ->
  (leader_for r (view r') = me -> new_view_msgs (vd_at r' (view r)) !! me = Some (prepare_qc r)) /\
  (leader_for r (view r') <> me ->
     SendTo (leader_for r (view r')) (NewViewMsg (view r) (prepare_qc r) me) ∈ es).
Proof.
  intros Hm Hv. destruct Hm; try (by phases).
  - unfold core in *. congruence.
  - destruct (ingest_frame out r) as [Hc _]. unfold core in Hc. congruence.
  - split; [|done]. intros _. views; [|done]. cbn. by rewrite lookup_insert_eq.
  - split; [done|]. intros _. apply list_elem_of_further. by constructor.
Qed.

Lemma move_proposes r es r' v :
  move r es r' -> broadcast_proposal (vd_at r' v) = true ->
  broadcast_proposal (vd_at r v) = true \/
  (v = view r /\ exists leaf high, Broadcast (Proposal v leaf high me) ∈ es).
Proof.
  intros Hm Hp. destruct Hm; views; auto.
  all: try (left; unfold fill_slot in *; try destruct (proposal _); types; cbn in *; done).
  right. split; [done|]. eexists _, _. by constructor.
Qed.

Lemma move_lock r es r' :
  move r es r' ->
  locked_qc r' = locked_qc r \/
  exists qc, staged PreCommit r !! view r = Some qc /\ seen PreCommit (vd_at r (view r)) = true /\
    locked_qc r' = Some qc /\ Signed Commit (view r) (qc_node qc) ∈ es.
Proof.
  intros Hm. destruct Hm; try (by left; phases).
  - left. unfold core in *. congruence.
  - left. destruct (ingest_frame out r) as [Hc _]. unfold core in Hc. congruence.
  - destruct H5; [by left..|]. right. exists qc. split_and!; [done|done|done|]. by constructor.
  - destruct H5; [by left..|]. right. exists qc. split_and!; [done|done|done|]. apply list_elem_of_further. by constructor.
Qed.

Lemma move_prepare_qc r es r' :
  move r es r' ->
  prepare_qc r' = prepare_qc r \/
  exists qc, staged Prepare r !! view r = Some qc /\ seen Prepare (vd_at r (view r)) = true /\
    prepare_qc r' = Some qc /\ Signed PreCommit (view r) (qc_node qc) ∈ es.
Proof.
  intros Hm. destruct Hm; try (by left; phases).
  - left. unfold core in *. congruence.
  - left. destruct (ingest_frame out r) as [Hc _]. unfold core in Hc. congruence.
  - destruct H5; [by left| |by left]. right. exists qc. split_and!; [done|done|done|]. by constructor.
  - destruct H5; [by left| |by left]. right. exists qc. split_and!; [done|done|done|]. apply list_elem_of_further. by constructor.
Qed.

Lemma move_validation r es r' h b :
  move r es r' -> validation_result r' !! h = Some b ->
  validation_result r !! h = Some b \/
  exists out, e = EvValidated out /\ out_node_hash out = h /\ out_valid out = b.
Proof.
  intros Hm Hp. destruct Hm; try (by left; phases).
  - left. congruence.
  - destruct (ingest_frame out r) as [_ Hv]. rewrite Hv in Hp.
    apply lookup_insert_Some in Hp as [[<- <-]|[_ ?]]; [right; by exists out|by left].
Qed.

Lemma move_decided r es r' : move r es r' -> decided_nodes r ⊆ decided_nodes r'.
Proof.
  intros Hm. destruct Hm; try (by phases); try done.
  - unfold core in *. assert (decided_nodes r' = decided_nodes r) as -> by congruence. done.
  - destruct (ingest_frame out r) as [Hc _]. unfold core in Hc.
    assert (decided_nodes (ingest_validation out r) = decided_nodes r) as -> by congruence. done.
  - set_solver.
Qed.

(** A node is decided because a certificate of a commit quorum names it. *)
Lemma move_decides r es r' h :
  move r es r' -> h ∈ decided_nodes r' ->
  h ∈ decided_nodes r \/
  exists v qc, seen Commit (vd_at r' v) = true /\ staged Commit r' !! v = Some qc /\ qc_node qc = h.
Proof.
  intros Hm Hh. destruct Hm; try (by left); try (by left; phases).
  - left. unfold core in *. assert (decided_nodes r' = decided_nodes r) as <- by congruence. done.
  - left. destruct (ingest_frame out r) as [Hc _]. unfold core in Hc.
    assert (decided_nodes (ingest_validation out r) = decided_nodes r) as <- by congruence. done.
  - apply elem_of_union in Hh as [->%elem_of_singleton|?]; [|by left]. right. by exists (view r), qc.
  - match goal with Hd : forall h, h ∈ dn -> _ |- _ => destruct (Hd h Hh) as [?|[-> ->]]; [by left|] end.
    right. exists v, q. split_and!; [|by cbn; rewrite lookup_insert_eq|done]. vd_simpl. by rewrite decide_True.
Qed.

(** The tree is keyed by the hash of the node. *)
Lemma move_tree r es r' h nd :
  move r es r' -> tree r' !! h = Some nd -> tree r !! h = Some nd \/ h = node_hash nd.
Proof.
  intros Hm Hh. destruct Hm; try (by left); try (by left; phases).
  - left. unfold core in *. assert (tree r' = tree r) as <- by congruence. done.
  - left. destruct (ingest_frame out r) as [Hc _]. unfold core in Hc.
    assert (tree (ingest_validation out r) = tree r) as <- by congruence. done.
  - cbn in Hh. apply lookup_insert_Some in Hh as [[<- <-]|[_ ?]]; [by right|by left].
  - cbn in Hh. apply lookup_insert_Some in Hh as [[<- <-]|[_ ?]]; [by right|by left].
Qed.

Lemma move_keeps_tree r es r' h :
  move r es r' -> is_Some (tree r !! h) -> is_Some (tree r' !! h).
Proof.
  intros Hm Hh. destruct Hm; try done; try (by phases).
  - unfold core in *. assert (tree r' = tree r) as -> by congruence. done.
  - destruct (ingest_frame out r) as [Hc _]. unfold core in Hc.
    assert (tree (ingest_validation out r) = tree r) as -> by congruence. done.
  - cbn. destruct (decide (node_hash leaf = h)) as [<-|?]; [by rewrite lookup_insert_eq|by rewrite lookup_insert_ne].
  - cbn. destruct (decide (node_hash nd = h)) as [<-|?]; [by rewrite lookup_insert_eq|by rewrite lookup_insert_ne].
Qed.

(** A node put into the proposal slot is in the tree, and the certificate it
    came with names its parent: the highest reported one, or one that was
    verified. *)
Lemma move_slot r es r' v leaf high :
  move r es r' -> proposal (vd_at r v) = None -> proposal (vd_at r' v) = Some (leaf, high) ->
  is_Some (tree r' !! node_hash leaf) /\ parent leaf = justify_parent high /\
  ((exists u, high = choose_high_qc r u) \/
   exists m keys, e = EvMsg m keys /\ justify_verifies high (quorum r) keys = true).
Proof.
  intros Hm H0' Hp. destruct Hm; views; try congruence.
  all: unfold fill_slot in *; try rewrite H0' in Hp; types; cbn in *; simplify_eq.
  all: try (split_and!; [by rewrite lookup_insert_eq|done|eauto]).
  unfold decided in Hp. rewrite vd_at_decided in Hp. congruence.
Qed.
End order.
End moves.
