(* ===== verification/History.v ===== *)
(** * History: what a replica's state says about its past

    For one replica, with the events it has handled and the effects it has
    emitted so far: every flag, vote, certificate and proposal in its state
    has a cause in that history, and every message it sent still agrees with
    its state.  Nothing here refers to other replicas. *)

From Stdlib Require Import ZArith Lia.
From stdpp Require Import prelude strings gmap.
From S2P Require Import Prelude Crypto Ledger Messages Replica Qc VoteLog Workload Validator Wiring Execute Handlers Rules Consensus Invariant Steps Moves.
Open Scope Z_scope.

(** The leader schedule of a system of [n] replicas. *)
Definition leader (n v : Z) : Z := if v =? 0 then 0 else wrap32 ((v - 1) mod n).

(** The replica a message claims to come from. *)
Definition sender_of (m : Wire) : option Z :=
  match m with
  | Hello _ _ => None
  | Proposal _ _ _ k | PhaseQc _ _ _ k | NewViewMsg _ _ k | Vote _ _ _ k _ => Some k
  end.

Section history.
Context `{Sha256, Bincode, SigScheme, FileSystem, Serde}.
(** The system, the key table, and the log of all ballots signed so far. *)
Context (n : Z) (byz : gset Z) (key_of : Z -> verifying_key) (K : gmap Z verifying_key).
Context (L : list Ballot) (w : Wiring).
Abbreviation me := (my_id w).
Abbreviation own_sig := (sign_vote (w_sk w)).

(** What is assumed of an event: the key table is [K], no signature is forged,
    and a vote does not name its receiver as the voter.  The sender a message
    names is not authenticated: it can be any replica. *)
Definition event_local (e : Event) : Prop :=
  match e with
  | EvMsg m keys => keys = K /\ no_self_vote me m /\ msg_known byz key_of L m
  | _ => True
  end.

Definition good (q : QC) : Prop :=
  verify_qc q (n - max_faults n) K = true /\ qc_known byz key_of L q.
Definition good_justify (j : option QC) : Prop := forall q, j = Some q -> good q.

(** A NEW-VIEW message of view [u] covers the replica's PRE-COMMIT votes. *)
Definition covers (E : list Effect) (u : Z) (q : option QC) : Prop :=
  forall v h, Signed PreCommit v h ∈ E -> v <= u -> exists q', q = Some q' /\ v <= qc_view q'.

(** The certificate of a proposal is at least as high as a quorum of the
    NEW-VIEW messages of the view before. *)
Definition highest (r : ReplicaState) (v : Z) (high : option QC) : Prop :=
  exists Q : gset Z, n - max_faults n <= Z.of_nat (size Q) /\
    forall j, j ∈ Q -> exists q, new_view_msgs (vd_at r (v - 1)) !! j = Some q /\
      forall q', q = Some q' -> exists hq, high = Some hq /\ qc_view q' <= qc_view hq.

Section clauses.
Context (Hs : list Event) (E : list Effect) (r : ReplicaState).

(** *** Votes *)
Definition votes_sent : Prop := forall t v h, Signed t v h ∈ E ->
  phase t /\ v <= view r /\ voted t (vd_at r v) = true /\
  (t = Prepare -> exists leaf high, proposal (vd_at r v) = Some (leaf, high) /\ h = node_hash leaf) /\
  (leader n v = me -> bucket t (vd_at r v) !! me = Some (h, own_sig t v h)) /\
  (leader n v <> me -> SendTo (leader n v) (Vote t v h me (own_sig t v h)) ∈ E).

Definition votes_signed : Prop := forall t v, t <> Prepare -> voted t (vd_at r v) = true ->
  exists h, Signed t v h ∈ E.

(** Why a replica that handled a proposal did not vote for it. *)
Definition refused (v : Z) (leaf : Node) (high : option QC) : Prop :=
  (exists out, EvValidated out ∈ Hs /\ out_node_hash out = node_hash leaf /\ out_valid out = false) \/
  (exists l tr, safe_node leaf high (Some l) tr = false /\ qc_view l <= v /\
     Signed Commit (qc_view l) (qc_node l) ∈ E).

Definition prepare_signed : Prop := forall v, voted Prepare (vd_at r v) = true ->
  exists leaf high, proposal (vd_at r v) = Some (leaf, high) /\
    (Signed Prepare v (node_hash leaf) ∈ E \/ refused v leaf high).

Definition buckets_good : Prop := forall t v j h sig, bucket t (vd_at r v) !! j = Some (h, sig) ->
  phase t /\ (exists pk, K !! j = Some pk /\ verify_vote_sig pk t v h sig = true) /\
  (j ∉ byz -> mkBallot j t v h ∈ L).

(** *** Locks, prepared certificates, validations *)
Definition lock_signed : Prop := forall l, locked_qc r = Some l ->
  Signed Commit (qc_view l) (qc_node l) ∈ E.

Definition prepared : Prop := good_justify (prepare_qc r) /\
  forall v h, Signed PreCommit v h ∈ E -> exists q, prepare_qc r = Some q /\ v <= qc_view q.

Definition validations_heard : Prop := forall h b, validation_result r !! h = Some b ->
  exists out, EvValidated out ∈ Hs /\ out_node_hash out = h /\ out_valid out = b.

(** *** Certificates *)
Definition seen_caused : Prop := forall t v, seen t (vd_at r v) = true ->
  phase t /\ exists qc, staged t r !! v = Some qc /\ qc_for qc t v /\ good qc /\
    (bcast t (vd_at r v) = true \/ EvMsg (PhaseQc (next t) v qc (leader n v)) K ∈ Hs) /\
    (t = Commit -> view r = v \/ qc_node qc ∈ decided_nodes r).

Definition bcast_sent : Prop := forall t v, bcast t (vd_at r v) = true ->
  leader n v = me /\ seen t (vd_at r v) = true /\
  exists qc, qc_for qc t v /\ good qc /\ Broadcast (PhaseQc (next t) v qc me) ∈ E.

(** A view is left because it was decided or because its timer fired. *)
Definition views_left : Prop := forall v, 1 <= v < view r ->
  seen Commit (vd_at r v) = true \/ EvTimer (mkTimerEvent v) ∈ Hs.

(** *** Proposals *)
Definition slot_caused : Prop := forall v leaf high, proposal (vd_at r v) = Some (leaf, high) ->
  Broadcast (Proposal v leaf high me) ∈ E \/ EvMsg (Proposal v leaf high (leader n v)) K ∈ Hs.

Definition proposals_sent : Prop := forall v leaf high k, Broadcast (Proposal v leaf high k) ∈ E ->
  k = me /\ leader n v = me /\ 1 <= v <= view r /\ broadcast_proposal (vd_at r v) = true /\
  ((forall leaf' high', EvMsg (Proposal v leaf' high' me) K ∉ Hs) ->
   proposal (vd_at r v) = Some (leaf, high)) /\
  parent leaf = justify_parent high /\ good_justify high /\ highest r v high.

Definition proposals_made : Prop := forall v, broadcast_proposal (vd_at r v) = true ->
  exists leaf high, Broadcast (Proposal v leaf high me) ∈ E.

(** *** Messages *)
Definition qcs_sent : Prop := forall t' v qc k, Broadcast (PhaseQc t' v qc k) ∈ E ->
  k = me /\ leader n v = me /\ exists t, phase t /\ t' = next t /\ bcast t (vd_at r v) = true /\
    good qc /\ qc_for qc t v.

Definition broadcasts : Prop := forall m, Broadcast m ∈ E ->
  (exists v leaf high, m = Proposal v leaf high me) \/ (exists t v qc, m = PhaseQc t v qc me).

Definition sends : Prop := forall j m, SendTo j m ∈ E -> j <> me /\
  ((exists t v h, m = Vote t v h me (own_sig t v h) /\ j = leader n v /\ Signed t v h ∈ E) \/
   (exists u q, m = NewViewMsg u q me /\ j = leader n (u + 1) /\ u < view r /\
      good_justify q /\ covers E u q)).

Definition new_views_caused : Prop := forall u j q, new_view_msgs (vd_at r u) !! j = Some q ->
  good_justify q /\
  ((j = me /\ u < view r /\ covers E u q) \/ EvMsg (NewViewMsg u q j) K ∈ Hs).

(** Every view was entered with a report to its leader. *)
Definition new_views_sent : Prop := forall v, 1 <= v <= view r ->
  (leader n v = me -> is_Some (new_view_msgs (vd_at r (v - 1)) !! me)) /\
  (leader n v <> me -> exists q, SendTo (leader n v) (NewViewMsg (v - 1) q me) ∈ E).

Record causal : Prop := {
  c_n : n_replicas r = n;
  c_quorum : quorum r = n - max_faults n;
  c_view : 0 <= view r;
  c_votes_sent : votes_sent;
  c_votes_signed : votes_signed;
  c_prepare_signed : prepare_signed;
  c_buckets : buckets_good;
  c_lock : lock_signed;
  c_prepared : prepared;
  c_validations : validations_heard;
  c_seen : seen_caused;
  c_bcast : bcast_sent;
  c_left : views_left;
  c_slot : slot_caused;
  c_proposals : proposals_sent;
  c_made : proposals_made;
  c_qcs : qcs_sent;
  c_broadcasts : broadcasts;
  c_sends : sends;
  c_new_views : new_views_caused;
  c_reports : new_views_sent
}.
End clauses.

(** ** Every move preserves the clauses *)

Section preserve.
Context `{!SigSchemeLaws, HashOrder}.
Hypothesis own_key : K !! me = Some (verifying_key_of (w_sk w)).
Context (e : Event) (Hs : list Event) (E : list Effect) (r : ReplicaState) (es : list Effect) (r' : ReplicaState).
Hypothesis few_keys : Z.of_nat (size K) < u32_modulus.
Hypothesis keys_known : keys_ok n key_of K.
Hypothesis logged : forall t v h, Signed t v h ∈ es -> mkBallot me t v h ∈ L.
Hypothesis He : e ∈ Hs.
Hypothesis Hlocal : Forall event_local Hs.
Hypothesis Hmove : move w e r es r'.
Hypothesis Hc : causal Hs E r.

Lemma leader_eq v : leader_for r v = leader n v.
Proof. unfold leader_for, leader. by rewrite (c_n _ _ _ Hc). Qed.

Lemma local_elem x : x ∈ Hs -> event_local x.
Proof. intros Hx. by apply (proj1 (Forall_forall _ _) Hlocal). Qed.

Lemma view_mono : view r <= view r'.
Proof.
  destruct (move_scalars w e r es r' Hmove) as (_ & _ & [->|[[_ ->]|(_ & E0 & _ & ->)]]); lia.
Qed.

Lemma signed_old t v h : Signed t v h ∈ es ++ E ->
  Signed t v h ∈ E \/ (Signed t v h ∈ es /\ v = view r /\ view r' = view r).
Proof.
  intros [Hi|Hi]%elem_of_app; [|by left]. right.
  destruct (move_signed w e r es r' t v h Hmove Hi) as (-> & -> & _). done.
Qed.

Lemma in_old x : x ∈ E -> x ∈ es ++ E.
Proof. intros. apply elem_of_app. by right. Qed.
Lemma in_new x : x ∈ es -> x ∈ es ++ E.
Proof. intros. apply elem_of_app. by left. Qed.
#[local] Hint Resolve in_old in_new : core.

Lemma guard_phase t h r0 : vote_guard r t h r0 -> phase t.
Proof. unfold phase. destruct 1; auto. Qed.

Lemma votes_sent_move : votes_sent (es ++ E) r'.
Proof.
  intros t v h [Hold|(Hnew & -> & Hv)]%signed_old.
  - destruct (c_votes_sent _ _ _ Hc t v h Hold) as (Ht & Hle & Hvt & Hpr & Hb & Hsd).
    destruct (move_keeps w e r es r' v Hmove) as (Hkp & _ & Hk & _). pose proof view_mono.
    split_and!; [done|lia|auto| | |auto].
    + intros Et. destruct (Hpr Et) as (leaf & high & ? & ?). eauto.
    + intros Hl. eapply move_keeps_bucket; [exact Hmove|by apply Hb|by right].
  - destruct (move_signed w e r es r' t _ h Hmove Hnew) as (_ & _ & _ & Hvt & (r0 & Hg & _) & Hb & Hsd).
    rewrite leader_eq in Hb, Hsd. destruct (move_keeps w e r es r' (view r) Hmove) as (Hkp & _).
    split_and!; [by eapply guard_phase|lia|done| |done|auto].
    intros ->. inversion Hg; subst. eauto.
Qed.

Lemma votes_signed_move : votes_signed (es ++ E) r'.
Proof.
  intros t v Ht Hv. apply (move_voted w e r es r' v t Hmove) in Hv as [Hv|(-> & [[h Hh]|[-> _]])]; [|eauto|done].
  destruct (c_votes_signed _ _ _ Hc t v Ht Hv) as [h ?]. eauto.
Qed.

Lemma refused_mono v leaf high : refused Hs E v leaf high -> refused Hs (es ++ E) v leaf high.
Proof. intros [?|(l & tr & ? & ? & ?)]; [by left|]. right. exists l, tr. auto. Qed.

Lemma prepare_signed_move : prepare_signed Hs (es ++ E) r'.
Proof.
  intros v Hv. destruct (move_keeps w e r es r' v Hmove) as (Hkp & _).
  apply (move_voted w e r es r' v Prepare Hmove) in Hv as [Hv|(-> & [[h Hh]|(_ & leaf & high & Hp & Hwhy)])].
  - destruct (c_prepare_signed _ _ _ Hc v Hv) as (leaf & high & Hp & [?|?]); exists leaf, high;
      (split; [by apply Hkp|]); [auto|right; by apply refused_mono].
  - destruct (move_signed w e r es r' _ _ h Hmove Hh) as (_ & _ & _ & _ & (r0 & Hg & _) & _).
    inversion Hg as [leaf high Hp| |]; subst. exists leaf, high. split; [by apply Hkp|auto].
  - exists leaf, high. split; [by apply Hkp|right].
    destruct Hwhy as [Hf|Hsafe].
    + left. by apply (c_validations _ _ _ Hc) in Hf.
    + right. destruct (locked_qc r) as [l|] eqn:El; [|done].
      exists l, (tree r). pose proof (c_lock _ _ _ Hc l El) as Hsg. split_and!; [done| |auto].
      by destruct (c_votes_sent _ _ _ Hc _ _ _ Hsg) as (_ & ? & _).
Qed.

Lemma buckets_good_move : buckets_good r'.
Proof.
  intros t v j h sig Hb.
  assert (phase t) as Ht by (unfold phase; destruct t; cbn in Hb; auto; by rewrite lookup_empty in Hb).
  split; [done|].
  apply (move_bucket w e r es r' v t j h sig Hmove) in Hb as [Hb|[(-> & Hsd & ->)|(keys & -> & Ha)]].
  - by destruct (c_buckets _ _ _ Hc t v j h sig Hb) as [_ ?].
  - split; [|auto]. eexists. split; [exact own_key|]. apply verify_sign_vote.
  - destruct (local_elem _ He) as (-> & Hne & Hk). unfold vote_accepted in Ha.
    destruct (Z.eqb_spec j me) as [->|]; [done|].
    destruct (K !! j) as [pk|] eqn:Ek; [|done]. split; [by exists pk|].
    destruct (keys_known j pk Ek) as [_ ->]. intros Hb. by apply Hk.
Qed.

Lemma lock_signed_move : lock_signed (es ++ E) r'.
Proof.
  intros l Hl. destruct (move_lock w e r es r' Hmove) as [Eq|(qc & Hst & Hsn & Hq & Hsg)].
  - rewrite Eq in Hl. by apply in_old, (c_lock _ _ _ Hc).
  - assert (qc = l) as -> by congruence.
    destruct (c_seen _ _ _ Hc _ _ Hsn) as (_ & qc' & Hst' & [_ Hv] & _). simplify_eq. rewrite Hv. auto.
Qed.

Lemma prepared_move : prepared (es ++ E) r'.
Proof.
  destruct (c_prepared _ _ _ Hc) as [Hg Hp].
  destruct (move_prepare_qc w e r es r' Hmove) as [Eq|(qc & Hst & Hsn & Hq & Hsg)].
  - unfold prepared. rewrite Eq. split; [done|]. intros v h [Hold|(Hnew & -> & _)]%signed_old; [eauto|].
    destruct (move_signed w e r es r' _ _ h Hmove Hnew) as (_ & _ & _ & _ & (r0 & Hgd & Epq & _) & _).
    inversion Hgd as [|qc Hsn Hst|]; subst. exists qc. split; [by rewrite <- Eq, Epq|].
    destruct (c_seen _ _ _ Hc _ _ Hsn) as (_ & qc' & Hst' & [_ Hv] & _). simplify_eq. lia.
  - destruct (c_seen _ _ _ Hc _ _ Hsn) as (_ & qc' & Hst' & [_ Hv] & Hgood & _).
    assert (qc' = qc) as -> by congruence.
    unfold prepared. rewrite Hq. split; [by intros ? [= <-]|]. intros v h Hi. exists qc. split; [done|].
    apply signed_old in Hi as [Hold|(_ & -> & _)]; [|lia].
    destruct (c_votes_sent _ _ _ Hc _ _ _ Hold) as (_ & ? & _). lia.
Qed.

Lemma validations_heard_move : validations_heard Hs r'.
Proof.
  intros h b Hv. apply (move_validation w e r es r' h b Hmove) in Hv as [Hv|(out & -> & ? & ?)]; [|eauto].
  by apply (c_validations _ _ _ Hc).
Qed.

(** A certificate formed from a bucket of verified votes verifies. *)
Lemma form_qc_good t v qc :
  form_qc (bucket t (vd_at r v)) t v (quorum r) = Some qc -> qc_for qc t v /\ good qc.
Proof.
  intros Hf. rewrite (c_quorum _ _ _ Hc) in Hf. pose proof Hf as (Ht & Hv & _ & _ & Hsig)%form_qc_sound.
  split; [done|]. split.
  - eapply form_qc_verifies; [done| |exact Hf]. intros j h sig Hb. by apply (c_buckets _ _ _ Hc) in Hb as (_ & ? & _).
  - intros j sig Hin Hb _. rewrite Ht, Hv. by apply Hsig, (c_buckets _ _ _ Hc) in Hin as (_ & _ & Hin); apply Hin.
Qed.

Lemma seen_caused_move : seen_caused Hs r'.
Proof.
  intros t v Hs'. destruct (move_keeps w e r es r' v Hmove) as (_ & _ & _ & Hkb & _).
  apply (move_seen w e r es r' v t Hmove) in Hs' as [[Hsn Est]|(Ht & qc & Hst & Hwhy)].
  - destruct (c_seen _ _ _ Hc t v Hsn) as (Ht & qc & Hst & Hq & Hg & Hcause & Hdec).
    split; [done|]. exists qc. split_and!; [by rewrite Est|done|done| |].
    + destruct Hcause as [?|?]; auto.
    + intros ->. pose proof (move_decided w e r es r' Hmove) as Hd.
      destruct (Hdec eq_refl) as [Hvw|?]; [|right; set_solver].
      destruct (move_scalars w e r es r' Hmove) as (_ & _ & [->|Hent]); [auto|]. right. apply Hd.
      destruct Hent as [[[(qc' & _ & Hst' & Hin)|[_ Hno]] _]|(_ & _ & Hemp & _)].
      * rewrite Hvw in Hst'. cbn in Hst, Hst'. simplify_eq. done.
      * rewrite Hvw in Hno. congruence.
      * unfold vd_at, vd in Hsn. by rewrite Hemp, lookup_empty in Hsn.
  - split; [done|]. exists qc. destruct Hwhy as [(-> & Hb & Hf & Hbc)|(keys & -> & Hq & Hver & Hdec)].
    + apply form_qc_good in Hf as [Hq Hg]. split_and!; auto. intros ->. left.
      by destruct (move_broadcast w e r es r' _ Hmove Hbc) as (_ & -> & _).
    + destruct (local_elem _ He) as (-> & _ & Hk). rewrite leader_eq in He. rewrite (c_quorum _ _ _ Hc) in Hver.
      split_and!; auto. by split.
Qed.

Lemma bcast_sent_move : bcast_sent (es ++ E) r'.
Proof.
  intros t v Hb. destruct (move_keeps w e r es r' v Hmove) as (_ & _ & _ & _ & Hks).
  apply (move_bcast w e r es r' v t Hmove) in Hb as [Hb|(-> & Ht & Hl & Hsn & qc & Hf & Hbc)].
  - destruct (c_bcast _ _ _ Hc t v Hb) as (Hl & Hsn & qc & ? & ? & ?). split_and!; eauto 10.
  - rewrite leader_eq in Hl. apply form_qc_good in Hf as [? ?]. split_and!; eauto 10.
Qed.

Lemma views_left_move : views_left Hs r'.
Proof.
  intros v Hv. destruct (move_keeps w e r es r' v Hmove) as (_ & _ & _ & _ & Hks).
  destruct (decide (v < view r)) as [Hlt|Hge].
  - destruct (c_left _ _ _ Hc v ltac:(lia)); auto.
  - destruct (move_scalars w e r es r' Hmove) as (_ & _ & [?|[[Hl ?]|(_ & ? & _ & ?)]]); [lia| |lia].
    assert (v = view r) as -> by lia. destruct Hl as [(qc & ? & _)|[Ht _]]; [auto|right]. by rewrite <- Ht.
Qed.

Lemma slot_caused_move : slot_caused Hs (es ++ E) r'.
Proof.
  intros v leaf high Hp.
  apply (move_proposal w e r es r' v leaf high Hmove) in Hp as [Hp|[_ [[_ Hb]|[keys ->]]]].
  - destruct (c_slot _ _ _ Hc _ _ _ Hp); auto.
  - auto.
  - destruct (local_elem _ He) as (-> & _ & _). rewrite leader_eq in He. auto.
Qed.

(** The slot of a view the replica leads is filled by its own proposal, unless
    it heard a proposal in its own name. *)
Lemma own_slot_empty v :
  leader n v = me -> broadcast_proposal (vd_at r v) = false ->
  (forall leaf high, EvMsg (Proposal v leaf high me) K ∉ Hs) -> proposal (vd_at r v) = None.
Proof.
  intros Hl Hb Hno. destruct (proposal (vd_at r v)) as [[leaf high]|] eqn:Ep; [|done].
  apply (c_slot _ _ _ Hc) in Ep as [Hi|Hi].
  - apply (c_proposals _ _ _ Hc) in Hi as (_ & _ & _ & ? & _). congruence.
  - rewrite Hl in Hi. by destruct (Hno leaf high).
Qed.

Lemma highest_keep v high : v <= view r -> highest r v high -> highest r' v high.
Proof.
  intros Hv (Q & Hq & Hall). exists Q. split; [done|]. intros j Hj.
  destruct (Hall j Hj) as (q & Hnv & Hle). exists q. split; [|done].
  eapply move_keeps_new_view; [exact Hmove|done|right; lia].
Qed.

Lemma choose_high_qc_highest v :
  1 <= v -> n - max_faults n <= Z.of_nat (size (new_view_msgs (vd_at r (saturating_sub_u64 v 1)))) ->
  highest r v (choose_high_qc r (saturating_sub_u64 v 1)) /\
  good_justify (choose_high_qc r (saturating_sub_u64 v 1)).
Proof.
  intros Hv. replace (saturating_sub_u64 v 1) with (v - 1) by (unfold saturating_sub_u64; lia).
  intros Hsz. set (m := new_view_msgs (vd_at r (v - 1))) in *.
  set (l := omap snd (hash_iter m)).
  assert (choose_high_qc r (v - 1) = max_by_key qc_view l) as -> by done. split.
  - exists (dom m). rewrite size_dom. split; [done|]. intros j [q Hj]%elem_of_dom. exists q. split; [done|].
    intros q' ->. assert (q' ∈ l) as Hin.
    { apply list_elem_of_omap. exists (j, Some q'). split; [by apply elem_of_hash_iter|done]. }
    destruct (max_by_key qc_view l) as [hq|] eqn:Em; [by exists hq; split; [|eapply max_by_key_ge]|].
    destruct l as [|a l']; [by apply elem_of_nil in Hin|]. cbn in Em. by repeat case_match.
  - intros hq Em. apply max_by_key_elem, list_elem_of_omap in Em as ([j oq] & Hin%elem_of_hash_iter & [= ->]).
    destruct (c_new_views _ _ _ Hc _ _ _ Hin) as [Hg _]. by apply Hg.
Qed.

Lemma proposals_sent_move : proposals_sent Hs (es ++ E) r'.
Proof.
  intros v leaf high k. pose proof view_mono. intros [Hb|Hb]%elem_of_app.
  - destruct (move_broadcast w e r es r' _ Hmove Hb) as (Hl & Hvw &
      [(leaf' & high' & [= -> <- <- ->] & H1' & Hbp & Hbp' & Hsl & Hq & Hh & Hpar)|(t & qc & _ & ? & _)]); [|done].
    rewrite leader_eq in Hl. rewrite (c_quorum _ _ _ Hc) in Hq.
    destruct (choose_high_qc_highest (view r) H1' Hq) as [Hhigh Hgood]. rewrite <- Hh in Hhigh, Hgood.
    split_and!; [done|done|lia|lia|done|intros; by apply Hsl, own_slot_empty|done|done|by apply highest_keep; [lia|]].
  - destruct (c_proposals _ _ _ Hc _ _ _ _ Hb) as (? & ? & ? & ? & ? & ? & ? & ?).
    destruct (move_keeps w e r es r' v Hmove) as (Hkp & Hkb & _).
    split_and!; [done|done|lia|lia|auto|auto|done|done|by apply highest_keep; [lia|]].
Qed.

Lemma qcs_sent_move : qcs_sent (es ++ E) r'.
Proof.
  intros t' v qc k [Hb|Hb]%elem_of_app.
  - destruct (move_broadcast w e r es r' _ Hmove Hb) as (Hl & Hvw &
      [(? & ? & ? & _)|(t & qc' & Ht & [= -> -> -> ->] & Hbc & Hf)]); [done|].
    rewrite leader_eq in Hl. apply form_qc_good in Hf as [? ?]. split_and!; auto. exists t. auto.
  - destruct (c_qcs _ _ _ Hc _ _ _ _ Hb) as (? & ? & t & ? & ? & ? & ? & ?).
    destruct (move_keeps w e r es r' v Hmove) as (_ & _ & _ & Hkb & _). split_and!; auto. exists t. auto 10.
Qed.

Lemma broadcasts_move : broadcasts (es ++ E).
Proof.
  intros m [Hb|Hb]%elem_of_app; [|by apply (c_broadcasts _ _ _ Hc)].
  destruct (move_broadcast w e r es r' _ Hmove Hb) as (_ & _ & [(? & ? & ? & _)|(? & ? & ? & ? & _)]); eauto 10.
Qed.

(** A later PRE-COMMIT vote is of the current view. *)
Lemma covers_keep u q : u < view r -> covers E u q -> covers (es ++ E) u q.
Proof. intros Hu Hcov v h [Hold|(_ & -> & _)]%signed_old Hv; [eauto|lia]. Qed.

Lemma covers_enter nv : enters e r nv -> view r' = nv -> covers (es ++ E) (view r) (prepare_qc r).
Proof.
  intros Hent Hv v h [Hold|(_ & _ & Hsame)]%signed_old _.
  - by apply (c_prepared _ _ _ Hc) in Hold.
  - destruct Hent as [[_ ->]|(_ & E0 & _ & ->)]; lia.
Qed.

Lemma enters_next nv : enters e r nv -> nv = view r + 1.
Proof. intros [[_ ->]|(_ & -> & _ & ->)]; lia. Qed.

Lemma sends_move : sends (es ++ E) r'.
Proof.
  pose proof view_mono as Hmono. intros j m [Hb|Hb]%elem_of_app.
  - destruct (move_send w e r es r' j m Hmove Hb) as (Hne & [(t & h & -> & -> & Hsg)|(nv & Hent & -> & -> & Er)]);
      (split; [done|]).
    + left. exists t, (view r), h. rewrite leader_eq. auto.
    + right. pose proof (enters_next nv Hent) as ->. exists (view r), (prepare_qc r). rewrite leader_eq.
      split_and!; [done|done|rewrite Er; cbn; lia|apply (c_prepared _ _ _ Hc)|].
      eapply covers_enter; [done|by rewrite Er].
  - destruct (c_sends _ _ _ Hc j m Hb) as (Hne & [(t & v & h & ? & ? & ?)|(u & q & ? & ? & ? & ? & ?)]);
      (split; [done|]); [left; exists t, v, h; auto|right; exists u, q].
    split_and!; auto using covers_keep. lia.
Qed.

Lemma new_views_caused_move : new_views_caused Hs (es ++ E) r'.
Proof.
  pose proof view_mono as Hmono. intros u j q Hnv.
  apply (move_new_view w e r es r' u j q Hmove) in Hnv as
    [Hnv|[(-> & -> & -> & Hent & _)|(keys & -> & Hver)]].
  - destruct (c_new_views _ _ _ Hc u j q Hnv) as (Hg & [(-> & Hu & Hcov)|?]); (split; [done|]); [left|by right].
    split_and!; [done|lia|by apply covers_keep].
  - split; [apply (c_prepared _ _ _ Hc)|left]. split_and!; [done| |by eapply covers_enter].
    apply enters_next in Hent. lia.
  - destruct (local_elem _ He) as (-> & Hne & Hk). rewrite (c_quorum _ _ _ Hc) in Hver.
    split; [intros q' ->; split; [exact Hver|by apply Hk]|by right].
Qed.

Lemma proposals_made_move : proposals_made (es ++ E) r'.
Proof.
  intros v Hv. apply (move_proposes w e r es r' v Hmove) in Hv as [Hv|(_ & leaf & high & Hb)]; [|eauto].
  destruct (c_made _ _ _ Hc v Hv) as (leaf & high & Hb). eauto.
Qed.

Lemma new_views_sent_move : new_views_sent (es ++ E) r'.
Proof.
  intros v Hv. destruct (decide (v <= view r)) as [Hle|Hgt].
  - destruct (c_reports _ _ _ Hc v ltac:(lia)) as [Hown Hsend]. split.
    + intros Hl. destruct (Hown Hl) as [q Hq]. exists q.
      eapply move_keeps_new_view; [exact Hmove|done|right; lia].
    + intros Hl. destruct (Hsend Hl) as [q Hq]. eauto.
  - assert (v = view r' /\ v - 1 = view r) as [-> ->].
    { destruct (move_scalars w e r es r' Hmove) as (_ & _ & [?|Hent]); [lia|]. apply enters_next in Hent. lia. }
    destruct (move_enters w e r es r' Hmove ltac:(lia)) as [Hown Hsend]. rewrite leader_eq in *.
    split; eauto.
Qed.

Lemma causal_move : causal Hs (es ++ E) r'.
Proof.
  destruct (move_scalars w e r es r' Hmove) as (E1 & E2 & _). pose proof view_mono.
  pose proof (c_view _ _ _ Hc).
  split; rewrite ?E1, ?E2; try apply Hc; try lia;
    eauto using votes_sent_move, votes_signed_move, prepare_signed_move, buckets_good_move, lock_signed_move,
      prepared_move, validations_heard_move, seen_caused_move, bcast_sent_move, views_left_move, slot_caused_move,
      proposals_sent_move, proposals_made_move, new_views_sent_move, qcs_sent_move, broadcasts_move, sends_move, new_views_caused_move.
Qed.
End preserve.

(** ** Along an event loop pass *)

(** More events in the past. *)
Lemma causal_more e Hs E r : causal Hs E r -> causal (e :: Hs) E r.
Proof.
  intros []. split; try done.
  - intros v Hv. destruct (c_prepare_signed0 v Hv) as (leaf & high & Hp & Hor). exists leaf, high. split; [done|].
    destruct Hor as [?|[(out & ? & ?)|?]]; [by left|right; left|right; by right].
    exists out. split; [by apply list_elem_of_further|done].
  - intros h b Hv. destruct (c_validations0 h b Hv) as (out & ? & ?). exists out.
    split; [by apply list_elem_of_further|done].
  - intros t v Hv. destruct (c_seen0 t v Hv) as (Ht & qc & ? & ? & ? & Hor & ?). split; [done|]. exists qc.
    split_and!; try done. destruct Hor; [by left|right; by apply list_elem_of_further].
  - intros v Hv. destruct (c_left0 v Hv); [by left|right; by apply list_elem_of_further].
  - intros v leaf high Hp. destruct (c_slot0 v leaf high Hp); [by left|right; by apply list_elem_of_further].
  - intros v leaf high k Hb. destruct (c_proposals0 v leaf high k Hb) as (? & ? & ? & ? & Hsl & ?).
    do 4 (split; [done|]). split; [|done]. intros Hno. apply Hsl. intros leaf' high' Hin.
    by apply (Hno leaf' high'), list_elem_of_further.
  - intros u j q Hq. destruct (c_new_views0 u j q Hq) as (? & [?|?]); (split; [done|]);
      [by left|right; by apply list_elem_of_further].
Qed.

Lemma steps_views `{HashOrder} e s s' :
  0 <= view (rs s) -> rtc (prim w e (fun v => v + 1 < u64_modulus)) s s' -> view (rs s) <= view (rs s').
Proof.
  intros Hv Hr. revert Hv. induction Hr as [s|s s1 s2 Hp Hr IH]; intros Hv; [done|].
  destruct (prim_move w e s s1 Hv Hp) as (es & _ & Hm).
  destruct (move_scalars w e _ _ _ Hm) as (_ & _ & [E|[[_ E]|(_ & E0 & _ & E)]]); specialize (IH ltac:(lia)); lia.
Qed.

(** Effects are only added. *)
Lemma steps_effects `{HashOrder} e s s' :
  0 <= view (rs s) -> rtc (prim w e (fun v => v + 1 < u64_modulus)) s s' ->
  exists es, effects s' = es ++ effects s.
Proof.
  intros Hv Hr. revert Hv. induction Hr as [s|s s1 s2 Hp Hr IH]; intros Hv; [by exists []|].
  destruct (prim_move w e s s1 Hv Hp) as (es & Ees & Hm).
  destruct (move_scalars w e _ _ _ Hm) as (_ & _ & Hvw).
  destruct IH as (es' & ->); [destruct Hvw as [->|[[_ ->]|(_ & _ & _ & ->)]]; lia|].
  exists (es' ++ es). by rewrite Ees, app_assoc.
Qed.

(** One pass of the event loop extends the history. *)
Lemma causal_step `{!SigSchemeLaws, HashOrder} e Hs E s s' :
  K !! me = Some (verifying_key_of (w_sk w)) -> Z.of_nat (size K) < u32_modulus -> keys_ok n key_of K ->
  (forall t v h, Signed t v h ∈ effects s' -> mkBallot me t v h ∈ L) ->
  Forall event_local (e :: Hs) -> view (rs s) + 2 < u64_modulus ->
  started e (rs s) ->
  causal Hs E (rs s) -> node_step w e s = Ok s' ->
  causal (e :: Hs) (effects s' ++ E) (rs s').
Proof.
  intros Hk Hsz Hkeys Hlog Hloc Hb Hst Hc Hr. apply (node_step_steps w e s s' Hb Hst) in Hr.
  apply (causal_more e) in Hc.
  assert (causal (e :: Hs) (effects (with_effects [] s) ++ E) (rs (with_effects [] s))) as Hc0 by exact Hc.
  revert Hc0. generalize dependent (with_effects [] s). intros s0 Hr Hc0. clear Hc Hst Hb.
  induction Hr as [s0|s0 s1 s2 Hp Hr IH]; [done|]. apply (IH Hlog). clear IH.
  destruct (prim_move w e s0 s1 (c_view _ _ _ Hc0) Hp) as (es & Ees & Hm).
  assert (causal (e :: Hs) (es ++ effects s0 ++ E) (rs s1)) as Hc1; [|by rewrite Ees, <- app_assoc].
  eapply (causal_move Hk e); [exact Hsz|exact Hkeys| |constructor|exact Hloc|exact Hm|exact Hc0].
  intros t v h Hin. apply Hlog. destruct (steps_effects e s1 s2) as (es' & ->); [|done|].
  - destruct (move_scalars w e _ _ _ Hm) as (_ & _ & Hvw). pose proof (c_view _ _ _ Hc0).
    destruct Hvw as [->|[[_ ->]|(_ & _ & _ & ->)]]; lia.
  - rewrite Ees, !elem_of_app. auto.
Qed.
End history.

(** ** A longer log of ballots *)

Section longer_log.
Context `{Sha256, Bincode, SigScheme, FileSystem, Serde}.
Context (n : Z) (byz : gset Z) (key_of : Z -> verifying_key) (K : gmap Z verifying_key) (w : Wiring).
Context (L L' : list Ballot).
Hypothesis Hsub : L ⊆ L'.

Lemma qc_known_mono q : qc_known byz key_of L q -> qc_known byz key_of L' q.
Proof. intros Hq i sig Hin Hb Hv. by apply Hsub, (Hq i sig). Qed.

Lemma msg_known_mono m : msg_known byz key_of L m -> msg_known byz key_of L' m.
Proof.
  destruct m; cbn; eauto using qc_known_mono.
  intros Hs Hb Hv. by apply Hsub, Hs.
Qed.

Lemma event_local_mono e : event_local byz key_of K L w e -> event_local byz key_of K L' w e.
Proof. destruct e; cbn; [done| |done..]. intros (? & ? & ?). eauto using msg_known_mono. Qed.

Lemma good_mono q : good n byz key_of K L q -> good n byz key_of K L' q.
Proof. intros [? ?]. split; eauto using qc_known_mono. Qed.

Lemma good_justify_mono j : good_justify n byz key_of K L j -> good_justify n byz key_of K L' j.
Proof. intros Hj q Hq. by apply good_mono, Hj. Qed.

Lemma causal_mono Hs E r : causal n byz key_of K L w Hs E r -> causal n byz key_of K L' w Hs E r.
Proof.
  intros []. split; try done.
  - intros t v j h sig Hb. destruct (c_buckets0 t v j h sig Hb) as (? & ? & ?). auto.
  - destruct c_prepared0. split; [by apply good_justify_mono|done].
  - intros t v Hv. destruct (c_seen0 t v Hv) as (? & qc & ? & ? & ? & ? & ?). eauto 10 using good_mono.
  - intros t v Hv. destruct (c_bcast0 t v Hv) as (? & ? & qc & ? & ? & ?). eauto 10 using good_mono.
  - intros v leaf high k Hb. destruct (c_proposals0 _ _ _ _ Hb) as (? & ? & ? & ? & ? & ? & ? & ?).
    eauto 10 using good_justify_mono.
  - intros t v qc k Hb. destruct (c_qcs0 _ _ _ _ Hb) as (? & ? & t0 & ? & ? & ? & ? & ?). eauto 10 using good_mono.
  - intros j m Hb. destruct (c_sends0 _ _ Hb) as (? & [?|(u & q & ? & ? & ? & ? & ?)]); [by auto|].
    split; [done|right]. exists u, q. eauto 10 using good_justify_mono.
  - intros u j q Hq. destruct (c_new_views0 u j q Hq) as (? & ?). eauto using good_justify_mono.
Qed.
End longer_log.

(** A replica that has not started. *)
Lemma causal_new `{Sha256, Bincode, SigScheme, FileSystem, Serde} n byz key_of K L w t :
  1 <= n < u32_modulus -> causal n byz key_of K L w [] [] (new_replica n t).
Proof.
  intros Hn.
  assert (forall v, vd_at (new_replica n t) v = default_view_data) as Hd by done.
  split; try done.
  - by apply new_replica_quorum.
  - intros ? ? ? ?%elem_of_nil. done.
  - intros ty v _. rewrite Hd. by destruct ty.
  - intros ty v j h sig. rewrite Hd. by destruct ty.
  - split; [done|]. by intros ? ? ?%elem_of_nil.
  - intros ty v. rewrite Hd. by destruct ty.
  - intros ty v. rewrite Hd. by destruct ty.
  - intros v Hv. cbn in Hv. lia.
  - intros ? ? ? ? ?%elem_of_nil. done.
  - intros ? ? ? ? ?%elem_of_nil. done.
  - intros ? ?%elem_of_nil. done.
  - intros ? ? ?%elem_of_nil. done.
  - intros v Hv. cbn in Hv. lia.
Qed.
