(* ===== verification/Settled.v ===== *)
(** * Settled: messages are recorded and rules are exhausted

    What a replica cannot miss: a message it has handled is recorded in its
    state for good, and after a pass of the event loop that stays in its view
    no rule of the view is still enabled. *)

From Stdlib Require Import ZArith Lia.
From stdpp Require Import prelude strings gmap.
From S2P Require Import Prelude Crypto Ledger Messages Replica Qc VoteLog Workload Validator Wiring Execute Handlers Rules Consensus Invariant Steps Moves History.
Open Scope Z_scope.

Section recorded.
Context `{Sha256, Bincode, SigScheme, FileSystem, Serde}.
Context (n : Z) (K : gmap Z verifying_key) (w : Wiring).
Abbreviation me := (my_id w).
Abbreviation q := (n - max_faults n).

(** ** Handled messages are recorded *)

Definition recorded (m : Wire) (r : ReplicaState) : Prop :=
  match m with
  | Vote t v h j sig => phase t -> leader n v = me -> j <> me ->
      (exists pk, K !! j = Some pk /\ verify_vote_sig pk t v h sig = true) ->
      is_Some (bucket t (vd_at r v) !! j)
  | PhaseQc t' v qc k => forall t, phase t -> t' = next t -> k = leader n v -> qc_for qc t v ->
      verify_qc qc q K = true -> seen t (vd_at r v) = true
  | Proposal v nd j k => k = leader n v -> justify_verifies j q K = true ->
      parent nd = justify_parent j -> is_Some (proposal (vd_at r v))
  | NewViewMsg v j k => leader n (add_u64 v 1) = me -> k <> me ->
      justify_verifies j q K = true -> is_Some (new_view_msgs (vd_at r v) !! k)
  | Hello _ _ => True
  end.

Lemma recorded_move `{HashOrder} e r es r' m : move w e r es r' -> recorded m r -> recorded m r'.
Proof.
  intros Hm Hr. destruct m; cbn in *; try done.
  - intros Hk Hj Hp. destruct (Hr Hk Hj Hp) as [x Hx].
    destruct (move_keeps w e r es r' view Hm) as (Hkp & _). eauto.
  - intros t Ht Hn Hk Hq Hv. destruct (move_keeps w e r es r' view Hm) as (_ & _ & _ & _ & Hks). eauto.
  - intros Ht Hl Hj Hp. destruct (Hr Ht Hl Hj Hp) as [y Hy]. exists y.
    eapply move_keeps_bucket; [exact Hm|done|by left].
  - intros Hl Hj Hv. destruct (Hr Hl Hj Hv) as [y Hy]. exists y.
    eapply move_keeps_new_view; [exact Hm|done|by left].
Qed.

Lemma recorded_steps `{HashOrder} e s s' m :
  0 <= view (rs s) -> rtc (prim w e (fun v => v + 1 < u64_modulus)) s s' ->
  recorded m (rs s) -> recorded m (rs s').
Proof.
  intros Hv Hr. revert Hv. induction Hr as [s|s s1 s2 Hp Hr IH]; intros Hv Hm; [done|].
  destruct (prim_move w e s s1 Hv Hp) as (es & _ & Hmv).
  destruct (move_scalars w e _ _ _ Hmv) as (_ & _ & Hvw).
  apply IH; [destruct Hvw as [->|[[_ ->]|(_ & _ & _ & ->)]]; lia|by eapply recorded_move].
Qed.

Lemma stage_qc_seen t v qc r : phase t -> seen t (vd_at (stage_qc (next t) v qc r) v) = true.
Proof.
  intros Ht. assert (vd_at (vd_mut v id r) v = vd_at r v) as Et by apply vd_at_mut_eq.
  destruct Ht as [->|[->| ->]]; cbn [next stage_qc].
  - destruct (seen_pre_commit_qc (vd_at (vd_mut v id r) v)) eqn:Es; [done|].
    change (seen Prepare (vd_at (vd_mut v (set_seen Prepare) (vd_mut v id r)) v) = true). by rewrite vd_at_mut_eq.
  - destruct (seen_commit_qc (vd_at (vd_mut v id r) v)) eqn:Es; [done|].
    change (seen PreCommit (vd_at (vd_mut v (set_seen PreCommit) (vd_mut v id r)) v) = true). by rewrite vd_at_mut_eq.
  - destruct (seen_decide_qc (vd_at (vd_mut v id r) v)) eqn:Es; [done|].
    change (seen Commit (vd_at (vd_mut v (set_seen Commit) (vd_mut v id r)) v) = true). by rewrite vd_at_mut_eq.
Qed.

Lemma insert_vacant_some {A} k (x : A) m : is_Some (insert_vacant k x m !! k).
Proof. unfold insert_vacant. destruct (m !! k) eqn:Em; [by rewrite Em|by rewrite lookup_insert_eq]. Qed.

Lemma handle_msg_recorded m s s' :
  n_replicas (rs s) = n -> quorum (rs s) = q -> handle_msg w K m s = Ok s' -> recorded m (rs s').
Proof.
  intros En Eq. assert (forall v, leader_for (rs s) v = leader n v) as El.
  { intros v. unfold leader_for, leader. by rewrite En. }
  destruct m as [|v nd j k|t' v qc k|t v h j sig|]; cbn [handle_msg recorded]; try done.
  - intros Hr -> Hj Hp. unfold handle_proposal in Hr. rewrite El, Z.eqb_refl, Eq, Hj in Hr. cbn [negb] in Hr.
    rewrite bool_decide_true in Hr by done. cbn [negb] in Hr.
    destruct (maybe_kick_core w _ 0 _ _ Hr) as [Hc _]. rewrite (vd_at_core _ _ v Hc).
    change (is_Some (proposal (vd_at (vd_mut v (fill_slot nd j) (add_node nd (rs s))) v))).
    rewrite vd_at_mut_eq. unfold fill_slot. destruct (proposal (vd_at (add_node nd (rs s)) v)) eqn:Ep; [by rewrite Ep|by eexists].
  - intros Hr t Ht -> -> [Hqt Hqv] Hv. unfold handle_phase_qc in Hr. rewrite El, Z.eqb_refl, Eq in Hr.
    assert (expected_qc_type (next t) = Some t) as Ee by (by destruct Ht as [->|[->| ->]]).
    rewrite Ee, Hqt, Hqv, bool_decide_true, Z.eqb_refl, Hv in Hr by done. injection Hr as <-.
    by apply stage_qc_seen.
  - intros Hr Ht Hl Hj (pk & Hk & Hv). unfold handle_vote, vote_accepted in Hr.
    rewrite El, Hl, Z.eqb_refl, Hk, Hv in Hr. destruct (Z.eqb_spec j me); [done|]. cbn [negb] in Hr.
    injection Hr as <-.
    change (is_Some (bucket t (vd_at (vd_mut v (record_vote t j h sig) (rs s)) v) !! j)). rewrite vd_at_mut_eq.
    destruct Ht as [->|[->| ->]]; cbn; apply insert_vacant_some.
  - intros Hr Hl Hj Hv. unfold handle_new_view in Hr. rewrite El, Hl, Z.eqb_refl, Eq, Hv in Hr. cbn [negb] in Hr.
    injection Hr as <-. change (is_Some (new_view_msgs (vd_at (vd_mut view (fun d =>
      set_new_view_msgs (insert_vacant sender justify (new_view_msgs d)) d) (rs s)) view) !! sender)).
    rewrite vd_at_mut_eq. cbn. apply insert_vacant_some.
Qed.

(** One pass of the event loop records its message and keeps the earlier ones. *)
Lemma node_step_recorded `{HashOrder} e s s' m :
  n_replicas (rs s) = n -> quorum (rs s) = q -> view (rs s) + 2 < u64_modulus ->
  started e (rs s) ->
  node_step w e s = Ok s' ->
  recorded m (rs s) \/ e = EvMsg m K -> recorded m (rs s').
Proof.
  intros En Eq Hb Hst Hr [Hm| ->].
  - apply (node_step_steps w e s s' Hb Hst) in Hr.
    eapply recorded_steps; [|exact Hr|done]. cbn. by eapply started_view.
  - apply result_bind_Ok in Hr as (s1 & E1 & E2).
    destruct (handle_event_started w (EvMsg m K) (with_effects [] s) s1 ltac:(cbn; lia) Hst E1) as (_ & H1' & Hv).
    cbn in Hv.
    apply handle_msg_recorded in E1; [|done|done].
    apply (try_advance_steps w (EvMsg m K) (fun v => v + 1 < u64_modulus)) in E2; [|lia|lia].
    eapply recorded_steps; [|exact E2|done]. lia.
Qed.
End recorded.

(** ** No rule is left enabled *)

(** The entry of the current view. *)
Definition here (s : Sys) : ViewData := vd_at (rs s) (view (rs s)).

Section settled.
Context `{Sha256, Bincode, SigScheme, FileSystem, Serde, HashOrder}.
Context (w : Wiring).

(** What an operation leaves unchanged in the current view. *)
Record same_view (s s' : Sys) : Prop := {
  sv_view : view (rs s') = view (rs s);
  sv_n : n_replicas (rs s') = n_replicas (rs s);
  sv_quorum : quorum (rs s') = quorum (rs s);
  sv_validation : validation_result (rs s') = validation_result (rs s);
  sv_proposal : proposal (here s') = proposal (here s)
}.

#[global] Instance same_view_preorder : PreOrder same_view.
Proof.
  split; [by intros s; split|]. intros s1 s2 s3 [] []. split; congruence.
Qed.

Lemma touch_here s : here (upd (vd_mut (view (rs s)) id) s) = here s.
Proof. exact (vd_at_mut_eq (rs s) (view (rs s)) id). Qed.

Lemma announce_here t qc s : here (announce w t (view (rs s)) qc s) = set_bcast t (here s).
Proof. exact (vd_at_mut_eq (rs s) (view (rs s)) (set_bcast t)). Qed.

Lemma stage_here t qc s : here (upd (stage t (view (rs s)) qc) s) = set_seen t (here s).
Proof. pose proof (vd_at_mut_eq (rs s) (view (rs s)) (set_seen t)) as Es. destruct t; exact Es. Qed.

Lemma leader_form_frame t s s' :
  leader_form w t s = Ok s' ->
  same_view s s' /\ (forall t', bucket t' (here s') = bucket t' (here s)) /\
  (forall t', voted t' (here s') = voted t' (here s)) /\
  (forall t', t' <> t -> seen t' (here s') = seen t' (here s) /\ bcast t' (here s') = bcast t' (here s) /\
     staged t' (rs s') = staged t' (rs s)).
Proof.
  unfold leader_form. cbv zeta. destruct (negb _); [by intros [= <-]|].
  pose proof (touch_here s) as Et. set (s1 := upd (vd_mut (view (rs s)) id) s) in *.
  assert (same_view s s1) as Hsv by (split; try done; by rewrite Et).
  assert (forall t', staged t' (rs s1) = staged t' (rs s)) as Hst by done.
  change (view (rs s)) with (view (rs s1)). rewrite <- Et. clearbody s1.
  assert (same_view s s1 /\ (forall t', bucket t' (here s1) = bucket t' (here s1)) /\
    (forall t', voted t' (here s1) = voted t' (here s1)) /\
    (forall t', t' <> t -> seen t' (here s1) = seen t' (here s1) /\ bcast t' (here s1) = bcast t' (here s1) /\
     staged t' (rs s1) = staged t' (rs s))) as Hstop by auto 10.
  destruct (bcast _ _); [by intros [= <-]|]. destruct (form_qc _ _ _ _) as [qc|]; [|by intros [= <-]].
  set (s2 := announce w t (view (rs s1)) qc s1).
  assert (here s2 = set_bcast t (here s1)) as E2 by apply announce_here.
  destruct (seen t _); intros [= <-].
  - split_and!; [etransitivity; [exact Hsv|]; split; try done; rewrite E2; by destruct t|..];
      rewrite ?E2; intros t'; try (by destruct t, t'); intros; split_and!; [by destruct t, t'..|exact (Hst t')].
  - assert (here (upd (stage t (view (rs s1)) qc) s2) = set_seen t (set_bcast t (here s1))) as E3.
    { rewrite <- E2. apply (stage_here t qc s2). }
    split_and!; [etransitivity; [exact Hsv|]; split; try (by destruct t); rewrite E3; by destruct t|..];
      rewrite ?E3; intros t'; try (by destruct t, t'); intros; rewrite <- Hst; split_and!; by destruct t, t'.
Qed.

Lemma leader_form_settles t s s' :
  phase t -> leader_form w t s = Ok s' -> leader_for (rs s) (view (rs s)) = my_id w ->
  bcast t (here s') = true \/ form_qc (bucket t (here s')) t (view (rs s')) (quorum (rs s')) = None.
Proof.
  intros Ht Hr Hl. destruct (leader_form_frame t s s' Hr) as ([] & Hb & _).
  rewrite Hb, sv_view0, sv_quorum0. revert Hr. unfold leader_form. cbv zeta.
  rewrite Hl, Z.eqb_refl. cbn [negb]. pose proof (touch_here s) as Et.
  set (s1 := upd (vd_mut (view (rs s)) id) s) in *.
  change (vd_at (rs s1) (view (rs s))) with (here s1). change (quorum (rs s1)) with (quorum (rs s)). rewrite Et.
  destruct (bcast t (here s)) eqn:Eb; [intros [= <-]; left; by rewrite Et|].
  destruct (form_qc _ _ _ _) as [qc|]; [|by right]. intros Hr. left.
  pose proof (announce_here t qc s1) as E2. set (s2 := announce w t (view (rs s1)) qc s1) in *.
  change (announce w t (view (rs s)) qc s1) with s2 in Hr.
  change (vd_at (rs s2) (view (rs s))) with (here s2) in Hr.
  destruct (seen t (here s2)); injection Hr as <-;
    [|change (view (rs s)) with (view (rs s2)); rewrite stage_here];
    rewrite E2; by destruct Ht as [->|[->| ->]].
Qed.

(** The two voting rules on certificates are one rule at two phases. *)
Definition prev (t : MsgType) : MsgType := match t with PreCommit => Prepare | _ => PreCommit end.

Definition adopt (t : MsgType) (qc : QC) (r : ReplicaState) : ReplicaState :=
  match t with PreCommit => set_prepare_qc (Some qc) r | _ => set_locked_qc (Some qc) r end.

Definition replica_vote (t : MsgType) (s : Sys) : result Sys :=
  let v := view (rs s) in
  let s := upd (vd_mut v id) s in
  if negb (seen (prev t) (vd_at (rs s) v)) || voted t (vd_at (rs s) v) then Ok s
  else match staged (prev t) (rs s) !! v with
  | None => Ok s
  | Some qc => Ok (mark_vote w t v (qc_node qc) (upd (adopt t qc) s))
  end.

Lemma replica_vote_rules s :
  replica_pre_commit w s = replica_vote PreCommit s /\ replica_commit w s = replica_vote Commit s.
Proof. done. Qed.

(** The current view after a vote. *)
Lemma mark_vote_here t v h s :
  v = view (rs s) ->
  exists f, here (mark_vote w t v h s) = set_voted t (f (here s)) /\
    (f = id \/ f = set_own_vote t (my_id w) h (sign_vote (w_sk w) t v h)) /\
    (forall t', staged t' (rs (mark_vote w t v h s)) = staged t' (rs s)) /\
    view (rs (mark_vote w t v h s)) = view (rs s) /\
    n_replicas (rs (mark_vote w t v h s)) = n_replicas (rs s) /\
    quorum (rs (mark_vote w t v h s)) = quorum (rs s) /\
    validation_result (rs (mark_vote w t v h s)) = validation_result (rs s).
Proof.
  intros ->. unfold mark_vote, cast_vote. cbv zeta. destruct (_ =? my_id w).
  - eexists. split; [|split_and!; [right; reflexivity|done..]].
    unfold here. cbn [upd with_rs emit rs]. rewrite vd_mut_twice.
    exact (vd_at_mut_eq (rs s) (view (rs s)) _).
  - exists id. split; [|split_and!; [by left|done..]].
    exact (vd_at_mut_eq (rs s) (view (rs s)) (set_voted t)).
Qed.

Lemma replica_vote_frame t s s' :
  t = PreCommit \/ t = Commit -> replica_vote t s = Ok s' ->
  same_view s s' /\
  (forall t', t' <> t -> bucket t' (here s') = bucket t' (here s) /\ voted t' (here s') = voted t' (here s)) /\
  (forall t', seen t' (here s') = seen t' (here s) /\ bcast t' (here s') = bcast t' (here s) /\
     staged t' (rs s') = staged t' (rs s)) /\
  (seen (prev t) (here s) = true -> is_Some (staged (prev t) (rs s) !! view (rs s)) ->
     voted t (here s') = true).
Proof.
  intros Ht. unfold replica_vote. cbv zeta. pose proof (touch_here s) as Et.
  set (s1 := upd (vd_mut (view (rs s)) id) s) in *.
  assert (same_view s s1) as Hsv by (split; try done; by rewrite Et).
  assert (forall t', staged t' (rs s1) = staged t' (rs s)) as Hst by done.
  change (vd_at (rs s1) (view (rs s))) with (here s1). rewrite Et.
  destruct (seen (prev t) (here s)) eqn:Esn; cbn [negb orb];
    [|intros [= <-]; rewrite ?Et; split_and!; try done; intros; by rewrite ?Et].
  destruct (voted t (here s)) eqn:Evt;
    [intros [= <-]; rewrite ?Et; split_and!; try done; intros; by rewrite ?Et|].
  destruct (staged (prev t) (rs s1) !! view (rs s)) as [qc|] eqn:Eq;
    [|intros [= <-]; rewrite ?Et; split_and!; try done; intros; rewrite ?Et; try done;
      rewrite Hst in Eq; rewrite Eq in *; by destruct H6].
  set (s2 := upd (adopt t qc) s1). intros [= <-].
  assert (here s2 = here s) as E2 by (rewrite <- Et; by destruct Ht as [->| ->]).
  assert (view (rs s2) = view (rs s)) as Ev by (by destruct Ht as [->| ->]).
  destruct (mark_vote_here t (view (rs s)) (qc_node qc) s2 ltac:(done)) as
    (f & Eh & Hf & Est & Evw & En & Eqm & Evr).
  set (s3 := mark_vote w t (view (rs s)) (qc_node qc) s2) in *. clearbody s3. rewrite E2 in Eh.
  split_and!.
  - split; [by rewrite Evw|rewrite En; by destruct Ht as [->| ->]|rewrite Eqm; by destruct Ht as [->| ->]
      |rewrite Evr; by destruct Ht as [->| ->]|].
    rewrite Eh. destruct Hf as [->| ->], Ht as [->| ->]; done.
  - intros t' Hne. rewrite Eh. destruct Hf as [->| ->], Ht as [->| ->], t'; done.
  - intros t'. rewrite Eh, Est. destruct Hf as [->| ->], Ht as [->| ->], t'; done.
  - intros _ _. rewrite Eh. destruct Hf as [->| ->], Ht as [->| ->]; done.
Qed.

Lemma replica_prepare_settles s s' :
  replica_prepare w s = Ok s' ->
  same_view s s' /\
  forall leaf high, proposal (here s') = Some (leaf, high) ->
    is_Some (validation_result (rs s') !! node_hash leaf) -> voted Prepare (here s') = true.
Proof.
  unfold replica_prepare.
  destruct (match vd (rs s) (view (rs s)) with Some _ => _ | None => _ end) as [[leaf high]|] eqn:Ep; cycle 1.
  { intros [= <-]. split; [done|]. intros leaf high Hp. unfold here, vd_at in Hp.
    destruct (vd (rs s) (view (rs s))); cbn in *; congruence. }
  assert (proposal (here s) = Some (leaf, high)) as Ep'.
  { unfold here, vd_at. by destruct (vd (rs s) (view (rs s))). }
  clear Ep. cbv zeta. pose proof (touch_here s) as Et. set (s1 := upd (vd_mut (view (rs s)) id) s) in *.
  assert (same_view s s1) as Hsv by (split; try done; by rewrite Et).
  change (vd_at (rs s1) (view (rs s))) with (here s1).
  change (view (rs s)) with (view (rs s1)). rewrite <- Et in Ep'. clearbody s1.
  destruct (voted_prepare (here s1)) eqn:Evt; [intros [= <-]; split; [done|by intros]|].
  assert (here (upd (vd_mut (view (rs s1)) (set_voted Prepare)) s1) = set_voted Prepare (here s1)) as Eskip.
  { exact (vd_at_mut_eq (rs s1) (view (rs s1)) (set_voted Prepare)). }
  assert (same_view s (upd (vd_mut (view (rs s1)) (set_voted Prepare)) s1) /\ forall leaf high,
    proposal (here (upd (vd_mut (view (rs s1)) (set_voted Prepare)) s1)) = Some (leaf, high) ->
    is_Some (validation_result (rs (upd (vd_mut (view (rs s1)) (set_voted Prepare)) s1)) !! node_hash leaf) ->
    voted Prepare (here (upd (vd_mut (view (rs s1)) (set_voted Prepare)) s1)) = true) as Hskip.
  { split; [etransitivity; [exact Hsv|]; split; try done|]; rewrite Eskip; done. }
  destruct (validation_result (rs s1) !! node_hash leaf) as [[]|] eqn:Eval;
    [|intros [= <-]; exact Hskip|intros [= <-]; split; [done|]].
  - destruct (safe_node _ _ _ _); cbn [negb]; intros [= <-]; [|exact Hskip].
    destruct (mark_vote_here Prepare (view (rs s1)) (node_hash leaf) s1 eq_refl) as
      (f & Eh & Hf & Est & Evw & En & Eqm & Evr).
    change (upd (vd_mut (view (rs s1)) (set_voted_prepare true)) (cast_vote w Prepare (view (rs s1)) (node_hash leaf) s1))
      with (mark_vote w Prepare (view (rs s1)) (node_hash leaf) s1).
    split.
    + etransitivity; [exact Hsv|]. split; try done. rewrite Eh. by destruct Hf as [->| ->].
    + intros ? ? _ _. rewrite Eh. by destruct Hf as [->| ->].
  - intros leaf' high' Hp [b Hb]. rewrite Ep' in Hp. injection Hp as <- <-. congruence.
Qed.

(** Executing and validating do not touch the rules. *)
Lemma here_core s s' :
  core (rs s') = core (rs s) -> validation_result (rs s') = validation_result (rs s) ->
  same_view s s' /\ here s' = here s /\ forall t, staged t (rs s') = staged t (rs s).
Proof.
  intros Hc Hv. assert (here s' = here s) as Eh.
  { unfold here. rewrite (vd_at_core _ _ _ Hc). unfold core in Hc. congruence. }
  split_and!; [|done|].
  - unfold core in Hc. split; try congruence.
  - intros []; unfold core in Hc; cbn; congruence.
Qed.

Lemma try_kick_frame s s' :
  try_kick_pending_validations w s = Ok s' ->
  core (rs s') = core (rs s) /\ validation_result (rs s') = validation_result (rs s).
Proof.
  intros Hr. split; [by destruct (try_kick_core w 0 s s' Hr)|]. revert Hr.
  unfold try_kick_pending_validations. generalize (hash_iter (tree (rs s))).*1. intros l.
  revert s. induction l as [|h l IH]; intros s; simpl; [by intros [= <-]|].
  destruct (pending_validation (rs s)); [by intros [= <-]|].
  intros (s1 & E1 & E2)%result_bind_Ok. rewrite (IH _ E2). by destruct (kick_noise w _ _ _ E1) as (? & _ & _ & ->).
Qed.

Lemma retry_frame s s' :
  retry_pending_execute w s = Ok s' ->
  core (rs s') = core (rs s) /\ validation_result (rs s') = validation_result (rs s).
Proof.
  intros Hr. split; [by destruct (retry_pending_execute_core w 0 s s' Hr)|].
  eapply (result_fold_preserves (fun x => validation_result (rs x) = validation_result (rs s))); [|done|exact Hr].
  intros h s1 s2 _ E1 E2. rewrite <- E1. by destruct (execute_noise w _ _ _ E2) as (? & _ & _ & ->).
Qed.

(** The leader can propose: it holds a quorum of NEW-VIEW messages, knows the
    node it has to extend, and the workload has a block for the next height. *)
Definition proposal_due (r : ReplicaState) : Prop :=
  quorum r <= Z.of_nat (size (new_view_msgs (vd_at r (saturating_sub_u64 (view r) 1)))) /\
  match choose_high_qc r (saturating_sub_u64 (view r) 1) with
  | Some q => exists p, tree r !! qc_node q = Some p /\
      add_u64 (height p) 1 < num_blocks (workload_manifest (w_workload w))
  | None => 0 < num_blocks (workload_manifest (w_workload w))
  end.

Lemma proposal_due_ext r r' :
  quorum r' = quorum r -> view r' = view r -> tree r' = tree r ->
  (forall v, new_view_msgs (vd_at r' v) = new_view_msgs (vd_at r v)) -> proposal_due r' -> proposal_due r.
Proof. intros Eq Ev Et En. unfold proposal_due, choose_high_qc. by rewrite Eq, Ev, Et, En. Qed.

Lemma leader_prepare_proposes s s' :
  1 <= quorum (rs s) -> leader_prepare w s = Ok s' -> leader_for (rs s') (view (rs s')) = my_id w ->
  broadcast_proposal (here s') = true \/ ~ proposal_due (rs s').
Proof.
  intros Hq1 Hr Hl'. revert Hr. unfold leader_prepare. cbv zeta.
  destruct (Z.eqb_spec (leader_for (rs s) (view (rs s))) (my_id w)) as [Hl|Hl]; cbn [negb]; [|by intros [= <-]].
  set (s1 := upd (vd_mut (view (rs s)) id) s).
  change (view (rs s)) with (view (rs s1)). change (quorum (rs s)) with (quorum (rs s1)) in Hq1. clearbody s1. clear s Hl.
  destruct (broadcast_proposal _) eqn:Eb; [intros [= <-]; by left|].
  destruct (_ <? quorum (rs s1)) eqn:Hq; [intros [= <-]; right; intros [Hd _]|].
  { apply Z.ltb_lt in Hq. unfold vd_at in Hd. destruct (vd (rs s1) _); cbn [default id] in Hd; [lia|].
    change (new_view_msgs _) with (∅ : gmap Z (option QC)) in Hd. rewrite map_size_empty in Hd. lia. }
  intros (d & Hd%expect_Ok & Hr)%result_bind_Ok. revert Hr. set (high := choose_high_qc _ _).
  destruct (match high with Some _ => _ | None => _ end) as [nh|] eqn:Eh; cycle 1.
  { intros [= <-]. right. intros [_ Hd']. fold high in Hd'. destruct high as [q'|]; [|done].
    destruct Hd' as (p & Ep & _). by rewrite Ep in Eh. }
  destruct (Z.leb_spec (num_blocks (workload_manifest (w_workload w))) nh) as [Hnb|Hnb].
  { intros [= <-]. right. intros [_ Hd']. fold high in Hd'. destruct high as [q'|]; simplify_eq; [|lia].
    destruct Hd' as (p & Ep & Hlt). rewrite Ep in Eh. simplify_eq. lia. }
  intros (b & Hb & Hk)%result_bind_Ok. left. destruct (maybe_kick_core w _ 0 _ _ Hk) as [Hc _].
  unfold here. rewrite (vd_at_core _ _ _ Hc). rewrite (kick_view w _ _ _ Hk).
  match goal with |- context [upd (vd_mut ?v ?f) ?x] => change (broadcast_proposal (vd_at (vd_mut v f (rs x)) v) = true) end.
  by rewrite vd_at_mut_eq.
Qed.

(** Steps that handle nothing keep it so. *)
Abbreviation idle := (EvTimer (mkTimerEvent (-1))).

Lemma proposal_due_vote r t h r0 f :
  vote_guard r t h r0 -> (forall d, new_view_msgs (f d) = new_view_msgs d) ->
  proposal_due (vd_mut (view r) f r0) -> proposal_due r.
Proof.
  intros Hg Hf. apply proposal_due_ext; [by destruct Hg..|].
  intros v. rewrite vd_at_mut, (vd_at_guard _ _ _ _ _ Hg). case_decide; [subst; apply Hf|by rewrite (vd_at_guard _ _ _ _ _ Hg)].
Qed.

(** The move leaves the view. *)
Ltac left_view := match goal with
  | Hv : view _ = view _, He : enters _ _ _ |- _ => cbn in Hv; destruct He as [[_ ->]|(? & _)]; [lia|done]
  end.

Lemma idle_move r es r' :
  move w idle r es r' -> view r' = view r ->
  broadcast_proposal (vd_at r (view r)) = true \/ ~ proposal_due r ->
  broadcast_proposal (vd_at r' (view r')) = true \/ ~ proposal_due r'.
Proof.
  intros Hm Hv [Hb|Hd]; [left; rewrite Hv; destruct (move_keeps w idle r es r' (view r) Hm) as (_ & Hk & _); auto|].
  destruct Hm; try done.
  - right. intros Hd'. apply Hd. unfold core in *.
    assert (view_data r' = view_data r) by congruence.
    eapply proposal_due_ext; [..|exact Hd']; try congruence. intros v. unfold vd_at, vd. congruence.
  - right. intros Hd'. apply Hd. eapply proposal_due_ext; [..|exact Hd']; try done.
    intros v0. rewrite vd_at_mut. by case_decide; subst.
  - left. rewrite Hv, vd_at_mut_eq. done.
  - right. intros Hd'. apply Hd. eapply proposal_due_ext; [..|exact Hd']; try done.
    intros v0. rewrite vd_at_mut. by case_decide; subst.
  - right. intros Hd'. apply Hd. eapply proposal_due_vote; [eassumption| |exact Hd']. intros d. by destruct t.
  - right. intros Hd'. apply Hd. eapply proposal_due_vote; [eassumption| |exact Hd']. intros d. by destruct t.
  - right. intros Hd'. apply Hd. eapply proposal_due_ext; [..|exact Hd']; try done.
    intros v0. rewrite vd_at_mut. case_decide; [subst|done]. by destruct t.
  - right. intros Hd'. apply Hd. match goal with Ht : phase _ |- _ => destruct Ht as [->|[->| ->]] end; (eapply proposal_due_ext; [..|exact Hd']); try done;
      intros v0; rewrite vd_at_set_staged, vd_at_mut; by case_decide; subst.
  - right. intros Hd'. apply Hd. exact Hd'.
  - left_view.
  - left_view.
Qed.

Lemma later_rules_keep s s' :
  0 <= view (rs s) -> view (rs s) + 1 < u64_modulus -> later_rules w s = Ok s' -> view (rs s') = view (rs s) ->
  broadcast_proposal (here s) = true \/ ~ proposal_due (rs s) ->
  broadcast_proposal (here s') = true \/ ~ proposal_due (rs s').
Proof.
  intros Hv Hb Hr. apply (later_rules_steps w idle (fun v => v + 1 < u64_modulus)) in Hr; [|done].
  revert Hv. clear Hb. induction Hr as [s|s s1 s2 Hp Hr IH]; intros Hv Ev; [done|].
  destruct (prim_move w idle s s1 Hv Hp) as (es & _ & Hm).
  destruct (move_scalars w idle _ _ _ Hm) as (_ & _ & Hvw).
  assert (view (rs s) <= view (rs s1)) as Hle by (destruct Hvw as [->|[[_ ->]|(? & _)]]; [lia|lia|done]).
  pose proof (steps_views w idle s1 s2 ltac:(lia) Hr).
  intros Hd. apply IH; [lia|lia|]. eapply idle_move; [exact Hm|lia|exact Hd].
Qed.

(** A rule pass that stays in its view leaves no rule of the view enabled:
    every proposal with a verdict is answered, every certificate is acted on,
    and the leader has announced every quorum it holds. *)
Record settled (s : Sys) : Prop := {
  st_prepare : forall leaf high, proposal (here s) = Some (leaf, high) ->
    is_Some (validation_result (rs s) !! node_hash leaf) -> voted Prepare (here s) = true;
  st_vote : forall t, t = PreCommit \/ t = Commit -> seen (prev t) (here s) = true ->
    is_Some (staged (prev t) (rs s) !! view (rs s)) -> voted t (here s) = true;
  st_form : forall t, phase t -> leader_for (rs s) (view (rs s)) = my_id w ->
    bcast t (here s) = true \/ form_qc (bucket t (here s)) t (view (rs s)) (quorum (rs s)) = None;
  st_decide : seen Commit (here s) = true -> staged Commit (rs s) !! view (rs s) = None;
  st_propose : leader_for (rs s) (view (rs s)) = my_id w ->
    broadcast_proposal (here s) = true \/ ~ proposal_due (rs s)
}.

Lemma replica_decide_settles s s' :
  0 <= view (rs s) -> view (rs s) + 1 < u64_modulus -> replica_decide w s = Ok s' ->
  view (rs s') = view (rs s) ->
  same_view s s' /\ here s' = here s /\ (forall t, staged t (rs s') = staged t (rs s)) /\
  (seen Commit (here s) = true -> staged Commit (rs s) !! view (rs s) = None).
Proof.
  intros H0' Hb. unfold replica_decide. cbv zeta. pose proof (touch_here s) as Et.
  set (s1 := upd (vd_mut (view (rs s)) id) s) in *.
  assert (same_view s s1) as Hsv by (split; try done; by rewrite Et).
  change (vd_at (rs s1) (view (rs s))) with (here s1). rewrite Et.
  change (seen_decide_qc (here s)) with (seen Commit (here s)).
  destruct (seen Commit (here s)); cbn [negb]; [|intros [= <-] _; by split_and!].
  destruct (staged_decide_qc (rs s1) !! view (rs s)) as [qc|] eqn:Eq; [|intros [= <-] _; split_and!; done].
  intros (s2 & _ & [= <-])%result_bind_Ok Hv. rewrite enter_new_view_view, add_u64_small in Hv by lia. lia.
Qed.

Lemma same_view_leader s s' :
  same_view s s' -> leader_for (rs s') (view (rs s')) = leader_for (rs s) (view (rs s)).
Proof. intros []. unfold leader_for. by rewrite sv_view0, sv_n0. Qed.

(** The seven rules before the decision, in their order. *)
Definition vote_rules (s : Sys) : result Sys :=
  let! s := replica_prepare w s in
  let! s := leader_form w Prepare s in
  let! s := replica_vote PreCommit s in
  let! s := leader_form w PreCommit s in
  let! s := replica_vote Commit s in
  leader_form w Commit s.

Lemma vote_rules_settle s s' :
  vote_rules s = Ok s' ->
  same_view s s' /\
  (forall leaf high, proposal (here s') = Some (leaf, high) ->
     is_Some (validation_result (rs s') !! node_hash leaf) -> voted Prepare (here s') = true) /\
  (forall t, t = PreCommit \/ t = Commit -> seen (prev t) (here s') = true ->
     is_Some (staged (prev t) (rs s') !! view (rs s')) -> voted t (here s') = true) /\
  (forall t, phase t -> leader_for (rs s') (view (rs s')) = my_id w ->
     bcast t (here s') = true \/ form_qc (bucket t (here s')) t (view (rs s')) (quorum (rs s')) = None).
Proof.
  intros (s2 & E2 & Hr)%result_bind_Ok.
  apply result_bind_Ok in Hr as (s3 & E3 & Hr). apply result_bind_Ok in Hr as (s4 & E4 & Hr).
  apply result_bind_Ok in Hr as (s5 & E5 & Hr). apply result_bind_Ok in Hr as (s6 & E6 & E7).
  destruct (replica_prepare_settles _ _ E2) as [V2 P2].
  destruct (leader_form_frame Prepare _ _ E3) as (V3 & B3 & W3 & F3).
  pose proof (leader_form_settles Prepare _ _ ltac:(by left) E3) as S3.
  destruct (replica_vote_frame PreCommit _ _ ltac:(by left) E4) as (V4 & B4 & F4 & S4).
  destruct (leader_form_frame PreCommit _ _ E5) as (V5 & B5 & W5 & F5).
  pose proof (leader_form_settles PreCommit _ _ ltac:(by right; left) E5) as S5.
  destruct (replica_vote_frame Commit _ _ ltac:(by right) E6) as (V6 & B6 & F6 & S6).
  destruct (leader_form_frame Commit _ _ E7) as (V7 & B7 & W7 & F7).
  pose proof (leader_form_settles Commit _ _ ltac:(by right; right) E7) as S7.
  assert (same_view s5 s') as V57 by (by transitivity s6).
  assert (same_view s3 s') as V37 by (transitivity s4; [done|]; by transitivity s5).
  assert (same_view s2 s') as V27 by (by transitivity s3).
  split_and!.
  - by transitivity s2.
  - destruct V27. rewrite sv_proposal0, sv_validation0, W7.
    destruct (B6 Prepare) as [_ ->]; [done|]. rewrite W5. destruct (B4 Prepare) as [_ ->]; [done|]. by rewrite W3.
  - intros t [->| ->]; cbn [prev].
    + destruct (F7 Prepare) as (-> & _ & ->); [done|]. destruct (F6 Prepare) as (-> & _ & ->).
      destruct (F5 Prepare) as (-> & _ & ->); [done|]. destruct (F4 Prepare) as (-> & _ & ->).
      rewrite W7. destruct (B6 PreCommit) as [_ ->]; [done|]. rewrite W5, (sv_view _ _ V37). exact S4.
    + destruct (F7 PreCommit) as (-> & _ & ->); [done|]. destruct (F6 PreCommit) as (-> & _ & ->).
      rewrite W7, (sv_view _ _ V57). exact S6.
  - intros t Ht Hl.
    rewrite (same_view_leader _ _ V7) in Hl. rewrite (same_view_leader _ _ V6) in Hl.
    specialize (S7 ltac:(by rewrite (same_view_leader _ _ V6))).
    rewrite (same_view_leader _ _ V5) in Hl. specialize (S5 ltac:(by rewrite (same_view_leader _ _ V4), <- (same_view_leader _ _ V4))).
    rewrite (same_view_leader _ _ V4), (same_view_leader _ _ V3) in Hl. specialize (S3 Hl).
    destruct Ht as [->|[->| ->]]; [| |exact S7].
    + rewrite (sv_view _ _ V37), (sv_quorum _ _ V37). destruct (F7 Prepare) as (_ & -> & _); [done|].
      destruct (F6 Prepare) as (_ & -> & _). destruct (F5 Prepare) as (_ & -> & _); [done|].
      destruct (F4 Prepare) as (_ & -> & _). rewrite B7. destruct (B6 Prepare) as [-> _]; [done|].
      rewrite B5. destruct (B4 Prepare) as [-> _]; [done|]. exact S3.
    + rewrite (sv_view _ _ V57), (sv_quorum _ _ V57). destruct (F7 PreCommit) as (_ & -> & _); [done|].
      destruct (F6 PreCommit) as (_ & -> & _). rewrite B7. destruct (B6 PreCommit) as [-> _]; [done|]. exact S5.
Qed.

Lemma propose_core s s' :
  core (rs s') = core (rs s) -> broadcast_proposal (here s) = true \/ ~ proposal_due (rs s) ->
  broadcast_proposal (here s') = true \/ ~ proposal_due (rs s').
Proof.
  intros Hc. assert (view_data (rs s') = view_data (rs s)) as Ed by (unfold core in Hc; congruence).
  assert (forall v, vd_at (rs s') v = vd_at (rs s) v) as Ev by (intros v; by apply vd_at_core).
  unfold core in Hc. unfold here. rewrite Ev. replace (view (rs s')) with (view (rs s)) by congruence.
  intros [?|Hd]; [by left|right]. intros Hd'. apply Hd.
  eapply proposal_due_ext; [..|exact Hd']; congruence.
Qed.

Lemma settled_core s s' :
  core (rs s') = core (rs s) -> validation_result (rs s') = validation_result (rs s) -> settled s -> settled s'.
Proof.
  intros Hc Hv []. destruct (here_core s s' Hc Hv) as (V & Eh & Est).
  split; rewrite ?Eh, ?Hv, ?(same_view_leader _ _ V), ?(sv_view _ _ V), ?(sv_quorum _ _ V), ?Est; try done.
  - intros t. rewrite Est. apply st_vote0.
  - intros Hl. pose proof (propose_core s s' Hc (st_propose0 Hl)) as Hp. by rewrite Eh in Hp.
Qed.

Lemma try_advance_settles s s' :
  1 <= quorum (rs s) -> 0 <= view (rs s) -> view (rs s) + 1 < u64_modulus ->
  try_advance w s = Ok s' -> view (rs s') = view (rs s) -> settled s'.
Proof.
  intros Hq H0' Hbd (s1 & E1 & Hr)%result_bind_Ok Hview. pose proof (leader_prepare_view w _ _ E1) as Hv1.
  assert (leader_for (rs s1) (view (rs s1)) = my_id w ->
    broadcast_proposal (here s') = true \/ ~ proposal_due (rs s')) as Hprop.
  { intros Hl. eapply later_rules_keep; [..|exact Hr| |by eapply leader_prepare_proposes]; lia. }
  revert Hview Hprop. fold (later_rules w s1) in Hr. apply result_bind_Ok in Hr as (s2 & E2 & Hr).
  apply result_bind_Ok in Hr as (s3 & E3 & Hr). apply result_bind_Ok in Hr as (s4 & E4 & Hr).
  apply result_bind_Ok in Hr as (s5 & E5 & Hr). apply result_bind_Ok in Hr as (s6 & E6 & Hr).
  apply result_bind_Ok in Hr as (s7 & E7 & Hr). apply result_bind_Ok in Hr as (s8 & E8 & Hr).
  apply result_bind_Ok in Hr as (s9 & E9 & E10). intros Hview Hprop.
  apply leader_prepare_view in E1.
  assert (vote_rules s1 = Ok s7) as Hvr.
  { unfold vote_rules. rewrite E2. cbn. change (leader_form w Prepare s2) with (leader_pre_commit w s2).
    rewrite E3. cbn. change (replica_vote PreCommit s3) with (replica_pre_commit w s3). rewrite E4. cbn.
    change (leader_form w PreCommit s4) with (leader_commit w s4). rewrite E5. cbn.
    change (replica_vote Commit s5) with (replica_commit w s5). by rewrite E6. }
  destruct (vote_rules_settle _ _ Hvr) as (V & P7 & S7 & L7).
  destruct (retry_frame _ _ E9) as [C9 W9]. destruct (try_kick_frame _ _ E10) as [C10 W10].
  eapply settled_core; [exact C10|exact W10|]. eapply settled_core; [exact C9|exact W9|].
  assert (view (rs s7) = view (rs s)) as Hv7 by (rewrite (sv_view _ _ V); done).
  assert (view (rs s8) = view (rs s7)) as Hv8.
  { unfold core in C9, C10. congruence. }
  destruct (replica_decide_settles s7 s8) as (V8 & Eh & Est & Hd); [lia|lia|done|done|].
  destruct V8. split; rewrite ?Eh, ?sv_view0, ?sv_quorum0, ?sv_validation0; try done.
  - intros t. rewrite Est. apply S7.
  - intros t Ht Hl. apply L7; [done|]. revert Hl. unfold leader_for. by rewrite sv_n0.
  - by rewrite Est.
  - intros Hl. rewrite <- Eh. apply (propose_core s'); [congruence|]. apply Hprop. rewrite <- Hl.
    unfold leader_for. rewrite sv_n0, (sv_n _ _ V). by rewrite (sv_view _ _ V).
Qed.

(** The rules of the view were evaluated after it was entered: the pass did
    not end with a decision. *)
Definition evaluated (e : Event) (s s' : Sys) : bool :=
  match handle_event w e (with_effects [] s) with
  | Ok s1 => view (rs s') =? view (rs s1)
  | Panic _ => false
  end.

Lemma steps_quorum e s s' :
  0 <= view (rs s) -> rtc (prim w e (fun v => v + 1 < u64_modulus)) s s' -> quorum (rs s') = quorum (rs s).
Proof.
  intros Hv Hr. revert Hv. induction Hr as [s|s s1 s2 Hp Hr IH]; intros Hv; [done|].
  destruct (prim_move w e s s1 Hv Hp) as (es & _ & Hm).
  destruct (move_scalars w e _ _ _ Hm) as (_ & <- & Hvw).
  apply IH. destruct Hvw as [->|[[_ ->]|(_ & _ & _ & ->)]]; lia.
Qed.

Lemma node_step_settles e s s' :
  1 <= quorum (rs s) -> view (rs s) + 2 < u64_modulus ->
  started e (rs s) ->
  node_step w e s = Ok s' -> evaluated e s s' = true -> settled s'.
Proof.
  intros Hq Hb Hst (s1 & E1 & E2)%result_bind_Ok Hv. unfold evaluated in Hv. rewrite E1 in Hv. apply Z.eqb_eq in Hv.
  destruct (handle_event_started w e (with_effects [] s) s1 ltac:(cbn; lia) Hst E1) as (Hs & H1' & Hv1). cbn in Hv1.
  apply steps_quorum in Hs; [|by eapply started_view]. cbn in Hs.
  eapply try_advance_settles; [| | |exact E2|done]; lia.
Qed.
End settled.
