(* ===== verification/Safety.v ===== *)
(** * Safety: replicas running together

    A world is the state of every correct replica, the log of the ballots
    signed so far and the nodes proposed so far.  One step is one pass of one replica's event loop, on any
    message whose signatures are not forged, any timer or any validation
    outcome: messages may be lost, repeated, reordered or made up by faulty
    replicas.  The reachable logs refine the specification of VoteLog, hence
    committed nodes never conflict. *)

From Stdlib Require Import ZArith Lia.
From stdpp Require Import prelude strings gmap.
From S2P Require Import Prelude Crypto Ledger Messages Replica Qc VoteLog Workload Validator Wiring Execute Handlers Rules Consensus Process Invariant.
Open Scope Z_scope.

(** [offers]: the nodes that correct replicas received or made proposals for. *)
Record World : Type := mkWorld { nodes : gmap Z Sys; votes : list Ballot; offers : list Node }.

Abbreviation offered W := (fun nd : Node => nd ∈ offers W).

Section world.
Context `{Sha256, Bincode, SigScheme, FileSystem, Serde}.
(** The system: [n] replicas, the faulty ones, and the configuration of each
    correct one. *)
Context (n : Z) (byz : gset Z) (wiring : Z -> Wiring).

Definition key_of (i : Z) : verifying_key := verifying_key_of (w_sk (wiring i)).

(** Every correct replica starts from [ReplicaState::new]. *)
Definition initial (W : World) : Prop :=
  votes W = [] /\ offers W = [] /\
  forall i s, nodes W !! i = Some s ->
    0 <= i < n /\ (i ∉ byz) /\ effects s = [] /\ exists t, rs s = new_replica n t.

(** [main] runs [start_protocol] once, before the event loop.  Views stay
    below the wrap-around of u64. *)
Definition event_allowed (r : ReplicaState) (e : Event) : Prop :=
  view r + 2 < u64_modulus /\
  match e with EvStart => view r = 0 | _ => 1 <= view r end.

Inductive world_step (W W' : World) : Prop :=
  | step_node (o : HashOrder) (i : Z) (s s' : Sys) (e : Event) :
      nodes W !! i = Some s ->
      event_allowed (rs s) e ->
      event_ok n byz key_of i (votes W) e ->
      node_step (wiring i) e s = Ok s' ->
      W' = mkWorld (<[i := s']> (nodes W)) (ballots_of i (effects s') ++ votes W)
             (event_proposals e ++ proposals (effects s') ++ offers W) ->
      world_step W W'.

Definition reachable (W : World) : Prop := exists W0, initial W0 /\ rtc world_step W0 W.

(** ** The invariant of the world *)

Record world_ok (W : World) : Prop := {
  w_log : honest_log n byz (offered W) (votes W);
  w_node : forall i s, nodes W !! i = Some s ->
    0 <= i < n /\ (i ∉ byz) /\ inv n byz (offered W) i (votes W) (view (rs s)) (with_effects [] s);
  w_voters : forall b, b ∈ votes W -> is_Some (nodes W !! b_voter b)
}.

Section assumptions.
Hypothesis n_range : 1 <= n < u32_modulus.
Hypothesis ids : forall i, my_id (wiring i) = i.

Lemma new_replica_inv K i t s :
  rs s = new_replica n t -> inv n byz K i [] (view (rs s)) (with_effects [] s).
Proof.
  intros E. split; cbn [with_effects log_of ballots_of effects rs omap app]; rewrite ?E.
  - constructor.
  - split; [done|by apply new_replica_quorum|..].
    + apply map_Forall_empty.
    + intros nd [h Hh]. cbn in Hh. by rewrite lookup_empty in Hh.
    + done.
    + by intros ?.
    + intros v q. cbn. by rewrite lookup_empty.
    + intros v q. cbn. by rewrite lookup_empty.
    + intros v q. cbn. by rewrite lookup_empty.
    + intros h Hh. cbn in Hh. set_solver.
    + intros v. assert (vd_at (new_replica n t) v = default_view_data) as -> by done.
      split; [|done|]; intros *; [destruct t0|]; cbn; by rewrite lookup_empty.
  - intros c Hc. by apply elem_of_nil in Hc.
  - cbn. lia.
Qed.

Lemma initial_ok W : initial W -> world_ok W.
Proof.
  intros (Hv & _ & Hn). split; rewrite ?Hv; [constructor| |].
  - intros i s E. destruct (Hn i s E) as (? & ? & _ & t & Er).
    split_and!; [lia|lia|done|by eapply new_replica_inv].
  - intros b Hb. by apply elem_of_nil in Hb.
Qed.

(** The ballots of another replica do not concern this one. *)
Lemma inv_other K i j L L' B s :
  inv n byz K i L B (with_effects [] s) -> honest_log n byz K (L' ++ L) ->
  (forall b, b ∈ L' -> b_voter b = j) -> i <> j ->
  inv n byz K i (L' ++ L) B (with_effects [] s).
Proof.
  intros [Hl Hf Ho Hv] Hl' Hj Hne. split; [done| |..|done].
  - eapply facts_mono; [|exact Hf]. intros b Hb. change (b ∈ L' ++ L). apply elem_of_app. by right.
  - intros c Hc Hci. change (c ∈ L' ++ L) in Hc. apply elem_of_app in Hc as [Hc|Hc]; [|by apply Ho].
    rewrite (Hj c Hc) in Hci. by subst.
Qed.

Lemma ballots_of_voter i es b : b ∈ ballots_of i es -> b_voter b = i.
Proof. intros (e & _ & He)%list_elem_of_omap. destruct e; simpl in He; by simplify_eq. Qed.

Lemma world_step_ok W W' : world_ok W -> world_step W W' -> world_ok W'.
Proof.
  intros [Hl Hn Hvt] [o i s s' e Hi [Hv Ha] He Hs ->].
  destruct (Hn i s Hi) as (Hir & Hib & Hinv).
  set (K := fun nd => nd ∈ event_proposals e ++ proposals (effects s') ++ offers W).
  assert (forall nd, offered W nd -> K nd) as HK by (intros nd Hnd; unfold K; rewrite !elem_of_app; auto).
  assert (Forall K (event_proposals e ++ proposals (effects s'))) as Hnew.
  { apply Forall_forall. intros nd Hnd. unfold K. rewrite app_assoc. apply elem_of_app. by left. }
  apply (inv_known _ _ _ K _ _ _ _ HK) in Hinv.
  pose proof (node_step_inv n byz key_of K i (wiring i) (ids i) Hir (votes W) e s s'
    n_range Hv ltac:(by intros ->) Hinv He Hnew Hs) as [Hl' Hf' Ho' Hv'].
  split; cbn [nodes votes offers].
  - exact Hl'.
  - intros j sj. destruct (decide (i = j)) as [<-|Hne].
    + rewrite lookup_insert_eq. intros [= <-]. split_and!; [lia|lia|done|].
      split; [exact Hl'|exact Hf'|exact Ho'|cbn; lia].
    + rewrite lookup_insert_ne by done. intros E. destruct (Hn j sj E) as (? & ? & Hj).
      split_and!; [lia|lia|done|].
      eapply inv_other; [by eapply inv_known|exact Hl'|apply ballots_of_voter|done].
  - intros b [Hb%ballots_of_voter|Hb]%elem_of_app.
    + rewrite Hb, lookup_insert_eq. by eexists.
    + destruct (decide (i = b_voter b)) as [->|Hne]; [rewrite lookup_insert_eq; by eexists|].
      rewrite lookup_insert_ne by done. by apply Hvt.
Qed.

Lemma reachable_ok W : reachable W -> world_ok W.
Proof.
  intros (W0 & H0' & Hr). apply initial_ok in H0'. induction Hr; eauto using world_step_ok.
Qed.

(** C4: the event loops of the correct replicas, run together in any order and
    on any unforged messages, only ever sign ballots that the abstract voting
    rules of HotStuff allow: the reachable vote logs refine [honest_log]. *)
Theorem votes_refine_spec W : reachable W -> honest_log n byz (offered W) (votes W).
Proof. intros Hr. apply (w_log _ (reachable_ok _ Hr)). Qed.

(** C8: a correct replica never signs two votes of the same phase and view for
    different nodes, whatever messages, timers and validation outcomes it
    handles, in whatever order. *)
Theorem no_equivocation W b c :
  reachable W -> b ∈ votes W -> c ∈ votes W ->
  b_voter b = b_voter c -> b_type b = b_type c -> b_view b = b_view c -> b_node b = b_node c.
Proof.
  intros Hr. apply honest_log_unique with (n := n) (byz := byz) (known := offered W).
  apply (w_log _ (reachable_ok _ Hr)).
Qed.

Lemma decided_one_branch W i j si sj h1 h2 :
  Z.of_nat (size byz) <= max_faults n -> reachable W ->
  nodes W !! i = Some si -> nodes W !! j = Some sj ->
  h1 ∈ decided_nodes (rs si) -> h2 ∈ decided_nodes (rs sj) ->
  extends (offered W) h1 h2 \/ extends (offered W) h2 h1.
Proof.
  intros Hf Hr Hi Hj H1' H2'. pose proof (reachable_ok _ Hr) as [Hl Hn _].
  destruct (Hn i si Hi) as (_ & _ & Hii). destruct (Hn j sj Hj) as (_ & _ & Hij).
  destruct (f_decided _ _ _ _ _ (i_facts _ _ _ _ _ _ _ Hii) h1 H1') as [v1 Hc1].
  destruct (f_decided _ _ _ _ _ (i_facts _ _ _ _ _ _ _ Hij) h2 H2') as [v2 Hc2].
  eapply (commits_do_not_conflict n byz (offered W)); [apply n_range|done|exact Hl|exact Hc1|exact Hc2].
Qed.

(** C1: with at most [(n - 1) / 3] faulty replicas, the nodes that correct
    replicas decide never conflict: of any two decided nodes, of one replica
    or of two, one is an ancestor of the other, along the parent links of
    nodes that were proposed in the run. *)
Theorem agreement W i j si sj h1 h2 :
  Z.of_nat (size byz) <= max_faults n -> reachable W ->
  nodes W !! i = Some si -> nodes W !! j = Some sj ->
  h1 ∈ decided_nodes (rs si) -> h2 ∈ decided_nodes (rs sj) ->
  extends (offered W) h1 h2 \/ extends (offered W) h2 h1.
Proof. apply decided_one_branch. Qed.

(** C9: there is at most one certified node per view: if two certificates of
    the same view, of any phases, pass [verify_qc] at a correct replica, they
    are for the same node. *)
Theorem certificates_unique W keys1 keys2 q1 q2 :
  Z.of_nat (size byz) <= max_faults n -> reachable W ->
  keys_ok n key_of keys1 -> keys_ok n key_of keys2 ->
  qc_known byz key_of (votes W) q1 -> qc_known byz key_of (votes W) q2 ->
  verify_qc q1 (n - max_faults n) keys1 = true -> verify_qc q2 (n - max_faults n) keys2 = true ->
  qc_view q1 = qc_view q2 -> qc_node q1 = qc_node q2.
Proof.
  intros Hf Hr Hk1 Hk2 Hq1 Hq2 Hv1 Hv2 Hv. pose proof (reachable_ok _ Hr) as [Hl _ _].
  pose proof (verify_qc_certified _ _ _ _ _ _ n_range Hk1 Hq1 Hv1) as Hc1.
  pose proof (verify_qc_certified _ _ _ _ _ _ n_range Hk2 Hq2 Hv2) as Hc2.
  rewrite <- Hv in Hc2.
  destruct n_range as [Hn _].
  eapply certified_prepare_unique; [exact Hn|exact Hf|exact Hl|eapply certified_prepare..]; eauto.
Qed.
End assumptions.
End world.
