(* ===== verification/System.v ===== *)
(** * System: replicas connected by a network

    The world of Safety delivers any message whose signatures are not forged.
    Here a message is delivered because somebody sent it: a correct replica
    (its [broadcast] or [send_to]), or a faulty one, which may name any sender,
    since a receiver does not check the name.  Each replica carries its
    history.  Everything a correct replica sends is
    acceptable to the world of Safety, so its theorems hold here without an
    assumption on the messages of correct replicas. *)

From Stdlib Require Import ZArith Lia.
From stdpp Require Import prelude strings gmap.
From S2P Require Import Prelude Crypto Ledger Messages Replica Qc VoteLog Workload Validator Wiring Execute Handlers Rules Consensus Invariant Steps Moves History Settled Safety.
Open Scope Z_scope.

Section system_data.
Context `{SigScheme}.

(** A replica and its history: the events it handled and the effects it
    emitted, latest first, and whether the rules of its view have been
    evaluated since it entered the view. *)
Record Run : Type := mkRun {
  run_sys : Sys;
  handled : list Event;
  emitted : list Effect;
  is_settled : bool
}.

(** The replicas, the ballots they signed and the nodes they received or made
    proposals for. *)
Record System : Type := mkSystem { runs : gmap Z Run; ballots : list Ballot; proposed_nodes : list Node }.
End system_data.

Section system.
Context `{Sha256, Bincode, SigScheme, FileSystem, Serde}.
Context (n : Z) (byz : gset Z) (wiring : Z -> Wiring).

Abbreviation key_of := (key_of wiring).

(** The key table after all handshakes. *)
Definition all_keys : gmap Z verifying_key :=
  list_to_map ((fun i => (i, key_of i)) <$> seqZ 0 n).

(** Replica [j], which emitted [E], has sent [m] to [i]: a broadcast goes to
    the other replicas. *)
Definition sent_to (E : list Effect) (j i : Z) (m : Wire) : Prop :=
  (Broadcast m ∈ E /\ i <> j) \/ SendTo i m ∈ E.

Definition available (N : System) (i : Z) (m : Wire) : Prop :=
  exists j run, runs N !! j = Some run /\ sent_to (emitted run) j i m.

(** What a faulty replica can send to [i]: anything under any name, with
    signatures it can make or has seen, but for votes that name the receiver
    as the voter. *)
Definition injected (i : Z) (L : list Ballot) (m : Wire) : Prop :=
  no_self_vote i m /\ msg_known byz key_of L m.

Definition event_sent (N : System) (i : Z) (e : Event) : Prop :=
  match e with
  | EvMsg m keys => keys = all_keys /\ (available N i m \/ injected i (ballots N) m)
  | _ => True
  end.

Inductive sys_step (N N' : System) : Prop :=
  | sys_node (o : HashOrder) (i : Z) (run : Run) (e : Event) (s' : Sys) :
      runs N !! i = Some run ->
      event_allowed (rs (run_sys run)) e ->
      event_sent N i e ->
      node_step (wiring i) e (run_sys run) = Ok s' ->
      N' = mkSystem
        (<[i := mkRun s' (e :: handled run) (effects s' ++ emitted run)
                  (evaluated (wiring i) e (run_sys run) s')]> (runs N))
        (ballots_of i (effects s') ++ ballots N)
        (event_proposals e ++ proposals (effects s') ++ proposed_nodes N) ->
      sys_step N N'.

Definition sys_initial (N : System) : Prop :=
  ballots N = [] /\ proposed_nodes N = [] /\
  forall i run, runs N !! i = Some run ->
    0 <= i < n /\ (i ∉ byz) /\ effects (run_sys run) = [] /\ handled run = [] /\ emitted run = [] /\
    is_settled run = false /\ exists t, rs (run_sys run) = new_replica n t.

Definition sys_reachable (N : System) : Prop := exists N0, sys_initial N0 /\ rtc sys_step N0 N.

(** The world of Safety behind a system. *)
Definition project (N : System) : World := mkWorld (run_sys <$> runs N) (ballots N) (proposed_nodes N).

(** ** The invariant *)

Record run_ok (N : System) (i : Z) (run : Run) : Prop := {
  r_id : 0 <= i < n;
  r_honest : i ∉ byz;
  r_causal : causal n byz key_of all_keys (ballots N) (wiring i) (handled run) (emitted run) (rs (run_sys run));
  r_local : Forall (event_local byz key_of all_keys (ballots N) (wiring i)) (handled run);
  r_start : view (rs (run_sys run)) = 0 -> view_data (rs (run_sys run)) = ∅;
  r_recorded : forall m, EvMsg m all_keys ∈ handled run -> recorded n all_keys (wiring i) m (rs (run_sys run));
  r_settled : is_settled run = true -> exists o : HashOrder, settled (wiring i) (run_sys run);
  r_ballots : forall t v h, Signed t v h ∈ emitted run <-> mkBallot i t v h ∈ ballots N
}.

Record sys_ok (N : System) : Prop := {
  s_runs : forall i run, runs N !! i = Some run -> run_ok N i run;
  s_voters : forall b, b ∈ ballots N -> is_Some (runs N !! b_voter b)
}.

Section assumptions.
Context `{!SigSchemeLaws}.
Hypothesis n_range : 1 <= n < u32_modulus.
Hypothesis ids : forall i, my_id (wiring i) = i.

Lemma all_keys_lookup i : 0 <= i < n -> all_keys !! i = Some (key_of i).
Proof.
  intros Hi. apply elem_of_list_to_map.
  - rewrite <- list_fmap_compose. rewrite (list_fmap_ext _ id) by done. rewrite list_fmap_id. apply NoDup_seqZ.
  - apply list_elem_of_fmap. exists i. split; [done|]. apply elem_of_seqZ. lia.
Qed.

Lemma all_keys_ok : keys_ok n key_of all_keys.
Proof.
  intros i pk Hi%elem_of_list_to_map_2. apply list_elem_of_fmap in Hi as (j & [= -> ->] & Hj).
  apply elem_of_seqZ in Hj. split; [lia|done].
Qed.

Lemma all_keys_size : Z.of_nat (size all_keys) < u32_modulus.
Proof. apply (keys_ok_size n key_of); [done|apply all_keys_ok]. Qed.

(** Every message of a correct replica is acceptable to its addressee. *)
Lemma sent_known N j run i m :
  runs N !! j = Some run -> run_ok N j run -> sent_to (emitted run) j i m ->
  sender_of m = Some j /\ i <> j /\ msg_known byz key_of (ballots N) m.
Proof.
  intros Hj [_ _ Hc _ _ _ _ Hbl] [[Hb Hne]|Hs].
  - destruct (c_broadcasts _ _ _ _ _ _ _ _ _ Hc m Hb) as [(v & leaf & high & ->)|(t & v & qc & ->)]; rewrite ids in *.
    + split_and!; [done|done|]. cbn. intros q' ->.
      destruct (c_proposals _ _ _ _ _ _ _ _ _ Hc _ _ _ _ Hb) as (_ & _ & _ & _ & _ & _ & Hg & _).
      by destruct (Hg q' eq_refl).
    + split_and!; [done|done|]. cbn.
      by destruct (c_qcs _ _ _ _ _ _ _ _ _ Hc _ _ _ _ Hb) as (_ & _ & t0 & _ & _ & _ & [_ Hk] & _).
  - destruct (c_sends _ _ _ _ _ _ _ _ _ Hc i m Hs) as (Hne & [(t & v & h & -> & -> & Hsg)|(u & q' & -> & -> & _ & Hg & _)]);
      rewrite ids in *; (split_and!; [done|done|]).
    + intros _ _. by apply Hbl.
    + cbn. intros q'' ->. by destruct (Hg q'' eq_refl).
Qed.

Lemma event_sent_local N i e :
  sys_ok N -> i ∉ byz -> event_sent N i e ->
  event_local byz key_of all_keys (ballots N) (wiring i) e /\ event_ok n byz key_of i (ballots N) e.
Proof.
  intros [Hr _] Hb. destruct e as [|m keys|evt|out]; cbn; try done. intros [-> Hm].
  assert (no_self_vote i m /\ msg_known byz key_of (ballots N) m) as [Hs Hk].
  { destruct Hm as [(j & run & Hj & Hsd)|?]; [|done].
    destruct (sent_known N j run i m Hj (Hr _ _ Hj) Hsd) as (E & Hne & ?). split; [|done].
    destruct m; try done. cbn in *. congruence. }
  rewrite ids. split_and!; [done..|apply all_keys_ok|done|done].
Qed.

Lemma available_mono N N' i m :
  (forall j run, runs N !! j = Some run -> exists run', runs N' !! j = Some run' /\ emitted run ⊆ emitted run') ->
  available N i m -> available N' i m.
Proof.
  intros Hsub (j & run & Hj & Hs). destruct (Hsub j run Hj) as (run' & Hj' & He). exists j, run'. split; [done|].
  destruct Hs as [[? ?]|?]; [left|right]; auto.
Qed.

Lemma elem_ballots_of i es j t v h : mkBallot j t v h ∈ ballots_of i es <-> i = j /\ Signed t v h ∈ es.
Proof.
  unfold ballots_of. rewrite list_elem_of_omap. split.
  - intros (x & Hx & E). destruct x; simplify_eq. done.
  - intros [-> Hx]. exists (Signed t v h). done.
Qed.

Lemma sys_initial_ok N : sys_initial N -> sys_ok N.
Proof.
  intros (Hb & _ & Hr). split; [|rewrite Hb; by intros b ?%elem_of_nil].
  intros i run Hi. destruct (Hr i run Hi) as (Hid & Hh & _ & Eh & Ee & Es & t & Er).
  split; rewrite ?Eh, ?Ee, ?Er, ?Es; try done.
  - by apply causal_new.
  - by intros m ?%elem_of_nil.
  - intros ty v h. rewrite Hb. by rewrite !elem_of_nil.
Qed.

(** A pass of replica [i] seen by the others. *)
Lemma run_ok_other N N' j run :
  run_ok N j run -> ballots N ⊆ ballots N' ->
  (forall t v h, mkBallot j t v h ∈ ballots N' -> mkBallot j t v h ∈ ballots N) -> run_ok N' j run.
Proof.
  intros [] Hsub Hb. split; try done.
  - by eapply causal_mono.
  - eapply Forall_impl; [exact r_local0|]. intros e. by apply event_local_mono.
  - intros t v h. rewrite r_ballots0. split; auto.
Qed.

(** The replica that ran the pass. *)
Lemma run_ok_self N N' (o : HashOrder) i run e s' :
  sys_ok N -> runs N !! i = Some run -> event_allowed (rs (run_sys run)) e -> event_sent N i e ->
  node_step (wiring i) e (run_sys run) = Ok s' ->
  ballots N' = ballots_of i (effects s') ++ ballots N ->
  run_ok N' i (mkRun s' (e :: handled run) (effects s' ++ emitted run) (evaluated (wiring i) e (run_sys run) s')).
Proof.
  intros HN Hi [Hv Ha] He Hs EL. destruct (s_runs _ HN i run Hi) as [Hid Hh Hc Hl Hst Hrec Hset Hbl].
  destruct (event_sent_local N i e HN Hh He) as [Hloc _].
  assert (ballots N ⊆ ballots N') as Hsub by (rewrite EL; intros x Hx; apply elem_of_app; by right).
  assert (started e (rs (run_sys run))) as Hev by (destruct e; cbn; auto).
  assert (Forall (event_local byz key_of all_keys (ballots N') (wiring i)) (e :: handled run)) as Hl'.
  { eapply Forall_impl; [by constructor; [exact Hloc|exact Hl]|]. intros x. by apply event_local_mono. }
  assert (forall t v h, Signed t v h ∈ effects s' -> mkBallot (my_id (wiring i)) t v h ∈ ballots N') as Hlog.
  { intros t v h Hsg. rewrite ids, EL. apply elem_of_app. left. by apply elem_ballots_of. }
  assert (all_keys !! my_id (wiring i) = Some (key_of i)) as Hkey by (rewrite ids; by apply all_keys_lookup).
  pose proof (causal_step n byz key_of all_keys (ballots N') (wiring i) e (handled run) (emitted run) (run_sys run) s'
    Hkey all_keys_size all_keys_ok Hlog Hl' Hv Hev (causal_mono _ _ _ _ _ _ _ Hsub _ _ _ Hc) Hs) as Hc'.
  split; cbn [run_sys handled emitted is_settled]; try done.
  - intros E0. exfalso. destruct (node_step_views (wiring i) e (run_sys run) s' Hv Hev Hs). lia.
  - intros m Hm. eapply (node_step_recorded n all_keys (wiring i) e); [apply Hc|apply Hc|done|done|exact Hs|].
    apply elem_of_cons in Hm as [<-|Hm]; [by right|left; by apply Hrec].
  - intros Hev'. exists o. eapply node_step_settles; [|done..].
    rewrite (c_quorum _ _ _ _ _ _ _ _ _ Hc). pose proof (max_faults_spec n ltac:(lia)). lia.
  - intros t v h. rewrite EL, !elem_of_app, elem_ballots_of, Hbl. naive_solver.
Qed.

Lemma sys_step_ok N N' : sys_ok N -> sys_step N N' -> sys_ok N'.
Proof.
  intros HN [o i run e s' Hi Ha He Hs ->].
  set (run' := mkRun s' (e :: handled run) (effects s' ++ emitted run) _).
  set (N' := mkSystem (<[i := run']> (runs N)) (ballots_of i (effects s') ++ ballots N) _).
  split.
  - intros j rj. cbn. intros [[<- <-]|[Hne Hj]]%lookup_insert_Some; [by apply (run_ok_self N N' o)|].
    eapply run_ok_other; [by apply (s_runs _ HN)| |]; cbn.
    + intros x Hx. apply elem_of_app. by right.
    + intros t v h [[-> _]%elem_ballots_of|?]%elem_of_app; done.
  - cbn. intros [j t v h] [[-> _]%elem_ballots_of|Hb]%elem_of_app; cbn.
    + rewrite lookup_insert_eq. by eexists.
    + destruct (decide (i = j)) as [<-|Hne]; [rewrite lookup_insert_eq; by eexists|].
      rewrite lookup_insert_ne by done. by apply (s_voters _ HN) in Hb.
Qed.

Lemma sys_reachable_ok N : sys_reachable N -> sys_ok N.
Proof.
  intros (N0 & H0' & Hr). apply sys_initial_ok in H0'. induction Hr; eauto using sys_step_ok.
Qed.

Lemma sys_step_world N N' : sys_ok N -> sys_step N N' -> world_step n byz wiring (project N) (project N').
Proof.
  intros HN [o i run e s' Hi Ha He Hs ->].
  destruct (event_sent_local N i e HN (r_honest _ _ _ (s_runs _ HN i run Hi)) He) as [_ Hok].
  eapply (step_node n byz wiring _ _ o i (run_sys run) s' e); [|done|done|done|].
  - cbn. by rewrite lookup_fmap, Hi.
  - unfold project. cbn. by rewrite fmap_insert.
Qed.

Lemma sys_reachable_world N : sys_reachable N -> reachable n byz wiring (project N).
Proof.
  intros (N0 & H0' & Hr). exists (project N0). split.
  - destruct H0' as (Hb & Hp & Hn). split_and!; [done|done|]. intros i s. cbn. rewrite lookup_fmap, fmap_Some.
    intros (run & Hi & ->). by destruct (Hn i run Hi) as (? & ? & ? & _ & _ & _ & ?).
  - apply sys_initial_ok in H0'. induction Hr as [|N1 N2 N3 Hs Hr IH]; [done|].
    eapply rtc_l; [by apply sys_step_world|]. by apply IH, (sys_step_ok N1).
Qed.

(** C13: the connected system refines the world of Safety: when messages come from
    the replicas that sent them, or from faulty replicas under any name,
    every run of the system is a run of that world, in which the
    messages of correct replicas satisfy all that is assumed of messages. *)
Theorem system_refines_world N : sys_reachable N -> reachable n byz wiring (project N).
Proof. apply sys_reachable_world. Qed.
End assumptions.
End system.
