(* ===== verification/Liveness.v ===== *)
(** * Liveness: a view with a correct leader decides

    The system of System, in a view whose leader is correct: once the messages
    of the view have arrived, the validators have answered and the replicas
    have evaluated their rules, the leader has proposed a node and every
    correct replica has decided it.  The argument follows the phases; what
    makes it work is that the certificate of a correct leader's proposal is at
    least as high as every lock, so that [safe_node] refuses it nowhere. *)

From Stdlib Require Import ZArith Lia.
From stdpp Require Import prelude strings gmap.
From S2P Require Import Prelude Crypto Ledger Messages Replica Qc VoteLog Workload Validator Wiring Execute Handlers Rules Consensus Invariant Steps Moves History Settled Safety System.
Open Scope Z_scope.

(** The messages of view [v]: those of its phases, and the NEW-VIEW messages
    of the view before, which go to its leader. *)
Definition in_view (v : Z) (m : Wire) : Prop :=
  match m with
  | Proposal u _ _ _ | PhaseQc _ u _ _ | Vote _ u _ _ _ => u = v
  | NewViewMsg u _ _ => u = v - 1
  | Hello _ _ => False
  end.

(** The correct replicas are a quorum. *)
Lemma correct_quorum n (byz : gset Z) :
  1 <= n -> Z.of_nat (size byz) <= max_faults n -> n - max_faults n <= Z.of_nat (size (replica_ids n ∖ byz)).
Proof.
  intros Hn Hf. pose proof (max_faults_spec n Hn). pose proof (size_replica_ids n ltac:(lia)).
  pose proof (size_difference_alt (replica_ids n) byz).
  pose proof (subseteq_size (replica_ids n ∩ byz) byz ltac:(set_solver)). lia.
Qed.

Lemma leader_range n v : 1 <= n < u32_modulus -> 0 <= leader n v < n.
Proof.
  intros Hn. unfold leader. destruct (v =? 0); [lia|]. pose proof (Z.mod_pos_bound (v - 1) n ltac:(lia)).
  unfold wrap32. rewrite Z.mod_small; lia.
Qed.

Section liveness.
Context `{Sha256, Bincode, SigScheme, FileSystem, Serde, !SigSchemeLaws}.
Context (n : Z) (byz : gset Z) (wiring : Z -> Wiring).
Hypothesis n_range : 1 <= n < u32_modulus.
Hypothesis ids : forall i, my_id (wiring i) = i.

Abbreviation K := (all_keys n wiring).
Abbreviation state run := (rs (run_sys run)).

(** Nothing is under way in view [v] between the correct replicas: they have
    all reached the view, none has timed out, what they have sent each other
    has arrived, and those still in the view have evaluated their rules. *)
Record quiescent (N : System) (v : Z) : Prop := {
  q_all : forall i, 0 <= i < n -> i ∉ byz -> is_Some (runs N !! i);
  q_entered : forall i run, runs N !! i = Some run -> v <= view (state run);
  q_no_timeout : forall i run, runs N !! i = Some run -> EvTimer (mkTimerEvent v) ∉ handled run;
  q_delivered : forall i j ri rj m, runs N !! i = Some ri -> runs N !! j = Some rj ->
    sent_to (emitted rj) j i m -> in_view v m -> EvMsg m K ∈ handled ri;
  q_settled : forall i run, runs N !! i = Some run -> view (state run) = v -> is_settled run = true
}.

(** No message of view [v] was made up in the name of a correct replica:
    proposals, certificates and NEW-VIEW messages that name a correct sender
    come from it.  The handlers do not check the sender, so this is a condition
    on what the faulty replicas send.  Votes are signed and need no
    condition. *)
Definition authentic (N : System) (v : Z) : Prop :=
  forall i run m j, runs N !! i = Some run -> EvMsg m K ∈ handled run -> in_view v m ->
    (forall t u h k sig, m <> Vote t u h k sig) -> sender_of m = Some j -> j ∉ byz ->
    exists rj, runs N !! j = Some rj /\ sent_to (emitted rj) j i m.

(** Every correct replica has a verdict on the node, and none that is
    negative. *)
Definition validated (N : System) (h : list Z) : Prop :=
  forall i run, runs N !! i = Some run ->
    is_Some (validation_result (state run) !! h) /\
    forall out, EvValidated out ∈ handled run -> out_node_hash out = h -> out_valid out = true.

(** The leader of the view has work to propose: it knows the nodes that the
    reported certificates are for, and its workload has the next block. *)
Definition ready (N : System) (v : Z) : Prop :=
  forall run, runs N !! leader n v = Some run ->
    let blocks := num_blocks (workload_manifest (w_workload (wiring (leader n v)))) in
    0 < blocks /\
    forall j q, new_view_msgs (vd_at (state run) (v - 1)) !! j = Some (Some q) ->
      exists p, tree (state run) !! qc_node q = Some p /\ add_u64 (height p) 1 < blocks.

Section good_view.
Context (N : System) (v : Z) (run_l : Run).
Abbreviation l := (leader n v).
Hypothesis Hreach : sys_reachable n byz wiring N.
Hypothesis few_faults : Z.of_nat (size byz) <= max_faults n.
Hypothesis faulty_ids : byz ⊆ replica_ids n.
Hypothesis v_range : 1 <= v < u64_modulus.
Hypothesis leader_run : runs N !! l = Some run_l.
Hypothesis Hquiet : quiescent N v.
Hypothesis heard : authentic N v.

Lemma runs_ok i run : runs N !! i = Some run -> run_ok n byz wiring N i run.
Proof. apply (s_runs n byz wiring). by apply sys_reachable_ok. Qed.

Lemma run_causal i run :
  runs N !! i = Some run ->
  causal n byz (key_of wiring) K (ballots N) (wiring i) (handled run) (emitted run) (state run).
Proof. intros Hi. by apply (r_causal n byz wiring N i), runs_ok. Qed.

Lemma log_honest : honest_log n byz (fun nd => nd ∈ proposed_nodes N) (ballots N).
Proof.
  apply (w_log n byz (project N)), (reachable_ok n byz wiring); [done|done|].
  by apply sys_reachable_world.
Qed.

Lemma good_certified q :
  good n byz (key_of wiring) K (ballots N) q -> certified n byz (ballots N) (qc_type q) (qc_view q) (qc_node q).
Proof. intros [? ?]. by eapply verify_qc_certified; [|apply all_keys_ok| |]. Qed.

Lemma leader_correct : l ∉ byz.
Proof. exact (r_honest _ _ _ _ _ _ (runs_ok l run_l leader_run)). Qed.

(** *** The leader proposes *)

Lemma report_held i :
  i ∈ replica_ids n ∖ byz -> is_Some (new_view_msgs (vd_at (state run_l) (v - 1)) !! i).
Proof.
  intros [Hid Hb]%elem_of_difference. apply elem_of_replica_ids in Hid.
  destruct (q_all _ _ Hquiet i Hid Hb) as [run Hi]. pose proof (q_entered _ _ Hquiet i run Hi).
  destruct (c_reports _ _ _ _ _ _ _ _ _ (run_causal _ _ Hi) v ltac:(lia)) as [Hown Hsend]. rewrite ids in *.
  destruct (decide (l = i)) as [<-|Hne]; [simplify_eq; auto|]. destruct (Hsend Hne) as [q Hq].
  assert (sent_to (emitted run) i l (NewViewMsg (v - 1) q i)) as Hs by (by right).
  pose proof (q_delivered _ _ Hquiet _ _ _ _ _ leader_run Hi Hs eq_refl) as Hm.
  pose proof (r_recorded _ _ _ _ _ _ (runs_ok l run_l leader_run) _ Hm) as Hrec. cbn in Hrec.
  rewrite ids, add_u64_small, Z.sub_add in Hrec by lia. apply Hrec; [done|done|].
  destruct (c_sends _ _ _ _ _ _ _ _ _ (run_causal _ _ Hi) _ _ Hq) as
    (_ & [(? & ? & ? & ? & _)|(u & q' & [= _ <-] & _ & _ & Hg & _)]); [done|].
  destruct q as [q|]; [|done]. by destruct (Hg q eq_refl).
Qed.

Lemma leader_due `{HashOrder} : view (state run_l) = v -> ready N v -> proposal_due (wiring l) (state run_l).
Proof.
  intros Hv Hr. destruct (Hr run_l leader_run) as [Hpos Hk]. unfold proposal_due. rewrite Hv.
  replace (saturating_sub_u64 v 1) with (v - 1) by (unfold saturating_sub_u64; lia). split.
  - rewrite (c_quorum _ _ _ _ _ _ _ _ _ (run_causal _ _ leader_run)), <- size_dom.
    assert (replica_ids n ∖ byz ⊆ dom (new_view_msgs (vd_at (state run_l) (v - 1)))) as Hsub%subseteq_size.
    { intros i Hi. by apply elem_of_dom, report_held. }
    pose proof (correct_quorum n byz ltac:(lia) few_faults). lia.
  - destruct (choose_high_qc (state run_l) (v - 1)) as [q|] eqn:Eq; [|done].
    apply max_by_key_elem, list_elem_of_omap in Eq as ([j oq] & Hin%elem_of_hash_iter & [= ->]). eauto.
Qed.

Lemma proposal_from_slot i run leaf' high' :
  runs N !! i = Some run -> proposal (vd_at (state run) v) = Some (leaf', high') ->
  Broadcast (Proposal v leaf' high' l) ∈ emitted run_l.
Proof.
  intros Hi Ep. destruct (c_slot _ _ _ _ _ _ _ _ _ (run_causal _ _ Hi) _ _ _ Ep) as [Hb|Hm'].
  - pose proof (c_proposals _ _ _ _ _ _ _ _ _ (run_causal _ _ Hi) _ _ _ _ Hb) as (_ & Hl & _).
    rewrite ids in *. by simplify_eq.
  - destruct (heard _ _ _ l Hi Hm' eq_refl ltac:(done) eq_refl leader_correct) as (rl & Hrl & [[Hb _]|Hs]); [by simplify_eq|].
    simplify_eq. by apply (c_sends _ _ _ _ _ _ _ _ _ (run_causal _ _ leader_run)) in Hs as
      (_ & [(? & ? & ? & ? & _)|(? & ? & ? & _)]).
Qed.

Lemma leader_proposes :
  ready N v -> exists leaf' high', Broadcast (Proposal v leaf' high' l) ∈ emitted run_l.
Proof.
  intros Hr. pose proof (run_causal _ _ leader_run) as Hc. pose proof (q_entered _ _ Hquiet l run_l leader_run).
  destruct (decide (view (state run_l) = v)) as [E|Hne].
  - destruct (r_settled _ _ _ _ _ _ (runs_ok l run_l leader_run)) as [o Hs]; [by apply (q_settled _ _ Hquiet l)|].
    destruct (st_propose _ _ Hs) as [Hb|Hn].
    + rewrite ids, E. unfold leader_for. by rewrite (c_n _ _ _ _ _ _ _ _ _ Hc).
    + unfold here in Hb. rewrite E in Hb. apply (c_made _ _ _ _ _ _ _ _ _ Hc) in Hb. by rewrite ids in Hb.
    + by destruct Hn; apply leader_due.
  - destruct (c_left _ _ _ _ _ _ _ _ _ Hc v ltac:(lia)) as [Hsn|Ht]; cycle 1.
    { by destruct (q_no_timeout _ _ Hquiet l run_l leader_run). }
    destruct (c_seen _ _ _ _ _ _ _ _ _ Hc _ v Hsn) as (_ & qc & _ & [Et Ev] & Hg%good_certified & _).
    rewrite Ev in Hg. apply (certified_prepare n byz _ ltac:(lia) few_faults _ _ _ _ log_honest) in Hg.
    apply (certified_voter n byz ltac:(lia) few_faults) in Hg as (i & _ & Hb).
    destruct (s_voters _ _ _ _ (sys_reachable_ok n byz wiring n_range ids N Hreach) _ Hb) as [run Hi].
    cbn in Hi. apply (r_ballots _ _ _ _ _ _ (runs_ok i run Hi)) in Hb.
    apply (c_votes_sent _ _ _ _ _ _ _ _ _ (run_causal _ _ Hi)) in Hb as (_ & _ & _ & Hp & _).
    destruct (Hp eq_refl) as (leaf' & high' & Hsl & _). eauto using proposal_from_slot.
Qed.

(** *** What it proposes *)

Context (leaf : Node) (high : option QC).
Abbreviation hl := (node_hash leaf).
Hypothesis proposed : Broadcast (Proposal v leaf high l) ∈ emitted run_l.
Hypothesis Hvalid : validated N hl.

(** *** The proposal of a correct leader covers every lock *)

Lemma voter_covers i run_i q vl hb :
  runs N !! i = Some run_i -> new_view_msgs (vd_at (state run_l) (v - 1)) !! i = Some q ->
  Signed PreCommit vl hb ∈ emitted run_i -> vl < v ->
  exists q', q = Some q' /\ vl <= qc_view q'.
Proof.
  intros Hi Hq Hsg Hvl. pose proof (r_honest _ _ _ _ _ _ (runs_ok i run_i Hi)) as Hh.
  destruct (c_new_views _ _ _ _ _ _ _ _ _ (run_causal _ _ leader_run) _ _ _ Hq) as
    [_ [(Ei & _ & Hcov)|Hm]]; rewrite ?ids in *.
  - simplify_eq. eapply Hcov; [exact Hsg|lia].
  - destruct (heard _ _ _ i leader_run Hm eq_refl ltac:(done) eq_refl Hh) as (ri & Hri & Hs). simplify_eq.
    destruct Hs as [[Hb _]|Hs].
    + apply (c_broadcasts _ _ _ _ _ _ _ _ _ (run_causal _ _ Hi)) in Hb as [(? & ? & ? & ?)|(? & ? & ? & ?)]; done.
    + apply (c_sends _ _ _ _ _ _ _ _ _ (run_causal _ _ Hi)) in Hs as
        (_ & [(? & ? & ? & ? & _)|(u & q' & [= <- <-] & _ & _ & _ & Hcov)]); [done|].
      eapply Hcov; [exact Hsg|lia].
Qed.

Lemma proposal_covers vl hb :
  certified n byz (ballots N) PreCommit vl hb -> vl < v ->
  exists q, high = Some q /\ (vl < qc_view q \/ qc_node q = hb).
Proof.
  intros Hcert Hvl. pose proof Hcert as (Q2 & HQ2 & Hs2 & Hall2).
  destruct (c_proposals _ _ _ _ _ _ _ _ _ (run_causal _ _ leader_run) _ _ _ _ proposed) as
    (_ & _ & _ & _ & _ & _ & Hgood & Q1 & Hs1 & Hall1).
  assert (Q1 ⊆ replica_ids n) as HQ1.
  { intros j Hj. destruct (decide (j ∈ byz)) as [?|Hb]; [by apply faulty_ids|].
    destruct (Hall1 j Hj) as (q & Hq & _).
    destruct (c_new_views _ _ _ _ _ _ _ _ _ (run_causal _ _ leader_run) _ _ _ Hq) as [_ [(-> & _)|Hm]].
    - rewrite ids. apply elem_of_replica_ids. exact (r_id _ _ _ _ _ _ (runs_ok l run_l leader_run)).
    - destruct (heard _ _ _ j leader_run Hm eq_refl ltac:(done) eq_refl Hb) as (rj & Hj' & _).
      apply elem_of_replica_ids. exact (r_id _ _ _ _ _ _ (runs_ok j rj Hj')). }
  destruct (quorum_intersection n byz Q1 Q2) as (i & Hi1 & Hi2 & Hb); [lia|done..|].
  destruct (Hall1 i Hi1) as (q & Hq & Hmax). pose proof (Hall2 i Hi2 Hb) as Hbal.
  destruct (s_voters _ _ _ _ (sys_reachable_ok n byz wiring n_range ids N Hreach) _ Hbal) as [run_i Hi]. cbn in Hi.
  apply (r_ballots _ _ _ _ _ _ (runs_ok i run_i Hi)) in Hbal as Hsg.
  destruct (voter_covers i run_i q vl hb Hi Hq Hsg Hvl) as (q' & -> & Hle).
  destruct (Hmax q' eq_refl) as (hq & -> & Hle'). exists hq. split; [done|].
  destruct (decide (vl < qc_view hq)); [by left|right].
  assert (qc_view hq = vl) as Ev by lia. pose proof (good_certified hq (Hgood hq eq_refl)) as Hc.
  rewrite Ev in Hc.
  eapply (certified_prepare_unique n byz _ ltac:(lia) few_faults _ vl _ _ log_honest);
    eapply (certified_prepare n byz _ ltac:(lia) few_faults _ _ _ _ log_honest); eassumption.
Qed.

(** *** One proposal, one node *)

(** The leader handled no proposal in its own name. *)
Lemma no_own_proposal leaf' high' : EvMsg (Proposal v leaf' high' l) K ∉ handled run_l.
Proof.
  intros Hm. destruct (heard _ _ _ l leader_run Hm eq_refl ltac:(done) eq_refl leader_correct) as (rl & Hrl & [[_ ?]|Hs]);
    [done|]. simplify_eq. by apply (c_sends _ _ _ _ _ _ _ _ _ (run_causal _ _ leader_run)) in Hs as
      (_ & [(? & ? & ? & ? & _)|(? & ? & ? & _)]).
Qed.

Lemma own_slot : proposal (vd_at (state run_l) v) = Some (leaf, high).
Proof.
  destruct (c_proposals _ _ _ _ _ _ _ _ _ (run_causal _ _ leader_run) _ _ _ _ proposed) as (_ & _ & _ & _ & Hslot & _).
  apply Hslot. rewrite ids. exact no_own_proposal.
Qed.

Lemma slot_of i run :
  runs N !! i = Some run -> proposal (vd_at (state run) v) = Some (leaf, high).
Proof.
  intros Hi. destruct (c_proposals _ _ _ _ _ _ _ _ _ (run_causal _ _ leader_run) _ _ _ _ proposed) as
    (_ & _ & _ & _ & _ & Hpar & Hgood & _).
  destruct (decide (i = l)) as [->|Hne]; [simplify_eq; apply own_slot|].
  assert (sent_to (emitted run_l) l i (Proposal v leaf high l)) as Hsent by (by left).
  pose proof (q_delivered _ _ Hquiet _ _ _ _ _ Hi leader_run Hsent eq_refl) as Hm.
  pose proof (r_recorded _ _ _ _ _ _ (runs_ok i run Hi) _ Hm) as Hrec. cbn in Hrec.
  destruct (Hrec eq_refl) as [[leaf' high'] Ep]; [|done|].
  { destruct high as [q|]; [|done]. by destruct (Hgood q eq_refl). }
  rewrite Ep. apply (proposal_from_slot i run leaf' high' Hi),
    (c_proposals _ _ _ _ _ _ _ _ _ (run_causal _ _ leader_run)) in Ep as (_ & _ & _ & _ & Hsl & _).
  rewrite <- own_slot. symmetry. apply Hsl. rewrite ids. exact no_own_proposal.
Qed.

Lemma prepare_ballot i h : mkBallot i Prepare v h ∈ ballots N -> h = hl.
Proof.
  intros Hb. destruct (s_voters _ _ _ _ (sys_reachable_ok n byz wiring n_range ids N Hreach) _ Hb) as [run Hi].
  cbn in Hi. apply (r_ballots _ _ _ _ _ _ (runs_ok i run Hi)) in Hb.
  apply (c_votes_sent _ _ _ _ _ _ _ _ _ (run_causal _ _ Hi)) in Hb as (_ & _ & _ & Hp & _).
  destruct (Hp eq_refl) as (leaf' & high' & Hsl & ->). rewrite (slot_of i run Hi) in Hsl. by simplify_eq.
Qed.

Lemma certified_leaf t h : certified n byz (ballots N) t v h -> h = hl.
Proof.
  intros Hc. apply (certified_prepare n byz _ ltac:(lia) few_faults _ _ _ _ log_honest) in Hc.
  apply (certified_voter n byz ltac:(lia) few_faults) in Hc as (i & _ & Hb). by eapply prepare_ballot.
Qed.

(** What a later vote rests on. *)
Lemma ballot_rule i t u h :
  mkBallot i t u h ∈ ballots N ->
  t = Prepare \/ (t = PreCommit \/ t = Commit) /\ certified n byz (ballots N) (prev t) u h.
Proof.
  intros Hb. pose proof log_honest as Hl. apply list_elem_of_split in Hb as (L1 & L2 & EL). rewrite EL in *.
  pose proof (ok_rule _ _ _ _ _ (honest_log_at _ _ _ _ _ _ Hl)) as Hr. cbn in Hr.
  assert (L2 ⊆ L1 ++ mkBallot i t u h :: L2) as Hsub.
  { intros x Hx. apply elem_of_app. right. by apply list_elem_of_further. }
  destruct t; try done; [by left|right; split; [by left|]|right; split; [by right|]]; by eapply certified_mono.
Qed.

Lemma ballot_leaf i t h : mkBallot i t v h ∈ ballots N -> h = hl.
Proof.
  intros Hb. destruct (ballot_rule _ _ _ _ Hb) as [->|[_ Hc]]; [by eapply prepare_ballot|by eapply certified_leaf].
Qed.

Lemma signed_leaf i run t h : runs N !! i = Some run -> Signed t v h ∈ emitted run -> h = hl.
Proof. intros Hi Hs. apply (r_ballots _ _ _ _ _ _ (runs_ok i run Hi)) in Hs. by eapply ballot_leaf. Qed.

(** *** No correct replica refuses *)

Lemma extends_from_parent nd t : extends_from nd (parent nd) t = true.
Proof.
  unfold extends_from. destruct (decide _); [done|]. unfold max_extends_iterations.
  destruct (N.to_nat 100001) as [|k] eqn:E; [lia|]. cbn. by rewrite decide_True.
Qed.

Lemma leaf_safe lk tr :
  certified n byz (ballots N) PreCommit (qc_view lk) (qc_node lk) -> qc_view lk <= v ->
  safe_node leaf high (Some lk) tr = true.
Proof.
  intros Hc Hv. apply safe_node_correct. right. exists lk. split; [done|].
  destruct (decide (qc_view lk = v)) as [E|Hne].
  - left. rewrite E in Hc. apply certified_leaf in Hc. unfold extends_from. by rewrite decide_True.
  - destruct (proposal_covers _ _ Hc ltac:(lia)) as (q & Hq & [?|En]); [right; eauto|left].
    destruct (c_proposals _ _ _ _ _ _ _ _ _ (run_causal _ _ leader_run) _ _ _ _ proposed) as
      (_ & _ & _ & _ & _ & Hpar & _).
    rewrite Hq in Hpar. cbn in Hpar. rewrite <- En, <- Hpar. apply extends_from_parent.
Qed.

Lemma prepare_vote_signed i run :
  runs N !! i = Some run -> voted Prepare (vd_at (state run) v) = true -> Signed Prepare v hl ∈ emitted run.
Proof.
  intros Hi Hv. pose proof (slot_of i run Hi) as Hsl.
  destruct (c_prepare_signed _ _ _ _ _ _ _ _ _ (run_causal _ _ Hi) v Hv) as (leaf' & high' & Hsl' & Hor).
  simplify_eq. destruct Hor as [?|[(out & Hout & Eh & Ev)|(lk & tr & Hsafe & Hle & Hsg)]]; [done|exfalso..].
  - destruct (Hvalid i run Hi) as [_ Hok]. by rewrite (Hok out Hout Eh) in Ev.
  - apply (r_ballots _ _ _ _ _ _ (runs_ok i run Hi)) in Hsg.
    destruct (ballot_rule _ _ _ _ Hsg) as [?|[_ Hc]]; [done|]. cbn in Hc.
    by rewrite (leaf_safe lk tr Hc Hle) in Hsafe.
Qed.

(** *** From a certificate of the leader to the votes of the next phase *)

Lemma announced_seen t i run :
  bcast t (vd_at (state run_l) v) = true -> runs N !! i = Some run -> seen t (vd_at (state run) v) = true.
Proof.
  intros Hb Hi. destruct (c_bcast _ _ _ _ _ _ _ _ _ (run_causal _ _ leader_run) t v Hb) as
    (_ & Hsn & qc & Hq & [Hver _] & Hsent).
  destruct (c_seen _ _ _ _ _ _ _ _ _ (run_causal _ _ leader_run) t v Hsn) as (Ht & _).
  destruct (decide (i = l)) as [->|Hne]; [by simplify_eq|]. rewrite ids in Hsent.
  assert (sent_to (emitted run_l) l i (PhaseQc (next t) v qc l)) as Hs by (by left).
  pose proof (q_delivered _ _ Hquiet _ _ _ _ _ Hi leader_run Hs eq_refl) as Hm.
  by apply (r_recorded _ _ _ _ _ _ (runs_ok i run Hi) _ Hm).
Qed.

(** A decide certificate came from the leader. *)
Lemma decide_announced i run :
  runs N !! i = Some run -> seen Commit (vd_at (state run) v) = true ->
  bcast Commit (vd_at (state run_l) v) = true.
Proof.
  intros Hi Hsn. destruct (c_seen _ _ _ _ _ _ _ _ _ (run_causal _ _ Hi) _ v Hsn) as
    (_ & qc & _ & _ & _ & [Hb|Hm] & _).
  - destruct (c_bcast _ _ _ _ _ _ _ _ _ (run_causal _ _ Hi) _ v Hb) as (El & _). rewrite ids in El. by simplify_eq.
  - destruct (heard _ _ _ l Hi Hm eq_refl ltac:(done) eq_refl leader_correct) as (rl & Hrl & Hs). simplify_eq.
    destruct Hs as [[Hb _]|Hs].
    + apply (c_qcs _ _ _ _ _ _ _ _ _ (run_causal _ _ leader_run)) in Hb as (_ & _ & t & [->|[->| ->]] & Et & ? & _); done.
    + by apply (c_sends _ _ _ _ _ _ _ _ _ (run_causal _ _ leader_run)) in Hs as
        (_ & [(? & ? & ? & ? & _)|(? & ? & ? & _)]).
Qed.

(** *** A view that has not been decided *)

Section undecided.
Hypothesis undecided : bcast Commit (vd_at (state run_l) v) = false.

Lemma still_in_view i run : runs N !! i = Some run -> view (state run) = v.
Proof.
  intros Hi. pose proof (q_entered _ _ Hquiet i run Hi).
  destruct (decide (view (state run) = v)) as [|Hne]; [done|exfalso].
  destruct (c_left _ _ _ _ _ _ _ _ _ (run_causal _ _ Hi) v ltac:(lia)) as [Hsn|Ht].
  - rewrite (decide_announced i run Hi Hsn) in undecided. done.
  - by apply (q_no_timeout _ _ Hquiet i run Hi).
Qed.

Lemma rules_settled i run :
  runs N !! i = Some run ->
  exists o : HashOrder, settled (wiring i) (run_sys run) /\ here (run_sys run) = vd_at (state run) v.
Proof.
  intros Hi. pose proof (still_in_view i run Hi) as Hv.
  destruct (r_settled _ _ _ _ _ _ (runs_ok i run Hi)) as [o Hs]; [by apply (q_settled _ _ Hquiet i)|].
  exists o. split; [done|]. unfold here. by rewrite Hv.
Qed.

Definition all_signed (t : MsgType) : Prop :=
  forall i run, runs N !! i = Some run -> Signed t v hl ∈ emitted run.

Lemma all_prepare : all_signed Prepare.
Proof.
  intros i run Hi. apply (prepare_vote_signed i); [done|].
  destruct (rules_settled i run Hi) as (o & Hs & Eh). rewrite <- Eh.
  eapply (st_prepare _ _ Hs); [rewrite Eh; by apply (slot_of i)|].
  by destruct (Hvalid i run Hi).
Qed.

Lemma all_next t : t = PreCommit \/ t = Commit -> bcast (prev t) (vd_at (state run_l) v) = true -> all_signed t.
Proof.
  intros Ht Hb i run Hi. pose proof (announced_seen _ i run Hb Hi) as Hsn.
  destruct (c_seen _ _ _ _ _ _ _ _ _ (run_causal _ _ Hi) _ v Hsn) as (_ & qc & Hst & _).
  destruct (rules_settled i run Hi) as (o & Hs & Eh).
  assert (voted t (vd_at (state run) v) = true) as Hv.
  { rewrite <- Eh. apply (st_vote _ _ Hs t Ht); [by rewrite Eh|]. rewrite (still_in_view i run Hi). eauto. }
  destruct (c_votes_signed _ _ _ _ _ _ _ _ _ (run_causal _ _ Hi) t v) as [h Hh]; [by destruct Ht as [->| ->]|done|].
  by rewrite <- (signed_leaf i run t h Hi Hh).
Qed.

(** The leader holds the vote of every correct replica. *)
Lemma vote_held t i :
  all_signed t -> i ∈ replica_ids n ∖ byz ->
  exists sig, bucket t (vd_at (state run_l) v) !! i = Some (hl, sig).
Proof.
  intros Hall [Hid Hb]%elem_of_difference. apply elem_of_replica_ids in Hid.
  destruct (q_all _ _ Hquiet i Hid Hb) as [run Hi].
  destruct (c_votes_sent _ _ _ _ _ _ _ _ _ (run_causal _ _ Hi) t v hl (Hall i run Hi)) as (Ht & _ & _ & _ & Hown & Hsend).
  rewrite ids in *. destruct (decide (l = i)) as [<-|Hne]; [simplify_eq; eauto|].
  assert (sent_to (emitted run) i l (Vote t v hl i (sign_vote (w_sk (wiring i)) t v hl))) as Hs by (right; auto).
  pose proof (q_delivered _ _ Hquiet _ _ _ _ _ leader_run Hi Hs eq_refl) as Hm.
  pose proof (r_recorded _ _ _ _ _ _ (runs_ok l run_l leader_run) _ Hm) as Hrec. cbn in Hrec. rewrite ids in Hrec.
  destruct Hrec as [[h sig] Hbk]; [done|done|done| |].
  { exists (key_of wiring i). split; [by apply all_keys_lookup|apply verify_sign_vote]. }
  exists sig. rewrite Hbk. destruct (c_buckets _ _ _ _ _ _ _ _ _ (run_causal _ _ leader_run) _ _ _ _ _ Hbk) as (_ & _ & Hl).
  by rewrite (ballot_leaf i t h (Hl Hb)).
Qed.

Lemma all_announced t : phase t -> all_signed t -> bcast t (vd_at (state run_l) v) = true.
Proof.
  intros Ht Hall. destruct (rules_settled l run_l leader_run) as (o & Hs & Eh).
  pose proof (still_in_view l run_l leader_run) as Hv. pose proof (run_causal _ _ leader_run) as Hc.
  destruct (st_form _ _ Hs t Ht) as [Hb|Hn].
  - rewrite ids, Hv. unfold leader_for. by rewrite (c_n _ _ _ _ _ _ _ _ _ Hc).
  - by rewrite <- Eh.
  - rewrite Eh, (c_quorum _ _ _ _ _ _ _ _ _ Hc), Hv in Hn.
    destruct (form_qc_complete (bucket t (vd_at (state run_l) v)) t v (n - max_faults n) hl (replica_ids n ∖ byz))
      as [qc Hq]; [|intros; by apply vote_held|congruence].
    pose proof (max_faults_spec n ltac:(lia)). pose proof (correct_quorum n byz ltac:(lia) few_faults). lia.
Qed.

Lemma undecided_absurd : False.
Proof.
  assert (bcast Commit (vd_at (state run_l) v) = true) as Hb; [|congruence].
  apply all_announced; [by right; right|]. apply all_next; [by right|].
  apply all_announced; [by right; left|]. apply all_next; [by left|].
  apply all_announced; [by left|apply all_prepare].
Qed.
End undecided.

Lemma view_decides i run :
  runs N !! i = Some run -> v < view (state run) /\ hl ∈ decided_nodes (state run).
Proof.
  intros Hi. assert (bcast Commit (vd_at (state run_l) v) = true) as Hb.
  { destruct (bcast Commit _) eqn:E; [done|]. by destruct undecided_absurd. }
  pose proof (announced_seen _ i run Hb Hi) as Hsn.
  destruct (c_seen _ _ _ _ _ _ _ _ _ (run_causal _ _ Hi) _ v Hsn) as (_ & qc & Hst & [Ht Hv] & Hg & _ & Hd).
  apply good_certified in Hg. rewrite Ht, Hv in Hg. apply certified_leaf in Hg. rewrite <- Hg.
  pose proof (q_entered _ _ Hquiet i run Hi).
  destruct (decide (view (state run) = v)) as [E|Hne]; [|split; [lia|]; by destruct (Hd eq_refl)].
  destruct (r_settled _ _ _ _ _ _ (runs_ok i run Hi)) as [o Hs]; [by apply (q_settled _ _ Hquiet i)|].
  pose proof (st_decide _ _ Hs) as Hn. unfold here in Hn. rewrite E in Hn. by rewrite (Hn Hsn) in Hst.
Qed.
End good_view.

End liveness.
