(* ===== verification/Pacemaker.v ===== *)
(** * Pacemaker: timers and time

    [arm_timer] of network.rs and a replica in time: armed timers become due
    after their delay and are then delivered to the event loop, late or in any
    order, but never early.  In every run the timer of the current view is
    pending, so a replica is never left waiting without one. *)

From Stdlib Require Import ZArith Lia.
From stdpp Require Import prelude strings gmap.
From S2P Require Import Prelude Crypto Ledger Messages Replica Qc VoteLog Workload Validator Wiring Execute Handlers Rules Consensus Invariant Steps Moves History Settled Safety.
Open Scope Z_scope.

(** ** Data *)

(** A timer task: sleeping until a deadline (in ms), then sending its event
    on the timer channel. *)
Definition Timer : Type := Z * TimerEvent.

Definition arm_timer (now : Z) (evt : TimerEvent) (ms : Z) : Timer := (now + ms, evt).

(** The timers armed by a pass, the latest first. *)
Definition armed (es : list Effect) : list (TimerEvent * Z) :=
  omap (fun x => match x with ArmTimer evt ms => Some (evt, ms) | _ => None end) es.

(** A replica in time; [entered_at] is when it entered its view. *)
Record Timed : Type := mkTimed {
  t_sys : Sys;
  now : Z;
  pending : list Timer;
  entered_at : Z
}.

(** The pending timers of a view. *)
Definition timers_of (v : Z) (ts : list Timer) : list Timer := filter (fun t => timer_view t.2 = v) ts.

Section timed.
Context `{Sha256, Bincode, SigScheme, FileSystem, Serde}.
Context (w : Wiring).

(** The state after a pass of the event loop at the current time, which left
    the timers [ts] pending. *)
Definition after_pass (s' : Sys) (ts : list Timer) (T : Timed) : Timed :=
  mkTimed s' (now T) (((fun a => arm_timer (now T) a.1 a.2) <$> armed (effects s')) ++ ts)
    (if view (rs s') =? view (rs (t_sys T)) then entered_at T else now T).

Inductive timed_step (T : Timed) : Timed -> Prop :=
  | timed_wait d : 0 <= d -> timed_step T (mkTimed (t_sys T) (now T + d) (pending T) (entered_at T))
  | timed_event (o : HashOrder) e s' :
      (forall evt, e <> EvTimer evt) -> event_allowed (rs (t_sys T)) e ->
      node_step w e (t_sys T) = Ok s' -> timed_step T (after_pass s' (pending T) T)
  | timed_fire (o : HashOrder) ts1 deadline evt ts2 s' :
      pending T = ts1 ++ (deadline, evt) :: ts2 -> deadline <= now T ->
      event_allowed (rs (t_sys T)) (EvTimer evt) ->
      node_step w (EvTimer evt) (t_sys T) = Ok s' -> timed_step T (after_pass s' (ts1 ++ ts2) T).

(** ** Operations that leave time alone *)

Definition clock (s : Sys) := (view (rs s), timeout_interval_ms (rs s), armed (effects s)).

Definition still (op : Sys -> result Sys) : Prop := forall s s', op s = Ok s' -> clock s' = clock s.

Lemma still_bind op k : still op -> still k -> still (fun s => let! s' := op s in k s').
Proof. intros H1' H2' s s' (s1 & E1 & E2)%result_bind_Ok. by rewrite (H2' _ _ E2), (H1' _ _ E1). Qed.

Lemma cast_vote_clock t v h s : clock (cast_vote w t v h s) = clock s.
Proof. unfold cast_vote, clock. cbv zeta. by destruct (_ =? _). Qed.

Lemma kick_still h : still (maybe_kick_validation w h).
Proof.
  intros s s'. unfold maybe_kick_validation. cbv zeta.
  destruct (validation_result _ !! _); [by intros [= <-]|]. destruct (decide _); [by intros [= <-]|].
  destruct (tree _ !! _); [|by intros [= <-]]. intros (b & _ & Hr)%result_bind_Ok. revert Hr.
  destruct (negb _); [by intros [= <-]|]. destruct (validation_input _ _ _); by intros [= <-].
Qed.

Lemma leader_prepare_still `{HashOrder} : still (leader_prepare w).
Proof.
  intros s s'. unfold leader_prepare. cbv zeta. destruct (negb _); [by intros [= <-]|].
  destruct (broadcast_proposal _); [by intros [= <-]|]. destruct (_ <? _); [by intros [= <-]|].
  intros (d & _ & Hr)%result_bind_Ok.
  destruct (match choose_high_qc _ _ with Some _ => _ | None => _ end) as [nh|]; [|by injection Hr as <-].
  destruct (_ <=? _); [by injection Hr as <-|].
  apply result_bind_Ok in Hr as (b & _ & Hk). by rewrite (kick_still _ _ _ Hk).
Qed.

Lemma mark_clock v f s : clock (upd (vd_mut v f) s) = clock s.
Proof. done. Qed.

Lemma replica_prepare_still : still (replica_prepare w).
Proof.
  intros s s'. unfold replica_prepare. cbv zeta.
  repeat (case_match; simplify_eq); intros; simplify_eq; rewrite ?mark_clock, ?cast_vote_clock; done.
Qed.

Lemma leader_form_still `{HashOrder} t : still (leader_form w t).
Proof.
  intros s s'. unfold leader_form. cbv zeta.
  repeat (case_match; simplify_eq); intros; simplify_eq; by destruct t.
Qed.

Lemma replica_vote_still t : still (replica_vote w t).
Proof.
  intros s s'. unfold replica_vote. cbv zeta.
  repeat (case_match; simplify_eq); intros; simplify_eq; try done.
  unfold mark_vote. rewrite mark_clock, cast_vote_clock. by destruct t.
Qed.

Lemma execute_node_still h th : still (execute_node h th).
Proof.
  intros s s'. unfold execute_node. intros (s1 & E1 & [= <-])%result_bind_Ok.
  revert E1. unfold advance_root, take_post_state.
  repeat (case_match; simplify_eq); intros; simplify_eq; done.
Qed.

Lemma execute_loop_still chain : still (execute_loop w chain).
Proof.
  induction chain as [|h chain IH]; intros s s'; cbn [execute_loop]; [by intros [= <-]|].
  intros (nd & _ & Hr)%result_bind_Ok. revert Hr. cbv zeta. destruct (negb _); [by intros [= <-]|].
  destruct (validation_result _ !! _) as [[]|]; [|by intros [= <-]|apply kick_still].
  apply still_bind; [apply execute_node_still|exact IH].
Qed.

Lemma try_execute_chain_still h : still (try_execute_chain w h).
Proof. intros s s' (chain & _ & Hr)%result_bind_Ok. by eapply execute_loop_still. Qed.

Lemma retry_still `{HashOrder} : still (retry_pending_execute w).
Proof.
  intros s s' Hr. eapply (result_fold_preserves (fun x => clock x = clock s)); [|done|exact Hr].
  intros h s1 s2 _ E1 E2. rewrite <- E1. by eapply try_execute_chain_still.
Qed.

Lemma try_kick_still `{HashOrder} : still (try_kick_pending_validations w).
Proof.
  intros s s'. unfold try_kick_pending_validations. generalize (hash_iter (tree (rs s))).*1. intros l.
  revert s. induction l as [|h l IH]; intros s; cbn [kick_loop]; [by intros [= <-]|].
  destruct (pending_validation (rs s)); [by intros [= <-]|].
  intros (s1 & E1 & E2)%result_bind_Ok. rewrite (IH _ E2). by eapply kick_still.
Qed.

(** ** Entering a view arms its timer *)

(** [s'] is [s] after entering view [nv]. *)
Definition enters_with_timer (nv : Z) (s s' : Sys) : Prop :=
  view (rs s') = nv /\
  armed (effects s') = (mkTimerEvent nv, timeout_interval_ms (rs s')) :: armed (effects s).

Lemma enter_new_view_timer nv s s0 : armed (effects s0) = armed (effects s) ->
  enters_with_timer nv s (enter_new_view w nv s0).
Proof.
  intros Ea. unfold enters_with_timer, enter_new_view. cbv zeta. rewrite <- Ea. by destruct (_ =? _).
Qed.

Lemma enters_with_timer_still nv s s1 s' :
  enters_with_timer nv s s1 -> clock s' = clock s1 -> enters_with_timer nv s s'.
Proof.
  intros [Hv Ha] E. unfold clock in E. unfold enters_with_timer.
  replace (view (rs s')) with (view (rs s1)) by congruence.
  replace (armed (effects s')) with (armed (effects s1)) by congruence.
  replace (timeout_interval_ms (rs s')) with (timeout_interval_ms (rs s1)) by congruence. done.
Qed.

Lemma replica_decide_clock s s' :
  replica_decide w s = Ok s' ->
  clock s' = clock s \/ enters_with_timer (add_u64 (view (rs s)) 1) s s'.
Proof.
  unfold replica_decide. cbv zeta. destruct (negb _); [intros [= <-]; by left|].
  destruct (staged_decide_qc _ !! _) as [qc|]; [|intros [= <-]; by left].
  intros (s1 & E1%try_execute_chain_still & [= <-])%result_bind_Ok. right.
  apply (enter_new_view_timer _ s (upd _ s1)). unfold clock in E1. by injection E1.
Qed.

Lemma try_advance_clock `{HashOrder} s s' :
  try_advance w s = Ok s' ->
  clock s' = clock s \/ enters_with_timer (add_u64 (view (rs s)) 1) s s'.
Proof.
  intros (s1 & E1 & Hr)%result_bind_Ok. apply result_bind_Ok in Hr as (s2 & E2 & Hr).
  apply result_bind_Ok in Hr as (s3 & E3 & Hr). apply result_bind_Ok in Hr as (s4 & E4 & Hr).
  apply result_bind_Ok in Hr as (s5 & E5 & Hr). apply result_bind_Ok in Hr as (s6 & E6 & Hr).
  apply result_bind_Ok in Hr as (s7 & E7 & Hr). apply result_bind_Ok in Hr as (s8 & E8 & Hr).
  apply result_bind_Ok in Hr as (s9 & E9 & E10).
  assert (clock s7 = clock s) as C7.
  { by rewrite (leader_form_still Commit _ _ E7), (replica_vote_still Commit _ _ E6),
      (leader_form_still PreCommit _ _ E5), (replica_vote_still PreCommit _ _ E4),
      (leader_form_still Prepare _ _ E3), (replica_prepare_still _ _ E2), (leader_prepare_still _ _ E1). }
  assert (clock s' = clock s8) as C8 by (by rewrite (try_kick_still _ _ E10), (retry_still _ _ E9)).
  apply replica_decide_clock in E8 as [E8|E8]; [left; congruence|right].
  eapply enters_with_timer_still; [|exact C8]. unfold clock in C7.
  replace (view (rs s)) with (view (rs s7)) by congruence.
  unfold enters_with_timer in *. by replace (armed (effects s)) with (armed (effects s7)) by congruence.
Qed.

Lemma handle_msg_still keys m : still (handle_msg w keys m).
Proof.
  intros s s'. destruct m as [|v nd j k|t v q k|t v h j sig|v j k]; cbn [handle_msg]; [by intros [= <-]|..].
  - unfold handle_proposal. repeat (destruct (negb _); [by intros [= <-]|]). cbv zeta.
    intros Hk. by rewrite (kick_still _ _ _ Hk).
  - unfold handle_phase_qc. destruct (negb _); [by intros [= <-]|].
    destruct (expected_qc_type t); [|by intros [= <-]]. destruct (_ || _); [by intros [= <-]|].
    destruct (negb _); intros [= <-]; [done|]. unfold clock. cbn. unfold stage_qc. cbv zeta.
    destruct t; try done; by case_match.
  - unfold handle_vote. repeat (destruct (negb _); [by intros [= <-]|]). by intros [= <-].
  - unfold handle_new_view. repeat (destruct (negb _); [by intros [= <-]|]). by intros [= <-].
Qed.

Lemma handle_event_clock e s s1 :
  handle_event w e s = Ok s1 ->
  (clock s1 = clock s /\ e <> EvStart /\
     (e = EvTimer (mkTimerEvent (view (rs s))) -> s1 = s /\ seen Commit (vd_at (rs s) (view (rs s))) = true)) \/
  (exists nv, enters_with_timer nv s s1 /\
     ((e = EvStart /\ nv = 1) \/ (e = EvTimer (mkTimerEvent (view (rs s))) /\ nv = add_u64 (view (rs s)) 1))).
Proof.
  destruct e as [|m keys|[tv]|out]; cbn [handle_event].
  - intros [= <-]. right. exists 1. split; [|by left]. by apply (enter_new_view_timer 1 s (upd (set_view 0) s)).
  - intros Hm. left. split; [by eapply handle_msg_still|done].
  - intros [= <-]. unfold handle_timer. cbn [timer_view]. destruct (Z.eqb_spec tv (view (rs s))) as [->|Hne]; cbn [negb].
    + destruct (match vd (rs s) _ with Some _ => _ | None => _ end) eqn:Es.
      * left. split_and!; [done|done|]. intros _. split; [done|]. unfold vd_at.
        by destruct (vd (rs s) (view (rs s))).
      * right. eexists. split; [|by right]. by apply enter_new_view_timer.
    + left. split_and!; [done|done|]. by intros [= ->].
  - intros [= <-]. left. split; [|done]. unfold clock, upd, ingest_validation. cbn. by repeat case_match.
Qed.

(** ** A seen decision is staged *)

Definition decide_staged (r : ReplicaState) : Prop :=
  forall v, seen Commit (vd_at r v) = true -> is_Some (staged Commit r !! v).

Lemma decide_staged_move `{HashOrder} e r es r' : move w e r es r' -> decide_staged r -> decide_staged r'.
Proof.
  intros Hm Hd v Hs. apply (move_seen w e r es r' v Commit Hm) in Hs as [[Hs ->]|(_ & qc & -> & _)]; [auto|eauto].
Qed.

Lemma decide_staged_steps `{HashOrder} e s s' :
  0 <= view (rs s) -> rtc (prim w e (fun v => v + 1 < u64_modulus)) s s' ->
  decide_staged (rs s) ->
  decide_staged (rs s') /\ forall v, seen Commit (vd_at (rs s) v) = true -> seen Commit (vd_at (rs s') v) = true.
Proof.
  intros Hv Hr. revert Hv. induction Hr as [s|s s1 s2 Hp Hr IH]; intros Hv Hd; [done|].
  destruct (prim_move w e s s1 Hv Hp) as (es & _ & Hm).
  destruct (move_scalars w e _ _ _ Hm) as (_ & _ & Hvw).
  destruct IH as [IH1 IH2]; [destruct Hvw as [->|[[_ ->]|(_ & _ & _ & ->)]]; lia|by eapply decide_staged_move|].
  split; [done|]. intros v Hs. apply IH2.
  destruct (move_keeps w e _ _ _ v Hm) as (_ & _ & _ & _ & Hk). auto.
Qed.

(** What a pass of the event loop does to the timers. *)
Definition pass_timers (s s' : Sys) : Prop :=
  (view (rs s') = view (rs s) /\ timeout_interval_ms (rs s') = timeout_interval_ms (rs s) /\
   armed (effects s') = []) \/
  (view (rs s) < view (rs s') /\ exists rest,
     armed (effects s') = (mkTimerEvent (view (rs s')), timeout_interval_ms (rs s')) :: rest /\
     Forall (fun a => timer_view a.1 < view (rs s')) rest).

(** A pass that enters a view arms the timer of the view it ends in, and a
    pass that handles the timer of its view leaves the view. *)
Lemma node_step_timers `{HashOrder} e s s' :
  event_allowed (rs s) e -> (e = EvStart -> view_data (rs s) = ∅) -> 1 <= quorum (rs s) ->
  decide_staged (rs s) -> node_step w e s = Ok s' ->
  pass_timers s s' /\ (e = EvTimer (mkTimerEvent (view (rs s))) -> view (rs s) < view (rs s')).
Proof.
  intros [Hb Ha] Hst Hq Hds Hr. assert (started e (rs s)) as Hev by (destruct e; cbn; auto).
  pose proof Hr as (s1 & E1 & E2)%result_bind_Ok.
  destruct (handle_event_started w e (with_effects [] s) s1 ltac:(cbn; lia) Hev E1) as (Hs1 & H1' & Hv1). cbn in Hv1.
  assert (0 <= view (rs s)) as H0' by (destruct e; lia).
  pose proof (try_advance_clock s1 s' E2) as C2. rewrite add_u64_small in C2 by lia.
  apply handle_event_clock in E1 as [(C1 & Hne & Htm)|(nv & [Hv1' Ha1] & Hnv)].
  - assert (view (rs s1) = view (rs s)) as Ev1 by (unfold clock in C1; cbn in C1; congruence).
    assert (timeout_interval_ms (rs s1) = timeout_interval_ms (rs s)) as Ei1 by (unfold clock in C1; cbn in C1; congruence).
    assert (armed (effects s1) = []) as Ea1 by (unfold clock in C1; by injection C1).
    destruct C2 as [C2|[Hv2 Ha2]].
    + assert (view (rs s') = view (rs s1)) as Ev2 by (unfold clock in C2; congruence).
      split; [left; unfold clock in C2; split_and!; congruence|]. intros He. exfalso.
      destruct (Htm He) as [-> Hsn]. change (seen Commit (vd_at (rs s) (view (rs s))) = true) in Hsn.
      destruct (decide_staged_steps e (with_effects [] s) s') as [Hd Hk]; [done|by apply node_step_steps|done|].
      assert (settled w s') as Hset by (eapply (try_advance_settles w (with_effects [] s)); [exact Hq|cbn; lia|cbn; lia|exact E2|done]).
      pose proof (st_decide _ _ Hset) as Hn. unfold here in Hn. rewrite Ev2 in Hn.
      destruct (Hd (view (rs s)) (Hk _ Hsn)) as [qc Hqc]. pose proof (Hn (Hk _ Hsn)) as Hnone. cbn in Hqc, Hnone. congruence.
    + split; [right|intros _; lia]. split; [lia|]. exists []. rewrite Ha2, Ea1, Hv2. by split.
  - cbn in Ha1. destruct C2 as [C2|[Hv2 Ha2]].
    + assert (view (rs s') = view (rs s1)) as Ev2 by (unfold clock in C2; congruence).
      assert (view (rs s) < view (rs s')) as Hlt.
      { rewrite Ev2, Hv1'. destruct Hnv as [[-> ->]|[_ ->]]; [lia|]. cbn. rewrite add_u64_small by lia. lia. }
      split; [right; split; [done|]|done]. exists []. split; [|done].
      unfold clock in C2. replace (armed (effects s')) with (armed (effects s1)) by congruence.
      rewrite Ha1, Ev2, Hv1'. by replace (timeout_interval_ms (rs s')) with (timeout_interval_ms (rs s1)) by congruence.
    + assert (view (rs s) < nv) as Hlt.
      { destruct Hnv as [[-> ->]|[_ ->]]; [lia|]. cbn. rewrite add_u64_small by lia. lia. }
      split; [right; split; [lia|]|intros _; lia]. exists [(mkTimerEvent nv, timeout_interval_ms (rs s1))].
      rewrite Ha2, Ha1, Hv2. split; [done|]. constructor; [cbn; lia|done].
Qed.

(** ** The invariant of a replica in time *)

Record paced (T : Timed) : Prop := {
  p_now : entered_at T <= now T;
  p_view : 0 <= view (rs (t_sys T));
  p_quorum : 1 <= quorum (rs (t_sys T));
  p_start : view (rs (t_sys T)) = 0 -> view_data (rs (t_sys T)) = ∅;
  p_staged : decide_staged (rs (t_sys T));
  p_old : Forall (fun t => timer_view t.2 <= view (rs (t_sys T))) (pending T);
  p_armed : 1 <= view (rs (t_sys T)) ->
    timers_of (view (rs (t_sys T))) (pending T) =
      [arm_timer (entered_at T) (mkTimerEvent (view (rs (t_sys T)))) (timeout_interval_ms (rs (t_sys T)))]
}.

Lemma timers_of_app v (ts1 ts2 : list Timer) : timers_of v (ts1 ++ ts2) = timers_of v ts1 ++ timers_of v ts2.
Proof. apply filter_app. Qed.

Lemma timers_of_cons v (t : Timer) ts :
  timers_of v (t :: ts) = if decide (timer_view t.2 = v) then t :: timers_of v ts else timers_of v ts.
Proof. unfold timers_of. by rewrite filter_cons. Qed.

Lemma timers_of_older v (ts : list Timer) :
  Forall (fun t => timer_view t.2 < v) ts -> timers_of v ts = [].
Proof.
  intros Hts. unfold timers_of. induction Hts as [|t ts Ht Hts IH]; [done|]. rewrite filter_cons_False by lia. exact IH.
Qed.

Lemma paced_pass `{HashOrder} T e s' ts :
  paced T -> event_allowed (rs (t_sys T)) e -> node_step w e (t_sys T) = Ok s' -> ts ⊆ pending T ->
  (e = EvTimer (mkTimerEvent (view (rs (t_sys T)))) \/
   timers_of (view (rs (t_sys T))) ts = timers_of (view (rs (t_sys T))) (pending T)) ->
  paced (after_pass s' ts T).
Proof.
  intros [] Ha Hr Hsub Hts. assert (started e (rs (t_sys T))) as Hev.
  { destruct Ha as [_ Hv]. destruct e; cbn; auto. }
  pose proof (proj1 Ha) as Hb.
  destruct (node_step_timers e (t_sys T) s' Ha ltac:(intros ->; apply p_start0, Ha) p_quorum0 p_staged0 Hr) as [Hpt Htm].
  destruct (node_step_views w e (t_sys T) s' Hb Hev Hr) as [H1' Hle].
  pose proof (node_step_steps w e (t_sys T) s' Hb Hev Hr) as Hsteps.
  assert (Forall (fun t => timer_view t.2 <= view (rs (t_sys T))) ts) as Hold.
  { apply Forall_forall. intros t Ht. apply (proj1 (Forall_forall _ _) p_old0), Hsub, Ht. }
  split; cbn [after_pass t_sys now pending entered_at]; try done.
  - destruct (_ =? _); lia.
  - lia.
  - apply steps_quorum in Hsteps; [|done]. cbn in Hsteps. lia.
  - lia.
  - by apply (decide_staged_steps e (with_effects [] (t_sys T)) s' p_view0 Hsteps p_staged0).
  - apply Forall_app. split; [|eapply Forall_impl; [exact Hold|cbn; lia]].
    destruct Hpt as [(_ & _ & ->)|(_ & rest & -> & Hrest)]; [done|]. apply Forall_fmap. constructor; [cbn; lia|].
    eapply Forall_impl; [exact Hrest|cbn; lia].
  - intros _. rewrite timers_of_app. destruct Hpt as [(Ev & Ei & ->)|(Hlt & rest & -> & Hrest)]; cbn [fmap list_fmap].
    + rewrite Ev, Ei, Z.eqb_refl. change (timers_of _ []) with (@nil Timer). cbn [app]. destruct Hts as [He|Heq]; [specialize (Htm He); lia|].
      rewrite Heq. apply p_armed0. lia.
    + destruct (Z.eqb_spec (view (rs s')) (view (rs (t_sys T)))); [lia|].
      rewrite timers_of_cons, decide_True by done. rewrite timers_of_older; [|by apply Forall_fmap].
      rewrite (timers_of_older _ ts); [done|]. eapply Forall_impl; [exact Hold|cbn; lia].
Qed.

Lemma timed_step_paced T T' : timed_step T T' -> paced T -> paced T'.
Proof.
  intros [d Hd|o e s' Hne Ha Hr|o ts1 dl [tv] ts2 s' Ep Hdl Ha Hr] HT.
  - destruct HT. split; cbn; try done. lia.
  - eapply paced_pass; [done..|by right].
  - eapply paced_pass; [done|exact Ha|exact Hr| |].
    + rewrite Ep. intros t. rewrite !elem_of_app, elem_of_cons. tauto.
    + destruct (decide (tv = view (rs (t_sys T)))) as [->|Hne]; [by left|right].
      rewrite Ep, !timers_of_app, timers_of_cons. by rewrite decide_False.
Qed.

(** [main] before [start_protocol]. *)
Definition timed_start (s : Sys) (t : Z) : Timed := mkTimed s t [] t.

Lemma timed_start_paced n base s t :
  1 <= n < u32_modulus -> rs s = new_replica n base -> paced (timed_start s t).
Proof.
  intros Hn Er. split; cbn; rewrite ?Er; try done.
  - rewrite new_replica_quorum by done. pose proof (max_faults_spec n ltac:(lia)). lia.
Qed.

(** C10: a replica is never left without a timer and never times out early: in
    every run from the start, in any view and at any time, exactly one timer
    of the current view is pending, armed when the view was entered for the
    view's timeout; it is delivered no earlier than that, and the pass that
    handles it leaves the view. *)
Theorem pacemaker_armed n base s0 t0 T :
  1 <= n < u32_modulus -> rs s0 = new_replica n base ->
  rtc timed_step (timed_start s0 t0) T -> 1 <= view (rs (t_sys T)) ->
  let due := entered_at T + timeout_interval_ms (rs (t_sys T)) in
  timers_of (view (rs (t_sys T))) (pending T) = [(due, mkTimerEvent (view (rs (t_sys T))))] /\
  forall (o : HashOrder) s', event_allowed (rs (t_sys T)) (EvTimer (mkTimerEvent (view (rs (t_sys T))))) ->
    node_step w (EvTimer (mkTimerEvent (view (rs (t_sys T))))) (t_sys T) = Ok s' ->
    view (rs (t_sys T)) < view (rs s').
Proof.
  intros Hn Er Hr Hv. assert (paced T) as [].
  { apply (timed_start_paced n base s0 t0 Hn) in Er. induction Hr; eauto using timed_step_paced. }
  split; [by apply p_armed0|]. intros o s' Ha Hs.
  by apply (node_step_timers (EvTimer (mkTimerEvent (view (rs (t_sys T))))) (t_sys T) s').
Qed.
End timed.
