(* ===== verification/Integrity.v ===== *)
(** * Integrity: what a replica holds is backed by verified signatures

    The state of one replica through any sequence of event loop passes,
    whatever messages it receives: hashes index the nodes they belong to,
    every recorded vote verifies, every certificate the state holds (staged,
    prepared, lock, decision, NEW-VIEW report, proposal slot) is of the right
    type and view and carries a verified quorum, and so is every message it
    sends.  No assumption is made on who signed what. *)

From Stdlib Require Import ZArith Lia.
From stdpp Require Import prelude strings gmap.
From S2P Require Import Prelude Crypto Ledger Messages Replica Qc VoteLog Workload Validator Wiring Execute Handlers Rules Consensus Invariant Steps Moves History Settled Safety.
Open Scope Z_scope.

Section integrity.
Context `{Sha256, Bincode, SigScheme, FileSystem, Serde, !SigSchemeLaws}.
(** The system size, the wiring, and a bound on the key tables used. *)
Context (n : Z) (w : Wiring) (K : gmap Z verifying_key).
Abbreviation me := (my_id w).
Abbreviation own_sig := (sign_vote (w_sk w)).

(** A certificate of the phase and view with a verified quorum. *)
Definition backed_qc (q : QC) (t : MsgType) (v : Z) : Prop :=
  qc_for q t v /\ verify_qc q (n - max_faults n) K = true.

Definition backed_justify (j : option QC) : Prop := justify_verifies j (n - max_faults n) K = true.

Record intact (r : ReplicaState) : Prop := {
  in_n : n_replicas r = n;
  in_quorum : quorum r = n - max_faults n;
  in_tree_keys : tree_ok (tree r);
  in_slot : forall v leaf high, proposal (vd_at r v) = Some (leaf, high) ->
    is_Some (tree r !! node_hash leaf) /\ parent leaf = justify_parent high /\ backed_justify high;
  in_bucket : forall t v j h sig, bucket t (vd_at r v) !! j = Some (h, sig) ->
    exists pk, K !! j = Some pk /\ verify_vote_sig pk t v h sig = true;
  in_new_view : forall v j q, new_view_msgs (vd_at r v) !! j = Some q -> backed_justify q;
  in_seen : forall t v, seen t (vd_at r v) = true ->
    phase t /\ exists qc, staged t r !! v = Some qc /\ backed_qc qc t v;
  in_bcast : forall t v, bcast t (vd_at r v) = true -> leader n v = me /\ seen t (vd_at r v) = true;
  in_prepare : forall q, prepare_qc r = Some q ->
    seen Prepare (vd_at r (qc_view q)) = true /\ staged Prepare r !! qc_view q = Some q;
  in_lock : forall q, locked_qc r = Some q ->
    seen PreCommit (vd_at r (qc_view q)) = true /\ staged PreCommit r !! qc_view q = Some q;
  in_decided : forall h, h ∈ decided_nodes r ->
    exists v qc, seen Commit (vd_at r v) = true /\ staged Commit r !! v = Some qc /\ qc_node qc = h
}.

(** What a message the replica sends carries. *)
Definition backed_msg (to : option Z) (m : Wire) : Prop :=
  match m with
  | Hello _ _ => False
  | Proposal v leaf high k =>
      to = None /\ k = me /\ leader n v = me /\ parent leaf = justify_parent high /\ backed_justify high
  | PhaseQc t' v q k =>
      to = None /\ k = me /\ leader n v = me /\ exists t, phase t /\ t' = next t /\ backed_qc q t v
  | Vote t v h k sig => to = Some (leader n v) /\ leader n v <> me /\ k = me /\ phase t /\ sig = own_sig t v h
  | NewViewMsg u q k =>
      to = Some (leader n (u + 1)) /\ leader n (u + 1) <> me /\ k = me /\ backed_justify q
  end.

Definition backed_effect (x : Effect) : Prop :=
  match x with
  | Broadcast m => backed_msg None m
  | SendTo j m => backed_msg (Some j) m
  | _ => True
  end.

(** The keys a message is checked with are known, and no vote names its
    receiver as the voter. *)
Definition event_keys (e : Event) : Prop :=
  match e with EvMsg m keys => keys ⊆ K /\ no_self_vote me m | _ => True end.

(** The passes of a replica from its start, with all effects. *)
Inductive passes (t0 : Z) (s0 : Sys) : Sys -> list Effect -> Prop :=
  | passes_start : rs s0 = new_replica n t0 -> passes t0 s0 s0 []
  | passes_pass (o : HashOrder) e s E s' :
      passes t0 s0 s E -> event_allowed (rs s) e -> event_keys e ->
      node_step w e s = Ok s' -> passes t0 s0 s' (effects s' ++ E).

(** ** Every move keeps the state intact *)

Section preserve.
Context `{HashOrder}.
Hypothesis own_key : K !! me = Some (verifying_key_of (w_sk w)).
Hypothesis few_keys : Z.of_nat (size K) < u32_modulus.
Context (e : Event) (r : ReplicaState) (es : list Effect) (r' : ReplicaState).
Hypothesis He : event_keys e.
Hypothesis Hmove : move w e r es r'.
Hypothesis Hr : intact r.

Lemma leader_n v : leader_for r v = leader n v.
Proof. unfold leader_for, leader. by rewrite (in_n _ Hr). Qed.

Lemma justify_keys j keys : keys ⊆ K -> justify_verifies j (quorum r) keys = true -> backed_justify j.
Proof. rewrite (in_quorum _ Hr). destruct j as [q|]; [|done]. by apply verify_qc_keys. Qed.

Lemma prepare_backed : backed_justify (prepare_qc r).
Proof.
  destruct (prepare_qc r) as [q|] eqn:Eq; [|done]. apply (in_prepare _ Hr) in Eq as [Hs Est].
  apply (in_seen _ Hr) in Hs as (_ & qc & Est' & _ & Hv). by simplify_eq.
Qed.

Lemma form_backed t v qc :
  form_qc (bucket t (vd_at r v)) t v (quorum r) = Some qc -> backed_qc qc t v.
Proof.
  rewrite (in_quorum _ Hr). intros Hf. split.
  - by apply form_qc_sound in Hf as (? & ? & _).
  - eapply form_qc_verifies; [done| |exact Hf]. intros j h sig. apply (in_bucket _ Hr).
Qed.

Lemma high_backed v : backed_justify (choose_high_qc r v).
Proof.
  unfold choose_high_qc. destruct (max_by_key _ _) as [q|] eqn:Em; [|done].
  apply max_by_key_elem, list_elem_of_omap in Em as ([j oq] & Hin%elem_of_hash_iter & [= ->]).
  exact (in_new_view _ Hr v j (Some q) Hin).
Qed.

Lemma slot_intact v leaf high : proposal (vd_at r' v) = Some (leaf, high) ->
  is_Some (tree r' !! node_hash leaf) /\ parent leaf = justify_parent high /\ backed_justify high.
Proof.
  intros Hp. pose proof (move_proposal w e r es r' v leaf high Hmove Hp) as [Hold|[Hnone _]].
  - destruct (in_slot _ Hr v leaf high Hold) as (Ht & ? & ?).
    split; [by eapply move_keeps_tree|done].
  - destruct (move_slot w e r es r' v leaf high Hmove Hnone Hp) as (? & ? & [[u ->]|(m & keys & -> & Hj)]);
      (split_and!; [done|done|]); [apply high_backed|]. by eapply justify_keys; [apply He|].
Qed.

Lemma bucket_intact t v j h sig : bucket t (vd_at r' v) !! j = Some (h, sig) ->
  exists pk, K !! j = Some pk /\ verify_vote_sig pk t v h sig = true.
Proof.
  intros Hb. apply (move_bucket w e r es r' v t j h sig Hmove) in Hb as [Hb|[(-> & _ & ->)|(keys & -> & Ha)]].
  - by apply (in_bucket _ Hr) in Hb.
  - eexists. split; [exact own_key|]. apply verify_sign_vote.
  - destruct He as [Hsub Hne]. unfold vote_accepted in Ha.
    destruct (Z.eqb_spec j me) as [->|]; [done|].
    destruct (keys !! j) as [pk|] eqn:Ek; [|done]. exists pk. split; [by eapply lookup_weaken|done].
Qed.

Lemma new_view_intact v j q : new_view_msgs (vd_at r' v) !! j = Some q -> backed_justify q.
Proof.
  intros Hq. apply (move_new_view w e r es r' v j q Hmove) in Hq as
    [Hq|[(_ & _ & -> & _)|(keys & -> & Hv)]]; [by eapply (in_new_view _ Hr)|apply prepare_backed|].
  by eapply justify_keys; [apply He|].
Qed.

Lemma seen_intact t v : seen t (vd_at r' v) = true ->
  phase t /\ exists qc, staged t r' !! v = Some qc /\ backed_qc qc t v.
Proof.
  intros Hs. apply (move_seen w e r es r' v t Hmove) in Hs as
    [[Hs Est]|(Ht & qc & Hst & [(-> & _ & Hf & _)|(keys & -> & Hq & Hv & _)])].
  - rewrite Est. by apply (in_seen _ Hr).
  - split; [done|]. exists qc. split; [done|]. by apply form_backed.
  - split; [done|]. exists qc. split; [done|]. split; [done|]. rewrite (in_quorum _ Hr) in Hv.
    destruct He. by eapply verify_qc_keys.
Qed.

(** A staged certificate stays. *)
Lemma staged_keep t v qc : seen t (vd_at r v) = true /\ staged t r !! v = Some qc ->
  seen t (vd_at r' v) = true /\ staged t r' !! v = Some qc.
Proof.
  intros [Hs Hst]. destruct (move_keeps w e r es r' v Hmove) as (_ & _ & _ & _ & Hk). split; [auto|].
  rewrite (move_keeps_staged w e r es r' v t Hmove); auto.
Qed.

Lemma bcast_intact t v : bcast t (vd_at r' v) = true -> leader n v = me /\ seen t (vd_at r' v) = true.
Proof.
  intros Hb. apply (move_bcast w e r es r' v t Hmove) in Hb as [Hb|(-> & _ & Hl & Hs & _)].
  - destruct (in_bcast _ Hr t v Hb) as [Hl Hs]. split; [done|].
    destruct (move_keeps w e r es r' v Hmove) as (_ & _ & _ & _ & Hk). auto.
  - by rewrite leader_n in Hl.
Qed.

Lemma certificate_intact t q q0 :
  staged t r !! view r = Some q0 -> seen t (vd_at r (view r)) = true -> q = q0 ->
  seen t (vd_at r' (qc_view q)) = true /\ staged t r' !! qc_view q = Some q.
Proof.
  intros Hst Hs ->. apply staged_keep. pose proof (in_seen _ Hr _ _ Hs) as (_ & qc & Hst' & [[_ Hv] _]).
  simplify_eq. by rewrite Hv.
Qed.

Lemma intact_move : intact r'.
Proof.
  destruct (move_scalars w e r es r' Hmove) as (En & Eq & _). split.
  - rewrite En. apply Hr.
  - rewrite Eq. apply Hr.
  - intros h nd Hnd. destruct (move_tree w e r es r' h nd Hmove Hnd) as [?|?]; [by apply (in_tree_keys _ Hr)|done].
  - apply slot_intact.
  - apply bucket_intact.
  - apply new_view_intact.
  - apply seen_intact.
  - apply bcast_intact.
  - intros q Hq. destruct (move_prepare_qc w e r es r' Hmove) as [E|(q0 & ? & ? & ? & _)].
    + rewrite E in Hq. by apply staged_keep, (in_prepare _ Hr).
    + eapply certificate_intact; [done|done|congruence].
  - intros q Hq. destruct (move_lock w e r es r' Hmove) as [E|(q0 & ? & ? & ? & _)].
    + rewrite E in Hq. by apply staged_keep, (in_lock _ Hr).
    + eapply certificate_intact; [done|done|congruence].
  - intros h Hh. apply (move_decides w e r es r' h Hmove) in Hh as [Hh|?]; [|done].
    destruct (in_decided _ Hr h Hh) as (v & qc & Hs & Hst & E). exists v, qc.
    by destruct (staged_keep Commit v qc (conj Hs Hst)).
Qed.

(** *** Every message it sends is backed *)

Lemma effects_backed : Forall (backed_effect) es.
Proof.
  apply Forall_forall. intros x Hx. destruct x as [m|j m| | | |]; try done; cbn.
  - destruct (move_broadcast w e r es r' m Hmove Hx) as (Hl & _ &
      [(leaf & high & -> & _ & _ & _ & _ & _ & -> & Hpar)|(t & qc & Ht & -> & _ & Hf)]); rewrite leader_n in Hl.
    + split_and!; [done|done|done|done|apply high_backed].
    + split_and!; [done|done|done|]. exists t. split_and!; [done|done|by apply form_backed].
  - destruct (move_send w e r es r' j m Hmove Hx) as (Hne & [(t & h & -> & -> & Hs)|(nv & Hent & -> & -> & _)]);
      rewrite leader_n in *.
    + destruct (move_signed w e r es r' t _ h Hmove Hs) as (_ & _ & _ & _ & (r0 & Hg & _) & _).
      split_and!; [done|done|done| |done]. unfold phase. destruct Hg; auto.
    + assert (nv = view r + 1) as -> by (destruct Hent as [[_ ->]|(_ & -> & _ & ->)]; lia). split_and!; [done|done|done|apply prepare_backed].
Qed.
End preserve.

(** ** Along the passes *)

Lemma intact_step `{HashOrder} e s s' :
  K !! me = Some (verifying_key_of (w_sk w)) -> Z.of_nat (size K) < u32_modulus ->
  view (rs s) + 2 < u64_modulus -> started e (rs s) -> event_keys e ->
  intact (rs s) -> node_step w e s = Ok s' -> intact (rs s') /\ Forall backed_effect (effects s').
Proof.
  intros Hk Hsz Hv Hst He Hi Hs. apply (node_step_steps w e s s' Hv Hst) in Hs.
  assert (intact (rs (with_effects [] s)) /\ Forall backed_effect (effects (with_effects [] s))) as Hi0 by done.
  assert (0 <= view (rs (with_effects [] s))) as Hv0 by (cbn; destruct e; cbn in Hst; lia).
  revert Hi0 Hv0. generalize dependent (with_effects [] s). clear Hi Hst Hv. intros s0 Hr [Hi0 He0] Hv0.
  induction Hr as [s0|s0 s1 s2 Hp Hr IH]; [done|].
  destruct (prim_move w e s0 s1 Hv0 Hp) as (es & Ees & Hm). apply IH.
  - by eapply intact_move.
  - rewrite Ees. apply Forall_app. split; [by eapply effects_backed|done].
  - destruct (move_scalars w e _ _ _ Hm) as (_ & _ & [->|[[_ ->]|(_ & _ & _ & ->)]]); lia.
Qed.

Lemma intact_new t : 1 <= n < u32_modulus -> intact (new_replica n t).
Proof.
  intros Hn. split; try done.
  - by apply new_replica_quorum.
  - intros ty v j h sig. by destruct ty.
  - intros ty v. by destruct ty.
  - intros ty v. by destruct ty.
Qed.

Lemma passes_views t0 s0 s E : passes t0 s0 s E -> view (rs s) = 0 -> view_data (rs s) = ∅.
Proof.
  intros Hp. induction Hp as [E0|o e s E s' Hp IH [Hv Ha] He Hs]; [by rewrite E0|]. intros E0.
  assert (started e (rs s)) as Hst by (destruct e; cbn; auto).
  destruct (node_step_views w e s s' Hv Hst Hs). lia.
Qed.

End integrity.
