(* ===== verification/Execution.v ===== *)
(** * Execution: what a re-executing replica computes

    A replica that re-executes blocks holds, at every moment, the state that
    results from applying the workload's blocks up to its last executed
    height, as long as the proposals it sees carry the height of their
    position in the chain. *)

From Stdlib Require Import ZArith Lia.
From stdpp Require Import prelude strings gmap.
From S2P Require Import Prelude Crypto Ledger Messages Replica Qc Workload Zk Validator Wiring Execute Handlers Rules Consensus Process.
Open Scope Z_scope.

Section process.
Context `{Sha256, Bincode, SigScheme, FileSystem, Serde, Sp1}.
Context (w : Wiring) (val : Validator).

(** ** Replay: the reference execution *)

(** The transactions of a block, as the worker reads them. *)
Definition txs_file (dir : path) (h : Z) : path :=
  path_join (path_join dir (block_dir_name h)) "transactions.bin".

Definition block_txs (dir : path) (h : Z) : option (list Tx) :=
  fs_read (txs_file dir h) ≫= deserialize_txs.

(** The state after blocks [0 .. k - 1]. *)
Fixpoint replay (dir : path) (init : State) (k : nat) : option State :=
  match k with
  | O => Some init
  | S k => st ← replay dir init k; txs ← block_txs dir (Z.of_nat k); Some (apply_block st txs).1
  end.

(** ** The invariant *)

Section reexecute.
Context (init : State) (T : gmap (list Z) Node).
Abbreviation dir := (workload_dir (w_workload w)).
(** The state before the block of height [h]. *)
Definition state_before (h : Z) : option State := replay dir init (Z.to_nat h).

(** The block tree: every node that is proposed to or by the replica, with
    the height of its position. *)
Definition heights_ok : Prop := forall h nd, T !! h = Some nd ->
  0 <= height nd < i64_bound /\
  (parent nd = GENESIS_HASH -> height nd = 0) /\
  (forall p, T !! parent nd = Some p -> height nd = height p + 1).

Record request_ok (last : Z) (rq : ValidateRequest * State) : Prop := {
  rq_node : exists nd, T !! req_node_hash rq.1 = Some nd /\ height nd = req_height rq.1;
  rq_path : req_txs_path rq.1 = txs_file dir (req_height rq.1);
  rq_state : req_height rq.1 <= last \/ state_before (req_height rq.1) = Some rq.2
}.

(** [Q] is the worker's queue when the event loop pass started. *)
Record exec_ok (Q : list (ValidateRequest * State)) (s : Sys) : Prop := {
  e_last : -1 <= last_executed_height (rs s);
  e_live : state_before (last_executed_height (rs s) + 1) = Some (live_state s);
  e_tree : tree (rs s) ⊆ T;
  e_post : forall h ps, post_state_by_node (rs s) !! h = Some ps -> exists nd, T !! h = Some nd /\
    (height nd <= last_executed_height (rs s) \/ state_before (height nd + 1) = Some ps);
  e_valid : forall h, validation_result (rs s) !! h = Some true -> exists nd, T !! h = Some nd /\
    (height nd <= last_executed_height (rs s) \/ is_Some (post_state_by_node (rs s) !! h));
  e_queue : Forall (request_ok (last_executed_height (rs s))) (Q ++ submitted (effects s))
}.

Lemma exec_ok_calm Q s s' : calm s s' -> exec_ok Q s -> exec_ok Q s'.
Proof.
  intros Hcalm. pose proof (calm_submitted _ _ Hcalm) as Hs. destruct Hcalm as [Hc _].
  intros []. unfold exec_core in Hc. injection Hc as E1 E2 E3 E4 E5 _.
  split; rewrite ?Hs, ?E1, ?E2, ?E3, ?E4, ?E5; done.
Qed.

Lemma request_ok_mono last last' rq : last <= last' -> request_ok last rq -> request_ok last' rq.
Proof. intros Hl [Hn Hp [?|?]]; split; auto. left. lia. Qed.

Section heights.
Hypothesis Hheights : heights_ok.

Lemma node_i64 h nd : T !! h = Some nd -> as_i64 (height nd) = height nd.
Proof.
  intros E. destruct (Hheights h nd E) as [Hr _]. unfold as_i64.
  destruct (Z.ltb_spec (height nd) i64_bound); lia.
Qed.

(** The input state [maybe_kick_validation] selects is the state before the
    block, unless the block's height is already executed. *)
Lemma validation_input_ok Q s h nd st :
  exec_ok Q s -> T !! h = Some nd -> validation_input (rs s) (live_state s) nd = Some st ->
  height nd <= last_executed_height (rs s) \/ state_before (height nd) = Some st.
Proof.
  intros [Hlast Hlive Htree Hpost _ _] Hnd. destruct (Hheights h nd Hnd) as (Hr & Hg & Hp).
  unfold validation_input. destruct (decide _) as [Hgen|Hgen].
  { destruct (Z.leb_spec 0 (last_executed_height (rs s))); [done|]. intros [= <-].
    right. rewrite (Hg Hgen). by replace 0 with (last_executed_height (rs s) + 1) by lia. }
  destruct (tree (rs s) !! parent nd) as [pn|] eqn:Ep; [|done].
  pose proof (lookup_weaken _ _ _ _ Ep Htree) as Ep'. specialize (Hp pn Ep').
  rewrite (node_i64 _ _ Ep').
  destruct (Z.leb_spec (height pn) (last_executed_height (rs s))).
  - intros [= <-]. destruct (decide (height nd <= last_executed_height (rs s))); [by left|right].
    by replace (height nd) with (last_executed_height (rs s) + 1) by lia.
  - intros Hps. destruct (Hpost _ _ Hps) as (pn' & Epn & [?|Hst]); simplify_eq; [lia|].
    right. by rewrite Hp.
Qed.

Lemma maybe_kick_ok Q h s s' : exec_ok Q s -> maybe_kick_validation w h s = Ok s' -> exec_ok Q s'.
Proof.
  intros Hs. unfold maybe_kick_validation.
  destruct (validation_result (rs s) !! h); [by intros [= <-]|].
  destruct (decide _); [by intros [= <-]|].
  destruct (tree (rs s) !! h) as [nd|] eqn:En; [|by intros [= <-]].
  intros (b & Hb & Hr)%result_bind_Ok. revert Hr. destruct (negb _); [by intros [= <-]|].
  destruct (validation_input _ _ _) as [st|] eqn:Ei; [|by intros [= <-]].
  intros [= <-]. pose proof (lookup_weaken _ _ _ _ En (e_tree _ _ Hs)) as Hnd.
  pose proof (validation_input_ok _ _ _ _ _ Hs Hnd Ei) as Hin.
  apply block_at_Ok in Hb as (_ & Hpath & _).
  destruct Hs. split; try done.
  assert (forall r, submitted (effects (emit (SubmitValidation r st) s)) = submitted (effects s) ++ [(r, st)])
    as Hsub by done.
  unfold upd, with_rs, emit in *. cbn [effects rs] in *. rewrite Hsub, app_assoc.
  apply Forall_app. split; [done|]. apply Forall_singleton. split; simpl; eauto.
Qed.

Lemma execute_node_ok Q nh nd s s' :
  exec_ok Q s -> tree (rs s) !! nh = Some nd -> height nd = last_executed_height (rs s) + 1 ->
  validation_result (rs s) !! nh = Some true ->
  execute_node nh (height nd) s = Ok s' -> exec_ok Q s'.
Proof.
  intros [Hlast Hlive Htree Hpost Hvalid Hq] En Hh Hv.
  pose proof (lookup_weaken _ _ _ _ En Htree) as Hnd.
  destruct (Hvalid nh Hv) as (nd1 & E1 & [?|[ps Eps]]); simplify_eq; [lia|].
  destruct (Hpost nh ps Eps) as (nd2 & E2 & [?|Hps]); simplify_eq; [lia|].
  unfold execute_node, take_post_state. rewrite Eps.
  intros (s1 & Hadv & [= <-])%result_bind_Ok.
  assert (tree (rs s1) = tree (rs s) /\ validation_result (rs s1) = validation_result (rs s) /\
      post_state_by_node (rs s1) = delete nh (post_state_by_node (rs s)) /\ live_state s1 = ps /\
      effects s1 = effects s) as (Hc2 & Hc3 & Hc4 & Hc5 & He).
  { unfold advance_root in Hadv. revert Hadv. cbn.
    destruct (pre_root_by_node (rs s) !! nh); [|by intros [= <-]].
    destruct (_ && _); [done|]. destruct (post_root_by_node (rs s) !! nh); by intros [= <-]. }
  split; unfold upd, with_rs, emit; cbn; rewrite ?(node_i64 _ _ Hnd).
  - lia.
  - by rewrite Hc5.
  - by rewrite Hc2.
  - intros h p. rewrite Hc4. intros [_ E]%lookup_delete_Some.
    destruct (Hpost h p E) as (nd' & ? & [?|?]); exists nd'; [split; [done|left; lia]|auto].
  - intros h. rewrite Hc3, Hc4. intros E.
    destruct (decide (nh = h)) as [<-|Hne]; [exists nd; split; [done|left; lia]|].
    rewrite lookup_delete_ne by done. destruct (Hvalid h E) as (nd' & ? & [?|?]); exists nd';
      [split; [done|left; lia]|auto].
  - rewrite He. eapply Forall_impl; [exact Hq|]. intros rq. apply request_ok_mono. lia.
Qed.

(** A re-execution answers a request with the state after the block. *)
Lemma run_validation_ok rq delay out last :
  request_ok last rq -> run_validation rq.1 rq.2 (Reexecute delay) = Ok out ->
  out_node_hash out = req_node_hash rq.1 /\ is_Some (T !! out_node_hash out) /\
  (out_valid out = true -> is_Some (out_post_state out)) /\
  forall ps, out_post_state out = Some ps -> exists nd, T !! out_node_hash out = Some nd /\
    (height nd <= last \/ state_before (height nd + 1) = Some ps).
Proof.
  intros [(nd & Hn & Hh) Hp Hst]. unfold run_validation. rewrite Hp.
  assert (is_Some (T !! req_node_hash rq.1)) as Hsome by eauto.
  destruct (fs_read _) as [bytes|] eqn:Ef; [|intros [= <-]; split_and!; by simpl].
  destruct (deserialize_txs bytes) as [txs|] eqn:Ed; intros [= <-]; [|split_and!; by simpl].
  split_and!; [done|done|by eexists|]. simpl. intros ps [= <-]. exists nd. split; [done|].
  rewrite Hh. destruct Hst as [?|Hst]; [by left|right].
  destruct (Hheights _ _ Hn) as (Hr & _).
  unfold state_before in *. replace (Z.to_nat (req_height rq.1 + 1)) with (S (Z.to_nat (req_height rq.1))) by lia.
  simpl. rewrite Hst. simpl. unfold block_txs. rewrite Z2Nat.id, Ef by lia. simpl. by rewrite Ed.
Qed.

Lemma ingest_validation_ok Q rq delay out s :
  exec_ok (rq :: Q) s -> run_validation rq.1 rq.2 (Reexecute delay) = Ok out ->
  exec_ok Q (upd (ingest_validation out) s).
Proof.
  intros [Hlast Hlive Htree Hpost Hvalid Hq] Hrun.
  apply Forall_cons in Hq as [Hrq Hq].
  destruct (run_validation_ok _ _ _ _ Hrq Hrun) as (Hnh & [nd0 Hnd0] & Hv & Hps).
  set (s' := upd (ingest_validation out) s).
  assert (last_executed_height (rs s') = last_executed_height (rs s) /\ tree (rs s') = tree (rs s) /\
      validation_result (rs s') = <[out_node_hash out := out_valid out]> (validation_result (rs s)) /\
      post_state_by_node (rs s') = match out_post_state out with
      | Some ps => <[out_node_hash out := ps]> (post_state_by_node (rs s))
      | None => post_state_by_node (rs s) end) as (E1 & E2 & E3 & E4).
  { unfold s', upd, with_rs, ingest_validation. cbv zeta. cbn.
    destruct (out_post_state out), (out_post_root out), (out_pre_root out); cbn;
      match goal with |- context [if ?c then _ else _] => destruct c end; done. }
  split; rewrite ?E1, ?E2, ?E3, ?E4; try done.
  - intros h ps. destruct (out_post_state out) as [ps'|] eqn:Eo; [|apply Hpost].
    intros [[<- <-]|[_ ?]]%lookup_insert_Some; [by apply Hps|by apply Hpost].
  - intros h. intros [[<- Ev]|[Hne Ev]]%lookup_insert_Some.
    + exists nd0. split; [done|right]. destruct (Hv Ev) as [ps ->]. rewrite lookup_insert_eq. by eexists.
    + destruct (Hvalid h Ev) as (nd & ? & [?|Hsome]); exists nd; [auto|]. split; [done|right].
      destruct (out_post_state out); [by rewrite lookup_insert_ne|done].
Qed.

Lemma exec_ok_start Q s : exec_ok Q s -> exec_ok (Q ++ submitted (effects s)) (with_effects [] s).
Proof.
  intros []. split; try done. change (submitted (effects (with_effects [] s))) with
    (@nil (ValidateRequest * State)). by rewrite app_nil_r.
Qed.

#[global] Instance exec_ok_invariant delay : val = Reexecute delay -> ExecInvariant w val T exec_ok.
Proof.
  intros Hval. split.
  - apply exec_ok_calm.
  - intros Q h s s'. apply maybe_kick_ok.
  - intros Q nh nd s s' Hs En Hh Hv. apply execute_node_ok; [done|done| |done].
    rewrite <- Hh. symmetry. apply (node_i64 nh). by apply (lookup_weaken _ _ _ _ En), Hs.
  - intros Q nd s [] Hn. split; try done. by apply insert_subseteq_l.
  - intros Q rq out s Hs Hr. rewrite Hval in Hr. by eapply ingest_validation_ok.
  - apply exec_ok_start.
Qed.
End heights.
End reexecute.

(** ** Correctness of execution *)

Lemma fresh_proc_ok init T n t : proc_ok (P := exec_ok init T) (fresh_proc n t init).
Proof.
  split; cbn; try done. apply map_empty_subseteq.
Qed.

Lemma reexecuted_state init T n t delay nds p :
  val = Reexecute delay -> heights_ok T -> proposed T nds ->
  proc_run w val (fresh_proc n t init) nds p ->
  -1 <= last_executed_height (rs (p_sys p)) /\
  replay (workload_dir (w_workload w)) init (Z.to_nat (last_executed_height (rs (p_sys p)) + 1))
    = Some (live_state (p_sys p)).
Proof.
  intros Hv HT Hp Hr. pose proof (fresh_proc_ok init T n t) as Hf.
  pose proof (exec_ok_invariant init T HT delay Hv) as Hinv.
  apply (proc_run_ok w val _ _ _ Hr Hp) in Hf.
  split; [apply (e_last _ _ _ _ Hf)|apply (e_live _ _ _ _ Hf)].
Qed.

(** C5: a re-executing replica computes the workload.  Whatever messages,
    timers and validation outcomes it handles, in whatever order, and however
    its hash maps are iterated, its live state is the result of applying
    blocks [0 .. last_executed_height] of the workload to the initial state,
    in order and each exactly once, provided every proposed node carries the
    height of its position in the block tree. *)
Theorem reexecuted_state_correct init T n t delay nds p :
  val = Reexecute delay -> heights_ok T -> proposed T nds ->
  proc_run w val (fresh_proc n t init) nds p ->
  -1 <= last_executed_height (rs (p_sys p)) /\
  replay (workload_dir (w_workload w)) init (Z.to_nat (last_executed_height (rs (p_sys p)) + 1))
    = Some (live_state (p_sys p)).
Proof. apply reexecuted_state. Qed.
End process.

(** replicas that re-execute agree on the state: two of them that run the
    same workload from the same initial state and have executed up to the
    same height hold the same balances, whatever each of them received. *)
Theorem reexecuting_replicas_agree `{Sha256, Bincode, SigScheme, FileSystem, Serde, Sp1}
    w1 w2 d1 d2 init T1 T2 n1 n2 t1 t2 nds1 nds2 p1 p2 :
  workload_dir (w_workload w1) = workload_dir (w_workload w2) ->
  heights_ok T1 -> proposed T1 nds1 -> proc_run w1 (Reexecute d1) (fresh_proc n1 t1 init) nds1 p1 ->
  heights_ok T2 -> proposed T2 nds2 -> proc_run w2 (Reexecute d2) (fresh_proc n2 t2 init) nds2 p2 ->
  last_executed_height (rs (p_sys p1)) = last_executed_height (rs (p_sys p2)) ->
  live_state (p_sys p1) = live_state (p_sys p2).
Proof.
  intros Hw HT1 Hp1 Hr1 HT2 Hp2 Hr2 Hh.
  pose proof (exec_ok_invariant w1 _ init T1 HT1 d1 eq_refl) as I1.
  pose proof (exec_ok_invariant w2 _ init T2 HT2 d2 eq_refl) as I2.
  pose proof (proc_run_ok w1 _ _ _ _ Hr1 Hp1 (fresh_proc_ok w1 init T1 n1 t1)) as H1'.
  pose proof (proc_run_ok w2 _ _ _ _ Hr2 Hp2 (fresh_proc_ok w2 init T2 n2 t2)) as H2'.
  apply e_live in H1', H2'. unfold state_before in *. cbn in *. congruence.
Qed.
