(* ===== verification/Verified.v ===== *)
(** * Verified: what a proof-verifying replica knows

    A replica that verifies proofs never holds balances: it chains the state
    roots of the proofs of the executed blocks.  The chain is linked, and with
    a sound proof system every link is a real state transition. *)

From Stdlib Require Import ZArith Lia.
From stdpp Require Import prelude strings gmap.
From S2P Require Import Prelude Crypto Ledger Messages Replica Qc Workload Zk Validator Wiring Execute Handlers Rules Consensus Process.
Open Scope Z_scope.

Section verify.
Context `{Sha256, Bincode, SigScheme, FileSystem, Serde, Sp1}.
Context (w : Wiring) (vk : sp1_vkey).
Abbreviation dir := (workload_dir (w_workload w)).

(** ** The chain of roots *)

Definition proof_file (dir : path) (h : Z) : path :=
  path_join (path_join dir (block_dir_name h)) "proof.bin".

(** The roots of the verified proof of a block. *)
Definition proof_roots_at (dir : path) (h : Z) : option (list Z * list Z) :=
  bytes ← fs_read (proof_file dir h);
  pi ← deserialize_proof bytes;
  if sp1_verify vk pi then
    c ← public_values_read pi; Some (pre_state_root c, post_state_root c)
  else None.
Abbreviation proof_roots := (proof_roots_at dir).

(** [root_chain k pre post]: the proofs of blocks [0 .. k - 1] verify, each
    starts from the root the previous one ends with, the first starts from
    [pre] and the last ends with [post]. *)
Inductive root_chain : nat -> list Z -> list Z -> Prop :=
  | root_first pre post : proof_roots 0 = Some (pre, post) -> root_chain 1 pre post
  | root_next k pre mid post :
      root_chain k pre mid -> proof_roots (Z.of_nat k) = Some (mid, post) ->
      root_chain (S k) pre post.

Lemma root_chain_last k pre post :
  root_chain (S k) pre post -> exists mid, proof_roots (Z.of_nat k) = Some (mid, post).
Proof. inversion 1; subst; eauto. Qed.

(** ** The invariant *)
Section invariant.
Context (T : gmap (list Z) Node).

Definition heights_small : Prop := forall h nd, T !! h = Some nd -> 0 <= height nd < i64_bound.

Definition proof_request_ok (rq : ValidateRequest * State) : Prop :=
  exists nd, T !! req_node_hash rq.1 = Some nd /\ req_proof_path rq.1 = proof_file dir (height nd).

(** The request is for a node on genesis, or one with a parent of a height
    that is not above [last]. *)
Definition parent_executed (rq : ValidateRequest) (last : Z) : Prop :=
  exists nd, T !! req_node_hash rq = Some nd /\
    (parent nd = GENESIS_HASH \/ exists pn, T !! parent nd = Some pn /\ height pn <= last).

Record verify_ok (Q : list (ValidateRequest * State)) (s : Sys) : Prop := {
  v_last : -1 <= last_executed_height (rs s);
  v_chain : 0 <= last_executed_height (rs s) ->
    exists pre, root_chain (Z.to_nat (last_executed_height (rs s) + 1)) pre (chained_root s);
  v_tree : tree (rs s) ⊆ T;
  v_post_state : post_state_by_node (rs s) = ∅;
  v_roots : forall h pre, pre_root_by_node (rs s) !! h = Some pre ->
    exists nd post, T !! h = Some nd /\ proof_roots (height nd) = Some (pre, post);
  v_post_roots : forall h post, post_root_by_node (rs s) !! h = Some post ->
    exists nd pre, T !! h = Some nd /\ proof_roots (height nd) = Some (pre, post);
  v_valid : forall h, validation_result (rs s) !! h = Some true -> exists nd, T !! h = Some nd /\
    (height nd <= last_executed_height (rs s) \/
     is_Some (pre_root_by_node (rs s) !! h) /\ is_Some (post_root_by_node (rs s) !! h));
  v_queue : Forall proof_request_ok (Q ++ submitted (effects s));
  v_parents : forall l1 rq st l2, exec_events (effects s) = l1 ++ SubmitValidation rq st :: l2 ->
    parent_executed rq (last_executed_height (rs s) - Z.of_nat (length (executed l1)))
}.

Hypothesis Hsmall : heights_small.

Lemma small_i64 h nd : T !! h = Some nd -> as_i64 (height nd) = height nd.
Proof.
  intros E. pose proof (Hsmall h nd E). unfold as_i64.
  destruct (Z.ltb_spec (height nd) i64_bound); lia.
Qed.

Lemma verify_ok_calm Q s s' : calm s s' -> verify_ok Q s -> verify_ok Q s'.
Proof.
  intros Hcalm. pose proof (calm_submitted _ _ Hcalm) as Hs. destruct Hcalm as [Hc Hev].
  intros []. unfold exec_core in Hc. injection Hc as E1 E2 E3 E4 E5 E6 E7 E8.
  split; rewrite ?Hs, ?Hev, ?E1, ?E2, ?E3, ?E4, ?E6, ?E7, ?E8; done.
Qed.

Lemma verify_ok_kick Q h : preserves (verify_ok Q) (maybe_kick_validation w h).
Proof.
  intros s s' Hs. unfold maybe_kick_validation.
  destruct (validation_result (rs s) !! h); [by intros [= <-]|].
  destruct (decide _); [by intros [= <-]|].
  destruct (tree (rs s) !! h) as [nd|] eqn:En; [|by intros [= <-]].
  intros (b & Hb & Hr)%result_bind_Ok. revert Hr. destruct (negb _); [by intros [= <-]|].
  destruct (validation_input _ _ _) as [st|] eqn:Hst; [|by intros [= <-]]. intros [= <-].
  pose proof (lookup_weaken _ _ _ _ En (v_tree _ _ Hs)) as Hnd.
  apply block_at_Ok in Hb as (_ & _ & Hpath & _).
  assert (parent_executed (mkValidateRequest h (height nd) (block_txs_path b) (block_proof_path b)
    (meta_txs_total (block_meta b))) (last_executed_height (rs s))) as Hpar.
  { exists nd. split; [done|]. unfold validation_input in Hst. destruct (decide _) as [?|_]; [by left|right].
    destruct (tree (rs s) !! parent nd) as [pn|] eqn:Epn; [|done].
    pose proof (lookup_weaken _ _ _ _ Epn (v_tree _ _ Hs)) as Epn'. rewrite (small_i64 _ _ Epn') in Hst.
    exists pn. split; [done|]. destruct (Z.leb_spec (height pn) (last_executed_height (rs s))); [done|].
    by rewrite (v_post_state _ _ Hs), lookup_empty in Hst. }
  destruct Hs. split; try done; cycle 1.
  { intros [|x l1] rq st' l2 [= <- Hl]; cbn [emit upd rs with_rs]; [by rewrite Z.sub_0_r|].
    by apply (v_parents0 l1 rq st' l2) in Hl. }
  set (rq := mkValidateRequest _ _ _ _ _).
  change (submitted (effects (emit (SubmitValidation rq st)
    (upd (set_pending_validation (Some h)) s)))) with (submitted (effects s) ++ [(rq, st)]).
  rewrite app_assoc. apply Forall_app. split; [done|]. apply Forall_singleton. by exists nd.
Qed.

(** Executing a validated block extends the chain by its proof. *)
Lemma verify_ok_execute Q nh nd s s' :
  verify_ok Q s -> tree (rs s) !! nh = Some nd ->
  as_i64 (height nd) = last_executed_height (rs s) + 1 ->
  validation_result (rs s) !! nh = Some true ->
  execute_node nh (height nd) s = Ok s' -> verify_ok Q s'.
Proof.
  intros [Hlast Hchain Htree Hps Hpre Hpost Hvalid Hq Hpar] En Hh Hv.
  pose proof (lookup_weaken _ _ _ _ En Htree) as Hnd. rewrite (small_i64 _ _ Hnd) in Hh.
  destruct (Hvalid nh Hv) as (nd1 & E1 & [?|[[pre Epre] [post Epost]]]); simplify_eq; [lia|].
  destruct (Hpre nh pre Epre) as (nd2 & post' & E2 & Hr1). simplify_eq.
  destruct (Hpost nh post Epost) as (nd2 & pre' & E2 & Hr2). simplify_eq.
  unfold execute_node, take_post_state. rewrite Hps, lookup_empty.
  unfold advance_root. rewrite Epre, Epost.
  destruct ((0 <? height nd) && _) eqn:Ec; [done|]. simpl. intros [= <-].
  split; unfold upd, with_rs, with_chained_root, emit; cbn; rewrite ?(small_i64 _ _ Hnd); try done.
  - lia.
  - intros _. destruct (Z.ltb_spec 0 (height nd)) as [Hpos|Hz]; simpl in Ec.
    + case_bool_decide as Hc; [subst|done]. destruct (Hchain ltac:(lia)) as [pre0 Hch].
      exists pre0. replace (Z.to_nat (height nd + 1)) with (S (Z.to_nat (height nd))) by lia.
      eapply root_next; [by rewrite Hh|]. by rewrite Z2Nat.id by lia.
    + pose proof (Hsmall _ _ Hnd). exists pre.
      replace (height nd) with 0 in * by lia. by apply root_first.
  - intros h p. intros [_ E]%lookup_delete_Some. by apply Hpost.
  - intros h E. destruct (decide (nh = h)) as [<-|Hne]; [exists nd; split; [done|left; lia]|].
    rewrite lookup_delete_ne by done.
    destruct (Hvalid h E) as (nd' & ? & [?|?]); exists nd'; [split; [done|left; lia]|auto].
  - intros [|x l1] rq st l2 [= <- Hl]. apply Hpar in Hl. revert Hl. unfold executed. cbn.
    rewrite length_app. cbn [length]. by replace (last_executed_height (rs s) - _) with (height nd -
      Z.of_nat (length (rev (omap (fun e => match e with LogExecute h0 nh0 => Some (h0, nh0) | _ => None end) l1)) + 1))
      by lia.
Qed.

(** The answer of a proof verification. *)
Lemma verify_validation_ok rq out :
  proof_request_ok rq -> run_validation rq.1 rq.2 (Verify vk) = Ok out ->
  exists nd, T !! out_node_hash out = Some nd /\ out_post_state out = None /\
    match out_pre_root out, out_post_root out with
    | Some pre, Some post => proof_roots (height nd) = Some (pre, post)
    | None, None => out_valid out = false
    | _, _ => False
    end.
Proof.
  intros (nd & Hnd & Hp). unfold run_validation. rewrite Hp.
  destruct (fs_read _) as [bytes|] eqn:Ef; [|intros [= <-]; by exists nd].
  destruct (deserialize_proof bytes) as [pi|] eqn:Ed; [|intros [= <-]; by exists nd].
  destruct (sp1_verify vk pi) eqn:Ev; simpl; [|intros [= <-]; by exists nd].
  intros (c & Hc & [= <-])%result_bind_Ok. exists nd. split_and!; [done|done|]. simpl.
  unfold proof_roots_at. rewrite Ef. simpl. rewrite Ed. simpl. rewrite Ev.
  unfold expect in Hc. destruct (public_values_read pi); by simplify_eq/=.
Qed.

Lemma verify_ok_ingest Q rq out s :
  verify_ok (rq :: Q) s -> run_validation rq.1 rq.2 (Verify vk) = Ok out ->
  verify_ok Q (upd (ingest_validation out) s).
Proof.
  intros [Hlast Hchain Htree Hps Hpre Hpost Hvalid Hq Hpar] Hrun. apply Forall_cons in Hq as [Hrq Hq].
  destruct (verify_validation_ok _ _ Hrq Hrun) as (nd0 & Hnd0 & Hno & Hroots).
  set (s' := upd (ingest_validation out) s). set (nh := out_node_hash out) in *.
  assert (last_executed_height (rs s') = last_executed_height (rs s) /\ tree (rs s') = tree (rs s) /\
      validation_result (rs s') = <[nh := out_valid out]> (validation_result (rs s)) /\
      post_state_by_node (rs s') = post_state_by_node (rs s) /\
      pre_root_by_node (rs s') = match out_pre_root out with
        Some r => <[nh := r]> (pre_root_by_node (rs s)) | None => pre_root_by_node (rs s) end /\
      post_root_by_node (rs s') = match out_post_root out with
        Some r => <[nh := r]> (post_root_by_node (rs s)) | None => post_root_by_node (rs s) end)
    as (E1 & E2 & E3 & E4 & E5 & E6).
  { unfold s', upd, with_rs, ingest_validation. cbv zeta. cbn. rewrite Hno.
    destruct (out_post_root out), (out_pre_root out); cbn;
      match goal with |- context [if ?c then _ else _] => destruct c end; done. }
  split; rewrite ?E1, ?E2, ?E3, ?E4, ?E5, ?E6; try done;
    destruct (out_pre_root out) as [pre|], (out_post_root out) as [post|]; try done.
  - intros h p [[<- <-]|[_ ?]]%lookup_insert_Some; eauto.
  - intros h p [[<- <-]|[_ ?]]%lookup_insert_Some; eauto.
  - intros h [[<- Ev]|[Hne Ev]]%lookup_insert_Some.
    + exists nd0. split; [done|right]. rewrite !lookup_insert_eq. eauto.
    + rewrite !lookup_insert_ne by done. by apply Hvalid.
  - intros h [[<- Ev]|[Hne Ev]]%lookup_insert_Some; [congruence|by apply Hvalid].
Qed.

#[global] Instance verify_ok_invariant : ExecInvariant w (Verify vk) T verify_ok.
Proof.
  split.
  - apply verify_ok_calm.
  - apply verify_ok_kick.
  - apply verify_ok_execute.
  - intros Q nd s [] Hn. split; try done. by apply insert_subseteq_l.
  - apply verify_ok_ingest.
  - intros Q s []. split; try done. change (submitted (effects (with_effects [] s))) with
      (@nil (ValidateRequest * State)). by rewrite app_nil_r.
    intros l1 rq st l2 Hl. by destruct l1.
Qed.

Lemma fresh_verify_ok n t init : proc_ok (P := verify_ok) (fresh_proc n t init).
Proof. split; cbn; try done; [apply map_empty_subseteq|]. by intros []. Qed.
End invariant.

(** With a sound proof system a linked chain of proofs is a chain of state
    transitions. *)
Inductive transition_chain : nat -> list Z -> list Z -> Prop :=
  | transition_first s txs pre post :
      compute_state_root s = Ok pre -> compute_state_root (apply_block s txs).1 = Ok post ->
      transition_chain 1 pre post
  | transition_next k pre mid post s txs :
      transition_chain k pre mid ->
      compute_state_root s = Ok mid -> compute_state_root (apply_block s txs).1 = Ok post ->
      transition_chain (S k) pre post.

Lemma proof_roots_sound `{!Sp1Sound} h pre post :
  is_ledger_vkey vk -> proof_roots h = Some (pre, post) ->
  exists s txs, compute_state_root s = Ok pre /\ compute_state_root (apply_block s txs).1 = Ok post.
Proof.
  intros Hvk. unfold proof_roots_at. destruct (fs_read _) as [bytes|]; simpl; [|done].
  destruct (deserialize_proof bytes) as [pi|]; simpl; [|done].
  destruct (sp1_verify vk pi) eqn:Ev; [|done].
  destruct (sp1_sound vk pi Hvk Ev) as (s & txs & c & Hp & ->). simpl. intros [= <- <-].
  unfold ledger_program in Hp.
  apply result_bind_Ok in Hp as (pre & Hpre & (post & Hpost & [= <-])%result_bind_Ok). eauto.
Qed.

Lemma root_chain_sound `{!Sp1Sound} k pre post :
  is_ledger_vkey vk -> root_chain k pre post -> transition_chain k pre post.
Proof.
  intros Hvk Hc. induction Hc as [pre post Hr|k pre mid post Hc IH Hr];
    destruct (proof_roots_sound _ _ _ Hvk Hr) as (s & txs & ? & ?).
  - by eapply transition_first.
  - by eapply transition_next.
Qed.

(** C7: a proof-verifying replica follows a chain of verified transitions.
    After executing blocks [0 .. h] its chained root is the post-state root
    of the proof of block [h], every block's proof verified, and each proof
    started from the root the previous one ended with; with a sound proof
    system each link is a real application of some block to some state. *)
Theorem verified_root_chain `{!Sp1Sound} T n t init nds p :
  is_ledger_vkey vk -> heights_small T -> proposed T nds ->
  proc_run w (Verify vk) (fresh_proc n t init) nds p ->
  0 <= last_executed_height (rs (p_sys p)) ->
  exists pre, let k := Z.to_nat (last_executed_height (rs (p_sys p)) + 1) in
    root_chain k pre (chained_root (p_sys p)) /\
    transition_chain k pre (chained_root (p_sys p)).
Proof.
  intros Hvk HT Hp Hr Hl. pose proof (verify_ok_invariant T HT) as Hinv.
  pose proof (fresh_verify_ok T n t init) as Hf. apply (proc_run_ok w _ _ _ _ Hr Hp) in Hf.
  destruct (v_chain _ _ _ Hf Hl) as [pre Hc]. exists pre. split; [exact Hc|by apply root_chain_sound].
Qed.

(** C35: in verify mode a block is submitted for validation only once the
    height of its parent is executed: in every pass of every run, a request
    sent to the validator, by whichever rule, is for a node on genesis or for
    one whose parent's height was executed before the request was sent.  The
    effects are listed latest first, so [l1] is what followed the request,
    and the last executed height at that time was the one at the end of the
    pass less the blocks executed in [l1]. *)
Theorem verify_mode_waits_for_parent T n t init nds p l1 rq st l2 :
  heights_small T -> proposed T nds -> proc_run w (Verify vk) (fresh_proc n t init) nds p ->
  effects (p_sys p) = l1 ++ SubmitValidation rq st :: l2 ->
  exists nd, T !! req_node_hash rq = Some nd /\
    (parent nd = GENESIS_HASH \/ exists pn, T !! parent nd = Some pn /\
       height pn <= last_executed_height (rs (p_sys p)) - Z.of_nat (length (executed l1))).
Proof.
  intros HT Hp Hr Heff. pose proof (verify_ok_invariant T HT) as Hinv.
  pose proof (fresh_verify_ok T n t init) as Hf.
  destruct (proc_run_pass w _ _ _ _ Hr Hp Hf) as [->|[Q HQ]]; [by destruct l1|].
  rewrite <- (executed_events l1). apply (v_parents T Q _ HQ _ _ st (exec_events l2)).
  rewrite Heff. unfold exec_events. by rewrite List.filter_app.
Qed.
End verify.
