(* ===== verification/RunWorkload.v ===== *)
(** * RunWorkload: node/run-workload/src/main.rs

    The offline checker of a saved workload: it re-executes every block,
    compares the results with the saved commits and verifies every proof.
    Timings and the printed summary are not part of the model. *)

From Stdlib Require Import ZArith Lia.
From stdpp Require Import prelude strings gmap.
From S2P Require Import Prelude Crypto Ledger Messages Replica Workload Zk Validator Wiring Process Execution Verified.
Open Scope Z_scope.

(** ** Data: the manifest and the commits as this program reads them *)

Record RwManifest : Type := mkRwManifest {
  rw_num_accounts : Z;
  rw_initial_balance : Z;
  rw_num_txs_per_block : Z;
  rw_num_blocks : Z
}.

Record RwBlockMeta : Type := mkRwBlockMeta {
  rw_block_number : Z;
  rw_pre_state_root : string;
  rw_post_state_root : string;
  rw_tx_hash : string;
  rw_txs_applied : Z;
  rw_txs_total : Z
}.

(** [serde_json::from_str] at the two types. *)
Class RwSerde : Type := {
  rw_parse_manifest : string -> option RwManifest;
  rw_parse_meta : string -> option RwBlockMeta
}.

(** [for i in 0..num_accounts { state.set_balance(i, initial_balance) }] *)
Definition initial_state (num_accounts initial_balance : Z) : State :=
  foldl (fun s i => set_balance s i initial_balance) new_state (seqZ 0 num_accounts).

Section run_workload.
Context `{Sha256, FileSystem, Serde, RwSerde, Sp1}.

(** ** Operations *)

(** One iteration of the block loop. *)
Definition run_block (dir : path) (vk : sp1_vkey) (block_num : Z) (state : State) : result State :=
  let block_dir := path_join dir (block_dir_name block_num) in
  let! text := expect ExpectReadCommit (fs_read_to_string (path_join block_dir "commit.json")) in
  let! meta := expect ExpectParseCommit (rw_parse_meta text) in
  let! _ := exit_if (negb (rw_block_number meta =? block_num)) in
  let! txs_bytes := expect ExpectReadFile (fs_read (path_join block_dir "transactions.bin")) in
  let! txs := expect ExpectDeserialize (deserialize_txs txs_bytes) in
  let! pre_root := compute_state_root state in
  let '(next_state, applied) := apply_block state txs in
  let! post_root := compute_state_root next_state in
  let tx_h := hash_transactions txs in
  let! _ := exit_if (negb (applied =? rw_txs_applied meta)) in
  let! _ := exit_if (negb (bool_decide (hex_encode pre_root = rw_pre_state_root meta))) in
  let! _ := exit_if (negb (bool_decide (hex_encode post_root = rw_post_state_root meta))) in
  let! _ := exit_if (negb (bool_decide (hex_encode tx_h = rw_tx_hash meta))) in
  let! proof_bytes := expect ExpectReadFile (fs_read (path_join block_dir "proof.bin")) in
  let! proof := expect ExpectDeserialize (deserialize_proof proof_bytes) in
  let! commit := expect PublicValuesRead (public_values_read proof) in
  let! _ := exit_if (negb (bool_decide (pre_state_root commit = pre_root))) in
  let! _ := exit_if (negb (bool_decide (post_state_root commit = post_root))) in
  let! _ := exit_if (negb (bool_decide (tx_hash commit = tx_h))) in
  let! _ := exit_if (negb (sp1_verify vk proof)) in
  Ok next_state.

Definition run_workload (dir elf_path : path) : result State :=
  let! text := expect ExpectReadManifest (fs_read_to_string (path_join dir "manifest.json")) in
  let! manifest := expect ExpectParseManifest (rw_parse_manifest text) in
  let! elf := expect ExpectReadFile (fs_read elf_path) in
  let! vk := expect ProverFailed (sp1_setup elf) in
  result_fold (run_block dir vk) (seqZ 0 (rw_num_blocks manifest))
    (initial_state (rw_num_accounts manifest) (rw_initial_balance manifest)).

(** ** Soundness of the checker *)

(** What a passed iteration has established. *)
Record block_checked (dir : path) (vk : sp1_vkey) (h : Z) (st st' : State) : Prop := {
  bc_txs : exists txs k, block_txs dir h = Some txs /\ apply_block st txs = (st', k);
  bc_roots : exists pre post, compute_state_root st = Ok pre /\ compute_state_root st' = Ok post /\
    proof_roots_at vk dir h = Some (pre, post)
}.

Lemma run_block_checked dir vk h st st' :
  run_block dir vk h st = Ok st' -> block_checked dir vk h st st'.
Proof.
  unfold run_block. intros Hr. do 6 bind_step.
  destruct (apply_block st x3) as [st1 k] eqn:Ea. cbv zeta in Hr.
  repeat bind_step. injection Hr as <-. rewrite ?negb_false_iff, ?bool_decide_eq_true in *. subst.
  split.
  - exists x3, k. split; [|done]. unfold block_txs, txs_file. rewrite E2. done.
  - exists (pre_state_root x12), (post_state_root x12). split_and!; [done|done|].
    unfold proof_roots_at, proof_file. rewrite E10. simpl. rewrite E11. simpl. rewrite E16, E12. done.
Qed.

Lemma run_blocks_checked dir vk init k n st :
  replay dir init k = Some st -> forall final,
  result_fold (run_block dir vk) (seqZ (Z.of_nat k) n) st = Ok final ->
  replay dir init (k + Z.to_nat n) = Some final /\
  forall h, Z.of_nat k <= h < Z.of_nat k + n -> exists s s',
    replay dir init (Z.to_nat h) = Some s /\ replay dir init (S (Z.to_nat h)) = Some s' /\
    block_checked dir vk h s s'.
Proof.
  remember (Z.to_nat n) as m eqn:Em. revert k n st Em.
  induction m as [|m IH]; intros k n st Em Hk final.
  { rewrite seqZ_nil by lia. simpl. intros [= <-]. rewrite Nat.add_0_r. split; [done|lia]. }
  rewrite seqZ_cons by lia. simpl. intros (s1 & E1 & E2)%result_bind_Ok.
  apply run_block_checked in E1 as Hb.
  assert (replay dir init (S k) = Some s1) as Hk1.
  { destruct Hb as [(txs & c & Ht & Ha) _]. simpl. rewrite Hk. simpl. rewrite Ht. simpl. by rewrite Ha. }
  replace (Z.succ (Z.of_nat k)) with (Z.of_nat (S k)) in E2 by lia.
  destruct (IH (S k) (Z.pred n) s1 ltac:(lia) Hk1 final E2) as [Hf Hall].
  split; [by rewrite <- Hf; f_equal; lia|].
  intros h Hh. destruct (decide (h = Z.of_nat k)) as [->|Hne].
  - rewrite Nat2Z.id. eauto.
  - apply Hall. lia.
Qed.

(** Everything [run_workload] has checked of a directory. *)
Definition workload_checked (dir : path) (vk : sp1_vkey) (init : State) (num_blocks : Z) : Prop :=
  forall h, 0 <= h < num_blocks -> exists s s',
    replay dir init (Z.to_nat h) = Some s /\ replay dir init (S (Z.to_nat h)) = Some s' /\
    block_checked dir vk h s s'.

Lemma run_workload_checked dir elf_path final :
  run_workload dir elf_path = Ok final ->
  exists text manifest elf vk,
    fs_read_to_string (path_join dir "manifest.json") = Some text /\
    rw_parse_manifest text = Some manifest /\
    fs_read elf_path = Some elf /\ sp1_setup elf = Some vk /\
    let init := initial_state (rw_num_accounts manifest) (rw_initial_balance manifest) in
    replay dir init (Z.to_nat (rw_num_blocks manifest)) = Some final /\
    workload_checked dir vk init (rw_num_blocks manifest).
Proof.
  unfold run_workload. intros Hr. do 4 bind_step. exists x, x0, x1, x2.
  do 4 (split; [done|]). cbv zeta. destruct (run_blocks_checked dir x2 _ 0 _ _ eq_refl final Hr) as [Hf Hall].
  split; [exact Hf|]. intros h Hh. apply Hall. lia.
Qed.

(** C23: a workload the checker accepts is consistent: its final state is the
    replay of all blocks, and for every block the saved proof verifies and
    carries exactly the Merkle roots of the replayed states before and after
    the block. *)
Theorem run_workload_sound dir elf_path final :
  run_workload dir elf_path = Ok final ->
  exists text manifest elf vk,
    fs_read_to_string (path_join dir "manifest.json") = Some text /\
    rw_parse_manifest text = Some manifest /\
    fs_read elf_path = Some elf /\ sp1_setup elf = Some vk /\
    let init := initial_state (rw_num_accounts manifest) (rw_initial_balance manifest) in
    replay dir init (Z.to_nat (rw_num_blocks manifest)) = Some final /\
    forall h, 0 <= h < rw_num_blocks manifest -> exists s s' pre post,
      replay dir init (Z.to_nat h) = Some s /\ replay dir init (S (Z.to_nat h)) = Some s' /\
      compute_state_root s = Ok pre /\ compute_state_root s' = Ok post /\
      proof_roots_at vk dir h = Some (pre, post).
Proof.
  intros (text & m & elf & vk & H1' & H2' & H3' & H4' & Hf & Hall)%run_workload_checked.
  exists text, m, elf, vk. do 4 (split; [done|]). split; [exact Hf|]. intros h Hh.
  destruct (Hall h Hh) as (s & s' & Hs & Hs' & [_ (pre & post & ? & ? & ?)]).
  exists s, s', pre, post. split_and!; done.
Qed.
End run_workload.

(** C6: the two validation modes agree: on a workload the checker accepts, the
    root that a proof-verifying replica has chained after executing height
    [h] is the Merkle root of the balances that a re-executing replica holds
    after executing the same height. *)
Theorem validation_modes_agree `{Sha256, Bincode, SigScheme, FileSystem, Serde, RwSerde, Sp1}
    w1 w2 vk d init num_blocks T1 T2 n1 n2 t1 t2 nds1 nds2 p1 p2 init2 h :
  workload_dir (w_workload w1) = workload_dir (w_workload w2) ->
  workload_checked (workload_dir (w_workload w1)) vk init num_blocks ->
  heights_ok T1 -> proposed T1 nds1 -> proc_run w1 (Reexecute d) (fresh_proc n1 t1 init) nds1 p1 ->
  heights_small T2 -> proposed T2 nds2 -> proc_run w2 (Verify vk) (fresh_proc n2 t2 init2) nds2 p2 ->
  0 <= h < num_blocks ->
  last_executed_height (rs (p_sys p1)) = h -> last_executed_height (rs (p_sys p2)) = h ->
  compute_state_root (live_state (p_sys p1)) = Ok (chained_root (p_sys p2)).
Proof.
  intros Hw Hck HT1 Hp1 Hr1 HT2 Hp2 Hr2 Hh Hl1 Hl2.
  pose proof (exec_ok_invariant w1 _ init T1 HT1 d eq_refl) as I1.
  pose proof (proc_run_ok w1 _ _ _ _ Hr1 Hp1 (fresh_proc_ok w1 init T1 n1 t1)) as E1.
  pose proof (verify_ok_invariant w2 vk T2 HT2) as I2.
  pose proof (proc_run_ok w2 _ _ _ _ Hr2 Hp2 (fresh_verify_ok w2 vk T2 n2 t2 init2)) as E2.
  apply e_live in E1. cbn in E1. unfold state_before in E1. rewrite Hl1 in E1.
  apply v_chain in E2 as [pre Hc]; cbn in *; [|lia]. rewrite Hl2 in Hc.
  destruct (Hck h Hh) as (s & s' & Hs & Hs' & [_ (pre' & post & _ & Hpost & Hroots)]).
  replace (Z.to_nat (h + 1)) with (S (Z.to_nat h)) in E1, Hc by lia.
  rewrite Hs' in E1. injection E1 as <-. rewrite Hpost. f_equal.
  rewrite Hw in Hroots. apply root_chain_last in Hc as [mid Hr].
  rewrite Z2Nat.id in Hr by lia. congruence.
Qed.
