(* ===== verification/Generator.v ===== *)
(** * Generator: zkvm/script/src/bin/network.rs and main.rs

    The workload generator: pseudo-random transactions, native execution,
    proving, and the files it leaves on disk.  Timings are a parameter; the
    prover and the serializers are those of Zk. *)

From Stdlib Require Import ZArith Lia.
From stdpp Require Import prelude strings gmap.
From S2P Require Import Prelude Crypto Ledger Messages Replica Workload Zk Validator Wiring Process Execution Verified RunWorkload.
Open Scope Z_scope.

(** ** Transactions *)

(** [seed.wrapping_mul(6364136223846793005).wrapping_add(1)] *)
Definition lcg (seed : Z) : Z := add_u64 (mul_u64 seed 6364136223846793005) 1.

(** [a % b] *)
Definition rem (a b : Z) : result Z := if b =? 0 then Panic RemainderByZero else Ok (a mod b).

(** One iteration of the loop: the transaction and the advanced seed. *)
Definition generate_tx (num_accounts seed : Z) : result (Tx * Z) :=
  let seed := lcg seed in
  let! f := rem seed num_accounts in
  let f := wrap32 f in
  let seed := lcg seed in
  let! t := rem seed num_accounts in
  let t := wrap32 t in
  let! t := if t =? f then rem (add_u32 t 1) num_accounts else Ok t in
  let seed := lcg seed in
  Ok (mkTx f t (seed mod 10 + 1), seed).

Fixpoint generate_txs (num_txs : nat) (num_accounts seed : Z) : result (list Tx * Z) :=
  match num_txs with
  | O => Ok ([], seed)
  | S num_txs =>
      let! (tx, seed) := generate_tx num_accounts seed in
      let! (txs, seed) := generate_txs num_txs num_accounts seed in
      Ok (tx :: txs, seed)
  end.

(** [generate_initial_state] of both binaries. *)
Definition generate_initial_state (num_accounts initial_balance : Z) : State :=
  foldl (fun s i => set_balance s i initial_balance) new_state (seqZ 0 num_accounts).

(** main.rs generates a single block from the same seed. *)
Definition script_generate_txs (num_txs : nat) (num_accounts : Z) : result (list Tx) :=
  let! (txs, _) := generate_txs num_txs num_accounts 12345 in Ok txs.

(** A transaction the generator may emit. *)
Definition generated_tx_ok (num_accounts : Z) (tx : Tx) : Prop :=
  0 <= from tx < num_accounts /\ 0 <= to tx < num_accounts /\ from tx <> to tx /\
  1 <= amount tx <= 10.

Lemma lcg_range s : is_u64 (lcg s).
Proof. apply wrap64_range. Qed.

Lemma rem_Ok a b : 0 < b -> rem a b = Ok (a mod b).
Proof. intros Hb. unfold rem. destruct (Z.eqb_spec b 0); [lia|done]. Qed.

Lemma generate_tx_ok n seed :
  2 <= n < u32_modulus ->
  exists tx seed', generate_tx n seed = Ok (tx, seed') /\ generated_tx_ok n tx /\ is_u64 seed'.
Proof.
  intros Hn. unfold generate_tx. cbv zeta.
  set (s1 := lcg seed). set (s2 := lcg s1). set (s3 := lcg s2).
  rewrite !rem_Ok by lia. simpl.
  pose proof (Z.mod_pos_bound s1 n ltac:(lia)). pose proof (Z.mod_pos_bound s2 n ltac:(lia)).
  pose proof (Z.mod_pos_bound s3 10 ltac:(lia)).
  rewrite !wrap32_id by (unfold is_u32; lia).
  set (f := s1 mod n) in *. set (t := s2 mod n) in *.
  destruct (Z.eqb_spec t f) as [Heq|Hne].
  - rewrite rem_Ok by lia. simpl. eexists _, _. split; [done|]. split; [|apply lcg_range].
    unfold add_u32. rewrite wrap32_id by (unfold is_u32; lia).
    pose proof (Z.mod_pos_bound (t + 1) n ltac:(lia)).
    split_and!; cbn [from to amount]; try lia.
    destruct (decide (t + 1 = n)) as [Hw|]; [rewrite Hw, Z_mod_same_full; lia|].
    rewrite Z.mod_small by lia. lia.
  - simpl. eexists _, _. split; [done|]. split; [|apply lcg_range]. split_and!; cbn [from to amount]; lia.
Qed.

Lemma generate_txs_total k n seed :
  2 <= n < u32_modulus -> is_u64 seed ->
  exists txs seed', generate_txs k n seed = Ok (txs, seed') /\ length txs = k /\
    Forall (generated_tx_ok n) txs /\ is_u64 seed'.
Proof.
  intros Hn. revert seed. induction k as [|k IH]; intros seed Hs; simpl; [by eexists [], _|].
  destruct (generate_tx_ok n seed Hn) as (tx & s1 & -> & Htx & Hs1). simpl.
  destruct (IH s1 Hs1) as (txs & s2 & -> & Hlen & Hall & Hs2). simpl.
  eexists _, _. split; [done|]. split; [simpl; lia|]. split; [by constructor|done].
Qed.

(** C28: the generator's transactions are well formed: with at least two
    accounts [generate_txs] never panics and returns the requested number of
    transactions, each between two different existing accounts and for an
    amount between 1 and 10. *)
Theorem generate_txs_ok k n seed :
  2 <= n < u32_modulus -> is_u64 seed ->
  exists txs seed', generate_txs k n seed = Ok (txs, seed') /\ length txs = k /\
    Forall (generated_tx_ok n) txs /\ is_u64 seed'.
Proof. apply generate_txs_total. Qed.

Lemma generate_txs_ok_witness :
  exists txs seed', generate_txs 3 5 12345 = Ok (txs, seed') /\ length txs = 3%nat /\
    Forall (generated_tx_ok 5) txs.
Proof.
  destruct (generate_txs_ok 3 5 12345) as (txs & s & E & Hl & Hf & _); [lia|decide_now|].
  exists txs, s. split; [exact E|]. split; [exact Hl|exact Hf].
Defined.

(** ** The disk *)

Inductive File : Type := BinFile (bytes : list Z) | TextFile (text : string).

Abbreviation Disk := (gmap path File).

(** The file system the other programs see.  The workload's text files are
    read as text only, its binary files as bytes only. *)
Definition disk_fs (d : Disk) : FileSystem := {|
  fs_read p := match d !! p with Some (BinFile bs) => Some bs | _ => None end;
  fs_read_to_string p := match d !! p with Some (TextFile s) => Some s | _ => None end
|}.

(** ** Data *)

Record GenArgs : Type := mkGenArgs {
  arg_num_blocks : Z;
  arg_num_txs : Z;
  arg_num_accounts : Z;
  arg_initial_balance : Z;
  arg_workload_dir : path;
  arg_resume_from : Z
}.

Record GenManifest : Type := mkGenManifest {
  gm_num_accounts : Z;
  gm_initial_balance : Z;
  gm_num_txs_per_block : Z;
  gm_num_blocks : Z
}.

Record GenBlockMeta : Type := mkGenBlockMeta {
  gb_block_number : Z;
  gb_pre_state_root : string;
  gb_post_state_root : string;
  gb_tx_hash : string;
  gb_txs_applied : Z;
  gb_txs_total : Z;
  gb_native_execution_us : Z;
  gb_network_prove_us : Z;
  gb_verify_us : Z
}.

(** [serde_json::to_string_pretty] at the two types. *)
Class GenSerde : Type := {
  print_manifest : GenManifest -> string;
  print_meta : GenBlockMeta -> string
}.

(** serde reads fields by name and ignores the ones a type does not have. *)
Class FormatLaws `{Serde, RwSerde, GenSerde} : Prop := {
  parse_print_manifest : forall m, parse_manifest (print_manifest m) =
    Some (mkManifest (gm_num_accounts m) (gm_initial_balance m) (gm_num_blocks m));
  parse_print_meta : forall m, parse_block_meta (print_meta m) =
    Some (mkBlockMeta (gb_block_number m) (gb_tx_hash m) (gb_txs_total m));
  rw_parse_print_manifest : forall m, rw_parse_manifest (print_manifest m) =
    Some (mkRwManifest (gm_num_accounts m) (gm_initial_balance m) (gm_num_txs_per_block m) (gm_num_blocks m));
  rw_parse_print_meta : forall m, rw_parse_meta (print_meta m) =
    Some (mkRwBlockMeta (gb_block_number m) (gb_pre_state_root m) (gb_post_state_root m)
            (gb_tx_hash m) (gb_txs_applied m) (gb_txs_total m))
}.

Section generator.
Context `{Sha256, Serde, RwSerde, GenSerde, Sp1}.
(** The measured times of a block: native, prove and verify, in microseconds. *)
Context (timing : Z -> Z * Z * Z).

(** ** Operations *)

Record Gen : Type := mkGen { g_disk : Disk; g_state : State; g_seed : Z }.

Definition assert_eq {A} `{EqDecision A} (x y : A) : result unit :=
  if decide (x = y) then Ok tt else Panic AssertionFailed.

(** One iteration of the block loop. *)
Definition gen_block (a : GenArgs) (vk : sp1_vkey) (block_num : Z) (g : Gen) : result Gen :=
  let block_dir := path_join (arg_workload_dir a) (block_dir_name block_num) in
  let! (txs, seed) := generate_txs (Z.to_nat (arg_num_txs a)) (arg_num_accounts a) (g_seed g) in
  let! pre_root := compute_state_root (g_state g) in
  let '(next_state, applied) := apply_block (g_state g) txs in
  let! post_root := compute_state_root next_state in
  let tx_h := hash_transactions txs in
  let d := <[path_join block_dir "transactions.bin" := BinFile (serialize_txs txs)]> (g_disk g) in
  let! proof := expect ProverFailed (sp1_prove (g_state g) txs) in
  let! commit := expect PublicValuesRead (public_values_read proof) in
  let! _ := assert_eq (pre_state_root commit) pre_root in
  let! _ := assert_eq (post_state_root commit) post_root in
  let! _ := assert_eq (tx_hash commit) tx_h in
  let! _ := if sp1_verify vk proof then Ok tt else Panic ProverFailed in
  let d := <[path_join block_dir "proof.bin" := BinFile (serialize_proof proof)]> d in
  let '(native_us, prove_us, verify_us) := timing block_num in
  let meta := mkGenBlockMeta block_num (hex_encode pre_root) (hex_encode post_root)
                (hex_encode tx_h) applied (arg_num_txs a) native_us prove_us verify_us in
  let d := <[path_join block_dir "commit.json" := TextFile (print_meta meta)]> d in
  Ok (mkGen d next_state seed).

(** The loop that reconstructs the state when resuming. *)
Definition skip_block (a : GenArgs) (block_num : Z) (st : State * Z) : result (State * Z) :=
  let! (txs, seed) := generate_txs (Z.to_nat (arg_num_txs a)) (arg_num_accounts a) st.2 in
  Ok ((apply_block st.1 txs).1, seed).

Definition gen_manifest (a : GenArgs) : GenManifest :=
  mkGenManifest (arg_num_accounts a) (arg_initial_balance a) (arg_num_txs a) (arg_num_blocks a).

Definition write_manifest (a : GenArgs) (d : Disk) : Disk :=
  <[path_join (arg_workload_dir a) "manifest.json" := TextFile (print_manifest (gen_manifest a))]> d.

(** [main] of network.rs, on the disk it finds. *)
Definition network_main (a : GenArgs) (d : Disk) : result Disk :=
  let d := <[path_join (arg_workload_dir a) "ledger-program.elf" := BinFile ledger_elf]> d in
  let d := write_manifest a d in
  let! vk := expect ProverFailed (sp1_setup ledger_elf) in
  let state := generate_initial_state (arg_num_accounts a) (arg_initial_balance a) in
  let! (state, seed) := result_fold (skip_block a) (seqZ 0 (arg_resume_from a)) (state, 12345) in
  let! g := result_fold (gen_block a vk)
              (seqZ (arg_resume_from a) (arg_num_blocks a - arg_resume_from a)) (mkGen d state seed) in
  Ok (write_manifest a (g_disk g)).

(** ** Resuming *)

Lemma gen_block_skip a vk h g g' :
  gen_block a vk h g = Ok g' -> skip_block a h (g_state g, g_seed g) = Ok (g_state g', g_seed g').
Proof.
  unfold gen_block, skip_block. cbv zeta. simpl.
  destruct (generate_txs _ _ _) as [[txs seed]|]; simpl; [|done].
  intros (pre & _ & Hr)%result_bind_Ok. destruct (apply_block (g_state g) txs) as [st k].
  apply result_bind_Ok in Hr as (post & _ & Hr). repeat bind_step.
  destruct (timing h) as [[? ?] ?]. by injection Hr as <-.
Qed.

(** C26: resuming is sound: when a run has generated blocks [0 .. k - 1], the
    replay loop of a later run with [resume_from = k] reconstructs exactly the
    state and the seed the first run had reached, so both runs generate the
    same blocks from there on. *)
Theorem resume_reconstructs a vk k g0 gk :
  result_fold (gen_block a vk) (seqZ 0 k) g0 = Ok gk ->
  result_fold (skip_block a) (seqZ 0 k) (g_state g0, g_seed g0) = Ok (g_state gk, g_seed gk).
Proof.
  generalize (seqZ 0 k). intros l. revert g0. induction l as [|h l IH]; intros g0; simpl; [by intros [= <-]|].
  intros (g1 & E1 & E2)%result_bind_Ok. rewrite (gen_block_skip _ _ _ _ _ E1). simpl. by apply IH.
Qed.

(** ** What a run leaves on disk *)

Definition block_file (a : GenArgs) (h : Z) (f : string) : path :=
  path_join (path_join (arg_workload_dir a) (block_dir_name h)) f.

Record block_written (a : GenArgs) (vk : sp1_vkey) (d : Disk) (h : Z) (st st' : State) : Prop := {
  bw_files : exists txs applied pi c native prove verify,
    apply_block st txs = (st', applied) /\
    d !! block_file a h "transactions.bin" = Some (BinFile (serialize_txs txs)) /\
    d !! block_file a h "proof.bin" = Some (BinFile (serialize_proof pi)) /\
    sp1_verify vk pi = true /\ public_values_read pi = Some c /\
    compute_state_root st = Ok (pre_state_root c) /\
    compute_state_root st' = Ok (post_state_root c) /\ tx_hash c = hash_transactions txs /\
    d !! block_file a h "commit.json" = Some (TextFile (print_meta
      (mkGenBlockMeta h (hex_encode (pre_state_root c)) (hex_encode (post_state_root c))
         (hex_encode (tx_hash c)) applied (arg_num_txs a) native prove verify)))
}.

(** Blocks [0 .. k - 1] are on disk and lead from [init] to [st]. *)
Inductive written (a : GenArgs) (vk : sp1_vkey) (d : Disk) (init : State) : nat -> State -> Prop :=
  | written_0 : written a vk d init 0 init
  | written_S k st st' : written a vk d init k st -> block_written a vk d (Z.of_nat k) st st' ->
      written a vk d init (S k) st'.

Lemma block_file_inj a h1 h2 f1 f2 :
  is_u64 h1 -> is_u64 h2 -> block_file a h1 f1 = block_file a h2 f2 -> h1 = h2 /\ f1 = f2.
Proof.
  intros Hu1 Hu2 Heq. unfold block_file, path_join in Heq.
  apply app_inj_2 in Heq as [Heq [= ->]]; [|done].
  apply app_inj_2 in Heq as [_ Hd]; [|done]. split; [|done].
  apply block_dir_name_inj; [done|done|congruence].
Qed.

Lemma block_written_insert a vk d h st st' p x :
  (forall f, p <> block_file a h f) ->
  block_written a vk d h st st' -> block_written a vk (<[p := x]> d) h st st'.
Proof.
  intros Hp [(txs & k & pi & c & n1 & n2 & n3 & Hw)]. split.
  exists txs, k, pi, c, n1, n2, n3. by rewrite !lookup_insert_ne by done.
Qed.

Lemma written_insert a vk d init k st p x :
  (forall j f, 0 <= j < Z.of_nat k -> p <> block_file a j f) ->
  written a vk d init k st -> written a vk (<[p := x]> d) init k st.
Proof.
  intros Hp Hw. induction Hw as [|k st st' Hw IH Hb]; [constructor|].
  econstructor.
  - apply IH. intros j f Hj. apply Hp. lia.
  - apply block_written_insert; [|done]. intros f. apply Hp. lia.
Qed.

Lemma assert_eq_Ok {A} `{EqDecision A} (x y : A) u : assert_eq x y = Ok u -> x = y.
Proof. unfold assert_eq. by destruct (decide (x = y)). Qed.

Lemma gen_block_written a vk init k g g' :
  Z.of_nat k < u64_modulus ->
  written a vk (g_disk g) init k (g_state g) -> gen_block a vk (Z.of_nat k) g = Ok g' ->
  written a vk (g_disk g') init (S k) (g_state g').
Proof.
  intros Hk Hw. unfold gen_block. cbv zeta.
  destruct (generate_txs _ _ _) as [[txs seed]|]; simpl; [|done].
  intros (pre & Hpre & Hr)%result_bind_Ok. destruct (apply_block (g_state g) txs) as [st c] eqn:Ea.
  apply result_bind_Ok in Hr as (post & Hpost & Hr). do 2 bind_step.
  apply result_bind_Ok in Hr as (? & <-%assert_eq_Ok & Hr).
  apply result_bind_Ok in Hr as (? & <-%assert_eq_Ok & Hr).
  apply result_bind_Ok in Hr as (? & Htx%assert_eq_Ok & Hr).
  apply result_bind_Ok in Hr as (? & Hv & Hr). destruct (sp1_verify vk x) eqn:Ev; [|done].
  destruct (timing (Z.of_nat k)) as [[t1 t2] t3]. injection Hr as <-. cbn [g_disk g_state].
  change (path_join (path_join (arg_workload_dir a) (block_dir_name (Z.of_nat k)))) with
    (block_file a (Z.of_nat k)).
  assert (forall f f', f <> f' -> block_file a (Z.of_nat k) f <> block_file a (Z.of_nat k) f') as Hff.
  { intros f f' Hne Heq. apply block_file_inj in Heq as [_ ?]; [done|split; lia..]. }
  eapply written_S.
  - repeat apply written_insert; try exact Hw;
      intros j f Hj Heq; apply block_file_inj in Heq as [? _]; unfold is_u64; lia.
  - split. exists txs, c, x, x0, t1, t2, t3. rewrite Htx. split_and!; try done.
    + rewrite !lookup_insert_ne by (by apply Hff). by rewrite lookup_insert_eq.
    + rewrite lookup_insert_ne by (by apply Hff). by rewrite lookup_insert_eq.
    + by rewrite lookup_insert_eq.
Qed.

Lemma gen_blocks_written a vk init k n g g' :
  Z.of_nat k + n <= u64_modulus ->
  written a vk (g_disk g) init k (g_state g) ->
  result_fold (gen_block a vk) (seqZ (Z.of_nat k) n) g = Ok g' ->
  written a vk (g_disk g') init (k + Z.to_nat n) (g_state g').
Proof.
  remember (Z.to_nat n) as m eqn:Em. revert k n g Em.
  induction m as [|m IH]; intros k n g Em Hk Hw.
  { rewrite seqZ_nil by lia. simpl. intros [= <-]. by rewrite Nat.add_0_r. }
  rewrite seqZ_cons by lia. simpl. intros (g1 & E1 & E2)%result_bind_Ok.
  replace (Z.succ (Z.of_nat k)) with (Z.of_nat (S k)) in E2 by lia.
  replace (k + S m)%nat with (S k + m)%nat by lia.
  eapply (IH (S k) (Z.pred n) g1); [lia|lia| |exact E2].
  eapply gen_block_written; [lia|done|done].
Qed.
End generator.

(** ** The generated workload is accepted *)

Section accepted.
Context `{Sha256, Serde, RwSerde, GenSerde, Sp1, !FormatLaws, !Sp1Complete}.
Context (timing : Z -> Z * Z * Z).

Lemma run_block_accepts a vk d h st st' :
  block_written a vk d h st st' ->
  @run_block _ (disk_fs d) _ _ _ (arg_workload_dir a) vk h st = Ok st'.
Proof.
  intros [(txs & k & pi & c & n1 & n2 & n3 & Ha & Htx & Hpi & Hv & Hc & Hpre & Hpost & Hth & Hm)].
  unfold run_block. cbv zeta. unfold block_file in *.
  cbn [fs_read fs_read_to_string disk_fs]. rewrite Hm, Htx, Hpi. cbn [expect result_bind].
  rewrite rw_parse_print_meta. cbn. rewrite Z.eqb_refl. cbn.
  rewrite deserialize_serialize_txs. cbn. rewrite Hpre. cbn. rewrite Ha. cbn. rewrite Hpost. cbn.
  rewrite Z.eqb_refl, Hth, !bool_decide_true by done. cbn.
  rewrite deserialize_serialize_proof. cbn. rewrite Hc. cbn.
  rewrite !bool_decide_true by done. cbn. by rewrite Hv.
Qed.

Lemma result_fold_app {A S} (f : A -> S -> result S) l1 l2 s :
  result_fold f (l1 ++ l2) s = result_bind (result_fold f l1 s) (result_fold f l2).
Proof.
  revert s. induction l1 as [|x l1 IH]; intros s; simpl; [done|].
  destruct (f x s); simpl; [apply IH|done].
Qed.

Lemma run_blocks_accept a vk d init k st :
  written a vk d init k st ->
  result_fold (@run_block _ (disk_fs d) _ _ _ (arg_workload_dir a) vk) (seqZ 0 (Z.of_nat k)) init = Ok st.
Proof.
  induction 1 as [|k st st' Hw IH Hb]; [done|].
  replace (Z.of_nat (S k)) with (Z.of_nat k + 1) by lia.
  rewrite seqZ_app, result_fold_app, IH by lia. cbn [result_bind].
  rewrite Z.add_0_l, seqZ_cons, (seqZ_nil _ (Z.pred 1)) by lia. cbn [result_fold]. by rewrite (run_block_accepts _ _ _ _ _ _ Hb).
Qed.

(** The disk after a full run. *)
Lemma network_main_written a d0 d :
  arg_resume_from a = 0 -> 0 <= arg_num_blocks a < u32_modulus ->
  network_main timing a d0 = Ok d ->
  exists vk st, sp1_setup ledger_elf = Some vk /\
    written a vk d (generate_initial_state (arg_num_accounts a) (arg_initial_balance a))
      (Z.to_nat (arg_num_blocks a)) st /\
    d !! path_join (arg_workload_dir a) "manifest.json" = Some (TextFile (print_manifest (gen_manifest a))) /\
    d !! path_join (arg_workload_dir a) "ledger-program.elf" = Some (BinFile ledger_elf).
Proof.
  intros Hr0 Hn. unfold network_main. cbv zeta. intros Hr. bind_step. rewrite Hr0 in Hr.
  rewrite seqZ_nil in Hr by lia. simpl in Hr. rewrite Z.sub_0_r in Hr.
  apply result_bind_Ok in Hr as (g & Hg & [= <-]).
  assert (forall p q f f', f <> f' -> path_join p f <> path_join q f') as Hff.
  { intros p q f f' Hne Heq. apply app_inj_2 in Heq as [_ ?]; [congruence|done]. }
  assert (forall j f f', path_join (arg_workload_dir a) f <> block_file a j f') as Hfb.
  { intros j f f' Heq. apply (f_equal length) in Heq. unfold block_file, path_join in Heq.
    rewrite !length_app in Heq. simpl in Heq. lia. }
  set (init := generate_initial_state _ _) in *.
  assert (forall l g g', result_fold (gen_block timing a x) l g = Ok g' ->
    g_disk g' !! path_join (arg_workload_dir a) "ledger-program.elf" =
    g_disk g !! path_join (arg_workload_dir a) "ledger-program.elf") as Hkeep.
  { intros l. induction l as [|h l IH]; intros g1 g2; simpl; [by intros [= <-]|].
    intros (g3 & E1 & E2)%result_bind_Ok. rewrite (IH _ _ E2). unfold gen_block in E1. cbv zeta in E1.
    destruct (generate_txs _ _ _) as [[txs seed]|]; simpl in E1; [|done].
    apply result_bind_Ok in E1 as (pre & _ & E1). destruct (apply_block (g_state g1) txs).
    repeat bind_step. destruct (timing h) as [[? ?] ?]. injection E1 as <-. cbn [g_disk].
    rewrite !lookup_insert_ne; [done|apply not_eq_sym, Hfb..]. }
  exists x, (g_state g). split_and!; [done|..].
  - apply written_insert; [intros; apply Hfb|].
    apply (gen_blocks_written timing a x init 0 (arg_num_blocks a) _ _ ltac:(lia)) in Hg; [exact Hg|constructor].
  - unfold write_manifest. by rewrite lookup_insert_eq.
  - unfold write_manifest. rewrite lookup_insert_ne by (by apply Hff). rewrite (Hkeep _ _ _ Hg). cbn.
    unfold write_manifest. rewrite lookup_insert_ne by (by apply Hff). by rewrite lookup_insert_eq.
Qed.

(** C24: the generator and the checker agree: whatever a full run of the
    generator leaves on disk, [run-workload] accepts it, with every block,
    root, transaction hash and proof checked. *)
Theorem generated_workload_accepted a d0 d :
  arg_resume_from a = 0 -> 0 <= arg_num_blocks a < u32_modulus ->
  network_main timing a d0 = Ok d ->
  exists final, @run_workload _ (disk_fs d) _ _ _ (arg_workload_dir a)
    (path_join (arg_workload_dir a) "ledger-program.elf") = Ok final.
Proof.
  intros Hr Hn (vk & st & Hvk & Hw & Hm & He)%network_main_written; [|done|done].
  exists st. unfold run_workload. cbn [fs_read fs_read_to_string disk_fs]. rewrite Hm, He.
  cbn [expect result_bind]. rewrite rw_parse_print_manifest. cbn [expect result_bind].
  rewrite Hvk. cbn [expect result_bind rw_num_blocks rw_num_accounts rw_initial_balance gen_manifest
    gm_num_blocks gm_num_accounts gm_initial_balance].
  apply run_blocks_accept in Hw. by rewrite Z2Nat.id in Hw by lia.
Qed.

Lemma written_lookup a vk d init k st h :
  written a vk d init k st -> 0 <= h < Z.of_nat k ->
  exists s s', block_written a vk d h s s'.
Proof.
  induction 1 as [|k st st' Hw IH Hb]; intros Hh; [lia|].
  destruct (decide (h = Z.of_nat k)) as [->|]; [eauto|apply IH; lia].
Qed.

(** C25: a consensus node can load what the generator wrote: the manifest
    parses to the generator's parameters, and every block below [num_blocks]
    is found, with the hash of its transactions as command and a transaction
    file that decodes to them. *)
Theorem generated_workload_loads `{!HexLaws, !Sha256Laws} a d0 d :
  arg_resume_from a = 0 -> 0 <= arg_num_blocks a < u32_modulus ->
  network_main timing a d0 = Ok d ->
  @workload_load (disk_fs d) _ (arg_workload_dir a) =
    Ok (mkWorkload (arg_workload_dir a)
          (mkManifest (arg_num_accounts a) (arg_initial_balance a) (arg_num_blocks a))) /\
  forall h, 0 <= h < arg_num_blocks a -> exists b txs,
    @block_at (disk_fs d) _ (arg_workload_dir a) h = Ok b /\
    block_cmd b = hash_transactions txs /\
    @block_txs (disk_fs d) _ (arg_workload_dir a) h = Some txs /\
    meta_txs_total (block_meta b) = arg_num_txs a.
Proof.
  intros Hr Hn (vk & st & Hvk & Hw & Hm & He)%network_main_written; [|done|done]. split.
  { unfold workload_load. cbn [fs_read_to_string disk_fs]. rewrite Hm. cbn.
    by rewrite parse_print_manifest. }
  intros h Hh. destruct (written_lookup _ _ _ _ _ _ h Hw) as (s & s' & Hb); [lia|].
  destruct Hb as [(txs & k & pi & c & n1 & n2 & n3 & Ha & Htx & Hpi & Hv & Hc & Hpre & Hpost & Hth & Hc')].
  eexists _, txs. unfold block_at. cbn [fs_read_to_string disk_fs]. unfold block_file in Hc', Htx. rewrite Hc'. cbn.
  rewrite parse_print_meta. cbn. rewrite Z.eqb_refl. cbn.
  rewrite hex_decode_encode; [|rewrite Hth; unfold hash_transactions; apply sha256_is_hash].
  cbn. split; [done|]. split_and!; [done| |done].
  unfold block_txs, txs_file. cbn [fs_read disk_fs]. rewrite Htx. cbn. apply deserialize_serialize_txs.
Qed.
End accepted.

(** ** The single-block script: zkvm/script/src/bin/main.rs *)

Record ScriptArgs : Type := mkScriptArgs {
  sc_execute : bool;
  sc_prove : bool;
  sc_num_txs : Z;
  sc_num_accounts : Z;
  sc_initial_balance : Z
}.

Section script.
Context `{Sha256, Sp1}.
(** [client.execute(LEDGER_ELF, stdin).run()] and the commit it outputs. *)
Context (sp1_execute : State -> list Tx -> option BlockCommit).

Definition check_commit (commit : BlockCommit) (pre_root post_root tx_h : list Z) : result unit :=
  let! _ := assert_eq (pre_state_root commit) pre_root in
  let! _ := assert_eq (post_state_root commit) post_root in
  assert_eq (tx_hash commit) tx_h.

Definition script_main (a : ScriptArgs) : result unit :=
  let! _ := exit_if (Bool.eqb (sc_execute a) (sc_prove a)) in
  let state := generate_initial_state (sc_num_accounts a) (sc_initial_balance a) in
  let! txs := script_generate_txs (Z.to_nat (sc_num_txs a)) (sc_num_accounts a) in
  let! pre_root := compute_state_root state in
  let '(native_state, applied) := apply_block state txs in
  let! native_post_root := compute_state_root native_state in
  let native_tx_hash := hash_transactions txs in
  if sc_execute a then
    let! commit := expect ProverFailed (sp1_execute state txs) in
    check_commit commit pre_root native_post_root native_tx_hash
  else
    let! vk := expect ProverFailed (sp1_setup ledger_elf) in
    let! proof := expect ProverFailed (sp1_prove state txs) in
    let! commit := expect PublicValuesRead (public_values_read proof) in
    let! _ := check_commit commit pre_root native_post_root native_tx_hash in
    if sp1_verify vk proof then Ok tt else Panic ProverFailed.

Lemma initial_state_size n b :
  0 <= n -> Z.of_nat (size (balances (generate_initial_state n b))) <= n.
Proof.
  intros Hn. unfold generate_initial_state.
  assert (forall l s, (size (balances (foldl (fun s i => set_balance s i b) s l)) <=
    size (balances s) + length l)%nat) as Hf.
  { induction l as [|i l IH]; intros s; cbn [foldl length]; [lia|].
    etransitivity; [apply IH|]. pose proof (set_balance_size s i b). lia. }
  specialize (Hf (seqZ 0 n) new_state). rewrite length_seqZ in Hf.
  change (size (balances new_state)) with 0%nat in Hf. lia.
Qed.

Lemma check_commit_ok c : check_commit c (pre_state_root c) (post_state_root c) (tx_hash c) = Ok tt.
Proof. unfold check_commit, assert_eq. by rewrite !decide_True. Qed.

(** C27: native execution and the guest program agree: for every size of block
    and ledger the script supports, its assertions hold and it ends normally,
    both when it only executes the guest and when it proves and verifies. *)
Theorem script_main_agrees `{!Sp1Complete} a vk :
  sc_execute a <> sc_prove a ->
  2 <= sc_num_accounts a -> 0 <= sc_num_txs a ->
  sc_num_accounts a + 2 * sc_num_txs a <= 2 ^ 31 ->
  (forall s txs, sp1_execute s txs = ok_value (ledger_program s txs)) ->
  sp1_setup ledger_elf = Some vk -> (forall s txs c, ledger_program s txs = Ok c -> is_Some (sp1_prove s txs)) ->
  script_main a = Ok tt.
Proof.
  intros Hne Hn Ht Hb Hex Hvk Hprove. change (2 ^ 31) with 2147483648 in *.
  unfold script_main, script_generate_txs.
  assert (Bool.eqb (sc_execute a) (sc_prove a) = false) as -> by (by apply Bool.eqb_false_iff).
  cbn [exit_if result_bind].
  destruct (generate_txs_total (Z.to_nat (sc_num_txs a)) (sc_num_accounts a) 12345)
    as (txs & seed & -> & Hlen & _); [lia|decide_now|]. cbn [result_bind].
  set (st := generate_initial_state _ _).
  pose proof (initial_state_size (sc_num_accounts a) (sc_initial_balance a) ltac:(lia)) as Hsz. fold st in Hsz.
  destruct (ledger_program_total st txs) as (c & Hp & Hpre & Hpost & Htx);
    [change (2 ^ 31) with 2147483648; lia|].
  rewrite Hpre. cbn [result_bind]. destruct (apply_block st txs) as [st' k]. cbn [fst] in Hpost.
  rewrite Hpost. cbn [result_bind].
  rewrite <- Htx. destruct (sc_execute a).
  - rewrite Hex, Hp. simpl. apply check_commit_ok.
  - rewrite Hvk. cbn [expect result_bind]. destruct (Hprove st txs c Hp) as [pi Epi]. rewrite Epi. cbn [expect result_bind].
    destruct (sp1_prove_ok vk st txs pi Hvk Epi) as (Hv & c' & Hp' & Hc). assert (c' = c) as -> by congruence.
    rewrite Hc. cbn [expect result_bind]. rewrite check_commit_ok. cbn [result_bind]. by rewrite Hv.
Qed.
End script.

(** ** Witnesses: a run of the generator on computable serializers *)

(** Strings of binary digits. *)
Fixpoint pos_str (p : positive) : string :=
  match p with
  | xH => EmptyString
  | xO p => String (Ascii.ascii_of_nat 48) (pos_str p)
  | xI p => String (Ascii.ascii_of_nat 49) (pos_str p)
  end.

Fixpoint str_pos (s : string) : positive :=
  match s with
  | EmptyString => xH
  | String c s => if decide (c = Ascii.ascii_of_nat 48) then xO (str_pos s) else xI (str_pos s)
  end.

Lemma str_pos_str p : str_pos (pos_str p) = p.
Proof.
  induction p as [p IH|p IH|]; cbn [pos_str str_pos]; [..|done].
  - rewrite decide_False by done. by rewrite IH.
  - rewrite decide_True by done. by rewrite IH.
Qed.

Definition to_text {A} `{Countable A} (x : A) : string := pos_str (encode x).
Definition of_text {A} `{Countable A} (s : string) : option A := decode (str_pos s).

Lemma of_to_text {A} `{Countable A} (x : A) : of_text (to_text x) = Some x.
Proof. unfold of_text, to_text. by rewrite str_pos_str, decode_encode. Qed.

#[global] Instance GenManifest_countable_eq : EqDecision GenManifest.
Proof. solve_decision. Defined.
#[global] Instance GenManifest_countable : Countable GenManifest.
Proof.
  refine (inj_countable' (fun m => (gm_num_accounts m, gm_initial_balance m, gm_num_txs_per_block m, gm_num_blocks m))
    (fun '(x, y, z, t) => mkGenManifest x y z t) _).
  by intros [].
Defined.

#[global] Instance GenBlockMeta_eq_dec : EqDecision GenBlockMeta.
Proof. solve_decision. Defined.
#[global] Instance GenBlockMeta_countable : Countable GenBlockMeta.
Proof.
  refine (inj_countable' (fun m => (gb_block_number m, gb_pre_state_root m, gb_post_state_root m, gb_tx_hash m,
      (gb_txs_applied m, gb_txs_total m, gb_native_execution_us m, gb_network_prove_us m, gb_verify_us m)))
    (fun '(b, p, q, t, (x, y, n, k, v)) => mkGenBlockMeta b p q t x y n k v) _).
  by intros [].
Defined.

Definition text_serde : Serde := {|
  parse_manifest s := (fun m => mkManifest (gm_num_accounts m) (gm_initial_balance m) (gm_num_blocks m)) <$> of_text s;
  parse_block_meta s := (fun m => mkBlockMeta (gb_block_number m) (gb_tx_hash m) (gb_txs_total m)) <$> of_text s;
  hex_encode h := to_text h;
  hex_decode_32 s := of_text s
|}.

Definition text_rw_serde : RwSerde := {|
  rw_parse_manifest s := (fun m => mkRwManifest (gm_num_accounts m) (gm_initial_balance m)
    (gm_num_txs_per_block m) (gm_num_blocks m)) <$> of_text s;
  rw_parse_meta s := (fun m => mkRwBlockMeta (gb_block_number m) (gb_pre_state_root m) (gb_post_state_root m)
    (gb_tx_hash m) (gb_txs_applied m) (gb_txs_total m)) <$> of_text s
|}.

Definition text_gen_serde : GenSerde := {| print_manifest := to_text; print_meta := to_text |}.

#[local] Existing Instances toy_sha256 toy_sp1 text_serde text_rw_serde text_gen_serde.

Lemma text_format_laws : FormatLaws.
Proof. split; intros m; cbn; by rewrite of_to_text. Qed.

Lemma text_hex_laws : HexLaws.
Proof. intros h _. apply of_to_text. Qed.

Definition sample_args : GenArgs := mkGenArgs 2 2 3 100 ["w"%string] 0.
Definition sample_timing (h : Z) : Z * Z * Z := (7, 8, 9).
Abbreviation sample_disk := (network_main sample_timing sample_args ∅).

Lemma generated_workload_accepted_witness :
  exists d final, sample_disk = Ok d /\
    @run_workload _ (disk_fs d) _ _ _ ["w"%string] ["w"; "ledger-program.elf"]%string = Ok final.
Proof.
  assert (is_Ok sample_disk = true) as Hok by (vm_compute; reflexivity).
  destruct sample_disk as [d|] eqn:E; [|discriminate Hok].
  destruct (@generated_workload_accepted _ _ _ _ _ text_format_laws toy_sp1_complete
    sample_timing sample_args ∅ d eq_refl ltac:(simpl; lia) E) as [final Hf].
  exists d, final. split; [reflexivity|exact Hf].
Defined.

Lemma generated_workload_loads_witness :
  exists d b txs, sample_disk = Ok d /\ @block_at (disk_fs d) _ ["w"%string] 1 = Ok b /\
    block_cmd b = hash_transactions txs /\ @block_txs (disk_fs d) _ ["w"%string] 1 = Some txs.
Proof.
  assert (is_Ok sample_disk = true) as Hok by (vm_compute; reflexivity).
  destruct sample_disk as [d|] eqn:E; [|discriminate Hok].
  destruct (@generated_workload_loads _ _ _ _ _ text_format_laws toy_sp1_complete
    sample_timing text_hex_laws toy_sha256_laws sample_args ∅ d eq_refl ltac:(simpl; lia) E) as [_ Hb].
  destruct (Hb 1 ltac:(simpl; lia)) as (b & txs & E1 & E2 & E3 & _).
  exists d, b, txs. split; [reflexivity|]. split; [exact E1|]. split; [exact E2|exact E3].
Defined.

Definition sample_vk : @sp1_vkey toy_sp1 := tt.
Definition sample_gen : Gen := mkGen ∅ (generate_initial_state 3 100) 12345.

Lemma resume_reconstructs_witness :
  exists gk, result_fold (gen_block sample_timing sample_args sample_vk) (seqZ 0 1) sample_gen = Ok gk /\
    result_fold (skip_block sample_args) (seqZ 0 1) (generate_initial_state 3 100, 12345) =
      Ok (g_state gk, g_seed gk).
Proof.
  destruct (result_fold (gen_block sample_timing sample_args sample_vk) (seqZ 0 1) sample_gen) as [gk|] eqn:E;
    [|vm_compute in E; discriminate E].
  exists gk. split; [reflexivity|].
  exact (resume_reconstructs sample_timing sample_args sample_vk 1 sample_gen gk E).
Defined.

Lemma script_main_agrees_witness :
  script_main (fun s txs => ok_value (ledger_program s txs)) (mkScriptArgs false true 3 5 100) = Ok tt.
Proof.
  apply (@script_main_agrees toy_sha256 toy_sp1 _ toy_sp1_complete (mkScriptArgs false true 3 5 100) tt).
  - discriminate.
  - simpl. lia.
  - simpl. lia.
  - simpl. lia.
  - reflexivity.
  - reflexivity.
  - intros s txs c E. simpl. rewrite E. simpl. eexists. reflexivity.
Defined.
