(* ===== verification/Progress.v ===== *)
(** * Progress: termination, execution order and the pacemaker

    The walk of [try_execute_chain] ends unless the block tree has a cycle;
    blocks are executed in height order, validated and on the decided branch;
    the NEXTVIEW timer backs off exponentially and is reset by a decision. *)

From Stdlib Require Import ZArith Lia.
From stdpp Require Import prelude strings gmap.
From S2P Require Import Prelude Crypto Ledger Messages Replica Qc Workload Zk Validator Wiring Execute Handlers Rules Consensus Process.
Open Scope Z_scope.

(** ** Termination of the chain walk *)

(** Parent links inside a tree. *)
Definition tree_link (t : gmap (list Z) Node) (h p : list Z) : Prop :=
  exists nd, t !! h = Some nd /\ parent nd = p.

Definition acyclic (t : gmap (list Z) Node) : Prop := forall h, ~ tc (tree_link t) h h.

(** [l] is a walk along parent links through nodes of the tree. *)
Inductive walk (t : gmap (list Z) Node) : list Z -> list (list Z) -> Prop :=
  | walk_nil h : walk t h []
  | walk_cons h nd l : t !! h = Some nd -> walk t (parent nd) l -> walk t h (h :: l).

Lemma walk_reaches t h l x : walk t h l -> x ∈ l -> rtc (tree_link t) h x.
Proof.
  induction 1 as [|h nd l E Hw IH]; [by intros ?%elem_of_nil|].
  intros [->|Hx]%elem_of_cons; [done|]. eapply rtc_l; [by exists nd|auto].
Qed.

Lemma walk_NoDup t h l : acyclic t -> walk t h l -> NoDup l.
Proof.
  intros Ha. induction 1 as [|h nd l E Hw IH]; constructor; [|done].
  intros Hin. apply (Ha h). eapply tc_rtc_r; [apply tc_once; by exists nd|].
  by eapply walk_reaches.
Qed.

Lemma walk_length t h l : acyclic t -> walk t h l -> (length l <= size t)%nat.
Proof.
  intros Ha Hw. rewrite <- (size_dom t), <- (size_list_to_set (C := gset (list Z)) l) by (by eapply walk_NoDup).
  apply subseteq_size. intros x Hx%elem_of_list_to_set.
  induction Hw as [|h nd l E Hw IH]; [by apply elem_of_nil in Hx|].
  apply elem_of_cons in Hx as [->|Hx]; [by eapply elem_of_dom_2|auto].
Qed.

Lemma build_chain_panic fuel t last h p :
  build_chain fuel t last h = Panic p -> p = LoopForever /\ exists l, walk t h l /\ length l = fuel.
Proof.
  revert h. induction fuel as [|fuel IH]; intros h; simpl.
  { intros [= <-]. split; [done|]. exists []. split; [constructor|done]. }
  destruct (t !! h) as [nd|] eqn:E; [|done]. destruct (_ <=? _); [done|].
  destruct (decide _); [done|].
  destruct (build_chain fuel t last (parent nd)) as [c|p'] eqn:Eb; [done|]. intros [= ->].
  destruct (IH _ Eb) as (-> & l & Hw & Hl). split; [done|].
  exists (h :: l). split; [by econstructor|by simpl; f_equal].
Qed.

(** The chain consists of nodes above the last executed height, each the
    parent of the one before it. *)
Lemma build_chain_walk fuel t last h chain :
  build_chain fuel t last h = Ok chain ->
  walk t h chain /\
  Forall (fun x => exists nd, t !! x = Some nd /\ last < as_i64 (height nd)) chain.
Proof.
  revert h chain. induction fuel as [|fuel IH]; intros h chain; simpl; [done|].
  destruct (t !! h) as [nd|] eqn:E; [|intros [= <-]; split; constructor].
  destruct (Z.leb_spec (as_i64 (height nd)) last); [intros [= <-]; split; constructor|].
  destruct (decide _).
  - intros [= <-]. split; [econstructor; [done|constructor]|]. constructor; [eauto|constructor].
  - intros (c & Hc & [= <-])%result_bind_Ok. destruct (IH _ _ Hc) as [Hw Hf].
    split; [by econstructor|]. constructor; eauto.
Qed.

(** Nothing is left to execute at [h]: the node is unknown or executed. *)
Definition nothing_pending (t : gmap (list Z) Node) (last : Z) (h : list Z) : Prop :=
  forall nd, t !! h = Some nd -> as_i64 (height nd) <= last.

Lemma build_chain_stops fuel t last h chain :
  build_chain fuel t last h = Ok chain ->
  (chain = [] <-> nothing_pending t last h) /\
  forall l1 x l2, chain = l1 ++ x :: l2 -> exists nd, t !! x = Some nd /\
    (l2 = [] <-> parent nd = GENESIS_HASH \/ nothing_pending t last (parent nd)).
Proof.
  revert h chain. induction fuel as [|fuel IH]; intros h chain; simpl; [done|].
  assert (forall l1 (x : list Z) l2, [] <> l1 ++ x :: l2) as Hnil by (by intros []).
  destruct (t !! h) as [nd|] eqn:E; cycle 1.
  { intros [= <-]. split; [|by intros l1 x l2 ?%Hnil]. split; [|done]. intros _ nd. by rewrite E. }
  destruct (Z.leb_spec (as_i64 (height nd)) last) as [Hle|Hgt].
  { intros [= <-]. split; [|by intros l1 x l2 ?%Hnil]. split; [|done]. intros _ nd' ?. by simplify_eq. }
  assert (~ nothing_pending t last h) as Hp by (intros Hn; specialize (Hn nd E); lia).
  destruct (decide (parent nd = GENESIS_HASH)) as [Eg|Hg].
  - intros [= <-]. split; [done|]. intros [|y l1] x l2 [= <- Hl]; [|by apply Hnil in Hl].
    exists nd. split; [done|]. split; [auto|done].
  - intros (c & Hc & [= <-])%result_bind_Ok. destruct (IH _ _ Hc) as [Hempty Hrest]. split; [done|].
    intros [|y l1] x l2 [= <- Hl]; [|by apply (Hrest l1)]. exists nd. split; [done|].
    rewrite <- Hl, Hempty. split; [auto|]. by intros [?|?].
Qed.

(** C22: the chain walk of [try_execute_chain] terminates on every tree without
    a cycle of parent links (a cycle would be a SHA-256 cycle), and returns
    exactly the unexecuted branch: a walk along parent links from the decided
    node, empty only if that node is unknown or executed, through known nodes
    above the last executed height, which ends at the first node that is a
    child of genesis or whose parent is unknown or executed, not before and
    not after. *)
Theorem build_chain_terminates t last h :
  acyclic t ->
  exists chain, build_chain (S (size t)) t last h = Ok chain /\ walk t h chain /\
    (chain = [] <-> nothing_pending t last h) /\
    Forall (fun x => exists nd, t !! x = Some nd /\ last < as_i64 (height nd)) chain /\
    forall l1 x l2, chain = l1 ++ x :: l2 -> exists nd, t !! x = Some nd /\
      (l2 = [] <-> parent nd = GENESIS_HASH \/ nothing_pending t last (parent nd)).
Proof.
  intros Ha. destruct (build_chain (S (size t)) t last h) as [chain|p] eqn:E.
  - exists chain. destruct (build_chain_walk _ _ _ _ _ E) as [? ?], (build_chain_stops _ _ _ _ _ E) as [? ?].
    done.
  - apply build_chain_panic in E as (_ & l & Hw & Hl). apply walk_length in Hw; [lia|done].
Qed.

(** A tree whose nodes are all one above their parent has no cycle. *)
Lemma heights_acyclic t :
  (forall h nd p, t !! h = Some nd -> t !! parent nd = Some p -> height nd = height p + 1) ->
  acyclic t.
Proof.
  intros Ht h Hc.
  assert (forall x y, tc (tree_link t) x y -> forall nx ny, t !! x = Some nx -> t !! y = Some ny ->
    height ny < height nx) as Hlt.
  { induction 1 as [x y (nd & E & Hp)|x y z (nd & E & Hp) Htc IH]; intros nx ny Ex Ey; simplify_eq.
    - specialize (Ht _ _ _ E Ey). lia.
    - assert (is_Some (t !! parent nd)) as [np Enp].
      { inversion Htc as [? ? (? & ? & ?)|? ? ? (? & ? & ?)]; subst; eauto. }
      specialize (IH _ _ Enp Ey). specialize (Ht _ _ _ E Enp). lia. }
  assert (exists nd, t !! h = Some nd) as [nd E].
  { inversion Hc as [? ? (? & ? & ?)|? ? ? (? & ? & ?)]; subst; eauto. }
  specialize (Hlt _ _ Hc _ _ E E). lia.
Qed.

(** ** Execution order *)

Section execution.
Context `{Sha256, SigScheme, FileSystem, Serde}.

Lemma execute_node_facts nh h s s' :
  execute_node nh h s = Ok s' ->
  executed (effects s') = executed (effects s) ++ [(h, nh)] /\
  last_executed_height (rs s') = as_i64 h /\ tree (rs s') = tree (rs s) /\
  validation_result (rs s') = validation_result (rs s).
Proof.
  intros (s1 & E & [= <-])%result_bind_Ok.
  assert (effects s1 = effects s /\ tree (rs s1) = tree (rs s) /\
    validation_result (rs s1) = validation_result (rs s)) as (E1 & E2 & E3).
  { unfold advance_root, take_post_state in E. repeat case_match; by simplify_eq. }
  cbn. by rewrite E1, E2, E3.
Qed.

Lemma maybe_kick_executed w h s s' :
  maybe_kick_validation w h s = Ok s' ->
  executed (effects s') = executed (effects s) /\
  last_executed_height (rs s') = last_executed_height (rs s) /\
  validation_result (rs s') = validation_result (rs s).
Proof.
  unfold maybe_kick_validation.
  destruct (validation_result (rs s) !! h); [by intros [= <-]|].
  destruct (decide _); [by intros [= <-]|].
  destruct (tree (rs s) !! h) as [node|]; [|by intros [= <-]].
  intros (b & _ & Hb)%result_bind_Ok. destruct (negb _); [by injection Hb as <-|].
  destruct (validation_input _ _ _); by injection Hb as <-.
Qed.

(** What is recorded of an executed node. *)
Definition executed_ok (t : gmap (list Z) Node) (v : gmap (list Z) bool) (chain : list (list Z))
    (x : Z * list Z) : Prop :=
  exists nd, t !! x.2 = Some nd /\ height nd = x.1 /\ v !! x.2 = Some true /\ x.2 ∈ chain.

Lemma execute_loop_order w chain s s' :
  execute_loop w chain s = Ok s' ->
  exists l, executed (effects s') = executed (effects s) ++ l /\
    (fun x => as_i64 x.1) <$> l = seqZ (last_executed_height (rs s) + 1) (Z.of_nat (length l)) /\
    last_executed_height (rs s') = last_executed_height (rs s) + Z.of_nat (length l) /\
    Forall (executed_ok (tree (rs s)) (validation_result (rs s)) chain) l.
Proof.
  revert s. induction chain as [|nh chain IH]; intros s; simpl.
  { intros [= <-]. exists []. rewrite app_nil_r. split_and!; [done|done|simpl; lia|constructor]. }
  assert (forall s', executed (effects s') = executed (effects s) ->
    last_executed_height (rs s') = last_executed_height (rs s) ->
    exists l, executed (effects s') = executed (effects s) ++ l /\
    (fun x => as_i64 x.1) <$> l = seqZ (last_executed_height (rs s) + 1) (Z.of_nat (length l)) /\
    last_executed_height (rs s') = last_executed_height (rs s) + Z.of_nat (length l) /\
    Forall (executed_ok (tree (rs s)) (validation_result (rs s)) (nh :: chain)) l) as Hstop.
  { intros s1 E1 E2. exists []. rewrite app_nil_r. split_and!; [done|done|simpl; lia|constructor]. }
  intros (nd & Hnd & Hr)%result_bind_Ok. unfold expect in Hnd.
  destruct (tree (rs s) !! nh) as [nd'|] eqn:En; simplify_eq.
  destruct (Z.eqb_spec (as_i64 (height nd)) (last_executed_height (rs s) + 1)) as [Hh|];
    simpl in Hr; [|injection Hr as <-; by apply Hstop].
  destruct (validation_result (rs s) !! nh) as [[]|] eqn:Ev;
    [|injection Hr as <-; by apply Hstop|apply maybe_kick_executed in Hr as (? & ? & _); by apply Hstop].
  apply result_bind_Ok in Hr as (s1 & E1 & E2).
  apply execute_node_facts in E1 as (Hx & Hl & Ht & Hv).
  destruct (IH s1 E2) as (l & Hx' & Hseq & Hl' & Hf). rewrite Ht, Hv in Hf.
  exists ((height nd, nh) :: l). rewrite Hx', Hx, <- app_assoc. split_and!; [done|..].
  - cbn [fmap list_fmap fst length]. rewrite Hseq, Hl, Hh.
    rewrite (seqZ_cons _ (Z.of_nat (S (length l)))) by lia. repeat (f_equal; try lia).
  - rewrite Hl', Hl, Hh. simpl. lia.
  - constructor; [exists nd; split_and!; [done|done|done|by constructor]|].
    eapply Forall_impl; [exact Hf|]. intros x (nd' & ? & ? & ? & ?). exists nd'.
    split_and!; [done|done|done|by apply list_elem_of_further].
Qed.

Lemma try_execute_chain_order w h s s' :
  tree_ok (tree (rs s)) -> try_execute_chain w h s = Ok s' ->
  exists l, executed (effects s') = executed (effects s) ++ l /\
    (fun x => as_i64 x.1) <$> l = seqZ (last_executed_height (rs s) + 1) (Z.of_nat (length l)) /\
    last_executed_height (rs s') = last_executed_height (rs s) + Z.of_nat (length l) /\
    Forall (fun x => exists nd, tree (rs s) !! x.2 = Some nd /\ height nd = x.1 /\
      validation_result (rs s) !! x.2 = Some true /\ extends (in_tree (tree (rs s))) h x.2) l.
Proof.
  intros Ht (chain & Hc & Hr)%result_bind_Ok. apply build_chain_walk in Hc as [Hw _].
  destruct (execute_loop_order _ _ _ _ Hr) as (l & Hx & Hseq & Hl & Hf).
  exists l. split_and!; [done|done|done|]. eapply Forall_impl; [exact Hf|].
  intros x (nd & En & Hh & Hv & Hin). exists nd. split_and!; [done|done|done|].
  apply list_elem_of_In, in_rev in Hin. apply list_elem_of_In in Hin.
  eapply rtc_subrel, (walk_reaches _ _ _ _ Hw Hin).
  intros x' y (nd' & E & <-). exists nd'. split_and!; [by eexists|by apply (Ht _ _ E)|done].
Qed.

(** C21: blocks are executed in order and only once decided and validated: a
    call of [try_execute_chain] on a decided node executes the consecutive
    heights after the last executed one, none skipped and none repeated, and
    every node it executes is validated and is the decided node or one of its
    ancestors in the tree. *)
Theorem executes_in_order w h s s' :
  tree_ok (tree (rs s)) -> try_execute_chain w h s = Ok s' ->
  exists l, executed (effects s') = executed (effects s) ++ l /\
    (fun x => as_i64 x.1) <$> l = seqZ (last_executed_height (rs s) + 1) (Z.of_nat (length l)) /\
    last_executed_height (rs s') = last_executed_height (rs s) + Z.of_nat (length l) /\
    Forall (fun x => exists nd, tree (rs s) !! x.2 = Some nd /\ height nd = x.1 /\
      validation_result (rs s) !! x.2 = Some true /\ extends (in_tree (tree (rs s))) h x.2) l.
Proof. apply try_execute_chain_order. Qed.
End execution.

(** ** What execution can change *)

Section frame.
Context `{Sha256, Bincode, SigScheme, FileSystem, Serde, HashOrder}.
(** A property of the last executed height and the verdicts that executing
    decided nodes preserves. *)
Context (w : Wiring) (P : Z -> gmap (list Z) bool -> Prop).
Abbreviation holds := (fun s : Sys => P (last_executed_height (rs s)) (validation_result (rs s))).
Hypothesis P_execute : forall chain, preserves holds (execute_loop w chain).

Lemma quiet_holds op : quiet_op op -> preserves holds op.
Proof.
  intros Hq s s' Hs E. destruct (Hq s s' E) as (Hc & _). unfold exec_core in Hc.
  injection Hc as -> _ -> _. done.
Qed.

Lemma kick_holds h : preserves holds (maybe_kick_validation w h).
Proof. intros s s' Hs E. apply maybe_kick_executed in E as (_ & -> & ->). done. Qed.

Lemma try_execute_chain_holds h : preserves holds (try_execute_chain w h).
Proof. intros s s' Hs (chain & _ & Hr)%result_bind_Ok. by eapply P_execute. Qed.

Lemma leader_prepare_holds : preserves holds (leader_prepare w).
Proof.
  intros s s' Hs. unfold leader_prepare. cbv zeta. destruct (negb _); [by intros [= <-]|].
  destruct (broadcast_proposal _); [by intros [= <-]|]. destruct (_ <? _); [by intros [= <-]|].
  intros (d & _ & Hr)%result_bind_Ok.
  destruct (match choose_high_qc _ _ with Some _ => _ | None => _ end) as [nh|]; [|by injection Hr as <-].
  destruct (_ <=? _); [by injection Hr as <-|].
  apply result_bind_Ok in Hr as (b & _ & Hk). by eapply kick_holds; [|exact Hk].
Qed.

Lemma replica_decide_holds : preserves holds (replica_decide w).
Proof.
  intros s s' Hs. unfold replica_decide. cbv zeta. destruct (negb _); [by intros [= <-]|].
  destruct (staged_decide_qc _ !! _) as [qc|]; [|by intros [= <-]].
  intros (s1 & E1 & [= <-])%result_bind_Ok. eapply try_execute_chain_holds in E1; [|exact Hs].
  unfold enter_new_view. cbv zeta. by destruct (_ =? _).
Qed.

Lemma try_kick_holds : preserves holds (try_kick_pending_validations w).
Proof.
  intros s s'. unfold try_kick_pending_validations. generalize (hash_iter (tree (rs s))).*1. intros x.
  revert s. induction x as [|h x IH]; intros s Hs; simpl; [by intros [= <-]|].
  destruct (pending_validation (rs s)); [by intros [= <-]|].
  intros (s1 & E1 & E2)%result_bind_Ok. eapply IH; [|exact E2]. by eapply kick_holds.
Qed.

Lemma try_advance_holds : preserves holds (try_advance w).
Proof.
  unfold try_advance. repeat apply preserves_bind;
    eauto using leader_prepare_holds, replica_decide_holds, try_kick_holds,
      quiet_holds, replica_prepare_quiet, leader_pre_commit_quiet, replica_pre_commit_quiet,
      leader_commit_quiet, replica_commit_quiet, leader_decide_quiet.
  intros s s' Hs Hr. eapply (result_fold_preserves holds); [|exact Hs|exact Hr].
  intros h s1 s2 _. apply try_execute_chain_holds.
Qed.

Lemma handle_event_holds e :
  (forall out, e <> EvValidated out) -> preserves holds (handle_event w e).
Proof.
  intros Hne s s' Hs. destruct e as [|[] keys|evt|out]; simpl; [..|by destruct (Hne out)].
  - intros [= <-]. unfold start_protocol, enter_new_view. cbv zeta. by destruct (_ =? _).
  - by intros [= <-].
  - unfold handle_proposal. cbv zeta. repeat (case_match; [by intros [= <-]|]).
    intros Hk. by eapply kick_holds; [|exact Hk].
  - by apply quiet_holds; [apply handle_phase_qc_quiet|].
  - by apply quiet_holds; [apply handle_vote_quiet|].
  - by apply quiet_holds; [apply handle_new_view_quiet|].
  - intros [= <-]. eapply (quiet_holds (fun s => Ok (handle_timer w evt s))); [|exact Hs|done].
    intros ? ? [= <-]. apply handle_timer_quiet.
Qed.
End frame.

Section monotone.
Context `{Sha256, Bincode, SigScheme, FileSystem, Serde, HashOrder}.
Context (w : Wiring).

(** Executed heights never go back. *)
Lemma node_step_above e s s' :
  node_step w e s = Ok s' -> last_executed_height (rs s) <= last_executed_height (rs s').
Proof.
  intros (s1 & E1 & E2)%result_bind_Ok.
  pose (above := fun l (_ : gmap (list Z) bool) => last_executed_height (rs s) <= l).
  assert (forall chain, preserves (fun x => above (last_executed_height (rs x)) (validation_result (rs x)))
    (execute_loop w chain)) as Hx.
  { intros chain x x' Hs Hr. apply execute_loop_order in Hr as (l & _ & _ & -> & _). unfold above in *. lia. }
  apply (try_advance_holds w above Hx s1 s'); [|done].
  destruct e as [| | |out]; [by eapply (handle_event_holds w above); [..|exact E1]; unfold above|..].
  1-2: by eapply (handle_event_holds w above); [..|exact E1]; unfold above.
  injection E1 as <-. unfold above, upd, with_rs, ingest_validation. cbv zeta. cbn.
  destruct (out_post_state out), (out_post_root out), (out_pre_root out); cbn;
    match goal with |- context [if ?c then _ else _] => destruct c end; done.
Qed.

(** Without a verdict nothing is executed. *)
Lemma no_verdict_no_execution e s s' :
  (forall out, e <> EvValidated out) -> validation_result (rs s) = ∅ -> node_step w e s = Ok s' ->
  last_executed_height (rs s') = last_executed_height (rs s) /\ validation_result (rs s') = ∅.
Proof.
  intros Hne Hv (s1 & E1 & E2)%result_bind_Ok.
  pose (none := fun l (vr : gmap (list Z) bool) => l = last_executed_height (rs s) /\ vr = ∅).
  assert (forall chain, preserves (fun x => none (last_executed_height (rs x)) (validation_result (rs x)))
    (execute_loop w chain)) as Hx.
  { intros chain x x' [Hl Hvr]. destruct chain as [|nh chain]; cbn [execute_loop]; [by intros [= <-]|].
    intros (nd & _ & Hr)%result_bind_Ok. cbv zeta in Hr. destruct (negb _); [by injection Hr as <-|].
    rewrite Hvr, lookup_empty in Hr. apply maybe_kick_executed in Hr as (_ & -> & ->). done. }
  apply (try_advance_holds w none Hx s1 s'); [|done].
  by eapply (handle_event_holds w none); [..|exact E1].
Qed.
End monotone.

(** ** The pacemaker *)

Section pacemaker.
Context `{Sha256, Bincode, SigScheme, FileSystem, Serde}.
Context (w : Wiring).

(** [k] timeouts in a row, each of the view the replica is then in. *)
Fixpoint timeouts (k : nat) (s : Sys) : Sys :=
  match k with
  | O => s
  | S k => timeouts k (handle_timer w (mkTimerEvent (view (rs s))) s)
  end.

(** The replica has seen no DECIDE of the view. *)
Definition undecided (r : ReplicaState) (v : Z) : Prop := seen_decide_qc (vd_at r v) = false.

Lemma enter_new_view_facts nv s :
  view (rs (enter_new_view w nv s)) = nv /\
  timeout_interval_ms (rs (enter_new_view w nv s)) = timeout_interval_ms (rs s) /\
  prepare_qc (rs (enter_new_view w nv s)) = prepare_qc (rs s) /\
  locked_qc (rs (enter_new_view w nv s)) = locked_qc (rs s) /\
  (forall v, seen_decide_qc (vd_at (rs (enter_new_view w nv s)) v) = seen_decide_qc (vd_at (rs s) v)) /\
  head (effects (enter_new_view w nv s)) =
    Some (ArmTimer (mkTimerEvent nv) (timeout_interval_ms (rs s))).
Proof.
  unfold enter_new_view. cbv zeta. destruct (_ =? _); split_and!; try done.
  intros v. change (seen_decide_qc (vd_at (vd_mut (view (rs s)) (fun d =>
    set_new_view_msgs (<[my_id w := prepare_qc (rs s)]> (new_view_msgs d)) d) (set_view nv (rs s))) v)
    = seen_decide_qc (vd_at (rs s) v)).
  rewrite vd_at_mut. by destruct (decide _) as [<-|].
Qed.

(** A timeout of the current, undecided view. *)
Lemma handle_timer_fires s :
  0 <= view (rs s) -> view (rs s) + 1 < u64_modulus -> undecided (rs s) (view (rs s)) ->
  let s' := handle_timer w (mkTimerEvent (view (rs s))) s in
  view (rs s') = view (rs s) + 1 /\
  timeout_interval_ms (rs s') = saturating_mul_u64 (timeout_interval_ms (rs s)) 2 /\
  (forall v, undecided (rs s) v -> undecided (rs s') v) /\
  head (effects s') = Some (ArmTimer (mkTimerEvent (view (rs s) + 1)) (timeout_interval_ms (rs s'))).
Proof.
  intros Hv Hb Hu. unfold handle_timer. cbn [timer_view]. rewrite Z.eqb_refl. cbn [negb].
  cbv zeta.
  assert ((match vd (rs s) (view (rs s)) with Some d => seen_decide_qc d | None => false end) = false) as ->.
  { unfold undecided, vd_at in Hu. by destruct (vd (rs s) (view (rs s))). }
  set (s0 := upd (fun r => set_timeout_interval_ms (saturating_mul_u64 (timeout_interval_ms r) 2) r) s).
  assert (add_u64 (view (rs s0)) 1 = view (rs s) + 1) as ->
    by (unfold add_u64; apply wrap64_id; unfold is_u64; simpl; lia).
  destruct (enter_new_view_facts (view (rs s) + 1) s0) as (E1 & E2 & _ & _ & E3 & E4).
  rewrite E1, E2, E4. split_and!; [done|done| |done].
  intros v. unfold undecided. by rewrite E3.
Qed.

(** the pacemaker backs off exponentially: [k] consecutive timeouts of
    undecided views move the replica [k] views up and multiply its timeout by
    [2^k], saturating at the u64 maximum, and the timer of the last view is
    armed with the new timeout. *)
Theorem timeout_backoff k s :
  0 <= timeout_interval_ms (rs s) < u64_modulus ->
  0 <= view (rs s) -> view (rs s) + Z.of_nat k < u64_modulus ->
  (forall j, view (rs s) <= j < view (rs s) + Z.of_nat k -> undecided (rs s) j) ->
  view (rs (timeouts k s)) = view (rs s) + Z.of_nat k /\
  timeout_interval_ms (rs (timeouts k s)) =
    Z.min (u64_modulus - 1) (timeout_interval_ms (rs s) * 2 ^ Z.of_nat k) /\
  (k <> 0%nat -> head (effects (timeouts k s)) = Some (ArmTimer (mkTimerEvent (view (rs (timeouts k s))))
     (timeout_interval_ms (rs (timeouts k s))))).
Proof.
  revert s. induction k as [|k IH]; intros s Ht Hv Hb Hu; cbn [timeouts].
  { split_and!; [simpl; lia| |done]. change (2 ^ Z.of_nat 0) with 1. lia. }
  destruct (handle_timer_fires s Hv ltac:(lia) ltac:(apply Hu; lia)) as (E1 & E2 & E3 & E4).
  set (s1 := handle_timer w (mkTimerEvent (view (rs s))) s) in *. clearbody s1.
  unfold saturating_mul_u64 in E2.
  destruct (IH s1) as (F1 & F2 & F3); [lia|lia|lia| |].
  { intros j Hj. apply E3, Hu. lia. }
  split_and!; [lia| |].
  - rewrite F2, E2. replace (Z.of_nat (S k)) with (Z.of_nat k + 1) by lia.
    rewrite Z.pow_add_r by lia. change (2 ^ 1) with 2.
    pose proof (Z.pow_pos_nonneg 2 (Z.of_nat k) ltac:(lia) ltac:(lia)). nia.
  - intros _. destruct k as [|k]; [|by apply F3]. cbn [timeouts] in *. by rewrite E4, E1.
Qed.

(** Late timers are harmless: a timer of another view than the current
    one, or of a view whose DECIDE was seen, changes nothing. *)
Lemma stale_timer_ignored evt s :
  timer_view evt <> view (rs s) \/ seen_decide_qc (vd_at (rs s) (view (rs s))) = true ->
  handle_timer w evt s = s.
Proof.
  unfold handle_timer. intros Hst. destruct (Z.eqb_spec (timer_view evt) (view (rs s))); [|done].
  destruct Hst as [?|Hd]; [done|]. simpl. unfold vd_at in Hd.
  destruct (vd (rs s) (view (rs s))) as [d|]; simpl in Hd; [by rewrite Hd|done].
Qed.

(** a decision resets the pacemaker and moves on: when the commit
    certificate of the current view is staged, [replica_decide] records the
    decided node, resets the timeout to its base, enters the next view and
    arms its timer with the base timeout; the lock is kept. *)
Theorem decide_enters_next_view s s' qc :
  0 <= view (rs s) -> view (rs s) + 1 < u64_modulus ->
  seen_decide_qc (vd_at (rs s) (view (rs s))) = true ->
  staged_decide_qc (rs s) !! view (rs s) = Some qc ->
  replica_decide w s = Ok s' ->
  view (rs s') = view (rs s) + 1 /\ timeout_interval_ms (rs s') = timeout_base_ms w /\
  head (effects s') = Some (ArmTimer (mkTimerEvent (view (rs s) + 1)) (timeout_base_ms w)) /\
  exists s1, try_execute_chain w (qc_node qc)
      (upd (fun r => set_decided_nodes ({[qc_node qc]} ∪ decided_nodes r) r)
         (upd (vd_mut (view (rs s)) id) s)) = Ok s1 /\
    locked_qc (rs s') = locked_qc (rs s1).
Proof.
  intros Hv Hb Hs Hq. unfold replica_decide. cbv zeta.
  change (rs (upd (vd_mut (view (rs s)) id) s)) with (vd_mut (view (rs s)) id (rs s)).
  rewrite vd_at_mut_eq. unfold id at 1. rewrite Hs. simpl. rewrite Hq.
  intros (s1 & E1 & [= <-])%result_bind_Ok.
  destruct (enter_new_view_facts (add_u64 (view (rs s)) 1)
    (upd (set_timeout_interval_ms (timeout_base_ms w)) s1)) as (F1 & F2 & _ & F3 & _ & F4).
  assert (add_u64 (view (rs s)) 1 = view (rs s) + 1) as Ev
    by (unfold add_u64; apply wrap64_id; unfold is_u64; lia).
  rewrite Ev in *. split_and!; [done|done|done|]. exists s1. by split.
Qed.
End pacemaker.
