(* ===== verification/Replicated.v ===== *)
(** * Replicated: all correct replicas execute one log

    The nodes a replica executes are ancestors of nodes it decided, at
    consecutive heights.  Decided nodes lie on one branch, so the sequences of
    executed nodes of any two correct replicas are prefixes of each other. *)

From Stdlib Require Import ZArith Lia.
From stdpp Require Import prelude strings gmap.
From S2P Require Import Prelude Crypto Ledger Messages Replica Qc VoteLog Workload Validator Wiring Execute Handlers Rules Consensus Process Invariant Steps Moves History Settled Safety System Progress.
Open Scope Z_scope.

Lemma executed_app es es' : executed (es ++ es') = executed es' ++ executed es.
Proof. unfold executed. by rewrite omap_app, rev_app_distr. Qed.

(** Lists that agree wherever both are defined. *)
Lemma agree_prefix {A} (l1 l2 : list A) :
  (forall k x y, l1 !! k = Some x -> l2 !! k = Some y -> x = y) -> l1 `prefix_of` l2 \/ l2 `prefix_of` l1.
Proof.
  revert l2. induction l1 as [|x l1 IH]; intros [|y l2] Ha; [left; apply prefix_nil..|right; apply prefix_nil|].
  rewrite (Ha 0%nat x y eq_refl eq_refl).
  destruct (IH l2 (fun k => Ha (S k))); [left|right]; by apply prefix_cons.
Qed.

(** ** What a replica has executed *)

Section executed_log.
Context `{Sha256, Bincode, SigScheme, FileSystem, Serde}.
(** [K]: the proposed nodes; [E]: the effects of the earlier passes. *)
Context (w : Wiring) (e : Event) (K : Node -> Prop) (E : list Effect).

(** An executed node is a proposed node of its height, and the ancestor of a
    decided node. *)
Definition entry_justified (r : ReplicaState) (x : Z * list Z) : Prop :=
  exists d nd, d ∈ decided_nodes r /\ extends K d x.2 /\ K nd /\ node_hash nd = x.2 /\ height nd = x.1.

Record log_ok (s : Sys) : Prop := {
  lo_tree : tree_ok (tree (rs s));
  lo_known : forall nd, in_tree (tree (rs s)) nd -> K nd;
  lo_last : -1 <= last_executed_height (rs s);
  lo_heights : (fun x => as_i64 x.1) <$> executed (effects s ++ E) = seqZ 0 (last_executed_height (rs s) + 1);
  lo_entries : Forall (entry_justified (rs s)) (executed (effects s ++ E))
}.

Lemma entry_justified_mono r r' x :
  decided_nodes r ⊆ decided_nodes r' -> entry_justified r x -> entry_justified r' x.
Proof. intros Hd (d & nd & Hin & ?). exists d, nd. split; [set_solver|done]. Qed.

(** Nothing is executed and no node added. *)
Lemma log_ok_frame s s' :
  tree (rs s') = tree (rs s) -> last_executed_height (rs s') = last_executed_height (rs s) ->
  decided_nodes (rs s) ⊆ decided_nodes (rs s') -> executed (effects s') = executed (effects s) ->
  log_ok s -> log_ok s'.
Proof.
  intros Et El Hd Ex [Ht Hk Hl Hh He].
  split; rewrite ?executed_app, ?Et, ?El, ?Ex, <- ?executed_app; try done.
  eapply Forall_impl; [exact He|]. intros x. by apply entry_justified_mono.
Qed.

Lemma log_ok_add nd s : K nd -> log_ok s -> log_ok (upd (add_node nd) s).
Proof.
  intros Hn [Ht Hk Hl Hh He]. split; try done; [by apply tree_ok_insert|].
  intros nd' [h Hh']. cbn in Hh'. apply lookup_insert_Some in Hh' as [[_ <-]|[_ Hh']]; [done|].
  apply Hk. by exists h.
Qed.

Lemma log_ok_execute h s s' :
  h ∈ decided_nodes (rs s) -> try_execute_chain w h s = Ok s' -> log_ok s -> log_ok s'.
Proof.
  intros Hd Hx [Ht Hk Hl Hh He]. destruct (try_execute_chain_order w h s s' Ht Hx) as (l & Ex & Hs & El & Hf).
  destruct (try_execute_chain_core w h 0 s s' Hx) as [Hc _].
  assert (tree (rs s') = tree (rs s) /\ decided_nodes (rs s') = decided_nodes (rs s)) as [Et Ed]
    by (unfold core in Hc; split; congruence).
  split; rewrite ?Et; try done; [lia|..]; rewrite executed_app, Ex, app_assoc, <- executed_app.
  - rewrite fmap_app, Hh, Hs, El. replace (last_executed_height (rs s) + Z.of_nat (length l) + 1)
      with (last_executed_height (rs s) + 1 + Z.of_nat (length l)) by lia.
    rewrite (seqZ_app 0 (last_executed_height (rs s) + 1) (Z.of_nat (length l))) by lia. by rewrite Z.add_0_l.
  - apply Forall_app. split; [eapply Forall_impl; [exact He|]; intros x; apply entry_justified_mono; by rewrite Ed|].
    eapply Forall_impl; [exact Hf|]. intros x (nd & En & Ehe & _ & Hex). exists h, nd. rewrite Ed.
    split_and!; [done|by eapply extends_mono|apply Hk; by eexists|by apply (Ht _ _ En)|done].
Qed.

Lemma prim_suffix `{HashOrder} allow s s' : prim w e allow s s' -> exists es, effects s' = es ++ effects s.
Proof.
  destruct 1 as [h s' _ Hx|h s' Hx|out _|x|v|leaf high|leaf high|leaf high|qc|qc|t qc|qc| | |v nd j keys|t v q keys
    |t v h j sig keys|v j sender keys].
  - destruct (execute_noise _ _ _ _ Hx) as (es & Ee & _). by exists es.
  - destruct (kick_noise _ _ _ _ Hx) as (es & Ee & _). by exists es.
  - by exists [].
  - by exists [].
  - by exists [].
  - by eexists [_].
  - by exists [].
  - unfold mark_vote, cast_vote. cbv zeta. destruct (_ =? _); [by eexists [_]|by eexists [_; _]].
  - unfold mark_vote, cast_vote. cbv zeta. destruct (_ =? _); [by eexists [_]|by eexists [_; _]].
  - unfold mark_vote, cast_vote. cbv zeta. destruct (_ =? _); [by eexists [_]|by eexists [_; _]].
  - destruct (seen _ _); by eexists [_].
  - by exists [].
  - unfold enter_new_view. cbv zeta. destruct (_ =? _); [by eexists [_]|by eexists [_; _]].
  - unfold start_protocol, enter_new_view. cbv zeta. destruct (_ =? _); [by eexists [_]|by eexists [_; _]].
  - by exists [].
  - by exists [].
  - by exists [].
  - by exists [].
Qed.

Lemma mark_vote_log t v h s : log_ok s -> log_ok (mark_vote w t v h s).
Proof. apply log_ok_frame; unfold mark_vote, cast_vote; cbv zeta; by destruct (_ =? _). Qed.

Lemma enter_log nv s : log_ok s -> log_ok (enter_new_view w nv s).
Proof. apply log_ok_frame; unfold enter_new_view; cbv zeta; by destruct (_ =? _). Qed.

Lemma prim_log `{HashOrder} allow s s' :
  prim w e allow s s' -> Forall K (event_proposals e ++ proposals (effects s')) -> log_ok s -> log_ok s'.
Proof.
  intros Hp [Hke Hks]%Forall_app Hs. destruct Hp as [h s' Hd Hx|h s' Hx|out _|x|v|leaf high|leaf high|leaf high|qc|qc|t qc Ht
    |qc| | |v nd j keys He|t v q keys _ Ht|t v h j sig keys|v j sender keys].
  - by eapply log_ok_execute.
  - destruct (maybe_kick_executed w h s s' Hx) as (Ex & El & _). destruct (maybe_kick_core w h 0 s s' Hx) as [Hc _].
    unfold core in Hc. apply (log_ok_frame s); [congruence|done| |done|done].
    assert (decided_nodes (rs s') = decided_nodes (rs s)) as -> by congruence. done.
  - apply (log_ok_frame s); try done; cbn; unfold ingest_validation; cbv zeta; by repeat case_match.
  - by apply (log_ok_frame s).
  - by apply (log_ok_frame s).
  - apply Forall_cons in Hks as [Hk _]. by apply (log_ok_frame (upd (add_node leaf) s)), log_ok_add.
  - by apply (log_ok_frame s).
  - by apply mark_vote_log.
  - apply mark_vote_log. by apply (log_ok_frame s).
  - apply mark_vote_log. by apply (log_ok_frame s).
  - apply (log_ok_frame s); [..|done]; destruct (seen _ _); destruct Ht as [->|[->| ->]]; done.
  - apply (log_ok_frame s); try done. cbn. set_solver.
  - by apply enter_log.
  - apply enter_log. by apply (log_ok_frame s).
  - rewrite He in Hke. apply Forall_cons in Hke as [Hk _]. by apply (log_ok_frame (upd (add_node nd) s)), log_ok_add.
  - apply (log_ok_frame s); [..|done]; destruct (decide _); destruct Ht as [->|[->| ->]]; cbn; set_solver.
  - by apply (log_ok_frame s).
  - by apply (log_ok_frame s).
Qed.

Lemma steps_log `{HashOrder} allow s s' :
  rtc (prim w e allow) s s' -> Forall K (event_proposals e) -> Forall K (proposals (effects s')) ->
  log_ok s -> log_ok s'.
Proof.
  intros Hr Hke. revert s' Hr. refine (rtc_ind_r (fun z => Forall K (proposals (effects z)) -> log_ok s -> log_ok z) s _ _); [done|].
  intros m s' _ Hp IH Hk Hs. destruct (prim_suffix _ _ _ Hp) as [es Ee].
  eapply prim_log; [exact Hp|by apply Forall_app|]. apply IH; [|done].
  unfold proposals in *. rewrite Ee, omap_app in Hk. by apply Forall_app in Hk as [_ Hk].
Qed.
End executed_log.

Lemma log_ok_known `{Sha256} (K K' : Node -> Prop) E s :
  (forall nd, K nd -> K' nd) -> log_ok K E s -> log_ok K' E s.
Proof.
  intros HK [Ht Hk Hl Hh He]. split; eauto. eapply Forall_impl; [exact He|].
  intros x (d & nd & ? & ? & ? & ? & ?). exists d, nd. split_and!; eauto using extends_mono.
Qed.

(** ** The replicas of a system *)

Section replicated.
Context `{Sha256, Bincode, SigScheme, FileSystem, Serde, !SigSchemeLaws}.
Context (n : Z) (byz : gset Z) (wiring : Z -> Wiring).
Hypothesis n_range : 1 <= n < u32_modulus.
Hypothesis ids : forall i, my_id (wiring i) = i.

Abbreviation proposed_in N := (fun nd => nd ∈ proposed_nodes N).

Definition logs_ok (N : System) : Prop := forall i run, runs N !! i = Some run ->
  log_ok (proposed_in N) (emitted run) (with_effects [] (run_sys run)).

Lemma initial_logs N : sys_initial n byz N -> logs_ok N.
Proof.
  intros (_ & _ & Hn) i run Hi. destruct (Hn i run Hi) as (_ & _ & _ & _ & Ee & _ & t & Er).
  split; cbn; rewrite ?Er, ?Ee; try done.
  intros nd [h Hh]. cbn in Hh. by rewrite lookup_empty in Hh.
Qed.

Lemma sys_step_logs N N' : sys_ok n byz wiring N -> sys_step n byz wiring N N' -> logs_ok N -> logs_ok N'.
Proof.
  intros HN [o i run e s' Hi [Hv Ha] He Hs ->] Hlog j rj. cbn.
  assert (forall nd, proposed_in N nd -> nd ∈ event_proposals e ++ proposals (effects s') ++ proposed_nodes N) as Hsub
    by (intros nd; rewrite !elem_of_app; auto).
  intros [[<- <-]|[Hne Hj]]%lookup_insert_Some; [|exact (log_ok_known _ _ _ _ Hsub (Hlog j rj Hj))].
  assert (started e (rs (run_sys run))) as Hst.
  { destruct e; cbn; try done. split; [done|]. by apply (r_start _ _ _ _ _ _ (s_runs _ _ _ _ HN i run Hi)). }
  pose proof (node_step_steps (wiring i) e (run_sys run) s' Hv Hst Hs) as Hr.
  assert (log_ok (fun nd => nd ∈ event_proposals e ++ proposals (effects s') ++ proposed_nodes N) (emitted run) s')
    as [Ht Hk Hl Hh Hx].
  { eapply steps_log; [exact Hr|..].
    - apply Forall_forall. intros nd Hnd. rewrite !elem_of_app. auto.
    - apply Forall_forall. intros nd Hnd. rewrite !elem_of_app. auto.
    - exact (log_ok_known _ _ _ _ Hsub (Hlog i run Hi)). }
  by split.
Qed.

Lemma sys_reachable_logs N : sys_reachable n byz wiring N -> logs_ok N.
Proof.
  intros (N0 & H0' & Hr). pose proof (sys_initial_ok n byz wiring n_range N0 H0') as Hok.
  apply initial_logs in H0'. induction Hr as [|N1 N2 N3 Hs Hr IH]; [done|].
  apply IH; [by apply (sys_step_logs N1)|by eapply sys_step_ok].
Qed.

(** ** One chain *)

(** The proposed nodes do not collide, and carry the u64 heights of their
    positions. *)
Record positioned (K : Node -> Prop) : Prop := {
  po_unique : forall a b, K a -> K b -> node_hash a = node_hash b -> a = b;
  po_u64 : forall a, K a -> is_u64 (height a);
  po_height : forall a b, K a -> K b -> parent a = node_hash b -> height a = height b + 1
}.

Section chain.
Context (K : Node -> Prop).
Hypothesis HK : positioned K.

Lemma parent_link_det h p q : parent_link K h p -> parent_link K h q -> p = q.
Proof.
  intros (a & Ha & Ea & <-) (b & Hb & Eb & <-). f_equal. apply (po_unique _ HK); congruence.
Qed.

Lemma extends_linear d x y : extends K d x -> extends K d y -> extends K x y \/ extends K y x.
Proof.
  intros Hx. revert y. induction Hx as [d|d p x Hl Hx IH]; intros y Hy; [by left|].
  inversion Hy as [|? q ? Hl' Hy']; subst; [right; by eapply rtc_l|].
  rewrite (parent_link_det _ _ _ Hl' Hl) in Hy'. auto.
Qed.

(** Heights fall along the chain. *)
Lemma extends_height x y a b :
  extends K x y -> K a -> node_hash a = x -> K b -> node_hash b = y -> height b <= height a /\ (height a = height b -> x = y).
Proof.
  intros Hx. revert a. induction Hx as [x|x p y (c & Hc & Ec & Ep) Hx IH]; intros a Ha Ea Hb Eb.
  { assert (a = b) as -> by (apply (po_unique _ HK); congruence). done. }
  assert (c = a) as -> by (apply (po_unique _ HK); congruence).
  assert (exists m, K m /\ node_hash m = p) as (m & Hm & Em).
  { inversion Hx as [|? ? ? (m & Hm & Em & _)]; subst; eauto. }
  destruct (IH m Hm Em Hb Eb) as [Hle _]. pose proof (po_height _ HK a m Ha Hm ltac:(congruence)). lia.
Qed.

Lemma same_height_same_node d x y a b :
  extends K d x -> extends K d y -> K a -> node_hash a = x -> K b -> node_hash b = y -> height a = height b -> x = y.
Proof.
  intros Hx Hy Ha Ea Hb Eb Hh. destruct (extends_linear _ _ _ Hx Hy) as [He|He].
  - by destruct (extends_height x y a b He Ha Ea Hb Eb) as [_ Heq]; apply Heq.
  - symmetry. by destruct (extends_height y x b a He Hb Eb Ha Ea) as [_ Heq]; apply Heq.
Qed.
End chain.

(** The entries of an executed log. *)
Lemma executed_entry N i run k x :
  sys_reachable n byz wiring N -> positioned (proposed_in N) -> runs N !! i = Some run ->
  executed (emitted run) !! k = Some x ->
  x.1 = Z.of_nat k /\ entry_justified (proposed_in N) (rs (run_sys run)) x.
Proof.
  intros Hr HK Hi Hx. destruct (sys_reachable_logs N Hr i run Hi) as [_ _ _ Hh He].
  change (effects (with_effects [] (run_sys run)) ++ emitted run) with (emitted run) in *. cbn [with_effects rs] in *.
  pose proof (Forall_lookup_1 _ _ _ _ He Hx) as Hj. split; [|done].
  assert (as_i64 x.1 = Z.of_nat k) as Ek.
  { assert (seqZ 0 (last_executed_height (rs (run_sys run)) + 1) !! k = Some (as_i64 x.1)) as Hs.
    { rewrite <- Hh, list_lookup_fmap, Hx. done. }
    apply lookup_seqZ in Hs as [-> _]. lia. }
  destruct Hj as (d & nd & _ & _ & Hn & _ & Eh). pose proof (po_u64 _ HK nd Hn) as Hu. rewrite Eh in Hu.
  revert Ek. unfold as_i64, is_u64 in *. destruct (Z.ltb_spec x.1 i64_bound); lia.
Qed.

(** C3: correct replicas execute one log: with at most [(n - 1) / 3] faulty
    replicas, the sequences of nodes that two correct replicas have executed
    agree entry by entry, one is a prefix of the other, and the [k]-th entry
    is a node of height [k]; the proposed nodes must not collide and must
    carry the heights of their positions. *)
Theorem executed_logs_agree N i j ri rj :
  Z.of_nat (size byz) <= max_faults n -> sys_reachable n byz wiring N -> positioned (proposed_in N) ->
  runs N !! i = Some ri -> runs N !! j = Some rj ->
  (forall k x, executed (emitted ri) !! k = Some x -> x.1 = Z.of_nat k) /\
  (executed (emitted ri) `prefix_of` executed (emitted rj) \/
   executed (emitted rj) `prefix_of` executed (emitted ri)).
Proof.
  intros Hf Hr HK Hi Hj. split; [intros k x Hx; by apply (executed_entry N i ri)|].
  apply agree_prefix. intros k x y Hx Hy.
  destruct (executed_entry N i ri k x Hr HK Hi Hx) as (Ex & d1 & a & Hd1 & Hx1 & Ha & Ea & Hha).
  destruct (executed_entry N j rj k y Hr HK Hj Hy) as (Ey & d2 & b & Hd2 & Hy1 & Hb & Eb & Hhb).
  assert (x.2 = y.2) as E2.
  { destruct (decided_one_branch n byz wiring n_range ids (project N) i j (run_sys ri) (run_sys rj) d1 d2 Hf)
      as [Hd|Hd]; [by apply sys_reachable_world|cbn; by rewrite lookup_fmap, Hi|cbn; by rewrite lookup_fmap, Hj|done|done|..].
    - eapply (same_height_same_node _ HK d1 x.2 y.2 a b); try done; [by transitivity d2|congruence].
    - eapply (same_height_same_node _ HK d2 x.2 y.2 a b); try done; [by transitivity d1|congruence]. }
  destruct x, y; cbn in *; congruence.
Qed.
End replicated.
