(* ===== verification/Panics.v ===== *)
(** * Panics: when an event loop pass can panic

    A predicate on the results of operations follows one pass through the
    handler and the rules: on a block tree without a cycle, a pass panics only
    because a block of the workload is missing or corrupt, or because the
    roots of verified proofs do not chain. *)

From Stdlib Require Import ZArith Lia.
From stdpp Require Import prelude strings gmap.
From S2P Require Import Prelude Crypto Ledger Messages Replica Qc Workload Zk Validator Wiring Execute Handlers Rules Consensus Process Progress.
Open Scope Z_scope.

(** A value that satisfies [P] or a panic that satisfies [E]. *)
Definition outcome {A} (P : A -> Prop) (E : panic -> Prop) (r : result A) : Prop :=
  match r with Ok a => P a | Panic p => E p end.

Lemma outcome_bind {A B} (P : A -> Prop) (Q : B -> Prop) E (r : result A) (k : A -> result B) :
  outcome P E r -> (forall a, P a -> r = Ok a -> outcome Q E (k a)) -> outcome Q E (let! a := r in k a).
Proof. destruct r; cbn; auto. Qed.

Lemma outcome_mono {A} (P Q : A -> Prop) E (r : result A) :
  outcome P E r -> (forall a, P a -> Q a) -> outcome Q E r.
Proof. destruct r; cbn; auto. Qed.

Lemma acyclic_subseteq t t' : t ⊆ t' -> acyclic t' -> acyclic t.
Proof.
  intros Ht Ha h Hc. apply (Ha h). eapply tc_congruence with (f := id); [|exact Hc].
  intros x y (nd & E & <-). exists nd. split; [by eapply lookup_weaken|done].
Qed.

Section panics.
Context `{Sha256, Bincode, SigScheme, FileSystem, Serde}.
(** [T]: the nodes that may be proposed to or by the replica; [proofs]: a
    proof outcome has reported a pre-state root. *)
Context (w : Wiring) (T : gmap (list Z) Node) (proofs : Prop).
Abbreviation blocks := (num_blocks (workload_manifest (w_workload w))).

(** The node [leader_prepare] makes for a block on top of a node of the tree,
    or of genesis, is in the tree. *)
Definition closed : Prop := forall ph nh b,
  (ph = GENESIS_HASH /\ nh = 0 \/ exists p, T !! ph = Some p /\ nh = add_u64 (height p) 1) ->
  nh < blocks -> workload_block (w_workload w) nh = Ok b ->
  T !! node_hash (mkNode ph (block_cmd b) nh) = Some (mkNode ph (block_cmd b) nh).

Hypothesis T_acyclic : acyclic T.
Hypothesis T_closed : closed.

(** The heights whose blocks a pass may read. *)
Definition readable (h : Z) : Prop := 0 <= h < blocks \/ exists x nd, T !! x = Some nd /\ height nd = h.

Definition may_panic (p : panic) : Prop :=
  (exists h, readable h /\ workload_block (w_workload w) h = Panic p) \/ (p = ChainBreak /\ proofs).

Record fine (s : Sys) : Prop := {
  fine_tree : tree (rs s) ⊆ T;
  fine_roots : pre_root_by_node (rs s) <> ∅ -> proofs;
  fine_quorum : 1 <= quorum (rs s);
  fine_last : last_executed_height (rs s) = -1 \/ exists h, readable h /\ last_executed_height (rs s) = as_i64 h
}.

Abbreviation guarded r := (outcome fine may_panic r).
Definition guarded_op (op : Sys -> result Sys) : Prop := forall s, fine s -> guarded (op s).

Lemma fine_core s s' : exec_core s' = exec_core s -> fine s -> fine s'.
Proof.
  unfold exec_core. intros [= E1 E2 E3 E4 E5 E6 E7 E8 E9] [Ht Hr Hq Hl].
  split; rewrite ?E1, ?E2, ?E6, ?E9; done.
Qed.

Lemma guarded_bind op k : guarded_op op -> guarded_op k -> guarded_op (fun s => let! s' := op s in k s').
Proof. intros Ho Hk s Hs. eapply outcome_bind; [by apply Ho|]. auto. Qed.

Lemma guarded_quiet op : quiet_op op -> (forall s, exists s', op s = Ok s') -> guarded_op op.
Proof.
  intros Hq Ho s Hs. destruct (Ho s) as [s' E]. rewrite E. cbn.
  destruct (Hq s s' E) as [Hc _]. by apply (fine_core s).
Qed.

(** ** Validation and execution *)

Lemma fine_readable s h nd : fine s -> tree (rs s) !! h = Some nd -> readable (height nd).
Proof. intros Hs E. right. exists h, nd. split; [by eapply lookup_weaken, fine_tree|done]. Qed.

Lemma kick_guarded h : guarded_op (maybe_kick_validation w h).
Proof.
  intros s Hs. unfold maybe_kick_validation. cbv zeta. destruct (validation_result (rs s) !! h); [done|].
  destruct (decide _); [done|]. destruct (tree (rs s) !! h) as [nd|] eqn:E; [|done].
  destruct (workload_block (w_workload w) (height nd)) as [b|p] eqn:Eb; cbn.
  - destruct (negb _); [done|]. destruct (validation_input _ _ _); [|done]. by apply (fine_core s).
  - left. exists (height nd). split; [by eapply fine_readable|done].
Qed.

Lemma execute_node_guarded h nd s :
  fine s -> tree (rs s) !! h = Some nd ->
  outcome (fun s' => fine s' /\ tree (rs s') = tree (rs s)) may_panic (execute_node h (height nd) s).
Proof.
  intros Hs E. unfold execute_node.
  assert (forall s', tree (rs s') = tree (rs s) -> pre_root_by_node (rs s') = pre_root_by_node (rs s) ->
    quorum (rs s') = quorum (rs s) ->
    let s2 := emit (LogExecute (height nd) h) (upd (set_last_executed_height (as_i64 (height nd))) s') in
    fine s2 /\ tree (rs s2) = tree (rs s)) as Hf.
  { intros s' Et Ep Eq. split; [|done]. split; cbn; rewrite ?Et, ?Ep, ?Eq; try apply Hs.
    right. exists (height nd). split; [by eapply fine_readable|done]. }
  unfold take_post_state, advance_root.
  destruct (post_state_by_node (rs s) !! h); cbn;
    (destruct (pre_root_by_node (rs s) !! h) as [pre|] eqn:Ep; cbn; [|by apply Hf]);
    (destruct (_ && _) eqn:Ec; cbn;
      [right; split; [done|]; apply (fine_roots _ Hs); intros E0; by rewrite E0, lookup_empty in Ep
      |destruct (post_root_by_node (rs s) !! h); cbn; by apply Hf]).
Qed.

Lemma execute_loop_guarded chain s :
  fine s -> Forall (fun h => is_Some (tree (rs s) !! h)) chain -> guarded (execute_loop w chain s).
Proof.
  intros Hs Hc. revert s Hs Hc. induction chain as [|h chain IH]; intros s Hs Hc; cbn [execute_loop]; [done|].
  apply Forall_cons in Hc as [[nd E] Hc]. rewrite E. cbn. destruct (negb _); [done|].
  destruct (validation_result (rs s) !! h) as [[]|]; [|done|by apply kick_guarded].
  eapply outcome_bind; [by apply execute_node_guarded|]. intros s1 [Hs1 Et] _. apply IH; [done|].
  by rewrite Et.
Qed.

Lemma try_execute_guarded h : guarded_op (try_execute_chain w h).
Proof.
  intros s Hs. unfold try_execute_chain. cbv zeta.
  destruct (build_chain _ _ _ _) as [chain|p] eqn:E; cbn.
  - apply build_chain_walk in E as [_ Hf]. apply execute_loop_guarded; [done|].
    apply Forall_rev. eapply Forall_impl; [exact Hf|]. intros x (nd & -> & _). by eexists.
  - apply build_chain_panic in E as (_ & l & Hw & Hl). apply walk_length in Hw; [lia|].
    by eapply acyclic_subseteq, T_acyclic; apply Hs.
Qed.

Lemma retry_guarded `{HashOrder} : guarded_op (retry_pending_execute w).
Proof.
  intros s. unfold retry_pending_execute. generalize (set_iter (decided_nodes (rs s))). intros l.
  revert s. induction l as [|h l IH]; intros s Hs; cbn; [done|].
  eapply outcome_bind; [by apply try_execute_guarded|]. auto.
Qed.

Lemma try_kick_guarded `{HashOrder} : guarded_op (try_kick_pending_validations w).
Proof.
  intros s. unfold try_kick_pending_validations. generalize (hash_iter (tree (rs s))).*1. intros l.
  revert s. induction l as [|h l IH]; intros s Hs; cbn; [done|].
  destruct (pending_validation (rs s)); [done|]. eapply outcome_bind; [by apply kick_guarded|]. auto.
Qed.

(** ** The rules and the handlers *)

Lemma add_node_fine nd s s' :
  fine s -> T !! node_hash nd = Some nd -> tree (rs s') = <[node_hash nd := nd]> (tree (rs s)) ->
  pre_root_by_node (rs s') = pre_root_by_node (rs s) -> quorum (rs s') = quorum (rs s) ->
  last_executed_height (rs s') = last_executed_height (rs s) -> fine s'.
Proof.
  intros [Ht Hr Hq Hl] Ha Et Ep Eq El. split; rewrite ?Et, ?Ep, ?Eq, ?El; try done.
  by apply insert_subseteq_l.
Qed.

Lemma leader_prepare_guarded `{HashOrder} : guarded_op (leader_prepare w).
Proof.
  intros s Hs. unfold leader_prepare. cbv zeta. destruct (negb _); [done|].
  destruct (broadcast_proposal _); [by apply (fine_core s)|].
  pose proof (fine_quorum _ Hs) as Hq.
  set (s1 := upd (vd_mut (view (rs s)) id) s). assert (fine s1) as Hs1 by (by apply (fine_core s)).
  change (quorum (rs s1)) with (quorum (rs s)). clearbody s1. set (pv := saturating_sub_u64 _ 1).
  destruct (vd (rs s1) pv) as [d|] eqn:Ed; cbn [expect]; [|by destruct (Z.ltb_spec 0 (quorum (rs s))); [|lia]].
  destruct (_ <? _); [done|]. cbn.
  destruct (match choose_high_qc (rs s1) pv with Some _ => _ | None => _ end) as [nh|] eqn:Eh; [|done].
  destruct (Z.leb_spec blocks nh) as [|Hlt]; [done|].
  assert (justify_parent (choose_high_qc (rs s1) pv) = GENESIS_HASH /\ nh = 0 \/
    exists p, T !! justify_parent (choose_high_qc (rs s1) pv) = Some p /\ nh = add_u64 (height p) 1) as Hp.
  { revert Eh. destruct (choose_high_qc (rs s1) pv) as [q|]; [|intros [= <-]; by left].
    destruct (tree (rs s1) !! qc_node q) as [p|] eqn:Ep; [|done]. intros [= <-]. right. exists p.
    split; [by eapply lookup_weaken, fine_tree|done]. }
  destruct (workload_block (w_workload w) nh) as [b|p] eqn:Eb; cbn.
  - apply kick_guarded. by eapply add_node_fine; [exact Hs1|by apply T_closed|..].
  - left. exists nh. split; [|done]. left. split; [|done]. destruct Hp as [[_ ->]|(p' & _ & ->)]; [done|].
    unfold add_u64, wrap64. apply Z.mod_pos_bound. lia.
Qed.

Lemma replica_decide_guarded : guarded_op (replica_decide w).
Proof.
  intros s Hs. unfold replica_decide. cbv zeta. destruct (negb _); [by apply (fine_core s)|].
  destruct (staged_decide_qc _ !! _) as [qc|]; [|by apply (fine_core s)].
  eapply outcome_bind; [apply try_execute_guarded; by apply (fine_core s)|].
  intros s1 Hs1 _. cbn. eapply fine_core; [apply enter_new_view_quiet|]. by apply (fine_core s1).
Qed.

(** Solves that an operation without a panicking call returns. *)
Ltac returns := intros; cbv zeta; repeat case_match; by eexists.

Lemma try_advance_guarded `{HashOrder} : guarded_op (try_advance w).
Proof.
  unfold try_advance. repeat apply guarded_bind;
    eauto using leader_prepare_guarded, replica_decide_guarded, retry_guarded, try_kick_guarded.
  - apply guarded_quiet; [apply replica_prepare_quiet|]. unfold replica_prepare. returns.
  - apply guarded_quiet; [apply leader_pre_commit_quiet|]. unfold leader_pre_commit. returns.
  - apply guarded_quiet; [apply replica_pre_commit_quiet|]. unfold replica_pre_commit. returns.
  - apply guarded_quiet; [apply leader_commit_quiet|]. unfold leader_commit. returns.
  - apply guarded_quiet; [apply replica_commit_quiet|]. unfold replica_commit. returns.
  - apply guarded_quiet; [apply leader_decide_quiet|]. unfold leader_decide. returns.
Qed.

(** The nodes and the roots an event brings. *)
Definition event_fits (e : Event) : Prop :=
  match e with
  | EvMsg (Proposal _ nd _ _) _ => T !! node_hash nd = Some nd
  | EvValidated out => is_Some (out_pre_root out) -> proofs
  | _ => True
  end.

Lemma handle_event_guarded e s : event_fits e -> fine s -> guarded (handle_event w e s).
Proof.
  intros He Hs. destruct e as [|[i pk|v nd j k|t v q k|t v h i sig|v j k] keys|evt|out]; cbn.
  - eapply fine_core; [apply enter_new_view_quiet|]. by apply (fine_core s).
  - done.
  - unfold handle_proposal. repeat (destruct (negb _); [done|]). apply kick_guarded. by eapply (add_node_fine nd s).
  - apply guarded_quiet; [apply handle_phase_qc_quiet| |done]. unfold handle_phase_qc. returns.
  - apply guarded_quiet; [apply handle_vote_quiet| |done]. unfold handle_vote. returns.
  - apply guarded_quiet; [apply handle_new_view_quiet| |done]. unfold handle_new_view. returns.
  - eapply fine_core; [apply handle_timer_quiet|done].
  - destruct Hs as [Ht Hr Hq Hl]. unfold upd, with_rs, ingest_validation. cbv zeta. cbn in He.
    destruct (out_post_state out), (out_post_root out), (out_pre_root out); cbn;
      match goal with |- context [if ?c then _ else _] => destruct c end; split; cbn; auto.
Qed.

Lemma node_step_guarded `{HashOrder} e s : event_fits e -> fine s -> guarded (node_step w e s).
Proof.
  intros He Hs. eapply outcome_bind; [apply handle_event_guarded; [done|by apply (fine_core s)]|].
  intros s1 Hs1 _. by apply try_advance_guarded.
Qed.
End panics.
