(* ===== verification/NodeMain.v ===== *)
(** * NodeMain: node/consensus-node/src/main.rs

    Command line, cluster parameters, the choice of validator and genesis
    state, the main event loop with the validator worker and the transaction
    count, and their composition in [main].  Key generation, the network
    tasks (Network) and what is printed are not part of this model. *)

From Stdlib Require Import ZArith Lia Ascii.
From stdpp Require Import prelude strings gmap.
From S2P Require Import Prelude Crypto Ledger Messages Logging Replica Qc Workload Zk Validator Wiring Execute Handlers Rules Consensus Process Execution Verified RunWorkload Generator Progress.
Open Scope Z_scope.

(** ** Data *)

Inductive Speed : Type := Fast | Slow.
Inductive Mode : Type := ModeReexecute | ModeVerify.

Record Args : Type := mkArgs {
  node_id : Z;
  speed : Speed;
  peers : string;
  mode : Mode;
  workload_name : string;
  workloads_dir : path;
  slow_delay_per_tx_ns : Z;
  arg_timeout_base_ms : Z
}.

(** ** Cluster parameters *)

Definition peer_hosts (args : Args) : list string :=
  filter (fun s => s <> EmptyString) (split_on ","%char (peers args)).

Definition cluster_n (args : Args) : Z := add_u32 (wrap32 (Z.of_nat (length (peer_hosts args)))) 1.
Definition cluster_f (args : Args) : Z := wrap32 (cluster_n args - 1) / 3.
Definition cluster_quorum (args : Args) : Z := wrap32 (cluster_n args - cluster_f args).

(** ** Setup *)

Definition this_node_reexecutes (args : Args) : bool :=
  match mode args with
  | ModeReexecute => true
  | ModeVerify => match speed args with Fast => true | Slow => false end
  end.

Definition build_validator `{FileSystem, Sp1} (args : Args) (elf_path : path) : result Validator :=
  if this_node_reexecutes args then
    let slow_delay := match speed args with Slow => slow_delay_per_tx_ns args | Fast => 0 end in
    Ok (Reexecute slow_delay)
  else
    let! elf := expect ExpectReadFile (fs_read elf_path) in
    let! vkey := expect ProverFailed (sp1_setup elf) in
    Ok (Verify vkey).

Definition init_state (args : Args) (w : Workload) : State :=
  if this_node_reexecutes args then
    foldl (fun s i => set_balance s i (initial_balance (workload_manifest w))) new_state
      (seqZ 0 (num_accounts (workload_manifest w)))
  else new_state.

Definition wiring `{SigScheme} (args : Args) (sk : signing_key) (w : Workload) : Wiring :=
  mkWiring _ (node_id args) sk w (arg_timeout_base_ms args).

(** ** The event loop *)

(** The local variables of [main] that the loop updates; the process is the
    consensus state and the queue of the validator worker. *)
Record Main : Type := mkMain { m_proc : Proc; total_txs : Z; last_counted_height : Z }.

Abbreviation m_sys m := (p_sys (m_proc m)).

(** The arm of the [select!] that is taken: a message of the inbox (with the
    content of the key table when it is locked), a timer, or the worker's
    next outcome. *)
Inductive Arm `{SigScheme} : Type :=
  | FromInbox (m : Wire) (keys : gmap Z verifying_key)
  | FromTimer (evt : TimerEvent)
  | FromWorker.

Section main.
Context `{Sha256, Bincode, SigScheme, FileSystem, Serde, Sp1}.

(** A pass of the loop body on an event: the handler and [try_advance]; what
    it sends on [val_req_tx] is queued behind the requests [q]. *)
Definition pass `{HashOrder} (w : Wiring) (e : Event) (q : list (ValidateRequest * State)) (s : Sys) : result Proc :=
  let! s := node_step w e s in Ok (mkProc s (q ++ submitted (effects s))).

(** The worker serves its queue in order ([spawn_validator_worker]).  When
    [run_validation] panics the worker ends and no further outcome arrives;
    an arm without a value is not taken. *)
Definition take_arm (o : HashOrder) (w : Wiring) (val : Validator) (a : Arm) (p : Proc) : result Proc :=
  match a with
  | FromInbox m keys => pass w (EvMsg m keys) (p_queue p) (p_sys p)
  | FromTimer evt => pass w (EvTimer evt) (p_queue p) (p_sys p)
  | FromWorker =>
      match p_queue p with
      | [] => Ok p
      | (req, snapshot) :: q =>
          match run_validation req snapshot val with
          | Ok out => pass w (EvValidated out) q (p_sys p)
          | Panic _ => Ok p
          end
      end
  end.

(** The [while last_counted_height < rs.last_executed_height] loop; each
    iteration raises [last_counted_height] by one. *)
Fixpoint count_loop (fuel : nat) (w : Workload) (last : Z) (total counted : Z) : result (Z * Z) :=
  if counted <? last then
    match fuel with
    | O => Panic LoopForever
    | S fuel =>
        let h := wrap64 (counted + 1) in
        let! block := workload_block w h in
        count_loop fuel w last (add_u64 total (meta_txs_total (block_meta block))) (as_i64 h)
    end
  else Ok (total, counted).

Definition count_txs (w : Workload) (m : Main) : result Main :=
  let last := last_executed_height (rs (m_sys m)) in
  let! (total, counted) :=
    count_loop (Z.to_nat (last - last_counted_height m)) w last (total_txs m) (last_counted_height m) in
  Ok (mkMain (m_proc m) total counted).

(** [rs.last_executed_height + 1 >= num_blocks as i64] *)
Definition finished (w : Workload) (s : Sys) : bool :=
  num_blocks (workload_manifest w) <=? last_executed_height (rs s) + 1.

(** The loop, on the arms that are taken, each with the iteration order the
    hash maps have in that pass; [true] when it ended with [break] because
    every block is executed.  The [else] arm of the [select!] is taken when all
    channels are closed, which does not happen: [main] keeps a sender of the
    inbox and of the timer channel for as long as it runs. *)
Fixpoint main_loop (w : Wiring) (val : Validator) (arms : list (HashOrder * Arm)) (m : Main) : result (bool * Main) :=
  if finished (w_workload w) (m_sys m) then Ok (true, m)
  else match arms with
       | [] => Ok (false, m)
       | (o, a) :: arms =>
           let! p := take_arm o w val a (m_proc m) in
           let! m := count_txs (w_workload w) (mkMain p (total_txs m) (last_counted_height m)) in
           main_loop w val arms m
       end.

(** [main], from the parsed arguments and the generated key; the network
    tasks feed the arms. *)
Definition main `{HashOrder} (args : Args) (sk : signing_key) (arms : list (HashOrder * Arm)) : result (bool * Main) :=
  let! workload := workload_load (path_join (workloads_dir args) (workload_name args)) in
  let! validator := build_validator args (elf_path workload) in
  let live_state := init_state args workload in
  let rs := new_replica (cluster_n args) (arg_timeout_base_ms args) in
  let w := wiring args sk workload in
  let! p := pass w EvStart [] (mkSys rs live_state (replicate 32 0) []) in
  main_loop w validator arms (mkMain p 0 (-1)).

(** ** Properties *)

(** The transactions of blocks [0 .. k - 1]. *)
Fixpoint txs_upto (w : Workload) (k : nat) : result Z :=
  match k with
  | O => Ok 0
  | S k =>
      let! n := txs_upto w k in
      let! block := workload_block w (Z.of_nat k) in
      Ok (add_u64 n (meta_txs_total (block_meta block)))
  end.

Lemma count_loop_ok fuel w last k total counted total' :
  -1 <= counted < i64_bound - 1 -> last < i64_bound -> Z.of_nat fuel = last - counted ->
  txs_upto w (Z.to_nat (counted + 1)) = Ok total ->
  count_loop fuel w last total counted = Ok (total', k) ->
  k = last /\ txs_upto w (Z.to_nat (last + 1)) = Ok total'.
Proof.
  revert total counted. induction fuel as [|fuel IH]; intros total counted Hc Hlast Hf Ht; cbn [count_loop].
  { destruct (Z.ltb_spec counted last); [lia|]. intros [= <- <-].
    replace last with counted by lia. done. }
  destruct (Z.ltb_spec counted last); [|lia].
  rewrite wrap64_id by (unfold is_u64; lia).
  intros (b & Hb & Hr)%result_bind_Ok.
  assert (as_i64 (counted + 1) = counted + 1) as Ei.
  { unfold as_i64. destruct (Z.ltb_spec (counted + 1) i64_bound); lia. }
  rewrite Ei in Hr.
  assert (txs_upto w (Z.to_nat (counted + 1 + 1)) = Ok (add_u64 total (meta_txs_total (block_meta b)))) as Ht'.
  { replace (Z.to_nat (counted + 1 + 1)) with (S (Z.to_nat (counted + 1))) by lia.
    cbn [txs_upto]. rewrite Ht. cbn [result_bind]. rewrite Z2Nat.id by lia. by rewrite Hb. }
  destruct (decide (counted + 1 = last)) as [He|Hne].
  - destruct fuel as [|fuel]; [|lia]. cbn [count_loop] in Hr. rewrite He in Hr.
    rewrite Z.ltb_irrefl in Hr. injection Hr as <- <-. split; [done|]. by rewrite <- He.
  - eapply (IH _ (counted + 1)); [lia|done|lia|exact Ht'|exact Hr].
Qed.

(** What [main] knows of the transactions counted so far. *)
Definition counted_ok (w : Workload) (m : Main) : Prop :=
  -1 <= last_counted_height m /\ last_counted_height m = last_executed_height (rs (m_sys m)) /\
  txs_upto w (Z.to_nat (last_counted_height m + 1)) = Ok (total_txs m).

Lemma count_txs_ok w m m' :
  -1 <= last_counted_height m <= last_executed_height (rs (m_sys m)) ->
  last_executed_height (rs (m_sys m)) < i64_bound - 1 ->
  txs_upto w (Z.to_nat (last_counted_height m + 1)) = Ok (total_txs m) ->
  count_txs w m = Ok m' -> counted_ok w m' /\ m_sys m' = m_sys m.
Proof.
  intros Hc Hl Ht. unfold count_txs. intros ([total k] & Hr & [= <-])%result_bind_Ok.
  apply count_loop_ok in Hr as [-> Ht']; [|lia|lia|lia|exact Ht].
  split; [|done]. split_and!; cbn; [lia|done|done].
Qed.

(** An arm is a step of the process of Process, or nothing happens. *)
Lemma take_arm_step o w val a p p' :
  take_arm o w val a p = Ok p' -> p' = p \/ exists nds, proc_step w val p nds p'.
Proof.
  destruct p as [s q], a as [m keys|evt|]; cbn [take_arm p_queue p_sys].
  - intros (s' & E & [= <-])%result_bind_Ok. right. eexists. by apply (proc_event _ _ _ s q (EvMsg m keys)).
  - intros (s' & E & [= <-])%result_bind_Ok. right. eexists. by apply (proc_event _ _ _ s q (EvTimer evt)).
  - destruct q as [|[req st] q]; [intros [= <-]; by left|].
    destruct (run_validation req st val) as [out|] eqn:Eo; [|intros [= <-]; by left].
    intros (s' & E & [= <-])%result_bind_Ok. right. eexists. by eapply (proc_validated _ _ _ s req st q).
Qed.

Lemma proc_step_last w val p nds p' :
  proc_step w val p nds p' -> last_executed_height (rs (p_sys p)) <= last_executed_height (rs (p_sys p')).
Proof. intros [o s q e s' _ Hs|o s req st q out s' _ Hs]; cbn; by eapply node_step_above. Qed.

Lemma take_arm_last o w val a p p' :
  take_arm o w val a p = Ok p' -> last_executed_height (rs (p_sys p)) <= last_executed_height (rs (p_sys p')).
Proof. intros [->|[nds Hs]]%take_arm_step; [done|by eapply proc_step_last]. Qed.

Lemma count_txs_proc w m m' : count_txs w m = Ok m' -> m_proc m' = m_proc m.
Proof. unfold count_txs. by intros ([? ?] & _ & [= <-])%result_bind_Ok. Qed.

Lemma main_loop_last w val arms m b m' :
  main_loop w val arms m = Ok (b, m') ->
  last_executed_height (rs (m_sys m)) <= last_executed_height (rs (m_sys m')).
Proof.
  revert m. induction arms as [|[o a] arms IH]; intros m; cbn [main_loop];
    destruct (finished _ _); try (intros [= <- <-]; done).
  intros (p & Ep%take_arm_last & Hr)%result_bind_Ok. apply result_bind_Ok in Hr as (m1 & Ec%count_txs_proc & Hr%IH).
  rewrite Ec in Hr. cbn in Hr. lia.
Qed.

Lemma main_loop_ok w val arms m b m' :
  counted_ok (w_workload w) m -> last_executed_height (rs (m_sys m')) < i64_bound - 1 ->
  main_loop w val arms m = Ok (b, m') ->
  counted_ok (w_workload w) m' /\ (b = true -> finished (w_workload w) (m_sys m') = true).
Proof.
  revert m. induction arms as [|[o a] arms IH]; intros m Hm Hb; cbn [main_loop];
    destruct (finished (w_workload w) (m_sys m)) eqn:Ef; try (intros [= <- <-]; done).
  intros (p & Ep & Hr)%result_bind_Ok. apply result_bind_Ok in Hr as (m1 & Ec & Hr).
  destruct Hm as (Hc1 & Hc2 & Ht). apply take_arm_last in Ep.
  pose proof (main_loop_last _ _ _ _ _ _ Hr) as Hle. pose proof (count_txs_proc _ _ _ Ec) as Em.
  rewrite Em in Hle. cbn in Hle.
  apply count_txs_ok in Ec as [Hok _]; [|cbn; lia|cbn; lia|exact Ht]. by apply (IH m1).
Qed.

(** The loop runs the process. *)
Lemma main_loop_run w val arms m b m' :
  main_loop w val arms m = Ok (b, m') ->
  forall p0 nds, proc_run w val p0 nds (m_proc m) -> exists nds', proc_run w val p0 (nds' ++ nds) (m_proc m').
Proof.
  revert m. induction arms as [|[o a] arms IH]; intros m; cbn [main_loop];
    destruct (finished _ _); try (intros [= <- <-] p0 nds Hp; by exists []).
  intros (p & Ep%take_arm_step & Hr)%result_bind_Ok p0 nds Hp.
  apply result_bind_Ok in Hr as (m1 & Ec%count_txs_proc & Hr).
  destruct Ep as [->|[nds1 Hs]].
  - apply (IH _ Hr). by rewrite Ec.
  - destruct (IH _ Hr p0 (nds1 ++ nds)) as [nds' Hp']; [rewrite Ec; by eapply run_step|].
    exists (nds' ++ nds1). by rewrite <- app_assoc.
Qed.

(** C15: a node that ends has done its work: when [main] breaks out of its
    loop, it has run the replica process of the loaded workload from its
    genesis state, every block of the manifest is executed, the reported
    transaction count is the sum over all executed blocks, each counted once
    (modulo [2^64]), and the balances of a re-executing node are those of
    the blocks applied in order, provided the nodes proposed in the run carry
    the heights of their positions. *)
Theorem main_correct `{HashOrder} args sk arms m :
  main args sk arms = Ok (true, m) -> last_executed_height (rs (m_sys m)) < i64_bound - 1 ->
  exists workload val nds,
    workload_load (path_join (workloads_dir args) (workload_name args)) = Ok workload /\
    build_validator args (elf_path workload) = Ok val /\
    proc_run (wiring args sk workload) val
      (fresh_proc (cluster_n args) (arg_timeout_base_ms args) (init_state args workload)) nds (m_proc m) /\
    num_blocks (workload_manifest workload) <= last_executed_height (rs (m_sys m)) + 1 /\
    txs_upto workload (Z.to_nat (last_executed_height (rs (m_sys m)) + 1)) = Ok (total_txs m) /\
    (this_node_reexecutes args = true -> forall T, heights_ok T -> proposed T nds ->
       replay (workload_dir workload) (init_state args workload)
         (Z.to_nat (last_executed_height (rs (m_sys m)) + 1)) = Some (live_state (m_sys m))).
Proof.
  intros (wl & Hwl & (val & Hval & (p & Hp & Hr)%result_bind_Ok)%result_bind_Ok)%result_bind_Ok Hb.
  apply result_bind_Ok in Hp as (s & Es & [= <-]).
  pose proof Es as Hlast. apply no_verdict_no_execution in Hlast as [Hlast _]; [|done|done]. cbn in Hlast.
  destruct (main_loop_run _ _ _ _ _ _ Hr (fresh_proc (cluster_n args) (arg_timeout_base_ms args) (init_state args wl))
    (event_proposals EvStart ++ proposals (effects s) ++ [])) as [nds Hrun].
  { rewrite app_assoc. eapply run_step; [apply run_refl|]. by eapply (proc_event _ _ _ _ [] EvStart). }
  apply main_loop_ok in Hr as ((_ & Hc & Ht) & Hf); [|split_and!; cbn; [lia|by rewrite Hlast|done]|done].
  specialize (Hf eq_refl). unfold finished in Hf. cbn [wiring w_workload] in *.
  exists wl, val, (nds ++ event_proposals EvStart ++ proposals (effects s) ++ []).
  split_and!; [done|done|done|lia|by rewrite <- Hc|].
  intros He T HT Hprop. unfold build_validator in Hval. rewrite He in Hval. injection Hval as <-.
  by apply (reexecuted_state _ _ _ _ _ _ _ _ _ eq_refl HT Hprop Hrun).
Qed.
End main.

(** ** Genesis *)

Lemma set_balances_lookup l b s a :
  get_balance (foldl (fun s i => set_balance s i b) s l) a =
  if decide (a ∈ l) then b else get_balance s a.
Proof.
  revert s. induction l as [|i l IH]; intros s; cbn [foldl]; [by rewrite decide_False by apply not_elem_of_nil|].
  rewrite IH. unfold get_balance, set_balance. cbn.
  destruct (decide (a ∈ l)) as [Hin|Hin].
  - rewrite decide_True; [done|]. by apply list_elem_of_further.
  - destruct (decide (a ∈ i :: l)) as [[->|?]%elem_of_cons|Hni]; [by rewrite lookup_insert_eq|done|].
    rewrite lookup_insert_ne; [done|]. intros ->. apply Hni. constructor.
Qed.

(** All programs start from the same genesis: the initial state of a
    re-executing node is the one the generator and the checker start from,
    with the initial balance in every account below [num_accounts] and zero
    elsewhere; a verifying node starts without balances. *)
Lemma genesis_agrees args w :
  (this_node_reexecutes args = true ->
     init_state args w = generate_initial_state (num_accounts (workload_manifest w))
                           (initial_balance (workload_manifest w)) /\
     init_state args w = initial_state (num_accounts (workload_manifest w))
                           (initial_balance (workload_manifest w)) /\
     forall a, get_balance (init_state args w) a =
       if decide (0 <= a < num_accounts (workload_manifest w))
       then initial_balance (workload_manifest w) else 0) /\
  (this_node_reexecutes args = false -> forall a, get_balance (init_state args w) a = 0).
Proof.
  split; intros He; unfold init_state; rewrite He.
  - split_and!; [done|done|]. intros a. rewrite set_balances_lookup.
    destruct (decide (a ∈ _)) as [Hin|Hin]; rewrite elem_of_seqZ in Hin.
    + by rewrite decide_True by lia.
    + by rewrite decide_False by lia.
  - intros a. unfold get_balance, new_state. cbn. by rewrite lookup_empty.
Qed.

(** The validator matches the experiment: a node re-executes unless it is
    a slow node in verify mode, only slow nodes are delayed, and a verifying
    node checks proofs against the key of the ELF shipped with the workload. *)
Lemma build_validator_correct `{FileSystem, Sp1} args elf v :
  build_validator args elf = Ok v ->
  match v with
  | Reexecute d => (mode args = ModeReexecute \/ speed args = Fast) /\
      d = match speed args with Slow => slow_delay_per_tx_ns args | Fast => 0 end
  | Verify vk => mode args = ModeVerify /\ speed args = Slow /\
      exists bytes, fs_read elf = Some bytes /\ sp1_setup bytes = Some vk
  end.
Proof.
  unfold build_validator, this_node_reexecutes.
  destruct (mode args) eqn:Em, (speed args) eqn:Es; try (intros [= <-]; auto).
  intros (bytes & E1%expect_Ok & (vk & E2%expect_Ok & [= <-])%result_bind_Ok)%result_bind_Ok. eauto.
Qed.
