(* ===== verification/Total.v ===== *)
(** * Total: a re-executing node does not panic

    The run of a whole node on a complete workload: no message, timer or
    validation outcome in any order stops it, as long as the nodes proposed to
    it have a block and carry the height of their position. *)

From Stdlib Require Import ZArith Lia.
From stdpp Require Import prelude strings gmap.
From S2P Require Import Prelude Crypto Ledger Messages Replica Qc Workload Zk Validator Wiring Execute Handlers Rules Consensus Process Execution Progress Panics NodeMain.
Open Scope Z_scope.

Section total.
Context `{Sha256, Bincode, SigScheme, FileSystem, Serde, Sp1}.

(** Every block of the manifest can be loaded. *)
Definition complete (wl : Workload) : Prop :=
  forall h, 0 <= h < num_blocks (workload_manifest wl) -> exists block, workload_block wl h = Ok block.

Section with_tree.
(** The block tree: the nodes that may be proposed to or by the node. *)
Context (T : gmap (list Z) Node).

(** A tree of nodes for the blocks of a workload, each one above its parent,
    that is closed under proposing the next block. *)
Record block_tree (w : Wiring) : Prop := {
  bt_heights : heights_ok T;
  bt_blocks : map_Forall (fun _ nd => height nd < num_blocks (workload_manifest (w_workload w))) T;
  bt_closed : closed w T
}.

(** A proposal of the inbox is of the tree. *)
Definition arm_fits (a : Arm) : Prop :=
  match a with FromInbox (Proposal _ nd _ _) _ => T !! node_hash nd = Some nd | _ => True end.

Section loop.
Context (w : Wiring) (delay : Z).
Abbreviation wl := (w_workload w).
Hypothesis Hcomplete : complete wl.
Hypothesis Hblocks : is_u32 (num_blocks (workload_manifest wl)).
Hypothesis Htree : block_tree w.

(** The state of a pass, in a run without proof outcomes. *)
Abbreviation sound := (fine w T False).
Abbreviation never := (fun _ : panic => False).

Lemma readable_block h : readable w T h -> 0 <= h < num_blocks (workload_manifest wl).
Proof.
  intros [Hh|(x & nd & E & <-)]; [done|]. split; [by apply (bt_heights _ Htree x nd)|].
  by apply (bt_blocks _ Htree x nd).
Qed.

Lemma node_step_sound `{HashOrder} e s :
  event_fits T False e -> sound s -> outcome sound never (node_step w e s).
Proof.
  intros He Hs. assert (acyclic T) as Ha.
  { apply heights_acyclic. intros h nd p E Ep. by apply (bt_heights _ Htree h nd E). }
  pose proof (node_step_guarded w T False Ha (bt_closed _ Htree) e s He Hs) as Hg.
  destruct (node_step w e s) as [s'|p]; [done|]. destruct Hg as [(h & Hh%readable_block & Hp)|[_ []]].
  destruct (Hcomplete h Hh) as [b Hb]. congruence.
Qed.

Lemma pass_sound `{HashOrder} e q s :
  event_fits T False e -> sound s ->
  outcome (fun p => sound (p_sys p)) never (pass w e q s).
Proof. intros He Hs. eapply outcome_bind; [by apply node_step_sound|]. done. Qed.

(** A re-executed block has no pre-state root. *)
Lemma reexecuted_pre_root req st out :
  run_validation req st (Reexecute delay) = Ok out -> out_pre_root out = None.
Proof. cbn. repeat case_match; by intros [= <-]. Qed.

Lemma take_arm_sound o a p :
  arm_fits a -> sound (p_sys p) ->
  outcome (fun p' => sound (p_sys p')) never (take_arm o w (Reexecute delay) a p).
Proof.
  intros Ha Hs. destruct a as [m keys|evt|]; cbn [take_arm].
  - apply pass_sound; [|done]. by destruct m.
  - by apply pass_sound.
  - destruct (p_queue p) as [|[req st] q]; [done|].
    destruct (run_validation req st (Reexecute delay)) as [out|] eqn:Eo; [|done].
    apply pass_sound; [|done]. cbn. rewrite (reexecuted_pre_root _ _ _ Eo). by intros [].
Qed.

Lemma sound_last s : sound s -> -1 <= last_executed_height (rs s) < num_blocks (workload_manifest wl).
Proof.
  intros Hs. unfold is_u32 in *.
  destruct (fine_last _ _ _ _ Hs) as [->|(h & Hh%readable_block & ->)]; [lia|]. unfold as_i64.
  destruct (Z.ltb_spec h i64_bound); lia.
Qed.

Lemma count_loop_total fuel last total counted :
  -1 <= counted <= last -> last < num_blocks (workload_manifest wl) -> Z.of_nat fuel = last - counted ->
  exists total', count_loop fuel wl last total counted = Ok (total', last).
Proof.
  unfold is_u32 in Hblocks. revert total counted.
  induction fuel as [|fuel IH]; intros total counted Hc Hl Hf; cbn [count_loop].
  { destruct (Z.ltb_spec counted last); [lia|]. replace last with counted by lia. by eexists. }
  destruct (Z.ltb_spec counted last); [|lia]. rewrite wrap64_id by (unfold is_u64; lia).
  destruct (Hcomplete (counted + 1)) as [b Hb]; [lia|]. rewrite Hb. cbn [result_bind].
  assert (as_i64 (counted + 1) = counted + 1) as ->.
  { unfold as_i64. destruct (Z.ltb_spec (counted + 1) i64_bound); lia. }
  apply IH; lia.
Qed.

Lemma main_loop_total arms m :
  Forall arm_fits arms.*2 -> sound (m_sys m) ->
  last_counted_height m = last_executed_height (rs (m_sys m)) ->
  outcome (fun _ => True) never (main_loop w (Reexecute delay) arms m).
Proof.
  revert m. induction arms as [|[o a] arms IH]; intros m Ha Hs Hc; cbn [main_loop];
    destruct (finished _ _); try done.
  apply Forall_cons in Ha as [Ha Has].
  eapply outcome_bind; [by apply take_arm_sound|]. intros p Hp Ep.
  pose proof (sound_last _ Hs). pose proof (sound_last _ Hp). apply take_arm_last in Ep.
  unfold count_txs at 1. cbn [m_proc total_txs last_counted_height].
  destruct (count_loop_total (Z.to_nat (last_executed_height (rs (p_sys p)) - last_counted_height m))
    (last_executed_height (rs (p_sys p))) (total_txs m) (last_counted_height m)) as [total ->]; [lia..|].
  cbn [result_bind]. by apply IH.
Qed.
End loop.

Lemma new_replica_fine w n t st root :
  1 <= n < u32_modulus -> fine w T False (mkSys (new_replica n t) st root []).
Proof.
  intros Hn. split; cbn [rs].
  - apply map_empty_subseteq.
  - done.
  - rewrite new_replica_quorum by done. pose proof (max_faults_spec n ltac:(lia)). lia.
  - by left.
Qed.

(** C16: a re-executing node never panics: started on a workload whose blocks
    can all be loaded, it handles every sequence of messages, timers and
    validation outcomes, whoever sent the messages and whatever keys are
    known, and counts the transactions of what it executes, as long as the
    nodes proposed to it have a block in the workload and are one above their
    parents. *)
Theorem main_never_panics `{HashOrder} args sk arms wl :
  workload_load (path_join (workloads_dir args) (workload_name args)) = Ok wl ->
  complete wl -> is_u32 (num_blocks (workload_manifest wl)) ->
  this_node_reexecutes args = true -> 1 <= cluster_n args < u32_modulus ->
  block_tree (wiring args sk wl) -> Forall arm_fits arms.*2 ->
  exists ended m, main args sk arms = Ok (ended, m).
Proof.
  intros Hwl Hc Hb Hre Hn Ht Ha.
  assert (outcome (fun _ => True) (fun _ => False) (main args sk arms)) as Ho.
  { unfold main. rewrite Hwl. cbn [result_bind]. unfold build_validator. rewrite Hre. cbn [result_bind].
    set (w := wiring args sk wl) in *. set (s0 := mkSys (new_replica _ _) _ _ _).
    eapply outcome_bind; [apply (pass_sound w Hc Ht EvStart); [done|by apply new_replica_fine]|].
    intros p Hp (s1 & Es & [= <-])%result_bind_Ok. apply (main_loop_total w); [done..|].
    apply no_verdict_no_execution in Es as [Es _]; [|done|done].
    cbn [m_proc p_sys last_counted_height]. by rewrite Es. }
  destruct (main args sk arms) as [[ended m]|p]; [by exists ended, m|done].
Qed.
End with_tree.
End total.
