(* ===== verification/Cluster.v ===== *)
(** * Cluster: a cluster that runs

    Four replicas, one of them faulty, on computable cryptography and a
    two-block workload held in memory, under a scheduler that delivers every
    message and every validation outcome.  Each scheduler step is a
    [world_step], so the runs are witnesses for the theorems of Safety. *)

From Stdlib Require Import ZArith Lia.
From stdpp Require Import prelude strings gmap.
From S2P Require Import Prelude Crypto Ledger Messages Replica Qc VoteLog Workload Zk Validator Wiring Execute Handlers Rules Consensus Invariant Safety Process Execution Verified RunWorkload Progress Panics NodeMain Total.
Open Scope Z_scope.

#[local] Existing Instances toy_sha256 toy_bincode toy_sig toy_sp1 trie_order.

(** ** A workload in memory *)

Definition toy_blocks : list (string * list Tx) :=
  [("block_0000", [mkTx 0 1 30; mkTx 1 0 500]); ("block_0001", [mkTx 1 0 45])]%string.

Definition toy_txs (dir : string) : option (list Tx) :=
  snd <$> head (filter (fun b => b.1 = dir) toy_blocks).

Definition toy_state : State := mkState {[ 0 := 100; 1 := 100 ]}.

(** The state a block starts from. *)
Definition toy_pre_state (dir : string) : State :=
  if decide (dir = "block_0000"%string) then toy_state
  else (apply_block toy_state (default [] (toy_txs "block_0000"))).1.

(** A commit.json holds the name of its directory, a proof the guest's input. *)
Definition toy_fs : FileSystem := {|
  fs_read p := match p with
               | [_; dir; "transactions.bin"%string] => toy_encode <$> toy_txs dir
               | [_; dir; "proof.bin"%string] =>
                   (fun txs => toy_encode (toy_pre_state dir, txs)) <$> toy_txs dir
               | [_; "ledger-program.elf"%string] => Some []
               | _ => None
               end;
  fs_read_to_string p := match p with
                         | [_; dir; "commit.json"%string] => const dir <$> toy_txs dir
                         | [_; "manifest.json"%string] => Some ""%string
                         | _ => None
                         end
|}.

Definition toy_serde : Serde := {|
  parse_manifest _ := Some (mkManifest 2 100 2);
  parse_block_meta text :=
    (fun txs => mkBlockMeta (if decide (text = "block_0000"%string) then 0 else 1) text
                  (Z.of_nat (length txs))) <$> toy_txs text;
  hex_encode _ := ""%string;
  hex_decode_32 text := hash_transactions <$> toy_txs text
|}.
#[local] Existing Instances toy_fs toy_serde.

Definition toy_workload : Workload := mkWorkload ["w"%string] (mkManifest 2 100 2).

Definition toy_wiring (i : Z) : Wiring := mkWiring toy_sig i (1000 + i) toy_workload 50.

Definition toy_byz : gset Z := {[ 3 ]}.

Definition toy_sys : Sys := mkSys (new_replica 4 50) toy_state GENESIS_HASH [].

Definition toy_start : World := mkWorld {[ 0 := toy_sys; 1 := toy_sys; 2 := toy_sys ]} [] [].

Definition toy_keys : gmap Z verifying_key :=
  list_to_map ((fun i => (i, key_of toy_wiring i)) <$> seqZ 0 4).

(** ** The checks of a step *)

Abbreviation toy_key := (key_of toy_wiring).

Definition keys_okb (keys : gmap Z verifying_key) : bool :=
  bool_decide (map_Forall (fun i pk => 0 <= i < 4 /\ (pk : Z) = toy_key i) keys).

Definition sig_knownb (L : list Ballot) (t : MsgType) (v : Z) (h : list Z) (i : Z) (sig : list Z) : bool :=
  if decide (i ∈ toy_byz) then true
  else if verify_vote_sig (toy_key i) t v h sig then bool_decide (mkBallot i t v h ∈ L) else true.

Definition qc_knownb (L : list Ballot) (qc : QC) : bool :=
  forallb (fun vs => sig_knownb L (qc_type qc) (qc_view qc) (qc_node qc) vs.1 vs.2) (qc_sigs qc).

Definition justify_knownb (L : list Ballot) (j : option QC) : bool :=
  match j with Some q => qc_knownb L q | None => true end.

Definition msg_knownb (L : list Ballot) (m : Wire) : bool :=
  match m with
  | Hello _ _ => true
  | Proposal _ _ j _ => justify_knownb L j
  | PhaseQc _ _ q _ => qc_knownb L q
  | Vote t v h i sig => sig_knownb L t v h i sig
  | NewViewMsg _ j _ => justify_knownb L j
  end.

Definition event_okb (i : Z) (r : ReplicaState) (L : list Ballot) (e : Event) : bool :=
  (view r + 2 <? u64_modulus) &&
  match e with
  | EvStart => view r =? 0
  | EvMsg m keys => (1 <=? view r) && keys_okb keys && msg_knownb L m &&
      match m with Vote _ _ _ voter _ => negb (voter =? i) | _ => true end
  | _ => 1 <=? view r
  end.

Lemma keys_okb_sound keys : keys_okb keys = true -> keys_ok 4 toy_key keys.
Proof. intros Hk%bool_decide_eq_true i pk Hi. by apply (Hk i pk Hi). Qed.

Lemma sig_knownb_sound L t v h i sig :
  sig_knownb L t v h i sig = true -> sig_known toy_byz toy_key L t v h i sig.
Proof.
  unfold sig_knownb, sig_known. intros Hk Hb Hv. destruct (decide (i ∈ toy_byz)); [done|].
  rewrite Hv in Hk. by apply bool_decide_eq_true in Hk.
Qed.

Lemma qc_knownb_sound L q : qc_knownb L q = true -> qc_known toy_byz toy_key L q.
Proof.
  unfold qc_knownb. rewrite forallb_forall. intros Hk i sig Hin.
  apply sig_knownb_sound. apply (Hk (i, sig)). by apply list_elem_of_In.
Qed.

Lemma msg_knownb_sound L m : msg_knownb L m = true -> msg_known toy_byz toy_key L m.
Proof.
  destruct m as [| ? ? j ?| | |? j ?]; simpl; auto using qc_knownb_sound, sig_knownb_sound.
  - intros Hj q ->. by apply qc_knownb_sound.
  - intros Hj q ->. by apply qc_knownb_sound.
Qed.

Lemma event_okb_sound i r L e :
  event_okb i r L e = true ->
  event_allowed r e /\ event_ok 4 toy_byz toy_key i L e.
Proof.
  unfold event_okb, event_allowed. intros [Hv He]%andb_true_iff.
  destruct e as [|m keys|evt|out]; simpl; [split; [lia|done]| |split; [lia|done]..].
  apply andb_true_iff in He as [He Hm]. apply andb_true_iff in He as [He Hk].
  apply andb_true_iff in He as [He Hkeys].
  split_and!; [lia|lia|by apply keys_okb_sound|by apply msg_knownb_sound|].
  destruct m; simpl; try done. destruct (Z.eqb_spec voter i); done.
Qed.

(** ** The scheduler *)

(** The events an effect causes. *)
Definition caused (i : Z) (e : Effect) : list (Z * Event) :=
  match e with
  | Broadcast m => (fun j => (j, EvMsg m toy_keys)) <$> filter (fun j => j <> i) (seqZ 0 4)
  | SendTo j m => [(j, EvMsg m toy_keys)]
  | SubmitValidation req st =>
      match run_validation req st (Reexecute 0) with
      | Ok out => [(i, EvValidated out)]
      | Panic _ => []
      end
  | _ => []
  end.

Fixpoint schedule (fuel : nat) (queue : list (Z * Event)) (W : World) : option World :=
  match fuel with
  | O => Some W
  | S fuel =>
      match queue with
      | [] => Some W
      | (i, e) :: queue =>
          match nodes W !! i with
          | None => schedule fuel queue W
          | Some s =>
              if event_okb i (rs s) (votes W) e then
                match node_step (toy_wiring i) e s with
                | Ok s' =>
                    schedule fuel (queue ++ (rev (effects s') ≫= caused i))
                      (mkWorld (<[i := s']> (nodes W)) (ballots_of i (effects s') ++ votes W)
                         (event_proposals e ++ proposals (effects s') ++ offers W))
                | Panic _ => None
                end
              else None
          end
      end
  end.

Abbreviation toy_step := (world_step 4 toy_byz toy_wiring).

Lemma schedule_sound fuel queue W W' : schedule fuel queue W = Some W' -> rtc toy_step W W'.
Proof.
  revert queue W. induction fuel as [|fuel IH]; intros queue W; simpl; [by intros [= <-]|].
  destruct queue as [|[i e] queue]; [by intros [= <-]|].
  destruct (nodes W !! i) as [s|] eqn:Ei; [|apply IH].
  destruct (event_okb i (rs s) (votes W) e) eqn:Eo; [|done].
  destruct (node_step (toy_wiring i) e s) as [s'|] eqn:Es; [|done].
  intros Hr. apply event_okb_sound in Eo as [Ha Ho].
  eapply rtc_l; [|by eapply IH]. by eapply (step_node _ _ _ _ _ trie_order i s s' e).
Qed.

Lemma toy_start_initial : initial 4 toy_byz toy_start.
Proof.
  split_and!; [done|done|]. intros i s Hi. simpl in Hi.
  repeat (apply lookup_insert_Some in Hi as [[<- <-]|[_ Hi]];
    [split_and!; [lia|lia|decide_now|done|by exists 50]|]).
  apply lookup_singleton_Some in Hi as [<- <-].
  split_and!; [lia|lia|decide_now|done|by exists 50].
Qed.

Definition toy_run : option World :=
  schedule 200 [(0, EvStart); (1, EvStart); (2, EvStart)] toy_start.

(** The run decides and executes both blocks. *)
Definition toy_world : World := default toy_start toy_run.

Lemma schedule_default fuel queue W : rtc toy_step W (default W (schedule fuel queue W)).
Proof. destruct (schedule fuel queue W) eqn:E; [by eapply schedule_sound|done]. Qed.

Lemma toy_world_reachable : reachable 4 toy_byz toy_wiring toy_world.
Proof. exists toy_start. split; [apply toy_start_initial|]. apply schedule_default. Qed.

Lemma toy_ids i : my_id (toy_wiring i) = i.
Proof. reflexivity. Qed.

(** ** Witnesses for Safety *)

Lemma votes_refine_spec_witness :
  length (votes toy_world) = 18%nat /\ honest_log 4 toy_byz (offered toy_world) (votes toy_world).
Proof.
  split; [vm_compute; reflexivity|].
  apply (votes_refine_spec 4 toy_byz toy_wiring);
    [lia|exact toy_ids|exact toy_world_reachable].
Defined.

(** The ballots of replica 1 in the PREPARE phase of view 2. *)
Definition toy_ballots (W : World) : list Ballot :=
  filter (fun b => b_voter b = 1 /\ b_type b = Prepare /\ b_view b = 2) (votes W).

Lemma elem_of_toy_ballots W b :
  b ∈ toy_ballots W -> (b_voter b = 1 /\ b_type b = Prepare /\ b_view b = 2) /\ b ∈ votes W.
Proof. unfold toy_ballots. by intros ?%list_elem_of_filter. Qed.

Lemma no_equivocation_witness :
  length (toy_ballots toy_world) = 1%nat /\
  forall b c, b ∈ toy_ballots toy_world -> c ∈ toy_ballots toy_world -> b_node b = b_node c.
Proof.
  split; [vm_compute; reflexivity|]. generalize toy_world_reachable.
  generalize toy_world. intros W HW b c Hb Hc.
  destruct (elem_of_toy_ballots W b Hb) as [(Hb1 & Hb2 & Hb3) Hb'].
  destruct (elem_of_toy_ballots W c Hc) as [(Hc1 & Hc2 & Hc3) Hc'].
  apply (no_equivocation 4 toy_byz toy_wiring ltac:(lia) toy_ids W b c HW Hb' Hc'); congruence.
Defined.

Definition decided_by (W : World) (i : Z) : gset (list Z) :=
  match nodes W !! i with Some s => decided_nodes (rs s) | None => ∅ end.

Lemma elem_of_decided_by W i h :
  h ∈ decided_by W i -> exists s, nodes W !! i = Some s /\ h ∈ decided_nodes (rs s).
Proof. unfold decided_by. destruct (nodes W !! i) as [s|]; [eauto|set_solver]. Qed.

Lemma agreement_witness :
  size (decided_by toy_world 0) = 2%nat /\ size (decided_by toy_world 2) = 2%nat /\
  forall h1 h2, h1 ∈ decided_by toy_world 0 -> h2 ∈ decided_by toy_world 2 ->
    extends (offered toy_world) h1 h2 \/ extends (offered toy_world) h2 h1.
Proof.
  split; [vm_compute; reflexivity|]. split; [vm_compute; reflexivity|].
  generalize toy_world_reachable. generalize toy_world. intros W HW h1 h2 Hh1 Hh2.
  destruct (elem_of_decided_by W 0 h1 Hh1) as (s0 & E0 & Hd0).
  destruct (elem_of_decided_by W 2 h2 Hh2) as (s2 & E2 & Hd2).
  apply (agreement 4 toy_byz toy_wiring ltac:(lia) toy_ids W 0 2 s0 s2);
    [vm_compute; discriminate|exact HW|exact E0|exact E2|exact Hd0|exact Hd2].
Defined.

(** The commit certificate replica 1 holds for view 2, and the prepare
    certificate replica 2 holds for it. *)
Definition toy_qc1 (W : World) : option QC :=
  match nodes W !! 1 with Some s => staged_decide_qc (rs s) !! 2 | None => None end.
Definition toy_qc2 (W : World) : option QC :=
  match nodes W !! 2 with Some s => staged_pre_commit_qc (rs s) !! 2 | None => None end.

(** Both are there, known and verified. *)
Definition toy_qc_check (W : World) (o : option QC) : bool :=
  match o with
  | Some q => qc_knownb (votes W) q && verify_qc q 3 toy_keys && (qc_view q =? 2)
  | None => false
  end.

Lemma certificates_unique_witness :
  exists q1 q2, toy_qc1 toy_world = Some q1 /\ toy_qc2 toy_world = Some q2 /\ qc_node q1 = qc_node q2.
Proof.
  assert (toy_qc_check toy_world (toy_qc1 toy_world) = true) as Hq1 by (vm_compute; reflexivity).
  assert (toy_qc_check toy_world (toy_qc2 toy_world) = true) as Hq2 by (vm_compute; reflexivity).
  revert Hq1 Hq2. generalize toy_world_reachable. generalize toy_world. intros W HW.
  destruct (toy_qc1 W) as [q1|]; [|done]. destruct (toy_qc2 W) as [q2|]; [|done].
  unfold toy_qc_check. rewrite !andb_true_iff. intros [[Hk1 Hv1] Hw1] [[Hk2 Hv2] Hw2].
  exists q1, q2. split; [done|]. split; [done|].
  apply (certificates_unique 4 toy_byz toy_wiring ltac:(lia) toy_ids W toy_keys toy_keys);
    [vm_compute; discriminate|exact HW|apply keys_okb_sound; vm_compute; reflexivity..
    |by apply qc_knownb_sound|by apply qc_knownb_sound|exact Hv1|exact Hv2|lia].
Defined.

(** ** A single replica with its validator worker *)

Abbreviation reexec := (Reexecute 0).

Section driver.
Context (val : Validator).

(** Serves the worker's queue until it is empty. *)
Fixpoint serve (fuel : nat) (p : Proc) (nds : list Node) : Proc * list Node :=
  match fuel, p with
  | S fuel, mkProc s ((req, st) :: q) =>
      match run_validation req st val with
      | Ok out =>
          match node_step (toy_wiring 0) (EvValidated out) s with
          | Ok s' => serve fuel (mkProc s' (q ++ submitted (effects s'))) (proposals (effects s') ++ nds)
          | Panic _ => (p, nds)
          end
      | Panic _ => (p, nds)
      end
  | _, _ => (p, nds)
  end.

Abbreviation toy_proc_run := (proc_run (toy_wiring 0) val).

Lemma serve_run fuel p0 p nds :
  toy_proc_run p0 nds p -> toy_proc_run p0 (serve fuel p nds).2 (serve fuel p nds).1.
Proof.
  revert p nds. induction fuel as [|fuel IH]; intros [s q] nds Hr; cbn [serve]; [done|].
  destruct q as [|[req st] q]; [done|].
  destruct (run_validation req st val) as [out|] eqn:Eo; [|done].
  destruct (node_step (toy_wiring 0) (EvValidated out) s) as [s'|] eqn:Es; [|done].
  apply IH. eapply run_step; [exact Hr|]. by eapply (proc_validated _ _ trie_order).
Qed.

(** Handles an event, then serves at most [fuel] validations. *)
Definition react (fuel : nat) (e : Event) (p : Proc * list Node) : Proc * list Node :=
  match node_step (toy_wiring 0) e (p_sys p.1) with
  | Ok s' => serve fuel (mkProc s' (p_queue p.1 ++ submitted (effects s')))
               (event_proposals e ++ proposals (effects s') ++ p.2)
  | Panic _ => p
  end.

Lemma react_run fuel e p0 p :
  (forall out, e <> EvValidated out) ->
  toy_proc_run p0 p.2 p.1 -> toy_proc_run p0 (react fuel e p).2 (react fuel e p).1.
Proof.
  intros Hne Hr. unfold react. destruct (node_step _ e _) as [s'|] eqn:E; [|done].
  apply serve_run. rewrite app_assoc. eapply run_step; [exact Hr|].
  destruct p as [[s q] nds]. by apply (proc_event _ _ trie_order).
Qed.

Definition drive (n : Z) (es : list Event) : Proc * list Node :=
  foldl (fun p e => react 10 e p) (fresh_proc n 50 toy_state, []) es.

Lemma drive_run n es :
  Forall (fun e => forall out, e <> EvValidated out) es ->
  toy_proc_run (fresh_proc n 50 toy_state) (drive n es).2 (drive n es).1.
Proof.
  assert (forall p0 p, Forall (fun e => forall out, e <> EvValidated out) es ->
    toy_proc_run p0 p.2 p.1 ->
    toy_proc_run p0 (foldl (fun p e => react 10 e p) p es).2 (foldl (fun p e => react 10 e p) p es).1) as Hf.
  { intros p0 p Hes. revert p. induction Hes as [|e es' He Hes IH]; intros p Hr; [done|].
    simpl. apply IH. by apply react_run. }
  intros Hes. apply Hf; [done|apply run_refl].
Qed.
End driver.

(** A cluster of one: the rules run on events only, so the replica proposes
    its second block when the timer of view 2 fires. *)
Definition solo_events : list Event := [EvStart; EvTimer (mkTimerEvent 2)].
Definition solo : Proc * list Node := drive reexec 1 solo_events.

Lemma solo_run val : proc_run (toy_wiring 0) val (fresh_proc 1 50 toy_state)
  (drive val 1 solo_events).2 (drive val 1 solo_events).1.
Proof. apply drive_run. by repeat constructor. Qed.

Definition node_tree (nds : list Node) : gmap (list Z) Node :=
  list_to_map ((fun nd => (node_hash nd, nd)) <$> nds).

Definition height_okb (T : gmap (list Z) Node) (nd : Node) : bool :=
  (0 <=? height nd) && (height nd <? i64_bound) &&
  (if decide (parent nd = GENESIS_HASH) then height nd =? 0 else true) &&
  match T !! parent nd with Some p => height nd =? height p + 1 | None => true end.

Definition heights_okb (T : gmap (list Z) Node) : bool :=
  bool_decide (map_Forall (fun _ nd => height_okb T nd = true) T).

Lemma heights_okb_sound T : heights_okb T = true -> heights_ok T.
Proof.
  intros HT%bool_decide_eq_true h nd Hn. specialize (HT h nd Hn). unfold height_okb in HT.
  rewrite !andb_true_iff in HT. destruct HT as [[[Hl Hu] Hg] Hp].
  split_and!; [lia|lia|..].
  - intros E. rewrite decide_True in Hg by done. lia.
  - intros p E. rewrite E in Hp. lia.
Qed.

Lemma proposed_dec_sound T nds :
  forallb (fun nd => bool_decide (T !! node_hash nd = Some nd)) nds = true -> proposed T nds.
Proof.
  rewrite forallb_forall. intros HT. apply Forall_forall. intros nd Hn.
  apply (bool_decide_eq_true_1 _), HT. by apply list_elem_of_In.
Qed.

(** Both blocks are executed: account 0 ends with 115, account 1 with 85. *)
Lemma reexecuted_state_correct_witness :
  last_executed_height (rs (p_sys solo.1)) = 1 /\
  replay ["w"%string] toy_state 2 = Some (mkState {[ 0 := 115; 1 := 85 ]}) /\
  replay ["w"%string] toy_state (Z.to_nat (last_executed_height (rs (p_sys solo.1)) + 1)) =
    Some (live_state (p_sys solo.1)).
Proof.
  split; [vm_compute; reflexivity|]. split; [vm_compute; reflexivity|].
  apply (reexecuted_state_correct (toy_wiring 0) reexec toy_state (node_tree solo.2) 1 50 0 solo.2 solo.1).
  - reflexivity.
  - apply heights_okb_sound. vm_compute. reflexivity.
  - apply proposed_dec_sound. vm_compute. reflexivity.
  - apply solo_run.
Defined.

(** ** A replica that verifies proofs *)

Definition solo_verify : Proc * list Node := drive (Verify tt) 1 solo_events.

Definition heights_smallb (T : gmap (list Z) Node) : bool :=
  bool_decide (map_Forall (fun _ nd => 0 <= height nd < i64_bound) T).

Lemma heights_smallb_sound T : heights_smallb T = true -> heights_small T.
Proof. intros HT%bool_decide_eq_true h nd. apply HT. Qed.

Lemma verified_root_chain_witness :
  last_executed_height (rs (p_sys solo_verify.1)) = 1 /\
  exists pre, root_chain (toy_wiring 0) tt 2 pre (chained_root (p_sys solo_verify.1)) /\
    transition_chain 2 pre (chained_root (p_sys solo_verify.1)).
Proof.
  assert (last_executed_height (rs (p_sys solo_verify.1)) = 1) as Hl by (vm_compute; reflexivity).
  split; [exact Hl|].
  pose proof (@verified_root_chain _ _ _ _ _ _ (toy_wiring 0) tt toy_sp1_sound
    (node_tree solo_verify.2) 1 50 toy_state solo_verify.2 solo_verify.1) as Hc.
  rewrite Hl in Hc. apply Hc.
  - reflexivity.
  - apply heights_smallb_sound. vm_compute. reflexivity.
  - apply proposed_dec_sound. vm_compute. reflexivity.
  - apply solo_run.
  - lia.
Defined.

(** Two proposals of a chain, received before the first one is decided. *)
Definition toy_cmd (dir : string) : list Z := hash_transactions (default [] (toy_txs dir)).
Definition node0 : Node := mkNode GENESIS_HASH (toy_cmd "block_0000") 0.
Definition node1 : Node := mkNode (node_hash node0) (toy_cmd "block_0001") 1.

(** A certificate signed by replicas 0, 1 and 2. *)
Definition toy_qc (t : MsgType) (v : Z) (nd : Node) : QC :=
  mkQC t v (node_hash nd)
    ((fun i => (i, sign_vote (w_sk (toy_wiring i)) t v (node_hash nd))) <$> [0; 1; 2]).

Definition pipelined : Proc * list Node :=
  drive (Verify tt) 4
    [EvStart; EvMsg (Proposal 1 node0 None 0) toy_keys;
     EvMsg (Proposal 2 node1 (Some (toy_qc Prepare 1 node0)) 1) toy_keys].

(** The decision of the second proposal executes block 0, whose proof is
    verified, and only then submits block 1, in the same pass. *)
Definition deciding : Proc * list Node :=
  react (Verify tt) 0 (EvMsg (PhaseQc Decide 2 (toy_qc Commit 2 node1) 1) toy_keys) pipelined.

(** The effects before and after the latest submission. *)
Fixpoint split_submission (es : list Effect) : option (list Effect * (ValidateRequest * State) * list Effect) :=
  match es with
  | [] => None
  | SubmitValidation rq st :: es => Some ([], (rq, st), es)
  | x :: es => '(l1, y, l2) ← split_submission es; Some (x :: l1, y, l2)
  end.

Lemma split_submission_sound es l1 rq st l2 :
  split_submission es = Some (l1, (rq, st), l2) -> es = l1 ++ SubmitValidation rq st :: l2.
Proof.
  revert l1. induction es as [|x es IH]; intros l1; [done|]. destruct x; cbn [split_submission].
  all: try (intros (p & Hp & Hl)%bind_Some; destruct p as [[k1 y] k2]; simplify_eq; by rewrite (IH k1)).
  by intros [= <- -> -> ->].
Qed.

Definition submission_check (p : Proc) : bool :=
  match split_submission (effects (p_sys p)) with
  | Some (l1, (rq, st), l2) =>
      bool_decide (req_node_hash rq = node_hash node1) && bool_decide (executed l2 = [(0, node_hash node0)])
  | None => false
  end.

Lemma deciding_submits : submission_check deciding.1 = true.
Proof. vm_compute. reflexivity. Qed.

Lemma verify_mode_waits_for_parent_witness :
  exists l1 rq st l2, effects (p_sys deciding.1) = l1 ++ SubmitValidation rq st :: l2 /\
    req_node_hash rq = node_hash node1 /\ executed l2 = [(0, node_hash node0)] /\
    exists nd, node_tree deciding.2 !! req_node_hash rq = Some nd /\
      (parent nd = GENESIS_HASH \/ exists pn, node_tree deciding.2 !! parent nd = Some pn /\
         height pn <= last_executed_height (rs (p_sys deciding.1)) - Z.of_nat (length (executed l1))).
Proof.
  assert (heights_small (node_tree deciding.2)) as Hh
    by (apply heights_smallb_sound; vm_compute; reflexivity).
  assert (proposed (node_tree deciding.2) deciding.2) as Hp
    by (apply proposed_dec_sound; vm_compute; reflexivity).
  assert (proc_run (toy_wiring 0) (Verify tt) (fresh_proc 4 50 toy_state) deciding.2 deciding.1) as Hr
    by (apply react_run; [discriminate|apply drive_run; repeat constructor; discriminate]).
  pose proof deciding_submits as Hc. revert Hc Hh Hp Hr. generalize deciding. intros [p nds]. cbn [fst snd].
  unfold submission_check. destruct (split_submission (effects (p_sys p))) as [[[l1 [rq st]] l2]|] eqn:Es; [|discriminate].
  intros Hc Hh Hp Hr. apply andb_true_iff in Hc as [Hn%bool_decide_eq_true Hx%bool_decide_eq_true].
  apply split_submission_sound in Es. exists l1, rq, st, l2.
  split; [exact Es|]. split; [exact Hn|]. split; [exact Hx|].
  exact (@verify_mode_waits_for_parent _ _ _ _ _ toy_sp1 (toy_wiring 0) tt (node_tree nds) 4 50 toy_state nds p
    l1 rq st l2 Hh Hp Hr Es).
Defined.

(** A replica of a cluster of four that receives two proposals and the
    decision of the second ends with the state of the single replica. *)
Definition follower : Proc * list Node :=
  drive reexec 4
    [EvStart; EvMsg (Proposal 1 node0 None 0) toy_keys;
     EvMsg (Proposal 2 node1 (Some (toy_qc Prepare 1 node0)) 1) toy_keys;
     EvMsg (PhaseQc Decide 2 (toy_qc Commit 2 node1) 1) toy_keys].

Lemma reexecuting_replicas_agree_witness :
  last_executed_height (rs (p_sys follower.1)) = 1 /\
  live_state (p_sys solo.1) = live_state (p_sys follower.1).
Proof.
  split; [vm_compute; reflexivity|].
  apply (reexecuting_replicas_agree (toy_wiring 0) (toy_wiring 0) 0 0 toy_state
    (node_tree solo.2) (node_tree follower.2) 1 4 50 50 solo.2 follower.2).
  - reflexivity.
  - apply heights_okb_sound. vm_compute. reflexivity.
  - apply proposed_dec_sound. vm_compute. reflexivity.
  - apply solo_run.
  - apply heights_okb_sound. vm_compute. reflexivity.
  - apply proposed_dec_sound. vm_compute. reflexivity.
  - apply drive_run. by repeat constructor.
  - vm_compute. reflexivity.
Defined.

(** ** Witnesses for Progress *)

Lemma heights_okb_acyclic T : heights_okb T = true -> acyclic T.
Proof.
  intros HT%heights_okb_sound. apply heights_acyclic. intros h nd p E Ep.
  destruct (HT h nd E) as (_ & _ & Hh). by apply Hh.
Qed.

Lemma build_chain_terminates_witness :
  exists chain, build_chain 3 (node_tree [node0; node1]) (-1) (node_hash node1) = Ok chain /\
    walk (node_tree [node0; node1]) (node_hash node1) chain /\ length chain = 2%nat.
Proof.
  destruct (build_chain_terminates (node_tree [node0; node1]) (-1) (node_hash node1)) as (chain & E & Hw & _).
  - apply heights_okb_acyclic. vm_compute. reflexivity.
  - exists chain. split; [exact E|]. split; [exact Hw|].
    vm_compute in E. injection E as <-. reflexivity.
Defined.

(** Both proposals are validated, none is executed yet. *)
Definition validated2 : Sys :=
  p_sys (drive reexec 4
    [EvStart; EvMsg (Proposal 1 node0 None 0) toy_keys;
     EvMsg (Proposal 2 node1 (Some (toy_qc Prepare 1 node0)) 1) toy_keys]).1.

Definition executed2 : option (list (Z * list Z) * Z) :=
  match try_execute_chain (toy_wiring 0) (node_hash node1) validated2 with
  | Ok s' => Some (executed (effects s'), last_executed_height (rs s'))
  | Panic _ => None
  end.

Lemma executes_in_order_witness :
  executed2 = Some ([(0, node_hash node0); (1, node_hash node1)], 1) /\
  forall s', try_execute_chain (toy_wiring 0) (node_hash node1) validated2 = Ok s' ->
    exists l, executed (effects s') = executed (effects validated2) ++ l /\
      Forall (fun x => extends (in_tree (tree (rs validated2))) (node_hash node1) x.2) l.
Proof.
  split; [vm_compute; reflexivity|].
  assert (tree_ok (tree (rs validated2))) as Ht by decide_now.
  revert Ht. generalize validated2. intros s Ht s' E.
  destruct (executes_in_order (toy_wiring 0) (node_hash node1) s s' Ht E) as (l & Hl & _ & _ & Hf).
  exists l. split; [exact Hl|]. eapply Forall_impl; [exact Hf|]. by intros x (nd & _ & _ & _ & ?).
Defined.

Lemma timeout_backoff_witness :
  view (rs (timeouts (toy_wiring 0) 3 toy_sys)) = 3 /\
  timeout_interval_ms (rs (timeouts (toy_wiring 0) 3 toy_sys)) = 400.
Proof.
  destruct (timeout_backoff (toy_wiring 0) 3 toy_sys) as (E1 & E2 & _).
  - simpl. lia.
  - simpl. lia.
  - simpl. lia.
  - intros j _. reflexivity.
  - split; [exact E1|exact E2].
Defined.

Lemma stale_timer_ignored_witness : handle_timer (toy_wiring 0) (mkTimerEvent 5) toy_sys = toy_sys.
Proof. apply stale_timer_ignored. left. simpl. lia. Defined.

(** Replica 1 in view 1, with the commit certificate of the view. *)
Definition about_to_decide : Sys :=
  upd (stage_qc Decide 1 (toy_qc Commit 1 node0)) (upd (set_view 1) toy_sys).

Lemma decide_enters_next_view_witness :
  exists s', replica_decide (toy_wiring 1) about_to_decide = Ok s' /\ view (rs s') = 2 /\
    timeout_interval_ms (rs s') = 50.
Proof.
  destruct (replica_decide (toy_wiring 1) about_to_decide) as [s'|p] eqn:E;
    [|vm_compute in E; discriminate E].
  exists s'. split; [reflexivity|].
  destruct (decide_enters_next_view (toy_wiring 1) about_to_decide s' (toy_qc Commit 1 node0))
    as (E1 & E2 & _); [vm_compute; discriminate|vm_compute; reflexivity..|exact E|].
  split; [exact E1|exact E2].
Defined.

(** ** Witnesses for RunWorkload *)

(** What the commit of a block says of it. *)
Definition toy_rw_serde : RwSerde := {|
  rw_parse_manifest _ := Some (mkRwManifest 2 100 2 2);
  rw_parse_meta text :=
    (fun txs => mkRwBlockMeta (if decide (text = "block_0000"%string) then 0 else 1) "" "" ""
       (apply_block (toy_pre_state text) txs).2 (Z.of_nat (length txs))) <$> toy_txs text
|}.
#[local] Existing Instance toy_rw_serde.

Abbreviation toy_elf := ["w"; "ledger-program.elf"]%string.

Lemma run_workload_sound_witness :
  exists final manifest vk,
    run_workload ["w"%string] toy_elf = Ok final /\ rw_num_blocks manifest = 2 /\
    forall h, 0 <= h < rw_num_blocks manifest -> exists s s' pre post,
      replay ["w"%string] toy_state (Z.to_nat h) = Some s /\
      replay ["w"%string] toy_state (S (Z.to_nat h)) = Some s' /\
      compute_state_root s = Ok pre /\ compute_state_root s' = Ok post /\
      proof_roots_at vk ["w"%string] h = Some (pre, post).
Proof.
  assert (is_Ok (run_workload ["w"%string] toy_elf) = true) as Hok by (vm_compute; reflexivity).
  destruct (run_workload ["w"%string] toy_elf) as [final|] eqn:E; [|discriminate Hok].
  destruct (run_workload_sound ["w"%string] toy_elf final E) as (text & m & elf & vk & _ & Hm & _ & _ & _ & Hall).
  injection Hm as <-. exists final, (mkRwManifest 2 100 2 2), vk.
  split; [reflexivity|]. split; [reflexivity|].
  assert (initial_state 2 100 = toy_state) as Hi by decide_now.
  cbn [rw_num_accounts rw_initial_balance rw_num_blocks] in *. rewrite Hi in Hall. exact Hall.
Defined.

Lemma toy_workload_checked : workload_checked ["w"%string] (tt : @sp1_vkey toy_sp1) toy_state 2.
Proof.
  assert (is_Ok (run_workload ["w"%string] toy_elf) = true) as Hok by (vm_compute; reflexivity).
  destruct (run_workload ["w"%string] toy_elf) as [final|] eqn:E; [|discriminate Hok].
  destruct (run_workload_checked ["w"%string] toy_elf final E) as (text & m & elf & vk & _ & Hm & _ & Hv & _ & Hall).
  injection Hm as <-. injection Hv as <-.
  assert (initial_state 2 100 = toy_state) as Hi by decide_now.
  cbn [rw_num_accounts rw_initial_balance rw_num_blocks] in *. rewrite Hi in Hall. exact Hall.
Qed.

Lemma validation_modes_agree_witness :
  compute_state_root (live_state (p_sys solo.1)) = Ok (chained_root (p_sys solo_verify.1)).
Proof.
  apply (@validation_modes_agree _ _ _ _ _ _ toy_sp1 (toy_wiring 0) (toy_wiring 0) tt 0 toy_state 2
    (node_tree solo.2) (node_tree solo_verify.2) 1 1 50 50 solo.2 solo_verify.2 solo.1 solo_verify.1 toy_state 1).
  - reflexivity.
  - exact toy_workload_checked.
  - apply heights_okb_sound. vm_compute. reflexivity.
  - apply proposed_dec_sound. vm_compute. reflexivity.
  - apply solo_run.
  - apply heights_smallb_sound. vm_compute. reflexivity.
  - apply proposed_dec_sound. vm_compute. reflexivity.
  - apply solo_run.
  - lia.
  - vm_compute. reflexivity.
  - vm_compute. reflexivity.
Defined.

(** ** Witnesses for NodeMain *)

(** A node without peers, fed by its worker; the timer of view 2 lets it
    propose the second block. *)
Definition solo_args : Args := mkArgs 0 Fast "" ModeReexecute "w" [] 0 50.
Definition solo_key : @signing_key toy_sig := 1000.
Definition solo_arms : list (HashOrder * Arm) :=
  (trie_order,.) <$> [FromWorker; FromTimer (mkTimerEvent 2); FromWorker; FromTimer (mkTimerEvent 9)].

Definition solo_main_check (r : result (bool * Main)) : bool :=
  match r with
  | Ok (true, m) => (total_txs m =? 3) && (last_executed_height (rs (m_sys m)) =? 1)
  | _ => false
  end.

Lemma main_correct_witness :
  exists m, main solo_args solo_key solo_arms = Ok (true, m) /\ total_txs m = 3 /\
  exists workload val nds,
    workload_load ["w"%string] = Ok workload /\ build_validator solo_args (elf_path workload) = Ok val /\
    proc_run (wiring solo_args solo_key workload) val (fresh_proc 1 50 (init_state solo_args workload)) nds (m_proc m) /\
    txs_upto workload 2 = Ok 3 /\
    (forall T, heights_ok T -> proposed T nds ->
       replay (workload_dir workload) (init_state solo_args workload) 2 = Some (live_state (m_sys m))).
Proof.
  assert (solo_main_check (main solo_args solo_key solo_arms) = true) as Hc by (vm_compute; reflexivity).
  destruct (main solo_args solo_key solo_arms) as [[[] m]|] eqn:E; [|discriminate Hc..].
  apply andb_true_iff in Hc as [Ht Hl]. apply Z.eqb_eq in Ht, Hl.
  exists m. split; [reflexivity|]. split; [exact Ht|].
  destruct (main_correct solo_args solo_key solo_arms m E ltac:(rewrite Hl; reflexivity)) as
    (wl & val & nds & H1' & H2' & H3' & _ & H4' & H5').
  rewrite Hl, Ht in *. exists wl, val, nds. split; [exact H1'|]. split; [exact H2'|]. split; [exact H3'|].
  split; [exact H4'|]. intros T HT Hp. exact (H5' eq_refl T HT Hp).
Defined.

(** A tree closed under proposing the next block. *)
Definition closedb (w : Wiring) (T : gmap (list Z) Node) : bool :=
  forallb (fun x => match workload_block (w_workload w) x.2 with
                    | Ok b => (num_blocks (workload_manifest (w_workload w)) <=? x.2) ||
                        bool_decide (T !! node_hash (mkNode x.1 (block_cmd b) x.2) =
                                     Some (mkNode x.1 (block_cmd b) x.2))
                    | Panic _ => true
                    end)
    ((GENESIS_HASH, 0) :: ((fun hp => (hp.1, add_u64 (height hp.2) 1)) <$> map_to_list T)).

Lemma closedb_sound w T : closedb w T = true -> closed w T.
Proof.
  unfold closedb. rewrite forallb_forall. intros Hf ph nh b Hp Hlt Hb.
  specialize (Hf (ph, nh)). cbn [fst snd] in Hf. rewrite Hb in Hf.
  apply orb_true_iff in Hf as [?%Z.leb_le|?%bool_decide_eq_true]; [lia|done|].
  destruct Hp as [[-> ->]|(p & Ep & ->)]; [by left|]. right.
  apply list_elem_of_In, list_elem_of_fmap. exists (ph, p). split; [done|]. by apply elem_of_map_to_list.
Qed.

(** A node with three peers: a proposal, a forged vote, timeouts and late
    outcomes of its worker. *)
Definition peer_args : Args := mkArgs 1 Fast "a,b,c" ModeReexecute "w" [] 0 50.
Definition peer_arms : list (HashOrder * Arm) :=
  (trie_order,.) <$> [FromInbox (Proposal 1 node0 None 0) toy_keys; FromInbox (Vote Prepare 2 (node_hash node0) 3 [7]) toy_keys;
   FromTimer (mkTimerEvent 1); FromWorker; FromInbox (Proposal 3 node1 (Some (toy_qc Prepare 1 node0)) 2) ∅; FromWorker].

Lemma main_never_panics_witness :
  exists ended m, main peer_args solo_key peer_arms = Ok (ended, m).
Proof.
  apply (main_never_panics (node_tree [node0; node1]) peer_args solo_key peer_arms toy_workload).
  - vm_compute. reflexivity.
  - intros h Hh. assert (h = 0 \/ h = 1) as [-> | ->] by (cbn in Hh; lia); eexists; vm_compute; reflexivity.
  - vm_compute. split; congruence.
  - reflexivity.
  - vm_compute. split; congruence.
  - split.
    + apply heights_okb_sound. vm_compute. reflexivity.
    + decide_now.
    + apply closedb_sound. vm_compute. reflexivity.
  - repeat constructor; vm_compute; reflexivity.
Defined.

Definition toy_args : Args := mkArgs 1 Slow "a,b,c" ModeVerify "w" [] 5 50.

Lemma build_validator_correct_witness :
  mode toy_args = ModeVerify /\ speed toy_args = Slow /\
  exists bytes, fs_read toy_elf = Some bytes /\ @sp1_setup toy_sp1 bytes = Some tt.
Proof.
  exact (@build_validator_correct toy_fs toy_sp1 toy_args toy_elf (@Verify toy_sp1 tt) eq_refl).
Defined.
