(* ===== verification/Connected.v ===== *)
(** * Connected: a connected cluster that runs

    The cluster of Cluster as a system of System: the scheduler delivers
    exactly the messages that were sent, in the order they were sent.  Its
    run is a witness for the theorems of System and Liveness. *)

From Stdlib Require Import ZArith Lia.
From stdpp Require Import prelude strings gmap.
From S2P Require Import Prelude Crypto Ledger Messages Replica Qc VoteLog Workload Zk Validator Wiring Execute Handlers Rules Consensus Process Invariant Steps Moves History Settled Safety System Liveness Pacemaker Integrity Progress Replicated Cluster.
Open Scope Z_scope.

#[local] Existing Instances toy_sha256 toy_bincode toy_sig toy_sig_laws toy_sp1 trie_order toy_fs toy_serde.

Definition toy_system : System :=
  mkSystem ((fun i => mkRun toy_sys [] [] false) <$> {[ 0 := tt; 1 := tt; 2 := tt ]}) [] [].

Abbreviation toy_K := (all_keys 4 toy_wiring).

(** The events an effect of replica [i] causes. *)
Definition deliveries (i : Z) (x : Effect) : list (Z * Event) :=
  match x with
  | Broadcast m => (fun j => (j, EvMsg m toy_K)) <$> filter (fun j => j <> i) (seqZ 0 4)
  | SendTo j m => [(j, EvMsg m toy_K)]
  | SubmitValidation req st =>
      match run_validation req st (Reexecute 0) with
      | Ok out => [(i, EvValidated out)]
      | Panic _ => []
      end
  | _ => []
  end.

Definition allowedb (r : ReplicaState) (e : Event) : bool :=
  (view r + 2 <? u64_modulus) && match e with EvStart => view r =? 0 | _ => 1 <=? view r end.

Section deliver.
(** The deliveries that wait until nothing else can be delivered. *)
Context (slow : Z * Event -> bool).

Definition reorder (queue : list (Z * Event)) : list (Z * Event) :=
  List.filter (fun x => negb (slow x)) queue ++ List.filter slow queue.

(** Delivers the queue until it is empty. *)
Fixpoint deliver (fuel : nat) (queue : list (Z * Event)) (N : System) : option System :=
  match fuel, reorder queue with
  | O, _ => None
  | S _, [] => Some N
  | S fuel, (i, e) :: queue =>
      match runs N !! i with
      | None => deliver fuel queue N
      | Some run =>
          if allowedb (rs (run_sys run)) e then
            match node_step (toy_wiring i) e (run_sys run) with
            | Ok s' =>
                deliver fuel (queue ++ (reverse (effects s') ≫= deliveries i))
                  (mkSystem
                    (<[i := mkRun s' (e :: handled run) (effects s' ++ emitted run)
                              (evaluated (toy_wiring i) e (run_sys run) s')]> (runs N))
                    (ballots_of i (effects s') ++ ballots N)
                    (event_proposals e ++ proposals (effects s') ++ proposed_nodes N))
            | Panic _ => None
            end
          else None
      end
  end.

Abbreviation toy_sys_step := (sys_step 4 toy_byz toy_wiring).

(** The queue holds what was sent and not yet handled, and what was handled
    had been sent. *)
Record queue_ok (N : System) (queue : list (Z * Event)) : Prop := {
  q_from : forall i m keys, (i, EvMsg m keys) ∈ queue -> keys = toy_K /\ available N i m;
  q_pending : forall i j ri rj m, runs N !! i = Some ri -> runs N !! j = Some rj ->
    sent_to (emitted rj) j i m -> 0 <= i < 4 -> EvMsg m toy_K ∈ handled ri \/ (i, EvMsg m toy_K) ∈ queue;
  q_handled : forall i ri m keys, runs N !! i = Some ri -> EvMsg m keys ∈ handled ri -> available N i m
}.

Lemma allowedb_sound r e : allowedb r e = true -> event_allowed r e.
Proof. unfold allowedb, event_allowed. destruct e; lia. Qed.

Lemma deliveries_msg i es j m keys :
  (j, EvMsg m keys) ∈ (reverse es ≫= deliveries i) <->
  keys = toy_K /\ ((Broadcast m ∈ es /\ j <> i /\ 0 <= j < 4) \/ SendTo j m ∈ es).
Proof.
  rewrite list_elem_of_bind. setoid_rewrite elem_of_reverse. split.
  - intros (x & Hin & Hx). destruct x as [m'|j' m'| |req st| |]; cbn [deliveries] in Hin; try by apply elem_of_nil in Hin.
    + apply list_elem_of_fmap in Hin as (j' & [= -> -> ->] & [Hne Hj]%list_elem_of_filter).
      apply elem_of_seqZ in Hj. split; [done|]. left. split_and!; [done|done|lia|lia].
    + apply list_elem_of_singleton in Hin as [= -> -> ->]. auto.
    + destruct (run_validation _ _ _); [|by apply elem_of_nil in Hin]. by apply list_elem_of_singleton in Hin.
  - intros (-> & [(Hb & Hne & Hj)|Hs]).
    + exists (Broadcast m). split; [|done]. cbn [deliveries]. apply list_elem_of_fmap. exists j. split; [done|].
      apply list_elem_of_filter. split; [done|]. apply elem_of_seqZ. lia.
    + exists (SendTo j m). split; [|done]. by apply list_elem_of_singleton.
Qed.

Lemma queue_step N i e queue run s' b L P :
  runs N !! i = Some run -> queue_ok N ((i, e) :: queue) ->
  queue_ok (mkSystem (<[i := mkRun s' (e :: handled run) (effects s' ++ emitted run) b]> (runs N)) L P)
    (queue ++ (reverse (effects s') ≫= deliveries i)).
Proof.
  intros Hi [Hf Hp Hh]. set (run' := mkRun s' _ _ _).
  assert (forall j m, available N j m -> available (mkSystem (<[i := run']> (runs N)) L P) j m) as Hav.
  { intros j m. apply available_mono. intros k rk Hk. cbn. destruct (decide (i = k)) as [<-|Hne].
    - rewrite lookup_insert_eq. exists run'. split; [done|]. assert (rk = run) as -> by congruence.
      intros x Hx. apply elem_of_app. by right.
    - rewrite lookup_insert_ne by done. by exists rk. }
  split.
  - intros j m keys [Hq|(-> & Hs)%deliveries_msg]%elem_of_app.
    + destruct (Hf j m keys) as [-> ?]; [by apply list_elem_of_further|]. auto.
    + split; [done|]. exists i, run'. cbn. rewrite lookup_insert_eq. split; [done|].
      destruct Hs as [(? & ? & _)|?]; [left|right]; rewrite elem_of_app; auto.
  - intros j k rj rk m Hj Hk Hs Hr. cbn in Hj, Hk.
    assert (exists rj0, runs N !! j = Some rj0 /\ (handled rj0 ⊆ handled rj) /\ (j = i -> e ∈ handled rj)) as
      (rj0 & Hj0 & Hsub & Hhd).
    { apply lookup_insert_Some in Hj as [[<- <-]|[Hne Hj]].
      - exists run. split_and!; [done| |by left]. intros x Hx. by apply list_elem_of_further.
      - exists rj. split_and!; [done|done|]. by intros ->. }
    assert ((exists rk0, runs N !! k = Some rk0 /\ sent_to (emitted rk0) k j m) \/
      (j, EvMsg m toy_K) ∈ (reverse (effects s') ≫= deliveries i)) as [(rk0 & Hk0 & Hs0)|Hd].
    { apply lookup_insert_Some in Hk as [[<- <-]|[Hne Hk]]; [|eauto]. unfold sent_to in Hs. cbn in Hs.
      rewrite !elem_of_app in Hs. destruct Hs as [[[?|?] ?]|[?|?]].
      - right. apply deliveries_msg. auto 10.
      - left. exists run. split; [done|by left].
      - right. apply deliveries_msg. auto.
      - left. exists run. split; [done|by right]. }
    + destruct (Hp j k rj0 rk0 m Hj0 Hk0 Hs0 Hr) as [?|[[= -> <-]|?]%elem_of_cons]; [auto|auto|].
      right. apply elem_of_app. by left.
    + right. apply elem_of_app. by right.
  - intros j rj m keys Hj. cbn in Hj. apply lookup_insert_Some in Hj as [[<- <-]|[Hne Hj]]; [|eauto].
    cbn. intros [<-|Hm]%elem_of_cons; [|eauto]. apply Hav, (Hf i m keys). by left.
Qed.

Lemma elem_of_reorder x queue : x ∈ reorder queue <-> x ∈ queue.
Proof.
  unfold reorder. rewrite elem_of_app, !list_elem_of_In, !List.filter_In. destruct (slow x); naive_solver.
Qed.

Lemma queue_reorder N queue : queue_ok N queue -> queue_ok N (reorder queue).
Proof. intros []. split; intros *; rewrite ?elem_of_reorder; eauto. Qed.

Lemma deliver_sound fuel queue N N' :
  queue_ok N queue -> deliver fuel queue N = Some N' -> rtc toy_sys_step N N' /\ queue_ok N' [].
Proof.
  revert queue N. induction fuel as [|fuel IH]; intros queue N Hq%queue_reorder; cbn [deliver]; [done|].
  destruct (reorder queue) as [|[i e] queue']; [by intros [= <-]|]. clear queue. rename queue' into queue.
  destruct (runs N !! i) as [run|] eqn:Ei; cycle 1.
  { apply IH. destruct Hq as [Hf Hp Hh]. split; [intros; apply Hf; by apply list_elem_of_further| |done].
    intros j k rj rk m Hj Hk Hs Hr. destruct (Hp j k rj rk m Hj Hk Hs Hr) as [?|[[= <- _]|?]%elem_of_cons];
      [auto|congruence|auto]. }
  destruct (allowedb _ _) eqn:Ea; [|done]. destruct (node_step _ _ _) as [s'|] eqn:Es; [|done].
  intros [Hr Hq']%IH; [|by apply queue_step]. split; [|done]. eapply rtc_l; [|exact Hr].
  eapply (sys_node _ _ _ _ _ trie_order i run e s'); [done|by apply allowedb_sound| |done|done].
  destruct e as [|m keys| |]; try done. cbn. destruct (q_from _ _ Hq i m keys) as [-> ?]; [by left|]. auto.
Qed.

Definition toy_deliver (fuel : nat) : option System :=
  deliver fuel [(0, EvStart); (1, EvStart); (2, EvStart)] toy_system.
End deliver.

(** In the order of sending.  The queue is empty after fewer than 200
    deliveries. *)
Abbreviation toy_final := (toy_deliver (fun _ => false) 200).

Lemma toy_system_initial : sys_initial 4 toy_byz toy_system.
Proof.
  split_and!; [done|done|]. intros i run. cbn [toy_system runs]. rewrite lookup_fmap, fmap_Some.
  intros (u & Hi & ->). split_and!; try done; try (by exists 50).
  all: repeat (apply lookup_insert_Some in Hi as [[<- _]|[_ Hi]]; [try lia; decide_now|]);
    apply lookup_singleton_Some in Hi as [<- _]; [lia..|decide_now].
Qed.

Lemma toy_queue_ok : queue_ok toy_system [(0, EvStart); (1, EvStart); (2, EvStart)].
Proof.
  split.
  - intros i m keys. rewrite !elem_of_cons. intros [?|[?|[?|?%elem_of_nil]]]; done.
  - intros i j ri rj m _. cbn [toy_system runs]. rewrite lookup_fmap, fmap_Some.
    intros (u & _ & ->) [[?%elem_of_nil _]|?%elem_of_nil]; done.
  - intros i ri m keys. cbn [toy_system runs]. rewrite lookup_fmap, fmap_Some. by intros (u & _ & ->) ?%elem_of_nil.
Qed.

(** *** What the theorem of Liveness asks of a view, as a check *)

Definition is_timer (v : Z) (e : Event) : bool :=
  match e with EvTimer t => timer_view t =? v | _ => false end.

Definition rejection (e : Event) : bool :=
  match e with EvValidated out => negb (out_valid out) | _ => false end.

Definition run_check (v : Z) (run : Run) : bool :=
  (v <? view (rs (run_sys run))) && forallb (fun e => negb (is_timer v e) && negb (rejection e)) (handled run).

Definition ready_check (v : Z) (run : Run) : bool :=
  bool_decide (map_Forall (fun _ (j : option QC) =>
    match j with
    | None => true
    | Some q => match tree (rs (run_sys run)) !! qc_node q with
                | Some p => add_u64 (height p) 1 <? 2
                | None => false
                end
    end = true) (new_view_msgs (vd_at (rs (run_sys run)) (v - 1)))).

Definition verdict_check (N : System) (v : Z) (x : Effect) : bool :=
  match x with
  | Broadcast (Proposal u leaf _ _) =>
      bool_decide (map_Forall (fun _ run => is_Some (validation_result (rs (run_sys run)) !! node_hash leaf)) (runs N))
  | _ => true
  end.

Definition view_check (v : Z) (N : System) : bool :=
  bool_decide (dom (runs N) = {[ 0; 1; 2 ]}) &&
  bool_decide (map_Forall (fun _ run => run_check v run = true) (runs N)) &&
  match runs N !! leader 4 v with
  | Some run => ready_check v run && forallb (verdict_check N v) (emitted run)
  | None => false
  end.

Lemma run_check_sound v run :
  run_check v run = true ->
  v < view (rs (run_sys run)) /\ (EvTimer (mkTimerEvent v) ∉ handled run) /\
  forall out, EvValidated out ∈ handled run -> out_valid out = true.
Proof.
  unfold run_check. rewrite andb_true_iff, forallb_forall. intros [Hv Hall]. split_and!; [lia| |].
  - intros Ht%list_elem_of_In%Hall. cbn in Ht. by rewrite Z.eqb_refl in Ht.
  - intros out Ho%list_elem_of_In%Hall. cbn in Ho. by destruct (out_valid out).
Qed.

Lemma view_check_quiescent v N : queue_ok N [] -> view_check v N = true -> quiescent 4 toy_byz toy_wiring N v.
Proof.
  unfold view_check. rewrite !andb_true_iff, !bool_decide_eq_true. intros [_ Hp _] [[Hd Hr] _].
  assert (forall i run, runs N !! i = Some run -> (0 <= i < 4) /\ run_check v run = true) as Hall.
  { intros i run Hi. split; [|by apply (Hr i)]. apply elem_of_dom_2 in Hi. rewrite Hd in Hi. set_solver by lia. }
  split.
  - intros i Hi Hb. apply elem_of_dom. rewrite Hd.
    assert (i = 0 \/ i = 1 \/ i = 2) by (unfold toy_byz in Hb; rewrite elem_of_singleton in Hb; lia). set_solver.
  - intros i run Hi. destruct (Hall i run Hi) as [_ (? & _)%run_check_sound]. lia.
  - intros i run Hi. by destruct (Hall i run Hi) as [_ (_ & ? & _)%run_check_sound].
  - intros i j ri rj m Hi Hj Hs _. destruct (Hp i j ri rj m Hi Hj Hs) as [?|?%elem_of_nil]; [|done|done].
    by apply (Hall i ri).
  - intros i run Hi Hv. destruct (Hall i run Hi) as [_ (? & _)%run_check_sound]. lia.
Qed.

Lemma ready_check_sound v run i :
  ready_check v run = true ->
  let blocks := num_blocks (workload_manifest (w_workload (toy_wiring i))) in
  0 < blocks /\
  forall j q, new_view_msgs (vd_at (rs (run_sys run)) (v - 1)) !! j = Some (Some q) ->
    exists p, tree (rs (run_sys run)) !! qc_node q = Some p /\ add_u64 (height p) 1 < blocks.
Proof.
  unfold ready_check. intros Hl%bool_decide_eq_true. cbv zeta. split; [done|].
  intros j q Hq. apply (Hl j) in Hq. cbn in Hq. destruct (tree _ !! _) as [p|]; [|done].
  exists p. split; [done|]. by apply Z.ltb_lt in Hq.
Qed.

Lemma view_check_ready v N : view_check v N = true -> ready 4 toy_wiring N v.
Proof.
  unfold view_check. rewrite !andb_true_iff. intros [_ Hl] run Hr. rewrite Hr in Hl.
  apply andb_true_iff in Hl as [Hl _]. by apply ready_check_sound.
Qed.

Lemma view_check_validated v N run leaf high :
  view_check v N = true -> runs N !! leader 4 v = Some run ->
  Broadcast (Proposal v leaf high (leader 4 v)) ∈ emitted run -> validated N (node_hash leaf).
Proof.
  unfold view_check. rewrite !andb_true_iff, !bool_decide_eq_true. intros [[_ Hr] Hl] Hrun Hb i ri Hi.
  rewrite Hrun in Hl. apply andb_true_iff in Hl as [_ Hl]. rewrite forallb_forall in Hl.
  apply list_elem_of_In, Hl in Hb. cbn [verdict_check] in Hb. apply bool_decide_eq_true in Hb.
  split; [by apply (Hb i)|]. intros out Ho _. destruct (run_check_sound v ri) as (_ & _ & Hv); [by apply (Hr i)|auto].
Qed.

(** ** Witnesses *)

Lemma toy_deliver_ok slow fuel N : toy_deliver slow fuel = Some N -> sys_reachable 4 toy_byz toy_wiring N /\ queue_ok N [].
Proof.
  intros Hf. destruct (deliver_sound _ _ _ _ _ toy_queue_ok Hf) as [Hr Hq]. split; [|done].
  exists toy_system. split; [apply toy_system_initial|done].
Qed.

Lemma system_refines_world_witness :
  exists N, toy_final = Some N /\ reachable 4 toy_byz toy_wiring (project N).
Proof.
  assert (option_map (fun _ => true) toy_final = Some true) as Hc by (vm_compute; reflexivity).
  destruct toy_final as [N|] eqn:Hf; [|discriminate Hc]. exists N. split; [reflexivity|]. apply (system_refines_world 4 toy_byz toy_wiring);
    [lia|exact toy_ids|exact (proj1 (toy_deliver_ok _ 200 N Hf))].
Defined.

(** The scheduler delivers nothing that was made up. *)
Lemma queue_authentic v N queue :
  sys_reachable 4 toy_byz toy_wiring N -> queue_ok N queue -> authentic 4 toy_byz toy_wiring N v.
Proof.
  intros Hr [_ _ Hh] i run m j Hi Hm _ _ Hj _.
  pose proof (sys_reachable_ok 4 toy_byz toy_wiring ltac:(lia) toy_ids N Hr) as Hok. clear Hr. rename Hok into Hr.
  destruct (Hh i run m _ Hi Hm) as (k & rk & Hk & Hs).
  destruct (sent_known 4 toy_byz toy_wiring toy_ids N k rk i m Hk (s_runs _ _ _ _ Hr k rk Hk) Hs) as (E & _).
  simplify_eq. eauto.
Qed.


(** *** The executed logs *)

Definition positionedb (l : list Node) : bool :=
  forallb (fun a => bool_decide (0 <= height a < u64_modulus) &&
    forallb (fun b => (negb (bool_decide (node_hash a = node_hash b)) || bool_decide (a = b)) &&
                      (negb (bool_decide (parent a = node_hash b)) || (height a =? height b + 1))) l) l.

Lemma positionedb_sound l : positionedb l = true -> positioned (fun nd => nd ∈ l).
Proof.
  unfold positionedb. rewrite forallb_forall. intros Hl.
  assert (forall a b, a ∈ l -> b ∈ l -> 0 <= height a < u64_modulus /\ (node_hash a = node_hash b -> a = b) /\
    (parent a = node_hash b -> height a = height b + 1)) as Hab.
  { intros a b Ha%list_elem_of_In Hb%list_elem_of_In.
    specialize (Hl a Ha). apply andb_true_iff in Hl as [Hh%bool_decide_eq_true Hl].
    rewrite forallb_forall in Hl. specialize (Hl b Hb). rewrite andb_true_iff, !orb_true_iff, !negb_true_iff in Hl.
    rewrite !bool_decide_eq_false, bool_decide_eq_true, Z.eqb_eq in Hl. naive_solver. }
  split; [intros a b Ha Hb; by apply Hab|intros a Ha; by apply (Hab a a)|intros a b Ha Hb; by apply Hab].
Qed.

Definition logs_check (N : System) : bool :=
  positionedb (proposed_nodes N) &&
  match runs N !! 0, runs N !! 2 with
  | Some r0, Some r2 => (length (executed (emitted r0)) =? 2)%nat && (length (executed (emitted r2)) =? 2)%nat
  | _, _ => false
  end.

Lemma executed_logs_agree_witness :
  exists N r0 r2, toy_final = Some N /\ runs N !! 0 = Some r0 /\ runs N !! 2 = Some r2 /\
    length (executed (emitted r0)) = 2%nat /\ length (executed (emitted r2)) = 2%nat /\
    (executed (emitted r0) `prefix_of` executed (emitted r2) \/
     executed (emitted r2) `prefix_of` executed (emitted r0)).
Proof.
  assert (option_map logs_check toy_final = Some true) as Hc by (vm_compute; reflexivity).
  destruct toy_final as [N|] eqn:Hf; [|discriminate Hc]. injection Hc as Hc.
  apply andb_true_iff in Hc as [Hp Hc].
  destruct (runs N !! 0) as [r0|] eqn:H0'; [|discriminate Hc].
  destruct (runs N !! 2) as [r2|] eqn:H2'; [|discriminate Hc].
  apply andb_true_iff in Hc as [Hl0%Nat.eqb_eq Hl2%Nat.eqb_eq].
  exists N, r0, r2. split; [reflexivity|]. split; [exact H0'|]. split; [exact H2'|].
  split; [exact Hl0|]. split; [exact Hl2|].
  apply (executed_logs_agree 4 toy_byz toy_wiring ltac:(lia) toy_ids N 0 2 r0 r2);
    [decide_now|exact (proj1 (toy_deliver_ok _ 200 N Hf))|exact (positionedb_sound _ Hp)|exact H0'|exact H2'].
Defined.

(** ** A leader that stays silent

    The DECIDE certificate of view 1 reaches replica 1, the leader of view 2,
    after the NEW-VIEW messages of the other correct replicas. *)

Definition decide_to_1 (x : Z * Event) : bool :=
  match x with (1, EvMsg (PhaseQc Decide 1 _ _) _) => true | _ => false end.

Abbreviation toy_late := (toy_deliver decide_to_1 200).

Definition stalled (N : System) : bool :=
  bool_decide (map_Forall (fun _ run => view (rs (run_sys run)) = 2) (runs N)) &&
  match runs N !! 1 with
  | Some run =>
      (quorum (rs (run_sys run)) <=? Z.of_nat (size (new_view_msgs (vd_at (rs (run_sys run)) 1)))) &&
      ready_check 2 run && negb (broadcast_proposal (vd_at (rs (run_sys run)) 2)) &&
      match node_step (toy_wiring 1) (EvTimer (mkTimerEvent 2)) (run_sys run) with
      | Ok s' => (view (rs s') =? 3) && negb (broadcast_proposal (vd_at (rs s') 2))
      | Panic _ => false
      end
  | None => false
  end.

(** C37: a leader that learns of the decision last stays silent: entering its view
    by [replica_decide] completes its quorum of NEW-VIEW messages, but
    [try_advance] does not evaluate [leader_prepare] again.  In this run no
    message is left to deliver, every correct replica waits in view 2, its
    correct leader (replica 1) holds the quorum, knows the node to extend and
    has a block to propose, and has not proposed; the next event, the timer
    of the view, abandons the view. *)
Theorem silent_leader_stalls :
  exists N run s', sys_reachable 4 toy_byz toy_wiring N /\ queue_ok N [] /\
    (forall i ri, runs N !! i = Some ri -> view (rs (run_sys ri)) = 2) /\
    runs N !! leader 4 2 = Some run /\
    quorum (rs (run_sys run)) <= Z.of_nat (size (new_view_msgs (vd_at (rs (run_sys run)) 1))) /\
    ready 4 toy_wiring N 2 /\ broadcast_proposal (vd_at (rs (run_sys run)) 2) = false /\
    node_step (toy_wiring 1) (EvTimer (mkTimerEvent 2)) (run_sys run) = Ok s' /\
    view (rs s') = 3 /\ broadcast_proposal (vd_at (rs s') 2) = false.
Proof.
  assert (option_map stalled toy_late = Some true) as Hc by (vm_compute; reflexivity).
  destruct toy_late as [N|] eqn:Hf; [|discriminate Hc]. injection Hc as Hc.
  destruct (toy_deliver_ok _ 200 N Hf) as [Hr Hq]. clear Hf. revert Hc. unfold stalled.
  rewrite andb_true_iff, bool_decide_eq_true. intros [Hv Hs].
  destruct (runs N !! 1) as [run|] eqn:H1'; [|done]. rewrite !andb_true_iff, !negb_true_iff in Hs.
  destruct Hs as [[[Hn Hrd] Hb] Hst]. destruct (node_step _ _ _) as [s'|] eqn:Es; [|done].
  apply andb_true_iff in Hst as [Hst1 Hst2%negb_true_iff].
  exists N, run, s'. split_and!; try done; [lia| |lia].
  intros run' Hrun'. assert (run' = run) as -> by (change (leader 4 2) with 1 in Hrun'; congruence).
  by apply ready_check_sound.
Qed.

(** ** A replica that times out *)

Definition pass_of (e : Event) (s : Sys) : Sys :=
  match node_step (toy_wiring 0) e s with Ok s' => s' | Panic _ => s end.

(** Replica 0 starts at time 10, hears nothing, and handles its timer late, at
    time 75. *)
Definition toy_started : Timed := after_pass (pass_of EvStart toy_sys) [] (timed_start toy_sys 10).
Definition toy_waited : Timed :=
  mkTimed (t_sys toy_started) 75 (pending toy_started) (entered_at toy_started).
Definition toy_timed_out : Timed :=
  after_pass (pass_of (EvTimer (mkTimerEvent 1)) (t_sys toy_waited)) [] toy_waited.

(** It is in view 2 with the doubled timeout of 100 ms, due at 175. *)
Lemma pacemaker_armed_witness :
  view (rs (t_sys toy_timed_out)) = 2 /\ timers_of 2 (pending toy_timed_out) = [(175, mkTimerEvent 2)].
Proof.
  split; [vm_compute; reflexivity|].
  apply (pacemaker_armed (toy_wiring 0) 4 50 toy_sys 10 toy_timed_out); [lia|reflexivity| |vm_compute; discriminate].
  eapply rtc_l; [|eapply rtc_l; [|apply rtc_once]].
  - eapply (timed_event (toy_wiring 0) _ trie_order EvStart (pass_of EvStart toy_sys));
      [discriminate|split; [vm_compute; reflexivity|reflexivity]|vm_compute; reflexivity].
  - exact (timed_wait (toy_wiring 0) toy_started 65 ltac:(lia)).
  - eapply (timed_fire (toy_wiring 0) _ trie_order [] 60 (mkTimerEvent 1) []);
      [vm_compute; reflexivity|vm_compute; discriminate|split; [vm_compute; reflexivity|vm_compute; discriminate]
      |vm_compute; reflexivity].
Defined.

(** ** A replica that prepares a node

    Replica 0 starts and receives a PREPARE certificate of view 1. *)

Definition toy_prepared : result Sys :=
  result_bind (node_step (toy_wiring 0) EvStart toy_sys)
    (node_step (toy_wiring 0) (EvMsg (PhaseQc PreCommit 1 (toy_qc Prepare 1 node0) 0) toy_keys)).

Definition prepared_check (r : result Sys) : bool :=
  match r with
  | Ok s => bool_decide (prepare_qc (rs s) = Some (toy_qc Prepare 1 node0)) && (view (rs s) =? 1)
  | Panic _ => false
  end.

