(* ===== verification/Gaps.v ===== *)
(** * Gaps: what the replica accepts without checking

    The theorems of Safety, Liveness and Execution have hypotheses on the
    messages a replica receives.  These are behaviours of the handlers that show the
    hypotheses are needed: inputs a faulty leader or peer can send. *)

From Stdlib Require Import ZArith Lia.
From stdpp Require Import prelude strings gmap.
From S2P Require Import Prelude Crypto Ledger Messages Replica Qc VoteLog Workload Zk Validator Wiring Execute Handlers Rules Consensus Invariant Steps Moves Safety Process Execution Progress Cluster.
Open Scope Z_scope.

Section gaps.
Context `{Sha256, Bincode, SigScheme, FileSystem, Serde}.
Context (w : Wiring) (keys : gmap Z verifying_key).

(** C38: the leader of a view records a vote in its own name without checking
    the signature: whoever sends it, any bytes are accepted as this replica's
    vote for any node, if the replica has not voted yet. *)
Theorem self_vote_unchecked t v nh sig s :
  leader_for (rs s) v = my_id w -> t = Prepare \/ t = PreCommit \/ t = Commit ->
  bucket t (vd_at (rs s) v) !! my_id w = None ->
  exists s', handle_msg w keys (Vote t v nh (my_id w) sig) s = Ok s' /\
    bucket t (vd_at (rs s') v) !! my_id w = Some (nh, sig).
Proof.
  intros Hl Ht Hb. simpl. unfold handle_vote, vote_accepted. rewrite Hl, !Z.eqb_refl. simpl.
  eexists. split; [done|].
  change (bucket t (vd_at (vd_mut v (record_vote t (my_id w) nh sig) (rs s)) v) !! my_id w = Some (nh, sig)).
  rewrite vd_at_mut_eq.
  destruct Ht as [->|[->| ->]]; simpl in *; unfold insert_vacant; rewrite Hb; by rewrite lookup_insert_eq.
Qed.

(** a proposal of the scheduled leader for a height that has no block in
    the workload stops the replica: the handler panics while it looks the
    block up, before any check of the height. *)
Theorem missing_block_panics v node s :
  parent node = GENESIS_HASH ->
  fs_read_to_string (path_join (path_join (workload_dir (w_workload w)) (block_dir_name (height node)))
    "commit.json") = None ->
  validation_result (rs s) !! node_hash node = None ->
  pending_validation (rs s) <> Some (node_hash node) ->
  handle_msg w keys (Proposal v node None (leader_for (rs s) v)) s = Panic ExpectReadCommit.
Proof.
  intros Hp Hf Hv Hpend. simpl. unfold handle_proposal. rewrite Z.eqb_refl. simpl.
  rewrite bool_decide_true by done. simpl. unfold maybe_kick_validation. cbn.
  rewrite Hv, decide_False by done. rewrite lookup_insert_eq.
  unfold workload_block, block_at. rewrite Hf. done.
Qed.

(** The slot of a view is filled by the first proposal that names the leader
    as its sender, whoever sent it: with any node on genesis, or on a node
    that has a certificate.  A later proposal, be it the leader's own, does not
    change the slot, and this replica votes for no other node in the view. *)
Lemma proposal_slot v node j s s' :
  justify_verifies j (quorum (rs s)) keys = true -> parent node = justify_parent j ->
  handle_msg w keys (Proposal v node j (leader_for (rs s) v)) s = Ok s' ->
  proposal (vd_at (rs s') v) =
    match proposal (vd_at (rs s) v) with Some x => Some x | None => Some (node, j) end.
Proof.
  intros Hj Hp. simpl. unfold handle_proposal. rewrite Z.eqb_refl, Hj, bool_decide_true by done. cbn [negb].
  intros Hk%(maybe_kick_core w _ 0). destruct Hk as [Hc _]. rewrite (vd_at_core _ _ v Hc). cbn [upd with_rs rs].
  rewrite vd_at_mut_eq. change (vd_at (set_tree _ (rs s)) v) with (vd_at (rs s) v).
  by destruct (proposal (vd_at (rs s) v)) as [[]|] eqn:E.
Qed.

Lemma spoofed_proposal_blocks_view v fake jf node j s s1 s2 :
  proposal (vd_at (rs s) v) = None ->
  justify_verifies jf (quorum (rs s)) keys = true -> parent fake = justify_parent jf ->
  handle_msg w keys (Proposal v fake jf (leader_for (rs s) v)) s = Ok s1 ->
  justify_verifies j (quorum (rs s1)) keys = true -> parent node = justify_parent j ->
  handle_msg w keys (Proposal v node j (leader_for (rs s1) v)) s1 = Ok s2 ->
  proposal (vd_at (rs s2) v) = Some (fake, jf).
Proof.
  intros Hn Hjf Hpf H1' Hj Hp H2'. rewrite (proposal_slot v node j s1 s2 Hj Hp H2').
  by rewrite (proposal_slot v fake jf s s1 Hjf Hpf H1'), Hn.
Qed.
End gaps.

#[local] Existing Instances toy_sha256 toy_bincode toy_sig toy_sp1 trie_order toy_fs toy_serde.

Lemma self_vote_unchecked_witness :
  exists s', handle_msg (toy_wiring 0) toy_keys (Vote Commit 1 [7] 0 [1; 2; 3]) toy_sys = Ok s' /\
    bucket Commit (vd_at (rs s') 1) !! 0 = Some ([7], [1; 2; 3]) /\
    verify_vote_sig (key_of toy_wiring 0) Commit 1 [7] [1; 2; 3] = false.
Proof.
  destruct (self_vote_unchecked (toy_wiring 0) toy_keys Commit 1 [7] [1; 2; 3] toy_sys) as (s' & E1 & E2).
  - reflexivity.
  - auto.
  - reflexivity.
  - exists s'. split; [exact E1|]. split; [exact E2|reflexivity].
Defined.

Lemma missing_block_panics_witness :
  handle_msg (toy_wiring 1) toy_keys (Proposal 1 (mkNode GENESIS_HASH [] 9) None 0) toy_sys =
  Panic ExpectReadCommit.
Proof.
  apply (missing_block_panics (toy_wiring 1) toy_keys 1 (mkNode GENESIS_HASH [] 9) toy_sys);
    [reflexivity|vm_compute; reflexivity|reflexivity|vm_compute; discriminate].
Defined.

(** ** A repeated height

    The leader of view 2 proposes block 0 again on top of block 0, and the
    leader of view 3 proposes block 1 on top of that.  Nothing relates the
    height of a proposal to the height of its parent. *)

Definition node0' : Node := mkNode (node_hash node0) (toy_cmd "block_0000") 0.
Definition node1' : Node := mkNode (node_hash node0') (toy_cmd "block_0001") 1.

Definition repeated_events : list Event :=
  [EvStart;
   EvMsg (Proposal 1 node0 None 0) toy_keys;
   EvMsg (Proposal 2 node0' (Some (toy_qc Prepare 1 node0)) 1) toy_keys;
   EvMsg (Proposal 3 node1' (Some (toy_qc Prepare 2 node0')) 2) toy_keys;
   EvMsg (PhaseQc Decide 3 (toy_qc Commit 3 node1') 2) toy_keys;
   EvTimer (mkTimerEvent 0)].

Definition repeated_height : Proc * list Node := drive reexec 4 repeated_events.

(** What is checked of the final state by evaluation. *)
Definition repeated_check (p : Proc) (txs0 txs1 : list Tx) : bool :=
  let r := rs (p_sys p) in
  let once := (apply_block (apply_block toy_state txs0).1 txs1).1 in
  let twice := (apply_block (apply_block (apply_block toy_state txs0).1 txs0).1 txs1).1 in
  bool_decide (proposal (vd_at r 2) = Some (node0', Some (toy_qc Prepare 1 node0))) &&
  bool_decide (validation_result r !! node_hash node0' = Some true) &&
  (last_executed_height r =? 1) && bool_decide (live_state (p_sys p) = twice) &&
  bool_decide (replay ["w"%string] toy_state 2 = Some once) && negb (bool_decide (twice = once)).

(** C36: the hypothesis on heights of [reexecuted_state_correct] is needed: a
    proposal that repeats the height of its parent is accepted, and makes a
    re-executing replica leave the workload.  In this run the leader of view
    2 proposes [node0'], a child of [node0] with the height of [node0] and a
    verified certificate for [node0]; the replica stores it in the slot of
    the view and validates it, and the decision of its child at height 1
    makes the replica apply block 0 twice: it reports the last executed
    height 1 with the state after blocks 0, 0, 1, where the workload replayed
    to height 1 has the state after blocks 0, 1. *)
Theorem repeated_height_diverges :
  exists txs0 txs1, toy_txs "block_0000" = Some txs0 /\ toy_txs "block_0001" = Some txs1 /\
  let q := toy_qc Prepare 1 node0 in
  let p := repeated_height.1 in
  let nds := repeated_height.2 in
  parent node0' = node_hash node0 /\ height node0' = height node0 /\
  EvMsg (Proposal 2 node0' (Some q) 1) toy_keys ∈ repeated_events /\
  qc_node q = parent node0' /\ verify_qc q 3 toy_keys = true /\
  proposed (node_tree nds) nds /\ proc_run (toy_wiring 0) reexec (fresh_proc 4 50 toy_state) nds p /\
  proposal (vd_at (rs (p_sys p)) 2) = Some (node0', Some q) /\
  validation_result (rs (p_sys p)) !! node_hash node0' = Some true /\
  last_executed_height (rs (p_sys p)) = 1 /\
  live_state (p_sys p) = (apply_block (apply_block (apply_block toy_state txs0).1 txs0).1 txs1).1 /\
  replay ["w"%string] toy_state 2 = Some (apply_block (apply_block toy_state txs0).1 txs1).1 /\
  live_state (p_sys p) <> (apply_block (apply_block toy_state txs0).1 txs1).1.
Proof.
  eexists _, _. split; [reflexivity|]. split; [reflexivity|].
  assert (verify_qc (toy_qc Prepare 1 node0) 3 toy_keys = true) as Hq by (vm_compute; reflexivity).
  assert (proposed (node_tree repeated_height.2) repeated_height.2) as Hp
    by (apply proposed_dec_sound; vm_compute; reflexivity).
  assert (proc_run (toy_wiring 0) reexec (fresh_proc 4 50 toy_state) repeated_height.2 repeated_height.1) as Hr
    by (apply drive_run; by repeat constructor).
  match goal with |- context [replay _ _ _ = Some (apply_block (apply_block _ ?t0).1 ?t1).1] =>
    assert (repeated_check repeated_height.1 t0 t1 = true) as Hc by (vm_compute; reflexivity) end.
  revert Hp Hr Hc. generalize repeated_height. intros [p nds] Hp Hr Hc. cbn [fst snd] in *.
  unfold repeated_check in Hc. rewrite !andb_true_iff, !bool_decide_eq_true, negb_true_iff, bool_decide_eq_false, Z.eqb_eq in Hc.
  destruct Hc as [[[[[? ?] ?] Hl] ?] Hne].
  do 2 (split; [reflexivity|]). split; [unfold repeated_events; do 2 right; left|]. split; [reflexivity|].
  do 8 (split; [assumption|]). by rewrite Hl.
Qed.
